(* ===== verification/_CoqProject ===== *)
-Q . S2P
Prelude.v
Buffers.v
Bits.v
Errors.v
Bencode.v
BencodeText.v
Core.v
CoreFacts.v
Floats.v
RequestManager.v
RequestManagerFacts.v
Metainfo.v
MetainfoFacts.v
MetainfoWire.v
Disk.v
DiskFacts.v
DiskTheorems.v
DiskLife.v
DiskRequests.v
Counter.v
Torrent.v
TorrentChoke.v
TorrentFacts.v
TorrentTheorems.v
TorrentMetadata.v
Utp.v
UtpFacts.v
Handshake.v
HandshakeFacts.v
DaemonWire.v
DaemonWireFacts.v
Tracker.v
TrackerFacts.v
TrackerMessages.v
MetadataMsg.v
Peer.v
PeerFacts.v
PeerTasks.v
System.v
SystemFacts.v
SystemAnswers.v
SystemTheorems.v
Magnet.v
Daemon.v
DaemonFacts.v
Config.v
ConfigFacts.v
VimInput.v
VimInputFacts.v
Ui.v
UiFacts.v
UiInputFacts.v
UiChartFacts.v
TorrentStart.v
Cli.v
Log.v
Holepunch.v
Text.v
Render.v
RenderFacts.v
ErrorText.v
Startup.v
Main.v
