(* ===== verification/Prelude.v ===== *)
(** * vincenzo, a BitTorrent client: its model and what holds of it

    ** The program
    The daemon ([daemon.rs]) owns the torrents; frontends talk to it over TCP
    ([daemon_wire.rs]).  A torrent ([torrent/]) starts from a metainfo file
    ([metainfo.rs]) or a magnet link ([magnet.rs]), announces itself to UDP
    trackers ([tracker/]), and runs peers ([peer/]).  A peer does a handshake
    ([extensions/core/handshake_codec.rs], [extensions/extended/]), speaks the
    peer wire protocol ([extensions/core/]) with the metadata extension
    ([extensions/metadata/]), and keeps its requests in two request managers
    ([peer/request_manager.rs]).  The disk ([disk.rs]) lays out files, hands
    blocks to download to the peers, writes what they send and validates pieces.
    [utp] is a transport of its own.  The tasks run concurrently and exchange
    messages; here every task is a state with a function from a message to its
    effects, the other tasks are arguments (what they answer) and effects (what
    they are told), and the runs of a task are the states reachable by its step
    relation.

    ** How code is modelled
    - A fallible function returns an [outcome]: [Ok], [Err], or [Panic], which
      no caller catches.  Code that changes state is an [action], from a state to
      an outcome and a state.  [keeps R m] says that an action stays within a
      preorder [R]; the tactic [keep] and the hint database [keeps] prove it for
      a whole handler from its parts.
    - Integers are [N] with their width written out.  [Build] is the profile:
      arithmetic that overflows panics in [dev] and wraps in [release].
      Definitions take the profile as an instance, so theorems hold for both.
    - Bytes are [list N]; a map is a [gmap], an ordered map or one whose order
      matters a list of pairs; a shared context ([Arc]) is a record found
      through a reference.
    - Code that is not in the repository is an interface, a class whose laws
      state documented behaviour, with an instance that computes: [BytesApi]
      (bytes), [BitVecApi] (bit_vec), [BendyApi] (bendy; [text_bendy] is the
      format itself), [Sha1Api] (sha1), [RkyvApi] and the layout of the tracker's
      messages (rkyv), [MagnetApi] and [MagnetFields] (magnet_url, hex,
      urlencoding).  Clocks and random numbers are arguments.

    ** The files, by the code they model
    - Shared: this file; [Buffers] (byte buffers), [Errors] ([error.rs]),
      [Floats] (f32, f64 and durations), [Bits] ([bitfield.rs]), [Bencode] and
      [BencodeText].
    - Wire protocol: [Core], [CoreFacts] ([extensions/core/]): what is written is
      read back, one message or a stream.
    - Handshakes: [Handshake], [HandshakeFacts]: the round trip, and the extended
      handshake that is lost when it arrives in two parts.
    - Request manager: [RequestManager], [RequestManagerFacts]: its inverse index
      is safe, its books are exact, no request is lost when requests are drained
      or fulfilled, and what [unfulfill] breaks.
    - Torrent description: [Metainfo], [MetainfoFacts], [MetainfoWire]: blocks
      tile pieces and pieces the torrent; the bencode round trip.
    - Disk: [Disk], [DiskFacts], [DiskTheorems], [DiskLife], [DiskRequests]: the
      files refine one string of bytes, on which blocks are written and read;
      pieces counted as valid have the right hash; startup finds exactly those;
      no block is handed out twice.
    - Torrent: [Counter], [Torrent], [TorrentFacts], [TorrentTheorems],
      [TorrentChoke], [TorrentMetadata]: what is asked from whom, who is
      unchoked, when the torrent seeds, and metadata on its way from a torrent
      that serves it to one that lacks it.  [TorrentStart] is the start of a
      torrent, with the responses of its trackers in any order.
    - Peer: [MetadataMsg], [Peer], [PeerFacts]: the event loop of a peer: what the
      remote peer was told, blocks written once, a metadata piece exchanged by two
      peers and a torrent.  [PeerTasks]: the tasks peers run in ([torrent/mod.rs],
      [daemon.rs]), which give the disk back the blocks a peer leaves, and the
      run in which blocks are lost.
    - The three together: [System] is the torrent, the disk and the peers with
      the messages between them, as a step relation; each step is one message
      handled by the definitions above, in any order, or a peer that comes, asks,
      gives up waiting or fails.  [SystemFacts] shows what each of them does to
      the blocks on their way, [SystemAnswers] that a request is answered to the
      peer that waits for it, and [SystemTheorems] that no block is lost while no
      peer gives up waiting and no socket fails as its peer requests.  A torrent
      that quits or is deleted is not part of it.
    - Tracker: [Tracker], [TrackerFacts]: exchanges end; connecting and
      announcing.  [TrackerMessages]: the other side of the messages, the archived
      enums, and how the socket is opened.
    - uTP: [Utp], [UtpFacts]: packets, congestion control, streams; how two of
      them connect although the listener leaves the SYN unanswered.
    - Daemon: [DaemonWire], [DaemonWireFacts], [Magnet], [Daemon], [DaemonFacts]:
      its protocol, the torrents it keeps, and how it quits.  [Startup]: how the
      disk and the daemon start, the loop of the disk, signals; one torrent file
      that cannot be verified ends the disk.
    - Command line: [Cli] ([vcz-daemon/src/main.rs]): which process is the daemon,
      and the messages the flags of another become, down to what the daemon reads.
    - Binaries: [Main] ([vcz/src/main.rs], [vcz-ui/src/main.rs]): what they start
      with and how they end.
    - Configuration: [Config], [ConfigFacts] ([config.rs], [dirs.rs]).
    - Text input: [VimInput], [VimInputFacts] ([widgets/vim_input.rs]): keys are
      edits of a text with a cursor, however its lines are broken; no key panics.
    - Frontend: [Ui] ([vcz-ui/src]): the loop of [app.rs], its pages, menu, popup
      and charts, and the actions the terminal becomes.  [UiFacts]: turns end, it
      quits, drawing is safe unless torrents disappear during a search, the
      torrent deleted is the one named.  [UiInputFacts]: a link that is typed
      reaches the torrents of the daemon; the first page takes none.
      [UiChartFacts]: charts follow their torrents until one is deleted.
    - Rendering: [Render] ([palette.rs], [components/footer.rs], the drawing of
      pages and widgets): texts as lines of styled spans.  [RenderFacts]: the rows
      of torrents with their dashes, the lines of the input and its one cursor.
    - [Log] ([deduped_layer.rs]), [Text] (sizes, statuses and hashes as texts),
      [ErrorText] ([error.rs], the texts of errors), [Holepunch] ([extensions/holepunch/], not in use).

    Definitions carry the names of the code where Rocq allows it; a prefix or the
    type's name is added where one name is used twice ([Metadata_request],
    [handle_daemon]).

    ** Bounds and fuel
    Recursion that is not structural has fuel.  The bencode reader takes as many
    levels as the depth limit of the crate, and [parse_raw] shows that it reads
    all that is printed within it.  [digits], [pack_bytes], [chunks20] and
    [ancestors] start with the length (or the bits) of what they consume, and
    their lemmas are stated without fuel.  The retransmissions of the tracker are
    seven in the code.  A framed reader ([read_messages]) takes its fuel as an
    argument, and [daemon_reader_stops] shows how much is enough and when none is.
    The loop of the daemon ([daemon_run]) takes one turn for each element of the
    arrivals it is given.  Breaking the lines of the text input ([break_lines])
    takes one turn for each line and each character at most, and never ends when
    a character is wider than the area.  A turn of the frontend ([app_turn]) takes
    four times the actions that wait as its fuel, and [ui_turns_end] shows that
    it is never used up; what arrives during a turn is taken by the next, and
    where it is taken by the same turn ([drains]), four actions are taken at most
    for each that arrives.

    ** Not modelled
    How ratatui lays out what is drawn in cells, its widgets, which are
    arguments, what the system answers when sockets are bound and hosts resolved,
    the parser of flags (argh), the torrents of the feature [ui-test], and the
    integration tests with their fixtures.  The decoder
    of the hole punching extension ends in [todo!()] and is modelled as the panic
    it is.  Spawned tasks are effects at the point where they are spawned; time
    intervals are events.  A message to a task that has ended is lost, as it is in
    the code, where the error is dropped.  A task that sends to a bounded mailbox
    of another does not wait for room there (the daemon does when it sends to its
    own): what is shown to end does so while the others read their mailboxes. *)

(** Shared vocabulary of the development: outcomes of fallible Rust code,
    machine-integer arithmetic under both build profiles, big-endian byte
    strings, and the list lemmas and automation the components share. *)
From Stdlib Require Export NArith Lia.
From Stdlib Require Import ZifyN ZifyNat ZifyBool.
From stdpp Require Export base numbers gmap option.
From stdpp Require Export list.

Declare Scope vcz_scope.
Delimit Scope vcz_scope with vcz.
#[global] Open Scope vcz_scope.

(** ** Automation *)

Create HintDb vcz discriminated.
Create HintDb keeps.
Create Rewrite HintDb vcz_arith.
Create Rewrite HintDb vcz_len.

(** [dlia]: [lia] with division and modulo by constants. *)
Ltac dlia := zify; Z.to_euclidean_division_equations; lia.

(** [tidy]: normalise hypotheses about options, pairs and records. *)
Ltac tidy := repeat (simplify_eq/= || (match goal with
  | H : _ ∧ _ |- _ => destruct H
  | H : exists _, _ |- _ => destruct H
  end)).

(** [lens]: rewrite the length of the list operations the models use. *)
Ltac lens :=
  repeat (rewrite ?length_app, ?length_take, ?length_drop, ?length_reverse,
    ?length_insert, ?length_replicate, ?length_fmap in *; simpl in *).

(** ** Outcomes
    A Rust function that returns [Result<A, E>] can also panic: the three ways
    a call ends are kept apart.  A panic unwinds (dev profile) or aborts the
    process (release profile, [panic = "immediate-abort"]). *)

Inductive outcome (E A : Type) : Type :=
  | Ok (a : A)
  | Err (e : E)
  | Panic.
Arguments Ok {E A} a.
Arguments Err {E A} e.
Arguments Panic {E A}.

#[global] Instance outcome_ret {E} : MRet (outcome E) := fun A => Ok.
#[global] Instance outcome_bind {E} : MBind (outcome E) := fun A B f m =>
  match m with Ok a => f a | Err e => Err e | Panic => Panic end.
#[global] Instance outcome_fmap {E} : FMap (outcome E) := fun A B f m =>
  match m with Ok a => Ok (f a) | Err e => Err e | Panic => Panic end.
#[global] Instance outcome_eq_dec {E A} `{EqDecision E, EqDecision A} :
  EqDecision (outcome E A).
Proof.
  intros [a|e|] [b|f|]; try (by right).
  - destruct (decide (a = b)) as [->|]; [by left|right; congruence].
  - destruct (decide (e = f)) as [->|]; [by left|right; congruence].
  - by left.
Defined.

(** A third-party operation that panics is an option in its interface. *)
Definition or_panic {E A} (o : option A) : outcome E A :=
  match o with Some a => Ok a | None => Panic end.

(** [.ok_or(e)?] *)
Definition ok_or {E A} (e : E) (o : option A) : outcome E A :=
  match o with Some a => Ok a | None => Err e end.

Lemma bind_ok {E A B} (m : outcome E A) (f : A → outcome E B) b :
  (m ≫= f) = Ok b ↔ ∃ a, m = Ok a ∧ f a = Ok b.
Proof. destruct m; simpl; split; [by eauto|intros (? & [= <-] & ?); done|done|by intros (? & ? & ?)|done|by intros (? & ? & ?)]. Qed.

Lemma bind_or_panic_Some {E A B} (o : option A) (f : A → outcome E B) a :
  o = Some a → (or_panic o ≫= f) = f a.
Proof. by intros ->. Qed.

(** ** Actions
    A method with [&mut self] that returns [Result<A, E>]: the state it leaves
    is kept on every outcome, because the caller goes on with it. *)

Definition action (S E A : Type) : Type := S → outcome E A * S.
#[global] Instance action_ret {S E} : MRet (action S E) := fun A a s => (Ok a, s).
#[global] Instance action_bind {S E} : MBind (action S E) := fun A B f m s =>
  match m s with
  | (Ok a, s') => f a s'
  | (Err e, s') => (Err e, s')
  | (Panic, s') => (Panic, s')
  end.
Definition lift {S E A} (m : outcome E A) : action S E A := fun s => (m, s).
Definition getS {S E} : action S E S := fun s => (Ok s, s).
Definition modifyS {S E} (f : S → S) : action S E unit := fun s => (Ok tt, f s).
(** [let _ = m], [m.unwrap_or_default()]: an error is dropped, a panic is not *)
Definition catch {S E A} (d : A) (m : action S E A) : action S E A := fun s =>
  match m s with (Err _, s') => (Ok d, s') | r => r end.
(** [if let Ok(x) = m { f(x) } else { g }] *)
Definition if_ok {S E A B} (m : action S E A) (f : A → action S E B) (g : action S E B)
    : action S E B := fun s =>
  match m s with
  | (Ok x, s) => f x s
  | (Err _, s) => g s
  | (Panic, s) => (Panic, s)
  end.
(** [for x in l { m x }] *)
Fixpoint forM {S E A} (f : A → action S E unit) (l : list A) : action S E unit :=
  match l with
  | [] => mret tt
  | x :: l => f x ≫= fun _ => forM f l
  end.

Lemma bind_action {S E A B} (m : action S E A) (f : A → action S E B) s :
  (m ≫= f) s = match m s with
               | (Ok a, s') => f a s'
               | (Err e, s') => (Err e, s')
               | (Panic, s') => (Panic, s')
               end.
Proof. done. Qed.
Lemma bind_lift {S E A B} (m : outcome E A) (f : A → action S E B) s a :
  m = Ok a → (lift m ≫= f) s = f a s.
Proof. by intros ->. Qed.

Lemma bind_getS {S E A} (f : S → action S E A) s : (getS ≫= f) s = f s s.
Proof. done. Qed.
Lemma bind_modifyS {S E A} (g : S → S) (f : unit → action S E A) s : (modifyS g ≫= f) s = f tt (g s).
Proof. done. Qed.
Lemma bind_bind {S E A B C} (m : action S E A) (f : A → action S E B) (g : B → action S E C) s :
  ((m ≫= f) ≫= g) s = (m ≫= fun x => f x ≫= g) s.
Proof. rewrite !bind_action. by destruct (m s) as [[]?]. Qed.

(** What an action that does not panic does to the state, as a preorder. *)
Section keeps.
Context {S E : Type} (R : relation S) `{!PreOrder R}.
Definition keeps {A} (m : action S E A) : Prop := ∀ s r s', m s = (r, s') → r ≠ Panic → R s s'.

Lemma keeps_ret {A} (a : A) : keeps (mret a).
Proof. by intros s r s' [= <- <-]. Qed.
Lemma keeps_lift {A} (o : outcome E A) : keeps (lift o).
Proof. by intros s r s' [= <- <-]. Qed.
Lemma keeps_getS : keeps getS.
Proof. by intros s r s' [= <- <-]. Qed.
Lemma keeps_modifyS f : (∀ s, R s (f s)) → keeps (modifyS f).
Proof. by intros Hf s r s' [= <- <-]. Qed.
Lemma keeps_bind {A B} (m : action S E A) (f : A → action S E B) :
  keeps m → (∀ a, keeps (f a)) → keeps (m ≫= f).
Proof.
  intros Hm Hf s r s' Hb Hr. rewrite bind_action in Hb.
  destruct (m s) as [[a|e|] s1] eqn:Hms.
  - etrans; [by eapply Hm|by eapply Hf].
  - injection Hb as <- <-. by eapply Hm.
  - by injection Hb as <- <-.
Qed.
Lemma keeps_catch {A} (d : A) m : keeps m → keeps (catch d m).
Proof.
  unfold catch. intros Hm s r s' Hb Hr. destruct (m s) as [[a|e|] s1] eqn:Hms;
    injection Hb as <- <-; by eapply Hm.
Qed.
Lemma keeps_if_ok {A B} (m : action S E A) (f : A → action S E B) g :
  keeps m → (∀ a, keeps (f a)) → keeps g → keeps (if_ok m f g).
Proof.
  unfold if_ok. intros Hm Hf Hg s r s' Hb Hr. destruct (m s) as [[a|e|] s1] eqn:Hms.
  - etrans; [by eapply Hm|by eapply Hf].
  - etrans; [by eapply Hm|by eapply Hg].
  - by injection Hb as <- <-.
Qed.
Lemma keeps_forM {A} (f : A → action S E unit) l : (∀ a, keeps (f a)) → keeps (forM f l).
Proof. intros Hf. induction l; simpl; [apply keeps_ret|by apply keeps_bind]. Qed.
End keeps.

Lemma keeps_impl {S E A} (R R' : relation S) (m : action S E A) :
  (∀ s s', R s s' → R' s s') → keeps R m → keeps R' m.
Proof. intros Hi Hm s r s' Hs Hr. by eapply Hi, Hm. Qed.

(** [keep tac]: goes through the body of an action; [tac] shows what one update
    does. *)
Ltac keep tac := repeat (intros; lazymatch goal with
  | |- keeps _ (_ ≫= _) => apply keeps_bind
  | |- PreOrder _ => apply _
  | |- keeps _ (let _ := _ in _) => cbv zeta
  | |- keeps _ (mret _) => apply keeps_ret
  | |- keeps _ (lift _) => apply keeps_lift
  | |- keeps _ getS => apply keeps_getS
  | |- keeps _ (catch _ _) => apply keeps_catch
  | |- keeps _ (if_ok _ _ _) => apply keeps_if_ok
  | |- keeps _ (forM _ _) => apply keeps_forM
  | |- keeps _ (modifyS _) => apply keeps_modifyS; intros; tac
  | |- keeps _ (match ?x with _ => _ end) => destruct x
  | |- keeps _ _ => solve [eauto 3 with keeps]
  end).

(** [.map(f).collect::<Result<Vec<_>, _>>()], and loops that push fallible items *)
Fixpoint mapM_outcome {E A B} (f : A → outcome E B) (l : list A) : outcome E (list B) :=
  match l with
  | [] => Ok []
  | x :: l => y ← f x; ys ← mapM_outcome f l; Ok (y :: ys)
  end.

Lemma mapM_outcome_ok {E A B} (f : A → outcome E B) (g : A → B) l :
  (∀ x, x ∈ l → f x = Ok (g x)) → mapM_outcome f l = Ok (g <$> l).
Proof.
  induction l as [|x l IH]; intros Hf; [done|].
  change (mapM_outcome f (x :: l)) with
    (y ← f x; ys ← mapM_outcome f l; Ok (y :: ys)).
  rewrite Hf by left. cbn [mbind outcome_bind].
  rewrite IH by (intros y Hy; apply Hf; by right). done.
Qed.

(** ** Machine integers
    Unsigned integers are values of [N] below [2^w].  [+], [-] and [*] overflow
    by panicking when the build has overflow checks (the dev profile) and by
    wrapping when it has not (the release profile of the workspace's
    Cargo.toml): every definition that uses them is parametric in the
    profile. *)

Class Build := { overflow_checks : bool }.
Definition dev : Build := {| overflow_checks := true |}.
Definition release : Build := {| overflow_checks := false |}.

Definition u8_max : N := 255.
Definition u16_max : N := 65535.
Definition u32_max : N := 4294967295.
Definition u64_max : N := 18446744073709551615.
(** The workspace targets 64-bit platforms. *)
Definition usize_max : N := u64_max.

(** The result of an arithmetic operation whose exact value is [z], at the
    width whose largest value is [m]. *)
Definition arith {E} `{Build} (m : N) (z : Z) : outcome E N :=
  if decide (0 <= z <= Z.of_N m)%Z then Ok (Z.to_N z)
  else if overflow_checks then Panic
  else Ok (Z.to_N (z mod (Z.of_N m + 1))).

Definition uadd {E} `{Build} (a b : N) : outcome E N :=
  arith usize_max (Z.of_N a + Z.of_N b).
Definition usub {E} `{Build} (a b : N) : outcome E N :=
  arith usize_max (Z.of_N a - Z.of_N b).
Definition umul {E} `{Build} (a b : N) : outcome E N :=
  arith usize_max (Z.of_N a * Z.of_N b).

(** [%] and [div_ceil] panic on a zero divisor in every profile. *)
Definition urem {E} (a b : N) : outcome E N :=
  if decide (b = 0%N) then Panic else Ok (a mod b)%N.
Definition udiv {E} (a b : N) : outcome E N :=
  if decide (b = 0%N) then Panic else Ok (a / b)%N.
Definition div_ceil (a b : N) : N := ((a + (b - 1)) / b)%N.
Definition udiv_ceil {E} (a b : N) : outcome E N :=
  if decide (b = 0%N) then Panic else Ok (div_ceil a b).

(** [x as u32], [x as u16], [x as u8]: truncation. *)
Definition as_u32 (n : N) : N := (n mod 4294967296)%N.
Definition as_u16 (n : N) : N := (n mod 65536)%N.
Definition as_u8 (n : N) : N := (n mod 256)%N.

Lemma arith_ok {E} `{Build} m z :
  (0 <= z <= Z.of_N m)%Z → @arith E _ m z = Ok (Z.to_N z).
Proof. intros. unfold arith. by rewrite decide_True. Qed.

Lemma arith_no_err {E} `{Build} m z e : @arith E _ m z ≠ Err e.
Proof. unfold arith. by repeat case_match. Qed.

Lemma uadd_ok {E} `{Build} a b :
  (a + b <= usize_max)%N → @uadd E _ a b = Ok (a + b)%N.
Proof. intros. unfold uadd. rewrite arith_ok by lia. f_equal. lia. Qed.

Lemma usub_ok {E} `{Build} a b :
  (b <= a)%N → (a <= usize_max)%N → @usub E _ a b = Ok (a - b)%N.
Proof. intros. unfold usub. rewrite arith_ok by lia. f_equal. lia. Qed.

Lemma umul_ok {E} `{Build} a b :
  (a * b <= usize_max)%N → @umul E _ a b = Ok (a * b)%N.
Proof. intros. unfold umul. rewrite arith_ok by lia. f_equal. lia. Qed.

Lemma usub_underflow {E} `{Build} a b :
  (a < b)%N → (b <= usize_max)%N →
  @usub E _ a b = Panic ∨ @usub E _ a b = Ok (usize_max + 1 + a - b)%N.
Proof.
  intros Hab Hb. unfold usub, arith.
  rewrite decide_False by lia.
  destruct overflow_checks; [by left|right]. f_equal.
  rewrite <- (Z.mod_unique_pos _ (Z.of_N usize_max + 1) (-1)
    (Z.of_N usize_max + 1 + Z.of_N a - Z.of_N b)); lia.
Qed.

Lemma div_ceil_spec a b :
  (0 < b)%N → (a <= b * div_ceil a b)%N ∧ (b * div_ceil a b < a + b)%N.
Proof. intros Hb. unfold div_ceil. nia. Qed.

Lemma div_ceil_pos a b : (0 < b)%N → (0 < a)%N → (0 < div_ceil a b)%N.
Proof. intros Hb Ha. pose proof (div_ceil_spec a b Hb). nia. Qed.

#[export] Hint Rewrite @uadd_ok @usub_ok @umul_ok using (unfold usize_max, u64_max in *; lia) : vcz_arith.

(** ** Lists indexed and measured by [N] *)

Definition len {A} (l : list A) : N := N.of_nat (length l).

(** [l[i]]: indexing panics out of range. *)
Definition index {E A} (l : list A) (i : N) : outcome E A :=
  or_panic (l !! N.to_nat i).

(** [&l[a..b]]: slicing panics unless [a <= b <= l.len()]. *)
Definition slice {E A} (l : list A) (a b : N) : outcome E (list A) :=
  if decide (a <= b ∧ b <= len l)%N
  then Ok (take (N.to_nat (b - a)) (drop (N.to_nat a) l))
  else Panic.

(** The [n] bytes (or fewer) of [l] from offset [a] on. *)
Definition window {A} (a n : N) (l : list A) : list A :=
  take (N.to_nat n) (drop (N.to_nat a) l).

(** [range n] is the values of the Rust range [0..n]. *)
Definition range (n : N) : list N := N.of_nat <$> seq 0 (N.to_nat n).

Lemma len_nil {A} : len (@nil A) = 0%N.
Proof. done. Qed.
Lemma len_cons {A} (x : A) l : len (x :: l) = (1 + len l)%N.
Proof. unfold len. simpl. lia. Qed.
Lemma len_app {A} (l k : list A) : len (l ++ k) = (len l + len k)%N.
Proof. unfold len. rewrite length_app. lia. Qed.
Lemma len_window {A} a n (l : list A) :
  (a + n <= len l)%N → len (window a n l) = n.
Proof. unfold window, len. rewrite length_take, length_drop. lia. Qed.
Lemma len_range n : len (range n) = n.
Proof. unfold len, range. rewrite length_fmap, length_seq. lia. Qed.
Lemma len_nat {A} (l : list A) : N.to_nat (len l) = length l.
Proof. unfold len. lia. Qed.
#[export] Hint Rewrite @len_nil @len_cons @len_app len_range : vcz_len.

Lemma slice_ok {E A} (l : list A) a b :
  (a <= b)%N → (b <= len l)%N → @slice E A l a b = Ok (window a (b - a) l).
Proof. intros. unfold slice. by rewrite decide_True. Qed.

Lemma slice_out {E A} (l : list A) a b :
  (len l < b)%N → @slice E A l a b = Panic.
Proof. intros. unfold slice. rewrite decide_False by lia. done. Qed.

Lemma elem_of_range i n : i ∈ range n ↔ (i < n)%N.
Proof.
  unfold range. rewrite list_elem_of_fmap. split.
  - intros (k & -> & Hk%elem_of_seq). lia.
  - intros Hi. exists (N.to_nat i). rewrite elem_of_seq. lia.
Qed.

Lemma lookup_range i n :
  (i < n)%N → range n !! N.to_nat i = Some i.
Proof.
  intros Hi. unfold range. rewrite list_lookup_fmap, lookup_seq_lt by lia.
  simpl. f_equal. lia.
Qed.

Lemma range_succ n : range (n + 1) = range n ++ [n].
Proof.
  unfold range. replace (N.to_nat (n + 1)) with (S (N.to_nat n)) by lia.
  rewrite seq_S, fmap_app. simpl. by rewrite N2Nat.id.
Qed.

(** Induction on the bound of a range. *)
Lemma N_range_ind (P : N → Prop) :
  P 0%N → (∀ n, P n → P (n + 1)%N) → ∀ n, P n.
Proof. intros H0 HS n. induction n using N.peano_ind; [done|]. rewrite <- N.add_1_r. auto. Qed.

Lemma NoDup_range n : NoDup (range n).
Proof. unfold range. apply NoDup_fmap; [|apply NoDup_seq]. intros ??. lia. Qed.

Lemma window_app_l {A} a n (l k : list A) :
  (a + n <= len l)%N → window a n (l ++ k) = window a n l.
Proof.
  intros. unfold window, len in *. rewrite drop_app_le by lia.
  rewrite take_app_le; [done|]. rewrite length_drop. lia.
Qed.

Lemma window_app_r {A} a n (l k : list A) :
  (len l <= a)%N → window a n (l ++ k) = window (a - len l) n k.
Proof.
  intros. unfold window, len in *. rewrite drop_app_ge by lia.
  do 2 f_equal. lia.
Qed.

(** A window cut in two. *)
Lemma window_split {A} a n m (l : list A) :
  window a (n + m) l = window a n l ++ window (a + n) m l.
Proof.
  unfold window.
  replace (N.to_nat (n + m)) with (N.to_nat n + N.to_nat m) by lia.
  rewrite <- (take_take_drop (drop (N.to_nat a) l)), drop_drop.
  do 3 f_equal. lia.
Qed.

(** A window over an append. *)
Lemma window_app {A} a n (l k : list A) :
  window a n (l ++ k) = window a n l ++ window (a - len l) (n - (len l - a)) k.
Proof.
  unfold window, len. rewrite drop_app, take_app, length_drop. do 2 f_equal; [lia|].
  f_equal. lia.
Qed.

(** Only the bytes that exist count. *)
Lemma window_clip {A} a n m (l : list A) :
  N.min n (len l - a) = N.min m (len l - a) → window a n l = window a m l.
Proof.
  unfold window, len. intros Hnm.
  rewrite <- (firstn_all (drop (N.to_nat a) l)), !take_take, length_drop. f_equal. lia.
Qed.

Lemma window_nil {A} a n (l : list A) : (n = 0 ∨ len l <= a)%N → window a n l = [].
Proof.
  unfold window, len. intros [->|Hl]; [done|]. rewrite drop_ge by lia. by rewrite take_nil.
Qed.

Lemma len_window_min {A} a n (l : list A) : len (window a n l) = N.min n (len l - a).
Proof. unfold window, len. rewrite length_take, length_drop. lia. Qed.

Lemma window_all {A} n (l : list A) : (len l <= n)%N → window 0 n l = l.
Proof. unfold window, len. intros. rewrite drop_0. apply take_ge. lia. Qed.

Lemma window_window {A} a n b m (l : list A) :
  window b m (window a n l) = window (a + b) (N.min m (n - b)) l.
Proof.
  unfold window. rewrite skipn_firstn_comm, take_take, drop_drop.
  f_equal; [lia|]. f_equal. lia.
Qed.

Lemma filter_all {A} (P : A → Prop) `{∀ x, Decision (P x)} (l : list A) :
  (∀ x, x ∈ l → P x) → filter P l = l.
Proof.
  induction l as [|x l IH]; intros Hl; [done|].
  rewrite filter_cons_True by (apply Hl; left). f_equal. apply IH.
  intros y Hy. apply Hl. by right.
Qed.

(** ** UTF-8
    What [String::from_utf8] accepts: no overlong form, no surrogate, nothing
    above U+10FFFF. *)

Definition within (lo hi b : N) : bool := (lo <=? b)%N && (b <=? hi)%N.
Fixpoint utf8_valid (l : list N) : bool :=
  match l with
  | [] => true
  | b :: l =>
      if (b <? 128)%N then utf8_valid l
      else if within 194 223 b then
        match l with
        | c1 :: l => within 128 191 c1 && utf8_valid l
        | _ => false
        end
      else if within 224 239 b then
        match l with
        | c1 :: c2 :: l =>
            within (if (b =? 224)%N then 160 else 128) (if (b =? 237)%N then 159 else 191) c1 &&
            within 128 191 c2 && utf8_valid l
        | _ => false
        end
      else if within 240 244 b then
        match l with
        | c1 :: c2 :: c3 :: l =>
            within (if (b =? 240)%N then 144 else 128) (if (b =? 244)%N then 143 else 191) c1 &&
            within 128 191 c2 && within 128 191 c3 && utf8_valid l
        | _ => false
        end
      else false
  end.

Lemma utf8_ascii l : Forall (fun b => (b < 128)%N) l → utf8_valid l = true.
Proof.
  induction 1 as [|b l Hb _ IH]; [done|]. cbn [utf8_valid].
  destruct (N.ltb_spec b 128); [done|lia].
Qed.

(** ** Big-endian integers *)

Fixpoint be_bytes (n : nat) (v : N) : list N :=
  match n with
  | O => []
  | S n => ((v / 256 ^ N.of_nat n) mod 256)%N :: be_bytes n v
  end.

Definition be_val (l : list N) : N := foldl (fun acc b => acc * 256 + b)%N 0%N l.

Definition byte_ok (b : N) : Prop := (b < 256)%N.
#[global] Instance byte_ok_dec b : Decision (byte_ok b).
Proof. unfold byte_ok. apply _. Defined.
Definition bytes_ok (l : list N) : Prop := Forall byte_ok l.

Lemma length_be_bytes n v : length (be_bytes n v) = n.
Proof. induction n; simpl; lia. Qed.

Lemma be_bytes_ok n v : bytes_ok (be_bytes n v).
Proof.
  induction n; constructor; [|done]. unfold byte_ok. by apply N.mod_lt.
Qed.

Lemma be_val_app_acc l acc :
  foldl (fun acc b => acc * 256 + b)%N acc l = (acc * 256 ^ len l + be_val l)%N.
Proof.
  revert acc. unfold be_val. induction l as [|b l IH]; intros acc.
  - rewrite len_nil. simpl. lia.
  - cbn [foldl].
    rewrite IH, (IH (0 * 256 + b)%N), len_cons, N.add_1_l, N.pow_succ_r'. lia.
Qed.

Lemma be_val_cons b l : be_val (b :: l) = (b * 256 ^ len l + be_val l)%N.
Proof. unfold be_val at 1. simpl. apply be_val_app_acc. Qed.

Lemma be_val_be_bytes_mod n v : be_val (be_bytes n v) = (v mod 256 ^ N.of_nat n)%N.
Proof.
  induction n as [|n IH].
  - simpl. by rewrite N.mod_1_r.
  - simpl be_bytes. rewrite be_val_cons, IH. unfold len. rewrite length_be_bytes.
    replace (N.of_nat (S n)) with (N.of_nat n + 1)%N by lia.
    rewrite N.pow_add_r, N.pow_1_r.
    rewrite (N.Div0.mod_mul_r v (256 ^ N.of_nat n) 256). lia.
Qed.

Lemma be_val_be_bytes n v :
  (v < 256 ^ N.of_nat n)%N → be_val (be_bytes n v) = v.
Proof. intros. rewrite be_val_be_bytes_mod. by apply N.mod_small. Qed.

Lemma be_val_bound l : bytes_ok l → (be_val l < 256 ^ len l)%N.
Proof.
  induction l as [|b l IH] using rev_ind; [done|].
  unfold bytes_ok. intros [Hl Hb]%Forall_app. inversion_clear Hb as [|?? Hb' _].
  unfold byte_ok in Hb'.
  specialize (IH Hl).
  replace (len (l ++ [b])) with (len l + 1)%N by (rewrite len_app; done).
  rewrite N.pow_add_r, N.pow_1_r.
  unfold be_val in *. rewrite foldl_app. cbn [foldl]. lia.
Qed.

Lemma be_bytes_be_val l : bytes_ok l → be_bytes (length l) (be_val l) = l.
Proof.
  intros Hl. induction l as [|b l IH]; [done|].
  inversion_clear Hl as [|?? Hb Hl'].
  rewrite be_val_cons. simpl.
  assert (Hdiv : ∀ k, be_bytes (length l) (k * 256 ^ len l + be_val l)%N
     = be_bytes (length l) (be_val l)).
  { assert (Hgen : ∀ n k c v, (n <= c)%nat →
      be_bytes n (k * 256 ^ N.of_nat c + v)%N = be_bytes n v); [|intros; by apply Hgen].
    clear. induction n as [|n IH]; intros k c v Hc; [done|]. simpl.
    rewrite IH by lia. f_equal.
    replace (N.of_nat c) with (N.of_nat n + (1 + N.of_nat (c - S n)))%N by lia.
    rewrite !N.pow_add_r, N.pow_1_r.
    replace (k * (256 ^ N.of_nat n * (256 * 256 ^ N.of_nat (c - S n))) + v)%N
      with (v + (k * 256 ^ N.of_nat (c - S n) * 256) * 256 ^ N.of_nat n)%N by lia.
    rewrite N.div_add by (by apply N.pow_nonzero).
    by rewrite N.Div0.mod_add. }
  rewrite Hdiv, IH by done. rename Hl' into Hl. f_equal.
  pose proof (be_val_bound l Hl) as Hv. unfold len in *.
  rewrite N.div_add_l by (by apply N.pow_nonzero).
  rewrite (N.div_small (be_val l)) by done.
  unfold byte_ok in Hb. rewrite N.mod_small; lia.
Qed.

#[global] Opaque be_bytes be_val.
#[export] Hint Rewrite length_be_bytes : vcz_len.
#[export] Hint Resolve be_bytes_ok : vcz.
