(* ===== verification/Buffers.v ===== *)
(** The byte buffers of the [bytes] crate, as an interface: the codecs read
    and write through [Buf]/[BufMut] methods of a [BytesMut], whose
    implementation is not part of the repository.  [BytesApi] lists the methods
    the sources call, with their documented behaviour stated on the slice a
    buffer dereferences to.  [list_bytes] is the obvious implementation, on
    which the witnesses compute. *)
From S2P Require Import Prelude.

Class BytesApi := {
  bytes_mut : Type;
  (** The slice [&buf[..]]. *)
  view : bytes_mut → list N;
  capacity : bytes_mut → N;
  put_u8 : bytes_mut → N → bytes_mut;
  put_u16 : bytes_mut → N → bytes_mut;
  put_u32 : bytes_mut → N → bytes_mut;
  extend_from_slice : bytes_mut → list N → bytes_mut;
  reserve : bytes_mut → N → bytes_mut;
  clear : bytes_mut → bytes_mut;
  (** These panic when the buffer holds too few bytes. *)
  advance : bytes_mut → N → option bytes_mut;
  get_u8 : bytes_mut → option (N * bytes_mut);
  get_u32 : bytes_mut → option (N * bytes_mut);
  copy_to_bytes : bytes_mut → N → option (list N * bytes_mut);

  view_put_u8 b v : (v <= u8_max)%N → view (put_u8 b v) = view b ++ [v];
  view_put_u16 b v : (v <= u16_max)%N → view (put_u16 b v) = view b ++ be_bytes 2 v;
  view_put_u32 b v : (v <= u32_max)%N → view (put_u32 b v) = view b ++ be_bytes 4 v;
  view_extend b l : view (extend_from_slice b l) = view b ++ l;
  view_reserve b n : view (reserve b n) = view b;
  view_clear b : view (clear b) = [];
  view_advance b n : view <$> advance b n =
    if decide (n <= len (view b))%N then Some (drop (N.to_nat n) (view b)) else None;
  view_get_u8 b : prod_map id view <$> get_u8 b =
    match view b with x :: l => Some (x, l) | [] => None end;
  view_get_u32 b : prod_map id view <$> get_u32 b =
    if decide (4 <= len (view b))%N
    then Some (be_val (take 4 (view b)), drop 4 (view b)) else None;
  view_copy_to_bytes b n : prod_map id view <$> copy_to_bytes b n =
    if decide (n <= len (view b))%N
    then Some (take (N.to_nat n) (view b), drop (N.to_nat n) (view b)) else None;
}.

(** [buf.len()], [buf.remaining()] *)
Definition remaining `{BytesApi} (b : bytes_mut) : N := len (view b).

(** The implementation by plain byte lists. *)
#[refine] Definition list_bytes : BytesApi := {|
  bytes_mut := list N;
  view := id;
  capacity := len;
  put_u8 b v := b ++ [v];
  put_u16 b v := b ++ be_bytes 2 v;
  put_u32 b v := b ++ be_bytes 4 v;
  extend_from_slice b l := b ++ l;
  reserve b n := b;
  clear b := [];
  advance b n :=
    if decide (n <= len b)%N then Some (drop (N.to_nat n) b) else None;
  get_u8 b := match b with x :: l => Some (x, l) | [] => None end;
  get_u32 b :=
    if decide (4 <= len b)%N then Some (be_val (take 4 b), drop 4 b) else None;
  copy_to_bytes b n :=
    if decide (n <= len b)%N
    then Some (take (N.to_nat n) b, drop (N.to_nat n) b) else None;
|}.
Proof.
  all: try done.
  - intros b n; simpl; by case_decide.
  - intros b; by destruct b.
  - intros b; simpl; by case_decide.
  - intros b n; simpl; by case_decide.
Defined.

Section facts.
Context `{B : BytesApi}.
Implicit Types (b : bytes_mut) (l : list N).

(** Reading operations as functions of the view: each either panics or
    yields a buffer whose view is known. *)
Lemma advance_some b n :
  (n <= len (view b))%N →
  ∃ b', advance b n = Some b' ∧ view b' = drop (N.to_nat n) (view b).
Proof.
  intros Hn. pose proof (view_advance b n) as H. rewrite decide_True in H by done.
  destruct (advance b n); naive_solver.
Qed.

Lemma advance_none b n : (len (view b) < n)%N → advance b n = None.
Proof.
  intros Hn. pose proof (view_advance b n) as H. rewrite decide_False in H by lia.
  by destruct (advance b n).
Qed.

Lemma get_u8_some b x l :
  view b = x :: l → ∃ b', get_u8 b = Some (x, b') ∧ view b' = l.
Proof.
  intros Hv. pose proof (view_get_u8 b) as H. rewrite Hv in H.
  destruct (get_u8 b) as [[y b']|]; naive_solver.
Qed.

Lemma get_u32_some b :
  (4 <= len (view b))%N →
  ∃ b', get_u32 b = Some (be_val (take 4 (view b)), b') ∧ view b' = drop 4 (view b).
Proof.
  intros Hn. pose proof (view_get_u32 b) as H. rewrite decide_True in H by done.
  destruct (get_u32 b) as [[y b']|]; naive_solver.
Qed.

Lemma copy_to_bytes_some b n :
  (n <= len (view b))%N →
  ∃ b', copy_to_bytes b n = Some (take (N.to_nat n) (view b), b') ∧
        view b' = drop (N.to_nat n) (view b).
Proof.
  intros Hn. pose proof (view_copy_to_bytes b n) as H. rewrite decide_True in H by done.
  destruct (copy_to_bytes b n) as [[y b']|]; naive_solver.
Qed.

Lemma copy_to_bytes_none b n :
  (len (view b) < n)%N → copy_to_bytes b n = None.
Proof.
  intros Hn. pose proof (view_copy_to_bytes b n) as H. rewrite decide_False in H by lia.
  by destruct (copy_to_bytes b n).
Qed.
End facts.

(** The reading operations as actions on the buffer: [advance(n)],
    [copy_to_slice] and [copy_to_bytes], [get_u8] *)
Section actions.
Context `{B : BytesApi} {E : Type}.
Implicit Types (buf : bytes_mut) (l rest : list N).

Definition skip_bytes (n : N) : action bytes_mut E unit := fun buf =>
  match advance buf n with Some buf => (Ok tt, buf) | None => (Panic, buf) end.
Definition take_bytes (n : N) : action bytes_mut E (list N) := fun buf =>
  match copy_to_bytes buf n with Some (l, buf) => (Ok l, buf) | None => (Panic, buf) end.
Definition take_u8 : action bytes_mut E N := fun buf =>
  match get_u8 buf with Some (b, buf) => (Ok b, buf) | None => (Panic, buf) end.

Lemma skip_bytes_app buf l rest n :
  view buf = l ++ rest → len l = n → ∃ buf', skip_bytes n buf = (Ok tt, buf') ∧ view buf' = rest.
Proof.
  intros Hv <-. unfold skip_bytes. destruct (advance_some buf (len l)) as (buf' & -> & Hv').
  { rewrite Hv, len_app. lia. }
  exists buf'. by rewrite Hv', Hv, len_nat, drop_app_length.
Qed.
Lemma take_bytes_app buf l rest n :
  view buf = l ++ rest → len l = n → ∃ buf', take_bytes n buf = (Ok l, buf') ∧ view buf' = rest.
Proof.
  intros Hv <-. unfold take_bytes.
  destruct (copy_to_bytes_some buf (len l)) as (buf' & -> & Hv').
  { rewrite Hv, len_app. lia. }
  exists buf'. rewrite Hv', Hv, len_nat, take_app_length, drop_app_length. done.
Qed.
Lemma take_bytes_short buf n : (len (view buf) < n)%N → take_bytes n buf = (Panic, buf).
Proof. intros Hn. unfold take_bytes. by rewrite copy_to_bytes_none. Qed.
Lemma take_u8_cons buf x l :
  view buf = x :: l → ∃ buf', take_u8 buf = (Ok x, buf') ∧ view buf' = l.
Proof.
  intros Hv. unfold take_u8. destruct (get_u8_some _ _ _ Hv) as (buf' & -> & Hv'). by exists buf'.
Qed.
End actions.

Create Rewrite HintDb vcz_view.
#[export] Hint Rewrite @view_extend @view_reserve @view_clear : vcz_view.

(** [rd]: step through the reading operations of a codec: each tactic call
    consumes one operation whose view is known. *)
Ltac rd_advance b' Hv :=
  match goal with
  | |- context [advance ?b ?n] =>
      let H := fresh in
      destruct (advance_some b n) as (b' & H & Hv); [|rewrite H; clear H; simpl]
  end.
Ltac rd_u8 b' Hv :=
  match goal with
  | |- context [get_u8 ?b] =>
      let H := fresh in
      edestruct (get_u8_some b) as (b' & H & Hv); [|rewrite H; clear H; simpl]
  end.
Ltac rd_u32 b' Hv :=
  match goal with
  | |- context [get_u32 ?b] =>
      let H := fresh in
      destruct (get_u32_some b) as (b' & H & Hv); [|rewrite H; clear H; simpl]
  end.
Ltac rd_copy b' Hv :=
  match goal with
  | |- context [copy_to_bytes ?b ?n] =>
      let H := fresh in
      destruct (copy_to_bytes_some b n) as (b' & H & Hv); [|rewrite H; clear H; simpl]
  end.

(** Four bytes read back the 32-bit integer they were written from. *)
Lemma be_val_take_be_bytes n v l :
  (v < 256 ^ N.of_nat n)%N → be_val (take n (be_bytes n v ++ l)) = v.
Proof.
  intros Hv. rewrite take_app_length' by (by rewrite length_be_bytes).
  by apply be_val_be_bytes.
Qed.
Lemma drop_be_bytes n v l : drop n (be_bytes n v ++ l) = l.
Proof. by rewrite drop_app_length' by (by rewrite length_be_bytes). Qed.
