(* ===== verification/Bits.v ===== *)
(** [bitfield.rs]: the growing bitfield of pieces over the [bit_vec] crate's
    [BitVec], and the reserved bits of the handshake. *)
From S2P Require Import Prelude.

(** The methods of [bit_vec::BitVec] the sources call, with their documented
    behaviour on the sequence of bits a vector holds.  [bv_set] panics out of
    range, [bv_and] when the lengths differ. *)
Class BitVecApi := {
  bitvec : Type;
  bits : bitvec → list bool;
  from_elem_general : N → bool → bitvec;
  from_bytes_general : list N → bitvec;
  to_bytes : bitvec → list N;
  (** [v.storage().len()] *)
  storage_len : bitvec → N;
  bv_grow : bitvec → N → bool → bitvec;
  bv_truncate : bitvec → N → bitvec;
  bv_negate : bitvec → bitvec;
  bv_set : bitvec → N → bool → option bitvec;
  bv_and : bitvec → bitvec → option bitvec;

  bits_from_elem n x : bits (from_elem_general n x) = replicate (N.to_nat n) x;
  (** the most significant bit of each byte comes first *)
  bits_from_bytes l : bits (from_bytes_general l) =
    l ≫= (fun b => N.testbit b <$> [7; 6; 5; 4; 3; 2; 1; 0])%N;
  from_to_bytes v : bits (from_bytes_general (to_bytes v)) =
    bits v ++ replicate (N.to_nat (8 * storage_len v - len (bits v))) false;
  len_to_bytes v : len (to_bytes v) = storage_len v;
  to_bytes_ok v : bytes_ok (to_bytes v);
  storage_len_spec v : storage_len v = div_ceil (len (bits v)) 8;
  bits_grow v n x : bits (bv_grow v n x) = bits v ++ replicate (N.to_nat n) x;
  bits_truncate v n : bits (bv_truncate v n) = take (N.to_nat n) (bits v);
  bits_negate v : bits (bv_negate v) = negb <$> bits v;
  bits_set v i x : bits <$> bv_set v i x =
    if decide (i < len (bits v))%N then Some (<[N.to_nat i := x]> (bits v)) else None;
  bits_and v w : bits <$> bv_and v w =
    if decide (len (bits v) = len (bits w))
    then Some (zip_with andb (bits v) (bits w)) else None;
}.

(** [v.len()], [v.get(i)], [v.count_ones()] *)
Definition bv_len `{BitVecApi} (v : bitvec) : N := len (bits v).
Definition bv_get `{BitVecApi} (v : bitvec) (i : N) : option bool := bits v !! N.to_nat i.
Definition count_true (l : list bool) : N := len (filter (fun b => b = true) l).
Definition count_ones `{BitVecApi} (v : bitvec) : N := count_true (bits v).

(** The implementation by lists of bits. *)
Fixpoint pack_byte (n : nat) (l : list bool) : N :=
  match n with
  | O => 0
  | S n => (if hd false l then 2 ^ N.of_nat n else 0) + pack_byte n (tail l)
  end%N.
Fixpoint pack_bytes (fuel : nat) (l : list bool) : list N :=
  match fuel, l with
  | _, [] | O, _ => []
  | S fuel, _ => pack_byte 8 l :: pack_bytes fuel (drop 8 l)
  end.

Lemma pack_bytes_length fuel l :
  (length l <= fuel)%nat → len (pack_bytes fuel l) = div_ceil (len l) 8.
Proof.
  revert l. induction fuel as [|fuel IH]; intros [|b l] Hl; try (done || (simpl in Hl; lia)).
  cbn [pack_bytes]. rewrite len_cons.
  rewrite IH by (rewrite length_drop; simpl in *; lia).
  unfold div_ceil, len. rewrite length_drop. simpl in *. dlia.
Qed.

Lemma pack_byte_bits l :
  N.testbit (pack_byte 8 l) <$> [7; 6; 5; 4; 3; 2; 1; 0]%N =
  take 8 (l ++ replicate 8 false).
Proof.
  do 8 (destruct l as [|? l];
    [repeat match goal with b : bool |- _ => destruct b end; reflexivity|]).
  simpl take. repeat match goal with b : bool |- _ => destruct b end; reflexivity.
Qed.

Lemma pack_byte_bound n l : (pack_byte n l < 2 ^ N.of_nat n)%N.
Proof.
  revert l. induction n as [|n IH]; intros l; [done|]. cbn [pack_byte].
  specialize (IH (tail l)). replace (N.of_nat (S n)) with (N.succ (N.of_nat n)) by lia.
  rewrite N.pow_succ_r'. destruct (hd false l); lia.
Qed.

Lemma pack_bytes_ok fuel l : bytes_ok (pack_bytes fuel l).
Proof.
  revert l. induction fuel as [|fuel IH]; intros [|b l]; try constructor.
  - apply (pack_byte_bound 8).
  - apply IH.
Qed.

Lemma pack_bytes_bits fuel l :
  (length l <= fuel)%nat →
  (pack_bytes fuel l ≫= (fun b => N.testbit b <$> [7; 6; 5; 4; 3; 2; 1; 0]%N)) =
  l ++ replicate (N.to_nat (8 * div_ceil (len l) 8 - len l)) false.
Proof.
  revert l. induction fuel as [|fuel IH]; intros [|b l] Hl; try (done || (simpl in Hl; lia)).
  cbn [pack_bytes].
  set (k := b :: l) in *.
  cbn [mbind list_bind]. rewrite pack_byte_bits.
  fold (mbind (M:=list) (fun b => N.testbit b <$> [7; 6; 5; 4; 3; 2; 1; 0]%N)).
  rewrite IH by (subst k; rewrite length_drop; simpl in *; lia).
  destruct (decide (length k <= 8)%nat) as [Hk|Hk].
  - rewrite (drop_ge k) by lia. rewrite take_app_ge by lia.
    rewrite take_replicate. simpl (len []). rewrite <- app_assoc. f_equal.
    replace (div_ceil (len k) 8) with 1%N
      by (unfold div_ceil, len; subst k; simpl in *; dlia).
    rewrite app_nil_l, <- replicate_add. f_equal.
    unfold div_ceil, len. simpl. lia.
  - rewrite take_app_le by lia.
    rewrite app_assoc, take_drop. do 2 f_equal.
    unfold div_ceil, len. rewrite length_drop. dlia.
Qed.

#[refine] Definition list_bits : BitVecApi := {|
  bitvec := list bool;
  bits := id;
  from_elem_general n x := replicate (N.to_nat n) x;
  from_bytes_general l :=
    l ≫= (fun b => N.testbit b <$> [7; 6; 5; 4; 3; 2; 1; 0]%N);
  to_bytes v := pack_bytes (length v) v;
  storage_len v := div_ceil (len v) 8;
  bv_grow v n x := v ++ replicate (N.to_nat n) x;
  bv_truncate v n := take (N.to_nat n) v;
  bv_negate v := negb <$> v;
  bv_set v i x :=
    if decide (i < len v)%N then Some (<[N.to_nat i := x]> v) else None;
  bv_and v w :=
    if decide (len v = len w) then Some (zip_with andb v w) else None;
|}.
Proof.
  all: try done.
  - intros v. by apply pack_bytes_bits.
  - intros v. by apply pack_bytes_length.
  - intros v. apply pack_bytes_ok.
  - intros v i x. simpl. by case_decide.
  - intros v w. simpl. by case_decide.
Defined.

(** ** Reserved *)

(** [struct Reserved(pub [u8; 8])] *)
Definition Reserved := list N.

Module Reserved.
(** only the extension protocol is supported *)
Definition supported : Reserved := [0; 0; 0; 0; 0; 16; 0; 0]%N.

Definition supports_extended (r : Reserved) : bool :=
  negb (N.land (default 0%N (r !! 5%nat)) 16 =? 0)%N.
End Reserved.

(** ** Growing access *)
Section Bitfield.
Context `{Build, B : BitVecApi}.
Implicit Types v : bitvec.

Definition safe_grow {E} (v : bitvec) (index : N) : outcome E bitvec :=
  if (bv_len v <=? index)%N then
    i ← uadd index 1;
    needed ← usub i (bv_len v);
    Ok (bv_grow v needed false)
  else Ok v.

Definition safe_set {E} (v : bitvec) (index : N) (val : bool) : outcome E bitvec :=
  v ← safe_grow v index;
  or_panic (bv_set v index val).

(** The unchecked read is in range once the vector has grown. *)
Definition safe_get {E} (v : bitvec) (index : N) : outcome E (bool * bitvec) :=
  v ← safe_grow v index;
  b ← or_panic (bv_get v index);
  Ok (b, v).

(** What the vector holds after growing to cover [index]. *)
Definition grown (l : list bool) (index : N) : list bool :=
  l ++ replicate (N.to_nat (index + 1 - len l)) false.

Lemma len_grown l i : len (grown l i) = N.max (len l) (i + 1).
Proof. unfold grown. rewrite len_app. unfold len. rewrite length_replicate. lia. Qed.

Lemma lookup_grown l i j :
  (j <= i)%N → grown l i !! N.to_nat j = Some (default false (l !! N.to_nat j)).
Proof.
  intros Hj. unfold grown. destruct (l !! N.to_nat j) as [x|] eqn:Hl; simpl.
  - by apply lookup_app_l_Some.
  - apply lookup_ge_None in Hl. rewrite lookup_app_r by done.
    apply lookup_replicate. unfold len. split; [done|lia].
Qed.

Lemma safe_grow_ok {E} v i :
  (i < usize_max)%N →
  ∃ v', @safe_grow E v i = Ok v' ∧ bits v' = grown (bits v) i.
Proof.
  intros Hi. unfold safe_grow, bv_len, grown. destruct (N.leb_spec (len (bits v)) i) as [Hle|Hgt].
  - rewrite uadd_ok by lia. simpl. rewrite usub_ok by lia. simpl.
    eexists. split; [done|]. by rewrite bits_grow.
  - exists v. split; [done|].
    replace (i + 1 - len (bits v))%N with 0%N by lia. by rewrite app_nil_r.
Qed.

Lemma bv_set_some v i x :
  (i < len (bits v))%N →
  ∃ v', bv_set v i x = Some v' ∧ bits v' = <[N.to_nat i := x]> (bits v).
Proof.
  intros Hi. pose proof (bits_set v i x) as Hs. rewrite decide_True in Hs by done.
  destruct (bv_set v i x); naive_solver.
Qed.

Lemma bv_set_none v i x : (len (bits v) <= i)%N → bv_set v i x = None.
Proof.
  intros Hi. pose proof (bits_set v i x) as Hs. rewrite decide_False in Hs by lia.
  by destruct (bv_set v i x).
Qed.

Lemma bv_and_some v w :
  len (bits v) = len (bits w) →
  ∃ u, bv_and v w = Some u ∧ bits u = zip_with andb (bits v) (bits w).
Proof.
  intros Hl. pose proof (bits_and v w) as Hs. rewrite decide_True in Hs by done.
  destruct (bv_and v w); naive_solver.
Qed.

Lemma bv_and_none v w : len (bits v) ≠ len (bits w) → bv_and v w = None.
Proof.
  intros Hl. pose proof (bits_and v w) as Hs. rewrite decide_False in Hs by done.
  by destruct (bv_and v w).
Qed.

Lemma safe_set_ok {E} v i x :
  (i < usize_max)%N →
  ∃ v', @safe_set E v i x = Ok v' ∧
        bits v' = <[N.to_nat i := x]> (grown (bits v) i).
Proof.
  intros Hi. destruct (safe_grow_ok (E:=E) v i Hi) as (v1 & Hg & Hb).
  unfold safe_set. rewrite Hg. simpl.
  destruct (bv_set_some v1 i x) as (v2 & Hs & Hb2).
  { rewrite Hb, len_grown. lia. }
  exists v2. by rewrite Hs, Hb2, Hb.
Qed.

Lemma safe_get_ok {E} v i :
  (i < usize_max)%N →
  ∃ v', @safe_get E v i = Ok (default false (bits v !! N.to_nat i), v') ∧
        bits v' = grown (bits v) i.
Proof.
  intros Hi. destruct (safe_grow_ok (E:=E) v i Hi) as (v1 & Hg & Hb).
  unfold safe_get, bv_get. rewrite Hg. simpl. rewrite Hb, lookup_grown by lia.
  simpl. by exists v1.
Qed.
End Bitfield.
