(* ===== verification/Errors.v ===== *)
(** [error.rs]: the library's error type.  Payloads that are error values of
    third-party crates are left out; the bitfield of [TorrentFilesMissing] is
    kept as its bits. *)
From S2P Require Import Prelude.

(** The [std::io::ErrorKind]s the sources build or test for. *)
Inductive ErrorKind := NotFound | InvalidInput | InvalidData | OtherKind.

Inductive Error :=
  | WrongExtensionId (local received : N)
  | TorrentFilesMissing (pieces : list bool) (ones : N)
  | JoinError | ParseStrError | ParseIntError | ParseBoolError | Rkyv
  | MagnetError | Utf8Error | BencodeError
  | IO (kind : ErrorKind)
  | TrackerNoHosts | TrackerSocketAddr | TrackerResponse | ResponseLen
  | CompactPeerListRemainder | TrackerSocketConnect | MagnetLinkInvalid
  | MessageResponse | HandshakeInvalid | HandshakeTimeout
  | TorrentDoesNotExist | PeerDoesNotExist | PieceInvalid | PeerClosedSocket
  | NoUDPTracker | SendErrorDisk | SendDaemonError | ReceiveErrorOneshot
  | SendErrorPeer | SendErrorTorrent | SendErrorTcp
  | NoDuplicateTorrent | NoDuplicatePeer | NoPeers.

#[global] Instance ErrorKind_eq_dec : EqDecision ErrorKind.
Proof. solve_decision. Defined.
#[global] Instance Error_eq_dec : EqDecision Error.
Proof. solve_decision. Defined.
