(* ===== verification/Bencode.v ===== *)
(** The bencode values the [bendy] crate decodes to and encodes from, with the
    documented behaviour of the methods the sources call on them, and the
    [sha1] crate's digest.  Parsing and printing bytes is the crate's: the raw
    bytes of a value are an operation of the interface. *)
From Stdlib Require String Ascii.
Export String.StringSyntax.
From S2P Require Import Prelude Errors.

#[warnings="-register-all"]
Inductive bval :=
  | BInt (z : Z)
  | BStr (s : list N)
  | BList (l : list bval)
  | BDict (l : list (list N * bval)).

(** What the crate parses: nesting below its default limit and sorted keys. *)
Fixpoint bytes_lt (a b : list N) : bool :=
  match a, b with
  | _, [] => false
  | [], _ :: _ => true
  | x :: a, y :: b => (x <? y)%N || ((x =? y)%N && bytes_lt a b)
  end.

Fixpoint keys_sorted {A} (l : list (list N * A)) : bool :=
  match l with
  | [] => true
  | (k, _) :: l' =>
      match l' with (k', _) :: _ => bytes_lt k k' | [] => true end && keys_sorted l'
  end.

Fixpoint bval_ok (depth : nat) (v : bval) : bool :=
  match depth, v with
  | _, BInt _ | _, BStr _ => true
  | S depth, BList l => forallb (bval_ok depth) l
  | S depth, BDict l => keys_sorted l && forallb (fun kv => bval_ok depth kv.2) l
  | O, _ => false
  end.
Definition MAX_DEPTH : nat := 2048.

(** [sha1::Sha1] *)
Class Sha1Api := {
  sha1 : list N → list N;
  sha1_len l : length (sha1 l) = 20%nat;
}.

Class BendyApi := {
  (** The bytes a value was decoded from ([into_raw]), its canonical encoding. *)
  raw : bval → list N;
  (** Decoding the value at the front of a byte string; [None] is an error. *)
  parse : list N → option (bval * list N);
  parse_raw v rest :
    bval_ok MAX_DEPTH v = true → parse (raw v ++ rest) = Some (v, rest);
}.

(** [encoder.emit_dict(..)]: keys emitted out of order are an error *)
Definition emit_dict (l : list (list N * bval)) : outcome Error bval :=
  if keys_sorted l then Ok (BDict l) else Err BencodeError.

(** ** Typed decoding: the [FromBencode] instances of the crate *)

Section decode.
Context `{BendyApi}.

Definition try_into_dictionary (v : bval) : outcome Error (list (list N * bval)) :=
  match v with BDict l => Ok l | _ => Err BencodeError end.

Definition decode_uint (m : N) (v : bval) : outcome Error N :=
  match v with
  | BInt z => if decide (0 <= z <= Z.of_N m)%Z then Ok (Z.to_N z) else Err BencodeError
  | _ => Err BencodeError
  end.

Definition decode_bytes (v : bval) : outcome Error (list N) :=
  match v with BStr s => Ok s | _ => Err BencodeError end.

(** A [String] is the list of its UTF-8 bytes. *)
Definition decode_string (v : bval) : outcome Error (list N) :=
  match v with
  | BStr s => if utf8_valid s then Ok s else Err BencodeError
  | _ => Err BencodeError
  end.

Definition decode_list {A} (f : bval → outcome Error A) (v : bval) : outcome Error (list A) :=
  match v with BList l => mapM_outcome f l | _ => Err BencodeError end.

(** [while let Some(pair) = dict.next_pair()? { match pair { .. } }] *)
Fixpoint fold_pairs {S} (f : list N → bval → S → outcome Error S)
    (l : list (list N * bval)) (s : S) : outcome Error S :=
  match l with
  | [] => Ok s
  | (k, v) :: l => s ← f k v s; fold_pairs f l s
  end.

Lemma decode_uint_ok m n : (n <= m)%N → decode_uint m (BInt (Z.of_N n)) = Ok n.
Proof. intros. simpl. rewrite decide_True by lia. by rewrite N2Z.id. Qed.

Lemma decode_list_ok {A B} (f : bval → outcome Error A) (g : B → bval) (h : B → A) l :
  (∀ x, x ∈ l → f (g x) = Ok (h x)) → decode_list f (BList (g <$> l)) = Ok (h <$> l).
Proof.
  intros Hf. simpl. induction l as [|x l IH]; [done|]. rewrite !fmap_cons.
  change (mapM_outcome f (g x :: (g <$> l))) with
    (y ← f (g x); ys ← mapM_outcome f (g <$> l); Ok (y :: ys)).
  rewrite Hf by left. cbn [mbind outcome_bind].
  rewrite IH by (intros y Hy; apply Hf; by right). done.
Qed.
End decode.

(** ASCII literals [b"..."] *)
Definition ascii (s : String.string) : list N :=
  Ascii.N_of_ascii <$> String.list_ascii_of_string s.
Arguments ascii s%_string_scope.

(** [keys]: decide the comparisons of a key with the names of the fields. *)
Ltac keys :=
  repeat first [rewrite decide_True by reflexivity
               | rewrite decide_False by (vm_compute; congruence)].
