(* ===== verification/BencodeText.v ===== *)
(** The bencode text format, as an implementation of the interface of
    [Bencode]: integers [i..e], strings [<length>:..], lists [l..e] and
    dictionaries [d..e].  It instantiates the interface in the witnesses. *)
From Stdlib Require String Ascii.
From S2P Require Import Prelude Errors Bencode.
Import String.StringSyntax.

(** ** Decimal numbers *)

Fixpoint digits (fuel : nat) (n : N) : list N :=
  match fuel with
  | O => []
  | S fuel => if (n <? 10)%N then [48 + n]%N else digits fuel (n / 10) ++ [48 + n mod 10]%N
  end.
Definition decimal (n : N) : list N := digits (S (N.to_nat (N.log2 n))) n.

Definition is_digit (c : N) : bool := (48 <=? c)%N && (c <=? 57)%N.
Definition digits_val (l : list N) : N := foldl (fun acc c => acc * 10 + (c - 48))%N 0%N l.

(** The longest prefix of digits, and what follows it. *)
Fixpoint span_digits (l : list N) : list N * list N :=
  match l with
  | c :: l' => if is_digit c then let (d, r) := span_digits l' in (c :: d, r) else ([], l)
  | [] => ([], [])
  end.

Lemma digits_val_digits fuel n :
  (n < 10 ^ N.of_nat fuel)%N → digits_val (digits fuel n) = n ∧ Forall is_digit (digits fuel n).
Proof.
  revert n. induction fuel as [|fuel IH]; intros n Hn; simpl.
  - split; [|constructor]. simpl in Hn. change (digits_val []) with 0%N. lia.
  - destruct (N.ltb_spec n 10).
    + split; [unfold digits_val; cbn [foldl]; lia|]. constructor; [|constructor].
      unfold is_digit. destruct (N.leb_spec 48 (48 + n)), (N.leb_spec (48 + n) 57); (done || lia).
    + destruct (IH (n / 10)%N) as [IHv IHd].
      { replace (N.of_nat (S fuel)) with (N.succ (N.of_nat fuel)) in Hn by lia.
        rewrite N.pow_succ_r' in Hn. dlia. }
      split.
      * unfold digits_val in *. rewrite foldl_app, IHv. cbn [foldl]. dlia.
      * apply Forall_app. split; [done|]. constructor; [|constructor].
        unfold is_digit. assert (n mod 10 < 10)%N by dlia.
        destruct (N.leb_spec 48 (48 + n mod 10)), (N.leb_spec (48 + n mod 10) 57); (done || lia).
Qed.

Lemma decimal_spec n : digits_val (decimal n) = n ∧ Forall is_digit (decimal n).
Proof.
  apply digits_val_digits. destruct (decide (n = 0)%N) as [->|Hn]; [done|].
  pose proof (N.log2_spec n ltac:(lia)) as [_ H].
  eapply N.lt_le_trans; [exact H|].
  replace (N.of_nat (S (N.to_nat (N.log2 n)))) with (N.succ (N.log2 n)) by lia.
  apply N.pow_le_mono_l. lia.
Qed.

Lemma span_digits_app d c rest :
  Forall is_digit d → is_digit c = false → span_digits (d ++ c :: rest) = (d, c :: rest).
Proof.
  intros Hd Hc. induction Hd as [|x d Hx Hd IH]; simpl; [by rewrite Hc|].
  rewrite IH. destruct (is_digit x); done.
Qed.

Lemma decimal_hd n : ∃ c l, decimal n = c :: l ∧ is_digit c = true.
Proof.
  destruct (decimal_spec n) as [_ Hd]. destruct (decimal n) as [|c l] eqn:He.
  - exfalso. unfold decimal in He. cbn [digits] in He.
    destruct (_ <? _)%N; [done|]. by destruct (digits _ _).
  - exists c, l. split; [done|]. inversion Hd. by apply Is_true_true_1.
Qed.

(** ** Printing *)

(** Induction through the nested lists. *)
Lemma bval_nested_ind (P : bval → Prop)
    (Hi : ∀ z, P (BInt z)) (Hs : ∀ s, P (BStr s))
    (Hl : ∀ l, Forall P l → P (BList l))
    (Hd : ∀ l, Forall (fun kv => P kv.2) l → P (BDict l)) v : P v.
Proof.
  revert v. fix IH 1. intros [z|s|l|l]; [apply Hi|apply Hs|apply Hl|apply Hd].
  - induction l as [|x l IHl]; constructor; [apply IH|exact IHl].
  - induction l as [|[k x] l IHl]; constructor; [apply IH|exact IHl].
Qed.

Definition print_str (s : list N) : list N := decimal (len s) ++ 58%N :: s.

Fixpoint print (v : bval) : list N :=
  match v with
  | BInt z => 105%N :: (if (z <? 0)%Z then [45%N] else []) ++ decimal (Z.abs_N z) ++ [101%N]
  | BStr s => print_str s
  | BList l => 108%N :: List.flat_map print l ++ [101%N]
  | BDict l => 100%N :: List.flat_map (fun kv => print_str kv.1 ++ print kv.2) l ++ [101%N]
  end.

(** ** Parsing *)

Definition read_nat (l : list N) : option (N * list N) :=
  match span_digits l with
  | ([], _) => None
  | (d, r) => Some (digits_val d, r)
  end.

Definition read_str (l : list N) : option (list N * list N) :=
  '(n, r) ← read_nat l;
  match r with
  | 58%N :: r => if (n <=? len r)%N then Some (take (N.to_nat n) r, drop (N.to_nat n) r) else None
  | _ => None
  end.

Definition read_int (l : list N) : option (bval * list N) :=
  let (neg, l) := match l with 45%N :: l => (true, l) | _ => (false, l) end in
  '(n, r) ← read_nat l;
  match r with
  | 101%N :: r => Some (BInt (if neg : bool then - Z.of_N n else Z.of_N n), r)
  | _ => None
  end.

Fixpoint read (fuel : nat) (l : list N) : option (bval * list N) :=
  match fuel with
  | O => None
  | S fuel =>
      match l with
      | 105%N :: l => read_int l
      | 108%N :: l => '(vs, r) ← read_list fuel l; Some (BList vs, r)
      | 100%N :: l => '(vs, r) ← read_dict fuel l; Some (BDict vs, r)
      | _ => '(s, r) ← read_str l; Some (BStr s, r)
      end
  end
with read_list (fuel : nat) (l : list N) : option (list bval * list N) :=
  match fuel with
  | O => None
  | S fuel =>
      match l with
      | 101%N :: l => Some ([], l)
      | _ => '(v, l) ← read fuel l; '(vs, l) ← read_list fuel l; Some (v :: vs, l)
      end
  end
with read_dict (fuel : nat) (l : list N) : option (list (list N * bval) * list N) :=
  match fuel with
  | O => None
  | S fuel =>
      match l with
      | 101%N :: l => Some ([], l)
      | _ => '(k, l) ← read_str l; '(v, l) ← read fuel l;
             '(vs, l) ← read_dict fuel l; Some ((k, v) :: vs, l)
      end
  end.

(** ** Round trip *)

Lemma read_nat_decimal n c rest :
  is_digit c = false → read_nat (decimal n ++ c :: rest) = Some (n, c :: rest).
Proof.
  intros Hc. destruct (decimal_spec n) as [Hv Hd]. unfold read_nat.
  rewrite span_digits_app by done.
  destruct (decimal_hd n) as (x & l & Hx & _). rewrite Hx in *. by rewrite Hv.
Qed.

Lemma read_str_print s rest : read_str (print_str s ++ rest) = Some (s, rest).
Proof.
  unfold read_str, print_str. rewrite <- app_assoc. simpl.
  rewrite read_nat_decimal by done. simpl.
  rewrite (proj2 (N.leb_le _ _)) by (rewrite len_app; lia).
  rewrite len_nat, take_app_length, drop_app_length. done.
Qed.

Lemma read_int_print z rest :
  read_int ((if (z <? 0)%Z then [45%N] else []) ++ decimal (Z.abs_N z) ++ 101%N :: rest) =
  Some (BInt z, rest).
Proof.
  destruct (Z.ltb_spec z 0) as [Hz|Hz].
  - simpl. unfold read_int. rewrite read_nat_decimal by done. simpl. do 2 f_equal. f_equal. lia.
  - rewrite app_nil_l. unfold read_int.
    destruct (decimal_hd (Z.abs_N z)) as (c & l & Hc & Hd).
    assert (match decimal (Z.abs_N z) ++ 101%N :: rest with
            | 45%N :: l => (true, l) | _ => (false, decimal (Z.abs_N z) ++ 101%N :: rest) end
            = (false, decimal (Z.abs_N z) ++ 101%N :: rest)) as ->.
    { rewrite Hc. simpl. unfold is_digit in Hd. apply andb_true_iff in Hd as [Hd _].
      apply N.leb_le in Hd. repeat (case_match; try done); lia. }
    rewrite read_nat_decimal by done. simpl. do 2 f_equal. f_equal. lia.
Qed.

(** The first byte of a printed value decides how it is read. *)
Lemma read_str_hd s rest :
  ∃ c l, print_str s ++ rest = c :: l ∧ is_digit c = true.
Proof.
  destruct (decimal_hd (len s)) as (c & l & Hc & Hd). unfold print_str. rewrite Hc.
  by exists c, ((l ++ 58%N :: s) ++ rest).
Qed.

Lemma read_digit fuel c l :
  is_digit c = true → read (S fuel) (c :: l) = ('(s, r) ← read_str (c :: l); Some (BStr s, r)).
Proof.
  intros Hc. unfold is_digit in Hc. apply andb_true_iff in Hc as [H1 H2].
  apply N.leb_le in H1, H2. cbn [read]. repeat (case_match; try done); lia.
Qed.

Lemma read_list_step fuel c l :
  c ≠ 101%N → read_list (S fuel) (c :: l) =
    ('(v, l) ← read fuel (c :: l); '(vs, l) ← read_list fuel l; Some (v :: vs, l)).
Proof. intros Hc. cbn [read_list]. repeat (case_match; try done). Qed.

Lemma read_dict_step fuel c l :
  c ≠ 101%N → read_dict (S fuel) (c :: l) =
    ('(k, l) ← read_str (c :: l); '(v, l) ← read fuel l;
     '(vs, l) ← read_dict fuel l; Some ((k, v) :: vs, l)).
Proof. intros Hc. cbn [read_dict]. repeat (case_match; try done). Qed.

Lemma is_digit_not_end c : is_digit c = true → c ≠ 101%N.
Proof. by intros ? ->. Qed.

Lemma print_hd v rest : ∃ c l, print v ++ rest = c :: l ∧ c ≠ 101%N.
Proof.
  destruct v; simpl; [eexists _, _; done| |eexists _, _; done|eexists _, _; done].
  destruct (read_str_hd s rest) as (c & l & ? & ?%is_digit_not_end). eauto.
Qed.

Lemma print_length_pos v : (0 < length (print v))%nat.
Proof. destruct (print_hd v []) as (c & l & Hl & _). rewrite app_nil_r in Hl. rewrite Hl. simpl. lia. Qed.

Lemma read_print v rest fuel :
  (length (print v) <= fuel)%nat → read fuel (print v ++ rest) = Some (v, rest).
Proof.
  revert rest fuel. induction v as [z|s|l IH|l IH] using bval_nested_ind; intros rest fuel Hf.
  - destruct fuel as [|fuel]; [simpl in Hf; lia|].
    cbn [print]. rewrite <- app_comm_cons. cbn [read].
    rewrite <- !app_assoc. apply read_int_print.
  - destruct fuel as [|fuel]; [pose proof (print_length_pos (BStr s)); lia|].
    cbn [print]. destruct (read_str_hd s rest) as (c & l & Hc & Hd).
    rewrite Hc, read_digit by done. rewrite <- Hc, read_str_print. done.
  - destruct fuel as [|fuel]; [simpl in Hf; lia|].
    cbn [print] in *. rewrite <- app_comm_cons. cbn [read].
    assert (Hl : ∀ fuel, (length (List.flat_map print l ++ [101%N]) <= fuel)%nat →
      read_list fuel ((List.flat_map print l ++ [101%N]) ++ rest) = Some (l, rest)).
    { clear Hf fuel. induction IH as [|v l Hv _ IHl]; intros fuel Hf.
      - destruct fuel as [|fuel]; [simpl in Hf; lia|]. done.
      - destruct fuel as [|fuel]; [rewrite length_app in Hf; simpl in Hf; lia|]. cbn [List.flat_map] in *.
        rewrite <- !app_assoc. pose proof (print_length_pos v).
        destruct (print_hd v (List.flat_map print l ++ [101%N] ++ rest)) as (c & l' & Hc & Hne).
        rewrite Hc, read_list_step, <- Hc by done.
        rewrite !length_app in Hf. simpl length in Hf. rewrite Hv by lia. cbn [mbind option_bind].
        rewrite app_assoc, IHl by (rewrite length_app; simpl length; lia). done. }
    rewrite Hl by (simpl in Hf; lia). done.
  - destruct fuel as [|fuel]; [simpl in Hf; lia|].
    cbn [print] in *. rewrite <- app_comm_cons. cbn [read].
    set (pr := fun kv : list N * bval => print_str kv.1 ++ print kv.2) in *.
    assert (Hl : ∀ fuel, (length (List.flat_map pr l ++ [101%N]) <= fuel)%nat →
      read_dict fuel ((List.flat_map pr l ++ [101%N]) ++ rest) = Some (l, rest)).
    { clear Hf fuel. induction IH as [|[k v] l Hv _ IHl]; intros fuel Hf.
      - destruct fuel as [|fuel]; [simpl in Hf; lia|]. done.
      - destruct fuel as [|fuel]; [rewrite length_app in Hf; simpl in Hf; lia|]. cbn [List.flat_map] in *.
        unfold pr at 1. unfold pr at 1 in Hf. simpl fst in *. simpl snd in *.
        rewrite <- !app_assoc. pose proof (print_length_pos v).
        destruct (read_str_hd k (print v ++ List.flat_map pr l ++ [101%N] ++ rest))
          as (c & l' & Hc & Hd).
        rewrite Hc, read_dict_step, <- Hc by by apply is_digit_not_end.
        rewrite read_str_print. cbn [mbind option_bind].
        rewrite !length_app in Hf. simpl length in Hf. rewrite Hv by lia. cbn [mbind option_bind].
        rewrite app_assoc, IHl by (rewrite length_app; unfold print_str in Hf; rewrite length_app in Hf; simpl in *; lia).
        done. }
    rewrite Hl by (simpl in Hf; lia). done.
Qed.

(** The crate's interface, implemented by this format. *)
#[refine] Definition text_bendy : BendyApi := {|
  raw := print;
  parse l := read (length l) l;
|}.
Proof. intros v rest _. apply read_print. rewrite length_app. lia. Defined.

(** A stand-in digest for the witnesses: the first 20 bytes. *)
#[refine] Definition prefix_sha1 : Sha1Api := {|
  sha1 l := take 20 (l ++ replicate 20 0%N);
|}.
Proof. intros l. rewrite length_take, length_app, length_replicate. lia. Defined.
