(* ===== verification/Core.v ===== *)
(** [extensions/core/mod.rs] and [extensions/core/codec.rs]: blocks, the
    messages of the peer wire protocol and their framed codec. *)
From S2P Require Import Prelude Errors Buffers Bits.

(** ** Blocks *)

Definition BLOCK_LEN : N := 16384.

(** "BitTorrent protocol" *)
Definition PSTR : list N :=
  [66; 105; 116; 84; 111; 114; 114; 101; 110; 116; 32; 112; 114; 111; 116;
   111; 99; 111; 108]%N.
Definition PSTR_LEN : N := 19.

Record Block := { bl_index : N; bl_begin : N; bl_block : list N }.

Record BlockInfo := { bi_index : N; bi_begin : N; bi_len : N }.

#[global] Instance Block_eq_dec : EqDecision Block.
Proof. solve_decision. Defined.
#[global] Instance BlockInfo_eq_dec : EqDecision BlockInfo.
Proof. solve_decision. Defined.
#[global] Instance BlockInfo_countable : Countable BlockInfo.
Proof.
  refine (inj_countable' (fun b => (bi_index b, bi_begin b, bi_len b))
    (fun t => {| bi_index := t.1.1; bi_begin := t.1.2; bi_len := t.2 |}) _).
  by intros [].
Defined.

Definition Block_is_valid (b : Block) : bool :=
  (len (bl_block b) <=? BLOCK_LEN)%N && (bl_begin b <=? BLOCK_LEN)%N.

Definition BlockInfo_default : BlockInfo :=
  {| bi_index := 0; bi_begin := 0; bi_len := BLOCK_LEN |}.

(** [impl From<&Block> for BlockInfo] *)
Definition BlockInfo_from (b : Block) : BlockInfo :=
  {| bi_index := bl_index b; bi_begin := bl_begin b; bi_len := len (bl_block b) |}.

Definition BlockInfo_is_valid (b : BlockInfo) : bool :=
  (0 <? bi_len b)%N && (bi_len b <=? BLOCK_LEN)%N && (bi_begin b <=? BLOCK_LEN)%N.

(** ** Messages *)

Record ExtendedMessage := { ext_id : N; ext_payload : list N }.

#[global] Instance ExtendedMessage_eq_dec : EqDecision ExtendedMessage.
Proof. solve_decision. Defined.

(** [impl From<ExtendedMessage> for Vec<u8>] *)
Definition ExtendedMessage_into_vec (m : ExtendedMessage) : list N :=
  ext_id m :: ext_payload m.

Inductive Core {BV : BitVecApi} :=
  | Choke | Unchoke | Interested | NotInterested
  | Have (piece : N)
  | Bitfield (b : bitvec)
  | Request (b : BlockInfo)
  | Piece (b : Block)
  | Cancel (b : BlockInfo)
  | Extended (m : ExtendedMessage)
  | KeepAlive.

Inductive CoreId :=
  | CoreId_Choke | CoreId_Unchoke | CoreId_Interested | CoreId_NotInterested
  | CoreId_Have | CoreId_Bitfield | CoreId_Request | CoreId_Piece
  | CoreId_Cancel | CoreId_Extended.

(** [id as u8] *)
Definition CoreId_as_u8 (id : CoreId) : N :=
  match id with
  | CoreId_Choke => 0 | CoreId_Unchoke => 1 | CoreId_Interested => 2
  | CoreId_NotInterested => 3 | CoreId_Have => 4 | CoreId_Bitfield => 5
  | CoreId_Request => 6 | CoreId_Piece => 7 | CoreId_Cancel => 8
  | CoreId_Extended => 20
  end.

(** [CoreId::try_from] (derived by [IntEnum] from the discriminants) *)
Definition CoreId_try_from (n : N) : option CoreId :=
  match n with
  | 0 => Some CoreId_Choke | 1 => Some CoreId_Unchoke
  | 2 => Some CoreId_Interested | 3 => Some CoreId_NotInterested
  | 4 => Some CoreId_Have | 5 => Some CoreId_Bitfield
  | 6 => Some CoreId_Request | 7 => Some CoreId_Piece
  | 8 => Some CoreId_Cancel | 20 => Some CoreId_Extended
  | _ => None
  end%N.

Lemma CoreId_try_from_as_u8 id : CoreId_try_from (CoreId_as_u8 id) = Some id.
Proof. by destruct id. Qed.

Section CoreCodec.
Context `{Build, B : BytesApi, BV : BitVecApi}.
Implicit Types (buf : bytes_mut) (m : Core).

(** [u32] addition *)
Definition u32add {E} (a b : N) : outcome E N :=
  arith u32_max (Z.of_N a + Z.of_N b).

(** [Core::len]: the length prefix of the message, a [u32]. *)
Definition Core_len {E} (m : Core) : outcome E N :=
  match m with
  | KeepAlive => Ok 0%N
  | Choke | Unchoke | Interested | NotInterested => Ok 1%N
  | Cancel _ | Request _ => Ok 13%N
  | Have _ => Ok 5%N
  | Bitfield b => u32add 1 (as_u32 (storage_len b))
  | Piece b => u32add 9 (as_u32 (len (bl_block b)))
  | Extended m => u32add 2 (as_u32 (len (ext_payload m)))
  end.

(** [u32::try_from(n)], an [InvalidInput] I/O error when it does not fit *)
Definition try_into_u32 (n : N) : outcome Error N :=
  if (n <=? u32_max)%N then Ok n else Err (IO InvalidInput).

Definition put_block_info buf (b : BlockInfo) : bytes_mut :=
  put_u32 (put_u32 (put_u32 buf (as_u32 (bi_index b)))
    (as_u32 (bi_begin b))) (as_u32 (bi_len b)).

(** The length prefix and the message id. *)
Definition put_head buf (msg_len : N) (id : CoreId) : bytes_mut :=
  put_u8 (put_u32 buf msg_len) (CoreId_as_u8 id).

(** [CoreCodec::encode]: the result and the buffer it leaves, which keeps
    what was written before an error. *)
Definition CoreCodec_encode (item : Core) buf : outcome Error unit * bytes_mut :=
  match Core_len item with
  | Panic => (Panic, buf)
  | Err e => (Err e, buf)
  | Ok msg_len =>
    match item with
    | KeepAlive => (Ok tt, put_u32 buf msg_len)
    | Bitfield b =>
        (Ok tt, extend_from_slice (put_head buf msg_len CoreId_Bitfield) (to_bytes b))
    | Choke => (Ok tt, put_head buf msg_len CoreId_Choke)
    | Unchoke => (Ok tt, put_head buf msg_len CoreId_Unchoke)
    | Interested => (Ok tt, put_head buf msg_len CoreId_Interested)
    | NotInterested => (Ok tt, put_head buf msg_len CoreId_NotInterested)
    | Have piece =>
        let buf := put_head buf msg_len CoreId_Have in
        match try_into_u32 piece with
        | Ok i => (Ok tt, put_u32 buf i)
        | Err e => (Err e, buf)
        | Panic => (Panic, buf)
        end
    | Request b => (Ok tt, put_block_info (put_head buf msg_len CoreId_Request) b)
    | Piece b =>
        let buf := put_head buf msg_len CoreId_Piece in
        match try_into_u32 (bl_index b) with
        | Ok i => (Ok tt, extend_from_slice
            (put_u32 (put_u32 buf i) (as_u32 (bl_begin b))) (bl_block b))
        | Err e => (Err e, buf)
        | Panic => (Panic, buf)
        end
    | Cancel b => (Ok tt, put_block_info (put_head buf msg_len CoreId_Cancel) b)
    | Extended e =>
        (Ok tt, extend_from_slice
          (put_u8 (put_head buf msg_len CoreId_Extended) (ext_id e)) (ext_payload e))
    end
  end.

(** Three big-endian [u32]s: index, begin and length. *)
Definition get_block_info buf : outcome Error (BlockInfo * bytes_mut) :=
  '(index, buf) ← or_panic (get_u32 buf);
  '(begin, buf) ← or_panic (get_u32 buf);
  '(blen, buf) ← or_panic (get_u32 buf);
  Ok ({| bi_index := index; bi_begin := begin; bi_len := blen |}, buf).

(** The payload of a message, once its id is known. *)
Definition CoreCodec_decode_payload (msg_id : CoreId) (size : N) buf
    : outcome Error (option Core * bytes_mut) :=
  match msg_id with
  | CoreId_Choke => Ok (Some Choke, buf)
  | CoreId_Unchoke => Ok (Some Unchoke, buf)
  | CoreId_Interested => Ok (Some Interested, buf)
  | CoreId_NotInterested => Ok (Some NotInterested, buf)
  | CoreId_Have =>
      if (remaining buf <? 4)%N then Ok (None, buf) else
      '(i, buf) ← or_panic (get_u32 buf);
      Ok (Some (Have i), buf)
  | CoreId_Bitfield =>
      if (remaining buf <? 1)%N then Ok (None, buf) else
      n ← usub size 1;
      '(l, buf) ← or_panic (copy_to_bytes buf n);
      Ok (Some (Bitfield (from_bytes_general l)), buf)
  | CoreId_Request =>
      if (remaining buf <? 12)%N then Ok (None, buf) else
      '(b, buf) ← get_block_info buf;
      Ok (Some (Request b), buf)
  | CoreId_Piece =>
      if (remaining buf <? 8)%N then Ok (None, buf) else
      '(index, buf) ← or_panic (get_u32 buf);
      '(begin, buf) ← or_panic (get_u32 buf);
      n ← usub size 9;
      '(block, buf) ← or_panic (copy_to_bytes buf n);
      Ok (Some (Piece {| bl_index := index; bl_begin := begin; bl_block := block |}), buf)
  | CoreId_Cancel =>
      if (remaining buf <? 12)%N then Ok (None, buf) else
      '(b, buf) ← get_block_info buf;
      Ok (Some (Cancel b), buf)
  | CoreId_Extended =>
      if (remaining buf <? 1)%N then Ok (None, buf) else
      '(id, buf) ← or_panic (get_u8 buf);
      n ← usub size 2;
      '(payload, buf) ← or_panic (copy_to_bytes buf n);
      Ok (Some (Extended {| ext_id := id; ext_payload := payload |}), buf)
  end.

(** [u32::from_be_bytes([buf[0], buf[1], buf[2], buf[3]]) as usize] *)
Definition peek_u32 buf : outcome Error N :=
  b0 ← index (view buf) 0;
  b1 ← index (view buf) 1;
  b2 ← index (view buf) 2;
  b3 ← index (view buf) 3;
  Ok (be_val [b0; b1; b2; b3]).

(** [size.saturating_add(4).wrapping_sub(capacity)] *)
Definition reserve_len (size cap : N) : N :=
  Z.to_N ((Z.of_N (N.min (size + 4) usize_max) - Z.of_N cap) mod (Z.of_N usize_max + 1)).

(** [CoreCodec::decode] ([4 + size] cannot overflow: [size] is a [u32]). *)
Definition CoreCodec_decode buf : outcome Error (option Core * bytes_mut) :=
  if (remaining buf <? 4)%N then Ok (None, buf) else
  size ← peek_u32 buf;
  if (size =? 0)%N then
    buf ← or_panic (advance buf 4);
    Ok (Some KeepAlive, buf)
  else if (remaining buf <? 4 + size)%N then
    if (capacity buf <? size)%N
    then Ok (None, reserve buf (reserve_len size (capacity buf)))
    else Ok (None, buf)
  else
    buf ← or_panic (advance buf 4);
    '(msg_id, buf) ← or_panic (get_u8 buf);
    match CoreId_try_from msg_id with
    | None =>
        if (size <=? remaining buf)%N then
          buf ← or_panic (advance buf size);
          Ok (None, buf)
        else Ok (None, clear buf)
    | Some msg_id => CoreCodec_decode_payload msg_id size buf
    end.
End CoreCodec.
