(* ===== verification/CoreFacts.v ===== *)
(** The contract of the peer wire codec: the wire format of a message, and
    that [CoreCodec] writes it, reads it back, waits for incomplete frames, and
    where it panics or desynchronises. *)
From S2P Require Import Prelude Errors Buffers Bits Core.

Section wire.
Context `{Build, B : BytesApi, BV : BitVecApi}.
Implicit Types (buf : bytes_mut) (m : Core) (rest : list N).

(** ** The wire format *)

Definition core_id m : option CoreId :=
  match m with
  | Choke => Some CoreId_Choke | Unchoke => Some CoreId_Unchoke
  | Interested => Some CoreId_Interested | NotInterested => Some CoreId_NotInterested
  | Have _ => Some CoreId_Have | Bitfield _ => Some CoreId_Bitfield
  | Request _ => Some CoreId_Request | Piece _ => Some CoreId_Piece
  | Cancel _ => Some CoreId_Cancel | Extended _ => Some CoreId_Extended
  | KeepAlive => None
  end.

Definition info_bytes (b : BlockInfo) : list N :=
  be_bytes 4 (bi_index b) ++ be_bytes 4 (bi_begin b) ++ be_bytes 4 (bi_len b).

Definition payload m : list N :=
  match m with
  | Have i => be_bytes 4 i
  | Bitfield b => to_bytes b
  | Request b | Cancel b => info_bytes b
  | Piece b => be_bytes 4 (bl_index b) ++ be_bytes 4 (bl_begin b) ++ bl_block b
  | Extended e => ext_id e :: ext_payload e
  | _ => []
  end.

Definition frame (id : N) (p : list N) : list N :=
  be_bytes 4 (1 + len p) ++ id :: p.

Definition wire m : list N :=
  match core_id m with
  | None => be_bytes 4 0
  | Some id => frame (CoreId_as_u8 id) (payload m)
  end.

Definition info_wf (b : BlockInfo) : Prop :=
  (bi_index b <= u32_max ∧ bi_begin b <= u32_max ∧ bi_len b <= u32_max)%N.

(** The messages that fit the format: 32-bit indices and lengths, and a
    bitfield that is not empty. *)
Definition Core_wf m : Prop :=
  match m with
  | Have i => (i <= u32_max)%N
  | Bitfield b => (0 < len (bits b))%N ∧ (storage_len b < u32_max)%N
  | Request b | Cancel b => info_wf b
  | Piece b => (bl_index b <= u32_max ∧ bl_begin b <= u32_max ∧
                len (bl_block b) <= u32_max - 9)%N
  | Extended e => (ext_id e <= u8_max ∧ len (ext_payload e) <= u32_max - 2)%N
  | _ => True
  end.

(** A decoded message is the encoded one; a bitfield comes back padded with
    zeros to whole bytes. *)
Definition core_same m m' : Prop :=
  match m with
  | Bitfield b => ∃ b', m' = Bitfield b' ∧
      bits b' = bits b ++ replicate (N.to_nat (8 * storage_len b - len (bits b))) false
  | _ => m' = m
  end.

Lemma len_be4 v : len (be_bytes 4 v) = 4%N.
Proof. unfold len. by rewrite length_be_bytes. Qed.

Lemma core_id_as_u8 id : (CoreId_as_u8 id <= u8_max)%N.
Proof. by destruct id. Qed.

Lemma be4_bound v : (v <= u32_max)%N → (v < 256 ^ N.of_nat 4)%N.
Proof. unfold u32_max. change (256 ^ N.of_nat 4)%N with 4294967296%N. lia. Qed.

Lemma be4_take v l : (v <= u32_max)%N → be_val (take 4 (be_bytes 4 v ++ l)) = v.
Proof. intros. by apply be_val_take_be_bytes, be4_bound. Qed.

Lemma be4_drop v l : drop 4 (be_bytes 4 v ++ l) = l.
Proof. apply drop_be_bytes. Qed.

Lemma as_u32_id v : (v <= u32_max)%N → as_u32 v = v.
Proof. intros. unfold as_u32, u32_max in *. apply N.mod_small. lia. Qed.

Lemma view_put_head buf n id :
  (n <= u32_max)%N →
  view (put_head buf n id) = view buf ++ be_bytes 4 n ++ [CoreId_as_u8 id].
Proof.
  intros. unfold put_head.
  rewrite view_put_u8, view_put_u32, app_assoc by (done || apply core_id_as_u8). done.
Qed.

Lemma view_put_block_info buf b :
  info_wf b → view (put_block_info buf b) = view buf ++ info_bytes b.
Proof.
  intros (? & ? & ?). unfold put_block_info, info_bytes.
  rewrite !as_u32_id by done.
  rewrite !view_put_u32 by done. by rewrite !app_assoc.
Qed.

Lemma len_info_bytes b : len (info_bytes b) = 12%N.
Proof. unfold info_bytes. by rewrite !len_app, !len_be4. Qed.

Lemma len_payload_pos b :
  (0 < len (bits b))%N → (0 < len (to_bytes b))%N.
Proof. intros. rewrite len_to_bytes, storage_len_spec. by apply div_ceil_pos. Qed.

Lemma u32add_ok {E} a b : (a + b <= u32_max)%N → @u32add _ E a b = Ok (a + b)%N.
Proof. intros. unfold u32add. rewrite arith_ok by lia. f_equal. lia. Qed.

(** The length prefix is the length of what follows it. *)
Lemma Core_len_spec {E} m :
  Core_wf m →
  @Core_len _ _ E m =
    Ok (match core_id m with None => 0 | Some _ => 1 + len (payload m) end)%N ∧
  (match core_id m with None => 0 | Some _ => 1 + len (payload m) end <= u32_max)%N.
Proof.
  unfold u32_max. intros Hwf.
  destruct m; simpl in *; rewrite ?len_be4, ?len_info_bytes, ?len_app; try done.
  - destruct Hwf as [_ Hs]. unfold u32_max in Hs.
    rewrite len_to_bytes, as_u32_id, u32add_ok by (unfold u32_max; lia).
    split; [done|lia].
  - destruct Hwf as (_ & _ & Hs). unfold u32_max in Hs.
    rewrite as_u32_id, u32add_ok by (unfold u32_max; lia).
    rewrite !len_be4. split; [f_equal|]; lia.
  - destruct Hwf as [_ Hs]. unfold u32_max in Hs.
    rewrite as_u32_id, u32add_ok, len_cons by (unfold u32_max; lia).
    split; [f_equal|]; lia.
Qed.

(** ** Encoding *)

Lemma encode_wire_lemma m buf :
  Core_wf m →
  ∃ buf', CoreCodec_encode m buf = (Ok tt, buf') ∧ view buf' = view buf ++ wire m.
Proof.
  intros Hwf. unfold CoreCodec_encode, wire.
  destruct (Core_len_spec (E:=Error) m Hwf) as [-> Hb].
  destruct m; simpl in Hwf, Hb |- *; unfold try_into_u32, frame in *;
    repeat match goal with
    | H : _ ∧ _ |- _ => destruct H
    | H : (?i <= u32_max)%N |- context [(?i <=? u32_max)%N] =>
        rewrite (proj2 (N.leb_le _ _) H)
    end; eexists; (split; [reflexivity|]);
    rewrite ?as_u32_id by done;
    repeat first [rewrite view_extend | rewrite view_put_block_info by done
      | rewrite view_put_u8 by done | rewrite view_put_u32 by done
      | rewrite view_put_head by done]; by rewrite <- ?app_assoc.
Qed.

(** ** Reading a frame *)

Lemma peek_u32_spec buf :
  (4 <= len (view buf))%N → peek_u32 buf = Ok (be_val (take 4 (view buf))).
Proof.
  unfold peek_u32, index, len. intros Hl.
  destruct (view buf) as [|b0 [|b1 [|b2 [|b3 l]]]]; simpl in *; try lia. done.
Qed.

Lemma peek_u32_frame buf size l :
  (size <= u32_max)%N → view buf = be_bytes 4 size ++ l → peek_u32 buf = Ok size.
Proof.
  intros Hs Hv. rewrite peek_u32_spec, Hv, be4_take; [done..|].
  rewrite Hv, len_app, len_be4. lia.
Qed.

Lemma decode_frame buf size idb rest :
  (1 <= size <= u32_max)%N → (size <= 1 + len rest)%N →
  view buf = be_bytes 4 size ++ idb :: rest →
  ∃ buf', view buf' = rest ∧
    CoreCodec_decode buf =
      match CoreId_try_from idb with
      | Some id => CoreCodec_decode_payload id size buf'
      | None =>
          if (size <=? remaining buf')%N then
            b ← or_panic (advance buf' size); Ok (None, b)
          else Ok (None, clear buf')
      end.
Proof.
  intros Hs Hl Hv. unfold CoreCodec_decode, remaining.
  assert (Hlen : len (view buf) = (5 + len rest)%N).
  { rewrite Hv, len_app, len_cons. unfold len. rewrite length_be_bytes. lia. }
  rewrite (proj2 (N.ltb_ge _ _)) by lia.
  rewrite (peek_u32_frame _ size (idb :: rest)) by (done || lia). simpl.
  rewrite (proj2 (N.eqb_neq _ _)) by lia.
  rewrite (proj2 (N.ltb_ge _ _)) by lia.
  rd_advance b1 Hv1; [lia|]. change (N.to_nat 4) with 4%nat in Hv1.
  rewrite Hv, be4_drop in Hv1.
  destruct (get_u8_some _ _ _ Hv1) as (b2 & -> & Hv2). simpl.
  exists b2. done.
Qed.

Lemma get_block_info_spec buf b rest :
  info_wf b → view buf = info_bytes b ++ rest →
  ∃ buf', get_block_info buf = Ok (b, buf') ∧ view buf' = rest.
Proof.
  intros (Hi & Hb & Hl) Hv. unfold get_block_info, info_bytes in *.
  rewrite <- !app_assoc in Hv.
  assert (Hl4 : ∀ v l, (4 <= len (be_bytes 4 v ++ l))%N).
  { intros. rewrite len_app. unfold len. rewrite length_be_bytes. lia. }
  rd_u32 b1 Hv1; [by rewrite Hv|]. rewrite Hv, be4_drop in Hv1.
  rd_u32 b2 Hv2; [by rewrite Hv1|]. rewrite Hv1, be4_drop in Hv2.
  rd_u32 b3 Hv3; [by rewrite Hv2|]. rewrite Hv2, be4_drop in Hv3.
  exists b3. split; [|done]. rewrite Hv, Hv1, Hv2, !be4_take by done. by destruct b.
Qed.

(** ** Round trip *)

Lemma decode_wire m buf rest :
  Core_wf m → view buf = wire m ++ rest →
  ∃ m' buf', CoreCodec_decode buf = Ok (Some m', buf') ∧
    core_same m m' ∧ view buf' = rest.
Proof.
  intros Hwf Hv. unfold wire in Hv.
  destruct (Core_len_spec (E:=Error) m Hwf) as [_ Hb].
  destruct (core_id m) as [id|] eqn:Hid; cycle 1.
  { destruct m; simplify_eq. unfold CoreCodec_decode, remaining.
    assert (len (view buf) = 4 + len rest)%N by (by rewrite Hv, len_app, len_be4).
    rewrite (proj2 (N.ltb_ge _ _)) by lia.
    rewrite (peek_u32_frame _ 0 rest) by done. simpl.
    rd_advance b1 Hv1; [lia|]. exists KeepAlive, b1.
    by rewrite Hv1, Hv, be4_drop. }
  unfold frame in Hv. rewrite <- app_assoc in Hv. simpl in Hv.
  destruct (decode_frame buf (1 + len (payload m)) (CoreId_as_u8 id) (payload m ++ rest))
    as (b & Hvb & ->); [lia|rewrite len_app; lia|done|].
  rewrite CoreId_try_from_as_u8. clear Hv.
  assert (Hrem : remaining b = (len (payload m) + len rest)%N)
    by (unfold remaining; by rewrite Hvb, len_app).
  destruct m; simpl in Hid; simplify_eq; simpl in *; rewrite ?Hrem; try (by eauto).
  - (* Have *)
    rewrite len_be4 in *. rewrite (proj2 (N.ltb_ge _ _)) by lia.
    rd_u32 b1 Hv1; [rewrite Hvb, len_app, len_be4; lia|].
    rewrite Hvb, be4_take by done. rewrite Hvb, be4_drop in Hv1. eauto.
  - (* Bitfield *)
    destruct Hwf as [Hpos%len_payload_pos Hs].
    rewrite (proj2 (N.ltb_ge _ _)) by lia.
    rewrite usub_ok by (unfold u32_max, usize_max, u64_max in *; lia). simpl.
    rd_copy b1 Hv1; [rewrite Hvb, len_app; lia|].
    replace (N.to_nat (1 + len (to_bytes b0) - 1)) with (length (to_bytes b0)) in *
      by (unfold len; lia).
    rewrite Hvb in *. rewrite take_app_length. rewrite drop_app_length in Hv1.
    eexists _, b1. split; [done|]. split; [|done].
    eexists. split; [done|]. apply from_to_bytes.
  - (* Request *)
    rewrite len_info_bytes. rewrite (proj2 (N.ltb_ge _ _)) by lia.
    destruct (get_block_info_spec _ _ _ Hwf Hvb) as (b1 & -> & ?). simpl. eauto.
  - (* Piece *)
    destruct Hwf as (Hi & Hbg & Hs). rewrite !len_app, !len_be4 in *.
    rewrite (proj2 (N.ltb_ge _ _)) by lia.
    rewrite <- !app_assoc in Hvb.
    rd_u32 b1 Hv1; [rewrite Hvb, len_app, len_be4; lia|].
    rewrite Hvb, be4_drop in Hv1.
    rd_u32 b2 Hv2; [rewrite Hv1, len_app, len_be4; lia|].
    rewrite Hv1, be4_drop in Hv2.
    rewrite usub_ok by (unfold u32_max, usize_max, u64_max in *; lia). simpl.
    rd_copy b3 Hv3; [rewrite Hv2, len_app; lia|].
    replace (N.to_nat (1 + (4 + (4 + len (bl_block b0))) - 9))
      with (length (bl_block b0)) in * by (unfold len; lia).
    rewrite Hv2 in *. rewrite take_app_length. rewrite drop_app_length in Hv3.
    rewrite Hvb, Hv1, !be4_take by done. destruct b0. eauto.
  - (* Cancel *)
    rewrite len_info_bytes. rewrite (proj2 (N.ltb_ge _ _)) by lia.
    destruct (get_block_info_spec _ _ _ Hwf Hvb) as (b1 & -> & ?). simpl. eauto.
  - (* Extended *)
    destruct Hwf as [Hi Hs]. rewrite len_cons in *.
    rewrite (proj2 (N.ltb_ge _ _)) by lia.
    rd_u8 b1 Hv1; [exact Hvb|].
    rewrite usub_ok by (unfold u32_max, usize_max, u64_max in *; lia). simpl.
    rd_copy b2 Hv2; [rewrite Hv1, len_app; lia|].
    replace (N.to_nat (1 + (1 + len (ext_payload m)) - 2))
      with (length (ext_payload m)) in * by (unfold len; lia).
    rewrite Hv1 in *. rewrite take_app_length. rewrite drop_app_length in Hv2.
    destruct m. eauto.
Qed.

(** C1. Round trip of the peer wire codec: every well-formed message is
    encoded without error, and decoding the encoding followed by any further
    bytes yields the same message (a bitfield padded to whole bytes) and
    leaves exactly those further bytes in the buffer. *)
Theorem core_codec_roundtrip m buf rest :
  Core_wf m → view buf = [] →
  ∃ buf1 m' buf2,
    CoreCodec_encode m buf = (Ok tt, buf1) ∧
    CoreCodec_decode (extend_from_slice buf1 rest) = Ok (Some m', buf2) ∧
    core_same m m' ∧ view buf2 = rest.
Proof.
  intros Hwf Hv. destruct (encode_wire_lemma m buf Hwf) as (b1 & He & Hv1).
  destruct (decode_wire m (extend_from_slice b1 rest) rest Hwf) as (m' & b2 & ? & ? & ?).
  { by rewrite view_extend, Hv1, Hv. }
  by exists b1, m', b2.
Qed.

(** ** Fragmentation and streams *)

Lemma decode_short buf :
  (len (view buf) < 4)%N → CoreCodec_decode buf = Ok (None, buf).
Proof.
  intros Hl. unfold CoreCodec_decode, remaining. by rewrite (proj2 (N.ltb_lt _ _)).
Qed.

(** A strict prefix of a message is left untouched until the rest arrives. *)
Lemma decode_incomplete m buf q :
  Core_wf m → q ≠ [] → wire m = view buf ++ q →
  ∃ buf', CoreCodec_decode buf = Ok (None, buf') ∧ view buf' = view buf.
Proof.
  intros Hwf Hq Hw. destruct (decide (len (view buf) < 4)%N) as [|Hl].
  { rewrite decode_short by done. eauto. }
  destruct (Core_len_spec (E:=Error) m Hwf) as [_ Hb].
  assert (Hqpos : (0 < len q)%N) by (destruct q; [done|]; rewrite len_cons; lia).
  unfold wire in Hw. destruct (core_id m) as [id|].
  2: { apply (f_equal len) in Hw. rewrite len_app, len_be4 in Hw. lia. }
  set (size := (1 + len (payload m))%N) in *.
  assert (Hlen : (4 + size = len (view buf) + len q)%N).
  { rewrite <- len_app, <- Hw. unfold frame. rewrite len_app, len_be4, len_cons. done. }
  assert (Hpeek : peek_u32 buf = Ok size).
  { rewrite peek_u32_spec by lia. f_equal.
    rewrite <- (take_app_le (view buf) q 4) by (unfold len in *; lia).
    rewrite <- Hw. unfold frame. rewrite be4_take; done. }
  unfold CoreCodec_decode, remaining. rewrite (proj2 (N.ltb_ge _ _)) by lia.
  rewrite Hpeek. simpl. rewrite (proj2 (N.eqb_neq _ _)) by lia.
  rewrite (proj2 (N.ltb_lt _ _)) by lia.
  case_match; eexists; (split; [done|]); by rewrite ?view_reserve.
Qed.

(** A framed reader decodes until the codec asks for more bytes. *)
Fixpoint read_frames (fuel : nat) buf : outcome Error (list Core * bytes_mut) :=
  match fuel with
  | O => Ok ([], buf)
  | S fuel =>
      '(o, buf) ← CoreCodec_decode buf;
      match o with
      | None => Ok ([], buf)
      | Some m =>
          '(ms, buf) ← read_frames fuel buf;
          Ok (m :: ms, buf)
      end
  end.

(** C2. Streams: whatever bytes have arrived so far, if they are the encodings
    of some messages followed by a strict prefix of another one, a framed
    reader returns exactly those messages, in order, and keeps exactly the
    incomplete tail for the next read. *)
Theorem core_codec_stream ms m buf part q :
  Forall Core_wf ms → Core_wf m → q ≠ [] → wire m = part ++ q →
  view buf = (ms ≫= wire) ++ part →
  ∃ ms' buf', read_frames (S (length ms)) buf = Ok (ms', buf') ∧
    Forall2 core_same ms ms' ∧ view buf' = part.
Proof.
  intros Hms Hm Hq Hpart. revert buf.
  induction Hms as [|m1 ms Hm1 Hms IH]; intros buf Hv.
  - destruct (decode_incomplete m buf q) as (b & Hd & Hb); [done|done|by rewrite Hv|].
    exists [], b. cbn [read_frames length]. rewrite Hd. simpl.
    split; [done|]. split; [constructor|]. by rewrite Hb, Hv.
  - simpl in Hv. rewrite <- app_assoc in Hv.
    destruct (decode_wire m1 buf _ Hm1 Hv) as (m1' & b1 & Hd & Hs & Hb1).
    destruct (IH b1 Hb1) as (ms' & b2 & Hr & Hf & Hb2).
    exists (m1' :: ms'), b2. cbn [length].
    change (read_frames (S (S (length ms))) buf) with
      ('(o, buf) ← CoreCodec_decode buf;
       match o with
       | None => Ok ([], buf)
       | Some m => '(ms, buf) ← read_frames (S (length ms)) buf; Ok (m :: ms, buf)
       end).
    rewrite Hd. cbn [mbind outcome_bind]. rewrite Hr. simpl. auto.
Qed.

(** ** Malformed frames *)

(** The buffers of a process are far below the address space. *)
Definition fits buf : Prop := (len (view buf) <= usize_max / 2)%N.

(** The complete frames on which the decoder panics: a [Piece] too short to
    hold its two integers while eight more bytes are buffered, and an
    [Extended] message with no extension id followed by at least one byte. *)
Definition panicking_frame (size idb : N) rest : Prop :=
  (idb = 7 ∧ size < 9 ∧ 8 <= len rest)%N ∨ (idb = 20 ∧ size = 1 ∧ 1 <= len rest)%N.

Lemma get_block_info_some buf :
  (12 <= len (view buf))%N →
  ∃ b buf', get_block_info buf = Ok (b, buf').
Proof.
  intros Hl. unfold get_block_info.
  rd_u32 b1 Hv1; [lia|].
  rd_u32 b2 Hv2; [rewrite Hv1; unfold len in *; rewrite length_drop; lia|].
  rd_u32 b3 Hv3; [rewrite Hv2, Hv1; unfold len in *; rewrite !length_drop; lia|].
  eauto.
Qed.

Lemma usub_copy_panics {A} buf a b (f : list N * bytes_mut → outcome Error A) :
  (a < b)%N → (b <= 9)%N → fits buf →
  (usub a b ≫= fun n => or_panic (copy_to_bytes buf n) ≫= f) = Panic.
Proof.
  unfold fits, usize_max, u64_max in *. intros Ha Hb Hf.
  destruct (@usub_underflow Error _ a b) as [->| ->];
    [lia|unfold usize_max, u64_max; lia|done|]. simpl.
  rewrite copy_to_bytes_none; [done|]. unfold usize_max, u64_max. lia.
Qed.

(** Decoding never fails on a complete frame, whatever its bytes, except
    that it panics, in every build profile, on exactly the frames of
    [panicking_frame]: the length of a [Piece] or [Extended] message is
    trusted and [size - 9], [size - 2] underflow. *)
Theorem core_codec_panics buf size idb rest :
  view buf = be_bytes 4 size ++ idb :: rest →
  (1 <= size <= u32_max)%N → (size <= 1 + len rest)%N → fits buf →
  (panicking_frame size idb rest ∧ CoreCodec_decode buf = Panic) ∨
  (¬ panicking_frame size idb rest ∧
   ∃ o buf', CoreCodec_decode buf = Ok (o, buf')).
Proof.
  intros Hv Hs Hl Hf. unfold fits in Hf. rewrite Hv, len_app, len_be4, len_cons in Hf.
  destruct (decode_frame buf size idb rest Hs Hl Hv) as (b & Hb & ->).
  assert (Hfb : fits b) by (unfold fits; rewrite Hb; lia).
  unfold panicking_frame. destruct (CoreId_try_from idb) as [id|] eqn:Hid; cycle 1.
  { right. split.
    - intros [[-> _]|[-> _]]; done.
    - destruct (N.leb_spec size (remaining b)); [|by eauto].
      rd_advance b1 Hv1; [done|]. eauto. }
  assert (idb = CoreId_as_u8 id) as ->.
  { clear -Hid. unfold CoreId_try_from in Hid. repeat case_match; by simplify_eq. }
  clear Hid. rewrite <- Hb in *. fold (remaining b) in *.
  destruct id; simpl in *; try (right; split; [lia|by eauto]).
  - right. split; [lia|]. destruct (N.ltb_spec (remaining b) 4); [by eauto|].
    rd_u32 b1 Hv1; [done|]. eauto.
  - right. split; [lia|]. destruct (N.ltb_spec (remaining b) 1); [by eauto|].
    rewrite usub_ok by (unfold u32_max, usize_max, u64_max in *; lia). simpl.
    rd_copy b1 Hv1; [unfold remaining in *; lia|]. eauto.
  - right. split; [lia|]. destruct (N.ltb_spec (remaining b) 12); [by eauto|].
    destruct (get_block_info_some b) as (? & ? & ->); [done|]. simpl. eauto.
  - destruct (N.ltb_spec (remaining b) 8) as [|Hr].
    { right. split; [lia|by eauto]. }
    unfold remaining in Hr.
    rd_u32 b1 Hv1; [lia|]. rd_u32 b2 Hv2.
    { rewrite Hv1. unfold len in *. rewrite length_drop. lia. }
    assert (Hl2 : len (view b2) = (len (view b) - 8)%N).
    { rewrite Hv2, Hv1. unfold len. rewrite !length_drop. lia. }
    destruct (N.lt_ge_cases size 9) as [Hlt|Hge].
    + left. split; [unfold remaining; lia|].
      apply usub_copy_panics; [done|done|unfold fits in *; lia].
    + right. split; [lia|].
      rewrite usub_ok by (unfold u32_max, usize_max, u64_max in *; lia). simpl.
      rd_copy b3 Hv3; [unfold remaining in *; lia|]. eauto.
  - right. split; [lia|]. destruct (N.ltb_spec (remaining b) 12); [by eauto|].
    destruct (get_block_info_some b) as (? & ? & ->); [done|]. simpl. eauto.
  - destruct (N.ltb_spec (remaining b) 1) as [|Hr].
    { right. split; [lia|by eauto]. }
    unfold remaining in Hr. destruct (view b) as [|x l] eqn:Hx; [done|].
    rd_u8 b1 Hv1; [exact Hx|]. rewrite len_cons in *.
    destruct (N.lt_ge_cases size 2) as [Hlt|Hge].
    + left. split; [unfold remaining; rewrite Hx, len_cons; lia|].
      apply usub_copy_panics; [done|done|]. unfold fits. rewrite Hv1.
      unfold fits in Hfb. rewrite Hx, len_cons in Hfb. lia.
    + right. split; [lia|].
      rewrite usub_ok by (unfold u32_max, usize_max, u64_max in *; lia). simpl.
      rd_copy b2 Hv2.
      { rewrite Hv1. unfold remaining in Hl. rewrite Hx, len_cons in Hl. lia. }
      eauto.
Qed.

(** A frame with an unknown message id is skipped together with the first
    byte of the message that follows it: [size] bytes are dropped after the
    id was already read, so the reader is out of step with the stream. *)
Theorem core_codec_unknown_id buf p idb next rest :
  CoreId_try_from idb = None → (1 + len p <= u32_max)%N →
  view buf = frame idb p ++ next :: rest →
  ∃ buf', CoreCodec_decode buf = Ok (None, buf') ∧ view buf' = rest.
Proof.
  intros Hid Hp Hv. unfold frame in Hv. rewrite <- app_assoc in Hv. simpl in Hv.
  destruct (decode_frame buf (1 + len p) idb (p ++ next :: rest))
    as (b & Hb & ->); [lia|rewrite len_app; lia|done|].
  rewrite Hid. unfold remaining. rewrite Hb, len_app, len_cons.
  rewrite (proj2 (N.leb_le _ _)) by lia.
  rd_advance b1 Hv1; [rewrite Hb, len_app, len_cons; lia|].
  exists b1. split; [done|]. rewrite Hv1, Hb.
  rewrite drop_app_ge by (unfold len; lia).
  by replace (N.to_nat (1 + len p) - length p)%nat with 1%nat by (unfold len; lia).
Qed.
End wire.

(** ** Witnesses, on byte and bit lists *)

Section examples.
#[local] Existing Instance dev.
#[local] Existing Instance list_bytes.
#[local] Existing Instance list_bits.

Definition ex_piece : Core :=
  Piece {| bl_index := 2; bl_begin := 16384; bl_block := [3; 1; 4]%N |}.
Definition ex_have : Core := Have 258.

Lemma core_codec_roundtrip_witness :
  ∃ m' buf2, CoreCodec_decode (B:=list_bytes)
    ([0; 0; 0; 12; 7; 0; 0; 0; 2; 0; 0; 64; 0; 3; 1; 4] ++ [0; 0])%N = Ok (Some m', buf2)
    ∧ m' = ex_piece ∧ buf2 = [0; 0]%N.
Proof.
  destruct (core_codec_roundtrip (B:=list_bytes) ex_piece [] [0; 0]%N)
    as (b1 & m' & b2 & He & Hd & Hs & Hv); [by vm_compute|done|].
  exists m', b2. assert (b1 = [0; 0; 0; 12; 7; 0; 0; 0; 2; 0; 0; 64; 0; 3; 1; 4]%N) as ->.
  { vm_compute in He. by inversion He. }
  done.
Defined.

Lemma core_codec_stream_witness :
  ∃ ms' buf', read_frames (B:=list_bytes) 3 ([0; 0; 0; 5; 4; 0; 0; 1; 2; 0; 0; 0; 0; 0; 0])%N
    = Ok (ms', buf') ∧ Forall2 core_same [ex_have; KeepAlive] ms' ∧ buf' = [0; 0]%N.
Proof.
  apply (core_codec_stream (B:=list_bytes) [ex_have; KeepAlive] KeepAlive _ [0; 0]%N [0; 0]%N).
  - by repeat constructor.
  - done.
  - done.
  - by vm_compute.
  - by vm_compute.
Defined.

Lemma core_codec_panics_witness :
  CoreCodec_decode (B:=list_bytes) [0; 0; 0; 1; 7; 0; 0; 0; 0; 0; 0; 0; 0]%N = Panic.
Proof.
  destruct (core_codec_panics (B:=list_bytes) [0; 0; 0; 1; 7; 0; 0; 0; 0; 0; 0; 0; 0]%N
    1 7 [0; 0; 0; 0; 0; 0; 0; 0]%N) as [[_ H]|[H _]];
    [by vm_compute|done|done|done|exact H|].
  exfalso. apply H. left. done.
Defined.

Lemma core_codec_unknown_id_witness :
  ∃ buf', CoreCodec_decode (B:=list_bytes) [0; 0; 0; 1; 9; 0; 0; 0; 1; 1]%N
    = Ok (None, buf') ∧ buf' = [0; 0; 1; 1]%N.
Proof.
  apply (core_codec_unknown_id (B:=list_bytes) _ [] 9 0 [0; 0; 1; 1]%N);
    [done|done|by vm_compute].
Defined.
End examples.
