(* ===== verification/Floats.v ===== *)
(** IEEE-754 arithmetic of the Rust types [f32] and [f64], on the Standard
    Library's executable specification of binary floating point, the casts
    between floats and integers, and [std::time::Duration]. *)
From S2P Require Import Prelude.
From Stdlib Require Import SpecFloat.

Abbreviation float := spec_float.

(** ** [f64] and [f32] *)

(** [n as f64], [n as f32]: rounded to nearest, ties to even *)
Definition f64_of (n : N) : float := binary_normalize 53 1024 (Z.of_N n) 0 false.
Definition f32_of (n : N) : float := binary_normalize 24 128 (Z.of_N n) 0 false.

Definition f64_add := SFadd 53 1024.
Definition f64_sub := SFsub 53 1024.
Definition f64_mul := SFmul 53 1024.
Definition f64_div := SFdiv 53 1024.
Definition f32_add := SFadd 24 128.
Definition f32_sub := SFsub 24 128.
Definition f32_mul := SFmul 24 128.
Definition f32_div := SFdiv 24 128.

(** The literal [n/d]: the nearest float, since both are exact. *)
Definition f64_lit (n d : N) : float := f64_div (f64_of n) (f64_of d).
Definition f32_lit (n d : N) : float := f32_div (f32_of n) (f32_of d).

Definition f_lt (x y : float) : bool :=
  match SFcompare x y with Some Lt => true | _ => false end.
Definition f_eq (x y : float) : bool :=
  match SFcompare x y with Some Eq => true | _ => false end.

(** [f64::max], [f64::min]: a NaN argument is ignored *)
Definition f_is_nan (x : float) : bool :=
  match x with S754_nan => true | _ => false end.
Definition f_max (x y : float) : float :=
  if f_is_nan x then y else if f_lt x y then y else x.
Definition f_min (x y : float) : float :=
  if f_is_nan x then y else if f_lt y x then y else x.

(** [x as u64], [x as u32]: truncation, saturating at [0] and [m] *)
Definition f_as_uint (m : N) (x : float) : N :=
  match x with
  | S754_zero _ | S754_nan | S754_infinity true | S754_finite true _ _ => 0
  | S754_infinity false => m
  | S754_finite false p e =>
      N.min m (if (0 <=? e)%Z then N.pos p * 2 ^ Z.to_N e
               else N.pos p / 2 ^ Z.to_N (- e))
  end%N.

(** ** Durations, in nanoseconds *)

Definition NANOS : N := 1000000000.
Definition from_secs (s : N) : N := (s * NANOS)%N.
Definition from_millis (ms : N) : N := (ms * 1000000)%N.
Definition from_micros (us : N) : N := (us * 1000)%N.
Definition as_micros (d : N) : N := (d / 1000)%N.
Definition as_millis (d : N) : N := (d / 1000000)%N.

(** [a / b] to the nearest integer, ties to even *)
Definition div_nearest (a b : N) : N :=
  let q := (a / b)%N in
  match (2 * (a mod b) ?= b)%N with
  | Lt => q
  | Gt => (q + 1)%N
  | Eq => if N.even q then q else (q + 1)%N
  end.

(** [d.as_secs_f32()] *)
Definition as_secs_f32 (d : N) : float :=
  f32_add (f32_of (d / NANOS)) (f32_div (f32_of (d mod NANOS)) (f32_of NANOS)).

(** [Duration::from_secs_f32]: panics on a negative, infinite or NaN argument
    and when the seconds do not fit 64 bits *)
Definition from_secs_f32 (x : float) : option N :=
  match x with
  | S754_zero _ => Some 0%N
  | S754_finite false p e =>
      let d := if (0 <=? e)%Z then (N.pos p * 2 ^ Z.to_N e * NANOS)%N
               else div_nearest (N.pos p * NANOS) (2 ^ Z.to_N (- e)) in
      if (d / NANOS <=? u64_max)%N then Some d else None
  | _ => None
  end.

(** [d.mul_f32(k)] *)
Definition duration_mul_f32 (d : N) (k : float) : option N :=
  from_secs_f32 (f32_mul k (as_secs_f32 d)).

(** [d.clamp(lo, hi)] *)
Definition clamp (lo hi d : N) : N :=
  if (d <? lo)%N then lo else if (hi <? d)%N then hi else d.

Lemma clamp_bounds lo hi d : (lo <= hi)%N → (lo <= clamp lo hi d <= hi)%N.
Proof. unfold clamp. intros. repeat case_match; lia. Qed.
