(* ===== verification/RequestManager.v ===== *)
(** [peer/request_manager.rs]: the bookkeeping of in-flight requests shared by
    blocks and metadata pieces, with its timeouts. *)
From S2P Require Import Prelude Errors Floats.

(** [DEFAULT_REQUEST_QUEUE_LEN] (peer/types.rs) *)
Definition DEFAULT_REQUEST_QUEUE_LEN : N := 500.

(** ** [Vec] operations *)

(** [v.iter().position(|x| *x == a)] *)
Fixpoint position {A} `{EqDecision A} (a : A) (l : list A) : option nat :=
  match l with
  | [] => None
  | x :: l => if decide (x = a) then Some O else S <$> position a l
  end.

(** [v.remove(i)]: panics out of range *)
Definition vec_remove {E A} (l : list A) (i : nat) : outcome E (list A) :=
  if decide (i < length l)%nat then Ok (take i l ++ drop (S i) l) else Panic.

(** [v.swap_remove(i)]: the last element takes the removed one's place *)
Definition vec_swap_remove {E A} (l : list A) (i : nat) : outcome E (list A) :=
  match list.last l with
  | Some z =>
      if decide (i < length l)%nat
      then Ok (take (length l - 1) (<[i := z]> l)) else Panic
  | None => Panic
  end.

Section manager.
Context {T : Type} `{Countable T}.

(** Instants and durations are nanoseconds.  [timeouts] is the heap's
    backing vector, whose order is unspecified: only [rm_peek] depends on the
    heap order. *)
Record RequestManager := {
  queue : list T;
  timeouts : list (N * T);
  requests : list T;
  rm_index : gmap T N;
  fulfilled_index : gset T;
  limit : N;
  recv_times : list N;
  avg_recv_time : N;
  timeout_mult : float;
  req_start_times : gmap T N;
}.
Implicit Types r : RequestManager.

(** [RequestManager::default], [new] *)
Definition rm_default : RequestManager := {|
  queue := []; timeouts := []; requests := []; rm_index := ∅;
  fulfilled_index := ∅; limit := DEFAULT_REQUEST_QUEUE_LEN; recv_times := [];
  avg_recv_time := 0; timeout_mult := f32_lit 3 1; req_start_times := ∅;
|}.
Definition rm_new := rm_default.

(** ** Queries *)

Definition get_timeout {E} r : outcome E N :=
  if (avg_recv_time r =? 0)%N then Ok (from_secs 5)
  else
    timeout ← or_panic (duration_mul_f32 (avg_recv_time r) (timeout_mult r));
    Ok (clamp (from_millis 3000) (from_secs 30) timeout).

Definition rm_len r : N := N.of_nat (size (rm_index r)).
Definition is_full r : bool := (limit r <=? rm_len r)%N.
(** [limit.saturating_sub(len)] *)
Definition get_available_request_len r : N := (limit r - rm_len r)%N.
Definition queue_len r : N := len (queue r).
Definition len_with_queue r : N := (rm_len r + len (queue r))%N.
Definition was_fulfilled r (x : T) : bool := bool_decide (x ∈ fulfilled_index r).
Definition clone_requests r : list T := requests r ++ queue r.

Definition clone_qnt r (qnt : N) : list T :=
  let result := take (N.to_nat qnt) (requests r) in
  if (len result <? qnt)%N
  then result ++ take (N.to_nat (qnt - len result)) (queue r)
  else result.

(** The heap is a max-heap on [Reverse<Instant>]: [peek] is an entry with the
    earliest instant. *)
Definition min_instant (l : list (N * T)) : option N :=
  match l with
  | [] => None
  | e :: l => Some (foldr N.min e.1 l.*1)
  end.
Definition get_last_timestamp r : option N := min_instant (timeouts r).

(** ** Operations on records *)

Definition with_limit r (n : N) : RequestManager := {|
  queue := queue r; timeouts := timeouts r; requests := requests r;
  rm_index := rm_index r; fulfilled_index := fulfilled_index r; limit := n;
  recv_times := recv_times r; avg_recv_time := avg_recv_time r;
  timeout_mult := timeout_mult r; req_start_times := req_start_times r |}.
Definition set_limit := with_limit.

Definition with_queue r (q : list T) : RequestManager := {|
  queue := q; timeouts := timeouts r; requests := requests r;
  rm_index := rm_index r; fulfilled_index := fulfilled_index r; limit := limit r;
  recv_times := recv_times r; avg_recv_time := avg_recv_time r;
  timeout_mult := timeout_mult r; req_start_times := req_start_times r |}.

Definition with_fulfilled r (f : gset T) (i : gmap T N) : RequestManager := {|
  queue := queue r; timeouts := timeouts r; requests := requests r;
  rm_index := i; fulfilled_index := f; limit := limit r;
  recv_times := recv_times r; avg_recv_time := avg_recv_time r;
  timeout_mult := timeout_mult r; req_start_times := req_start_times r |}.

Definition with_times r (times : list N) (avg : N) (mult : float) : RequestManager := {|
  queue := queue r; timeouts := timeouts r; requests := requests r;
  rm_index := rm_index r; fulfilled_index := fulfilled_index r; limit := limit r;
  recv_times := times; avg_recv_time := avg; timeout_mult := mult;
  req_start_times := req_start_times r |}.

(** ** Response times *)

(** The variance of the response times around the average, in ms. *)
Definition variance (times : list N) (avg : float) : float :=
  let sq d := let x := f64_sub (f64_of (as_millis d)) avg in f64_mul x x in
  f64_div (foldl (fun acc d => f64_add acc (sq d)) (SpecFloat.S754_zero false) times)
    (f64_of (len times)).

Definition adjust_timeout_multiplier r : RequestManager :=
  if (len (recv_times r) <? 5)%N then r
  else
    let avg := f64_of (as_millis (avg_recv_time r)) in
    let mult :=
      if f_lt (f64_lit 100 1) (variance (recv_times r) avg)
      then f_min (f32_mul (timeout_mult r) (f32_lit 11 10)) (f32_lit 4 1)
      else f_max (f32_mul (timeout_mult r) (f32_lit 9 10)) (f32_lit 2 1) in
    with_times r (recv_times r) (avg_recv_time r) mult.

Definition update_response_time r (response_time : N) : RequestManager :=
  let times := (if (10 <=? len (recv_times r))%N then drop 1 (recv_times r)
                else recv_times r) ++ [response_time] in
  let alpha := f64_lit 2 10 in
  let avg :=
    if (avg_recv_time r =? 0)%N then response_time
    else
      let current_avg := f64_of (as_micros (avg_recv_time r)) in
      let new_time := f64_of (as_micros response_time) in
      let new_avg := f64_add (f64_mul alpha new_time)
        (f64_mul (f64_sub (f64_lit 1 1) alpha) current_avg) in
      from_micros (f_as_uint u64_max new_avg) in
  adjust_timeout_multiplier (with_times r times avg (timeout_mult r)).

(** ** Requests *)

(** Everything in flight or queued is handed back; the limit, the multiplier
    and the fulfilled set survive. *)
Definition drain r : list T * RequestManager :=
  (requests r ++ queue r,
   {| queue := []; timeouts := []; requests := []; rm_index := ∅;
      fulfilled_index := fulfilled_index r; limit := limit r; recv_times := [];
      avg_recv_time := 0; timeout_mult := timeout_mult r; req_start_times := ∅ |}).

Definition rm_clear r : RequestManager :=
  {| queue := []; timeouts := []; requests := []; rm_index := ∅;
     fulfilled_index := ∅; limit := limit r; recv_times := [];
     avg_recv_time := 0; timeout_mult := timeout_mult r; req_start_times := ∅ |}.

(** [now] and [now'] are the two readings of the clock. *)
Definition add_request {E} (now now' : N) r (block : T) : outcome E (bool * RequestManager) :=
  if bool_decide (is_Some (rm_index r !! block)) || bool_decide (block ∈ fulfilled_index r)
  then Ok (false, r)
  else if is_full r then Ok (false, with_queue r (queue r ++ [block]))
  else
    d ← get_timeout r;
    let timeout := (now + d)%N in
    Ok (true, {|
      queue := queue r;
      timeouts := timeouts r ++ [(timeout, block)];
      requests := requests r ++ [block];
      rm_index := <[block := (len (requests r ++ [block]) - 1)%N]> (rm_index r);
      fulfilled_index := fulfilled_index r;
      limit := limit r;
      recv_times := recv_times r;
      avg_recv_time := avg_recv_time r;
      timeout_mult := timeout_mult r;
      req_start_times := <[block := now']> (req_start_times r) |}).

Definition unfulfill r (req : T) : RequestManager :=
  with_fulfilled r (fulfilled_index r ∖ {[req]}) (delete req (rm_index r)).

(** The loop that renumbers the requests from position [pos] on. *)
Fixpoint reindex (pos : N) (l : list T) (m : gmap T N) : gmap T N :=
  match l with
  | [] => m
  | x :: l => reindex (pos + 1) l (<[x := pos]> m)
  end.

Definition record_response r (req : T) (now : N) : RequestManager :=
  match req_start_times r !! req with
  | Some start =>
      update_response_time {|
        queue := queue r; timeouts := timeouts r; requests := requests r;
        rm_index := rm_index r; fulfilled_index := fulfilled_index r; limit := limit r;
        recv_times := recv_times r; avg_recv_time := avg_recv_time r;
        timeout_mult := timeout_mult r;
        req_start_times := delete req (req_start_times r) |} (now - start)
  | None => r
  end.

Definition fulfill_request {E} (now : N) r (req : T) : outcome E (bool * RequestManager) :=
  let r := with_fulfilled r ({[req]} ∪ fulfilled_index r) (rm_index r) in
  match position req (queue r) with
  | Some pos =>
      q ← vec_swap_remove (queue r) pos;
      Ok (true, with_queue r q)
  | None =>
      match rm_index r !! req with
      | None => Ok (false, r)
      | Some pos =>
          let r := with_fulfilled r (fulfilled_index r) (delete req (rm_index r)) in
          let r := record_response r req now in
          reqs ← vec_remove (requests r) (N.to_nat pos);
          let index := reindex pos (drop (N.to_nat pos) reqs) (rm_index r) in
          q ← match position req (queue r) with
              | Some idx => vec_remove (queue r) idx
              | None => Ok (queue r)
              end;
          Ok (true, {|
            queue := q;
            timeouts := filter (fun v => v.2 ≠ req) (timeouts r);
            requests := reqs;
            rm_index := index;
            fulfilled_index := fulfilled_index r; limit := limit r;
            recv_times := recv_times r; avg_recv_time := avg_recv_time r;
            timeout_mult := timeout_mult r; req_start_times := req_start_times r |})
      end
  end.

(** [drain_qnt_queue]: the first [qnt] queued items. *)
Definition drain_qnt_queue r (qnt : N) : list T * RequestManager :=
  let n := N.to_nat (N.min qnt (len (queue r))) in
  (take n (queue r), with_queue r (drop n (queue r))).

(** Timed out blocks: the heap is walked in its internal order, [heap] being
    that order, until an entry that has not expired.  The walk assigns a new
    timeout to a copy of the entry only, but it is computed, and may panic. *)
Fixpoint expired_prefix (now : N) (heap : list (N * T)) : list T :=
  match heap with
  | [] => []
  | (t, x) :: heap => if (t <=? now)%N then x :: expired_prefix now heap else []
  end.
Definition get_timeout_blocks_and_update {E} (now : N) (heap : list (N * T)) r : outcome E (list T) :=
  _ ← get_timeout r;
  Ok (expired_prefix now (take (N.to_nat (get_available_request_len r)) heap)).
End manager.
Arguments RequestManager T {_ _}.
