(* ===== verification/RequestManagerFacts.v ===== *)
(** Invariants and contracts of the request manager: the inverse index is
    always safe to use, and, as long as no in-flight request is forgotten by
    [unfulfill], it is exact. *)
From S2P Require Import Prelude Errors Floats RequestManager.

(** ** [Vec] lemmas *)
Section vec.
Context {A : Type} `{EqDecision A}.
Implicit Types l : list A.

Lemma position_Some a l i : position a l = Some i → l !! i = Some a.
Proof.
  revert i. induction l as [|x l IH]; intros i; simpl; [done|].
  case_decide as Hx; [intros; by simplify_eq/=|].
  destruct (position a l); intros; simplify_eq/=; eauto.
Qed.

Lemma position_None a l : position a l = None → a ∉ l.
Proof.
  induction l as [|x l IH]; simpl; [set_solver|].
  case_decide; [done|]. destruct (position a l); [done|]. set_solver.
Qed.

Lemma vec_remove_ok {E} l i a :
  l !! i = Some a → @vec_remove E A l i = Ok (take i l ++ drop (S i) l).
Proof. intros Hl%lookup_lt_Some. unfold vec_remove. by rewrite decide_True. Qed.

Lemma vec_remove_perm l i a :
  l !! i = Some a → l ≡ₚ a :: take i l ++ drop (S i) l.
Proof. intros Hl. rewrite <- (take_drop_middle l i a) at 1 by done. by rewrite Permutation_middle. Qed.

Lemma vec_remove_filter l i a :
  NoDup l → l !! i = Some a →
  take i l ++ drop (S i) l = filter (fun y => y ≠ a) l.
Proof.
  intros Hnd Hl. rewrite <- (take_drop_middle l i a) in Hnd by done.
  apply NoDup_app in Hnd as (_ & Hd & [Hn _]%NoDup_cons).
  rewrite <- (take_drop_middle l i a) at 3 by done.
  rewrite filter_app, filter_cons_False by (intros Hne; by apply Hne).
  rewrite !filter_all; [done|..].
  - by intros y Hy ->.
  - intros y Hy ->. by apply (Hd a); [|left].
Qed.

Lemma vec_swap_remove_ok {E} l i a :
  l !! i = Some a → ∃ l', @vec_swap_remove E A l i = Ok l' ∧ l ≡ₚ a :: l'.
Proof.
  intros Hl. pose proof (lookup_lt_Some _ _ _ Hl) as Hi.
  destruct l as [|z l _] using rev_ind; [done|].
  unfold vec_swap_remove. rewrite last_snoc, decide_True by done.
  eexists. split; [done|]. rewrite length_app in *. simpl in *.
  destruct (decide (i = length l)) as [->|Hne].
  - rewrite list_lookup_middle in Hl by done. simplify_eq.
    rewrite insert_app_r_alt, Nat.sub_diag by lia. simpl.
    rewrite take_app_length' by lia. by rewrite Permutation_app_comm.
  - rewrite lookup_app_l in Hl by lia. rewrite insert_app_l by lia.
    rewrite take_app_length' by (rewrite length_insert; lia).
    rewrite insert_take_drop by lia.
    rewrite <- (take_drop_middle l i a) at 1 by done.
    by rewrite <- app_assoc, <- app_comm_cons, <- Permutation_middle,
      (Permutation_app_comm (drop _ _)).
Qed.
End vec.

Section facts.
Context {T : Type} `{Countable T}.
Implicit Types (r : RequestManager T) (x y : T).

(** ** Reindexing *)

Lemma reindex_notin (pos : N) (l : list T) (m : gmap T N) x :
  x ∉ l → reindex pos l m !! x = m !! x.
Proof.
  revert pos m. induction l as [|y l IH]; intros pos m; [done|].
  intros Hx. simpl. rewrite IH by set_solver. rewrite lookup_insert_ne; set_solver.
Qed.

Lemma reindex_in (pos : N) (l : list T) (m : gmap T N) x :
  x ∈ l → ∃ k, reindex pos l m !! x = Some (pos + N.of_nat k)%N ∧ l !! k = Some x.
Proof.
  revert pos m. induction l as [|y l IH]; intros pos m Hx; [set_solver|]. simpl.
  destruct (decide (x ∈ l)) as [Hl|Hl].
  - destruct (IH (pos + 1)%N (<[y := pos]> m) Hl) as (k & -> & Hk).
    exists (S k). split; [f_equal; lia|done].
  - assert (x = y) as -> by set_solver. rewrite reindex_notin, lookup_insert_eq by done.
    exists O. split; [f_equal; lia|done].
Qed.

Lemma record_response_fields r x now :
  let r' := record_response r x now in
  queue r' = queue r ∧ timeouts r' = timeouts r ∧ requests r' = requests r ∧
  rm_index r' = rm_index r ∧ fulfilled_index r' = fulfilled_index r ∧
  limit r' = limit r ∧ req_start_times r' = delete x (req_start_times r).
Proof.
  unfold record_response. destruct (req_start_times r !! x) eqn:Hx.
  - unfold update_response_time, adjust_timeout_multiplier.
    case_match; repeat split.
  - repeat split. symmetry. by apply delete_id.
Qed.

(** ** Invariants *)

(** The index never points at a wrong or missing request. *)
Definition rm_sound r : Prop :=
  ∀ x i, rm_index r !! x = Some i → requests r !! N.to_nat i = Some x.

(** The four tables describe the same set of in-flight requests. *)
Record rm_exact r : Prop := {
  exact_sound : rm_sound r;
  exact_nodup : NoDup (requests r);
  exact_index : ∀ x, x ∈ requests r → is_Some (rm_index r !! x);
  exact_timeouts : (timeouts r).*2 ≡ₚ requests r;
  exact_starts : dom (req_start_times r) = list_to_set (requests r);
}.

Lemma exact_in_flight r x :
  rm_exact r → (x ∈ requests r ↔ is_Some (rm_index r !! x)).
Proof.
  intros He. split; [by apply exact_index|].
  intros [i Hi]. by eapply list_elem_of_lookup_2, exact_sound.
Qed.

Lemma exact_size r : rm_exact r → rm_len r = len (requests r).
Proof.
  intros He. unfold rm_len, len. f_equal. rewrite <- (size_dom (D:=gset T)).
  replace (dom (rm_index r)) with (list_to_set (C:=gset T) (requests r)).
  - apply size_list_to_set, He.
  - apply set_eq. intros x. rewrite elem_of_list_to_set, elem_of_dom.
    by apply exact_in_flight.
Qed.

Lemma rm_default_exact : rm_exact rm_default.
Proof.
  split; simpl; try done; [by constructor|set_solver..].
Qed.

Lemma empty_exact r :
  requests r = [] → timeouts r = [] → rm_index r = ∅ → req_start_times r = ∅ →
  rm_exact r.
Proof.
  intros H1 H2 H3 H4. split; rewrite ?H1, ?H2, ?H3, ?H4; try done.
  - intros x i. rewrite H3. by rewrite lookup_empty.
  - constructor.
  - set_solver.
Qed.

(** ** Adding *)

Lemma add_sound {E} now now' r x b r' :
  rm_sound r → @add_request T _ _ E now now' r x = Ok (b, r') → rm_sound r'.
Proof.
  intros Hs. unfold add_request. repeat case_match; intros Hr; tidy; [done..|].
  apply bind_ok in Hr as (d & _ & Hr). tidy. intros y i. simpl.
  rewrite lookup_insert. destruct (decide (x = y)) as [<-|Hy].
  - intros [= <-]. apply lookup_app_Some. right. unfold len. rewrite length_app. simpl. split; [lia|].
    by replace (N.to_nat _ - length (requests r))%nat with O by lia.
  - intros Hi. apply lookup_app_l_Some. by apply Hs.
Qed.

Lemma add_exact {E} now now' r x b r' :
  rm_exact r → @add_request T _ _ E now now' r x = Ok (b, r') → rm_exact r'.
Proof.
  intros He Hadd. pose proof (add_sound _ _ _ _ _ _ (exact_sound _ He) Hadd) as Hs.
  revert Hadd. unfold add_request. case_match eqn:Hdup.
  { intros Hr; tidy; done. }
  case_match; intros Hr; tidy; [by destruct He|].
  apply bind_ok in Hr as (d & _ & Hr). tidy.
  apply orb_false_iff in Hdup as [Hx%bool_decide_eq_false _].
  rewrite <- exact_in_flight in Hx by done.
  split; simpl; [done|..].
  - apply NoDup_app. split; [apply He|]. split; [set_solver|].
    apply NoDup_singleton.
  - intros y. rewrite elem_of_app, list_elem_of_singleton, lookup_insert.
    case_decide; [eauto|]. intros [Hy|]; [|congruence]. by apply exact_index.
  - rewrite fmap_app. simpl. by rewrite (exact_timeouts _ He).
  - rewrite dom_insert_L, (exact_starts _ He), list_to_set_app_L. set_solver.
Qed.

(** ** Fulfilling *)

(** The state once the request has been found at position [pos]. *)
Lemma fulfill_in_flight_sound r x pos :
  rm_sound r → rm_index r !! x = Some pos →
  let reqs := take (N.to_nat pos) (requests r) ++ drop (S (N.to_nat pos)) (requests r) in
  ∀ y i, reindex pos (drop (N.to_nat pos) reqs) (delete x (rm_index r)) !! y = Some i →
         reqs !! N.to_nat i = Some y.
Proof.
  intros Hs Hx. pose proof (Hs _ _ Hx) as Hp.
  pose proof (lookup_lt_Some _ _ _ Hp) as Hlt. simpl. intros y i.
  rewrite drop_app_length' by (rewrite length_take; lia).
  destruct (decide (y ∈ drop (S (N.to_nat pos)) (requests r))) as [Hy|Hy].
  - destruct (reindex_in pos _ (delete x (rm_index r)) y Hy) as (k & -> & Hk).
    intros; simplify_eq. rewrite lookup_app_r by (rewrite length_take; lia).
    rewrite length_take. replace (N.to_nat _ - _)%nat with k by lia. done.
  - rewrite reindex_notin by done. rewrite lookup_delete. case_decide; [done|].
    intros Hi%Hs.
    assert (Hlow : (N.to_nat i < N.to_nat pos)%nat).
    { destruct (Nat.lt_trichotomy (N.to_nat i) (N.to_nat pos)) as [?|[Heq|Hgt]];
        [done|rewrite Heq in Hi; congruence|].
      exfalso. apply Hy. apply list_elem_of_lookup. exists (N.to_nat i - S (N.to_nat pos))%nat.
      rewrite lookup_drop. by replace (_ + _)%nat with (N.to_nat i) by lia. }
    rewrite lookup_app_l by (rewrite length_take; lia).
    by rewrite lookup_take_lt.
Qed.

(** In a sound state [fulfill_request] returns, and this is what it does. *)
Lemma fulfill_spec {E} now r x :
  rm_sound r →
  ∃ b r', @fulfill_request T _ _ E now r x = Ok (b, r') ∧
    rm_sound r' ∧
    fulfilled_index r' = {[x]} ∪ fulfilled_index r ∧ limit r' = limit r ∧
    b = bool_decide (x ∈ queue r ∨ is_Some (rm_index r !! x)) ∧
    (if decide (x ∈ queue r) then
       queue r ≡ₚ x :: queue r' ∧ requests r' = requests r ∧
       rm_index r' = rm_index r ∧ timeouts r' = timeouts r ∧
       req_start_times r' = req_start_times r
     else
       queue r' = queue r ∧
       match rm_index r !! x with
       | None => requests r' = requests r ∧ rm_index r' = rm_index r ∧
                 timeouts r' = timeouts r ∧ req_start_times r' = req_start_times r
       | Some pos =>
           requests r' = take (N.to_nat pos) (requests r) ++ drop (S (N.to_nat pos)) (requests r) ∧
           rm_index r' = reindex pos (drop (S (N.to_nat pos)) (requests r)) (delete x (rm_index r)) ∧
           timeouts r' = filter (fun v => v.2 ≠ x) (timeouts r) ∧
           req_start_times r' = delete x (req_start_times r)
       end).
Proof.
  intros Hs. unfold fulfill_request. simpl.
  destruct (position x (queue r)) as [qpos|] eqn:Hq.
  - apply position_Some in Hq. pose proof (list_elem_of_lookup_2 _ _ _ Hq) as Hin.
    destruct (vec_swap_remove_ok (E:=E) _ _ _ Hq) as (q & -> & Hperm). simpl.
    eexists _, _. split; [done|]. split; [done|]. simpl.
    destruct (decide (x ∈ queue r)); [|done].
    rewrite bool_decide_true by (by left). done.
  - apply position_None in Hq. destruct (decide (x ∈ queue r)); [done|].
    destruct (rm_index r !! x) as [pos|] eqn:Hpos.
    + set (r1 := with_fulfilled _ _ _).
      destruct (record_response_fields r1 x now) as (Eq & Et & Er & Ei & Ef & El & Es).
      rewrite Er, Eq, Ei, Et, Ef, El, Es. subst r1. simpl.
      rewrite (vec_remove_ok _ _ x) by (by apply Hs). simpl.
      destruct (position x (queue r)) eqn:Hq2.
      { apply position_Some, list_elem_of_lookup_2 in Hq2. done. }
      simpl. eexists _, _. split; [done|].
      pose proof (fulfill_in_flight_sound r x pos Hs Hpos) as Hs'.
      split; [exact Hs'|]. simpl. rewrite bool_decide_true by eauto.
      rewrite drop_app_length'; [done|].
      rewrite length_take. pose proof (lookup_lt_Some _ _ _ (Hs _ _ Hpos)). lia.
    + eexists _, _. split; [done|]. split; [done|]. simpl.
      rewrite bool_decide_false; [done|]. intros [?|[? ?]]; congruence.
Qed.

Lemma fulfill_exact {E} now r x b r' :
  rm_exact r → @fulfill_request T _ _ E now r x = Ok (b, r') → rm_exact r'.
Proof.
  intros He Hf. destruct (fulfill_spec (E:=E) now r x (exact_sound _ He))
    as (b1 & r1 & Hf1 & Hs & _ & _ & _ & Hcase).
  rewrite Hf in Hf1. injection Hf1 as <- <-.
  destruct (decide (x ∈ queue r)).
  { destruct Hcase as (_ & Er & Ei & Et & Es). destruct He.
    split; rewrite ?Er, ?Ei, ?Et, ?Es; done. }
  destruct Hcase as [_ Hcase]. destruct (rm_index r !! x) as [pos|] eqn:Hpos; cycle 1.
  { destruct Hcase as (Er & Ei & Et & Es). destruct He.
    split; rewrite ?Er, ?Ei, ?Et, ?Es; done. }
  destruct Hcase as (Er & Ei & Et & Es).
  pose proof (exact_sound _ He _ _ Hpos) as Hp.
  assert (Er' : requests r' = filter (fun y => y ≠ x) (requests r)).
  { rewrite Er. apply vec_remove_filter; [apply He|done]. }
  split; [done|..].
  - rewrite Er'. by apply NoDup_filter, He.
  - intros y Hy. assert (y ≠ x ∧ y ∈ requests r) as [Hne Hyr].
    { rewrite Er' in Hy. by apply list_elem_of_filter in Hy. }
    rewrite Ei. destruct (decide (y ∈ drop (S (N.to_nat pos)) (requests r))) as [Hy'|Hy'].
    { destruct (reindex_in pos _ (delete x (rm_index r)) _ Hy') as (k & -> & _). eauto. }
    rewrite reindex_notin, lookup_delete_ne by congruence. by apply exact_index.
  - rewrite Et, Er'. rewrite <- (exact_timeouts _ He).
    clear. induction (timeouts r) as [|[t y] l IH]; [done|].
    rewrite filter_cons. simpl. rewrite filter_cons.
    destruct (decide (y ≠ x)) as [Hy|Hy]; simpl; [|done]. by rewrite IH.
  - rewrite Es, Er', dom_delete_L, (exact_starts _ He).
    apply set_eq. intros y. rewrite elem_of_difference, !elem_of_list_to_set,
      list_elem_of_filter, elem_of_singleton. tauto.
Qed.

(** ** Histories *)

(** What a peer does with a manager. *)
Inductive rm_op :=
  | OpAdd (now now' : N) (x : T)
  | OpFulfill (now : N) (x : T)
  | OpUnfulfill (x : T)
  | OpDrain | OpClear
  | OpLimit (n : N)
  | OpTake (qnt : N).

Definition rm_apply (op : rm_op) r : outcome Error (RequestManager T) :=
  match op with
  | OpAdd now now' x => snd <$> add_request now now' r x
  | OpFulfill now x => snd <$> fulfill_request now r x
  | OpUnfulfill x => Ok (unfulfill r x)
  | OpDrain => Ok (drain r).2
  | OpClear => Ok (rm_clear r)
  | OpLimit n => Ok (set_limit r n)
  | OpTake qnt => Ok (drain_qnt_queue r qnt).2
  end.

(** The states of a manager: any sequence of operations from [new]. *)
Inductive rm_reachable : RequestManager T → Prop :=
  | rm_init : rm_reachable rm_new
  | rm_step r op r' : rm_reachable r → rm_apply op r = Ok r' → rm_reachable r'.

Lemma rm_reachable_sound r : rm_reachable r → rm_sound r.
Proof.
  induction 1 as [|r op r' _ IH Hop]; [by apply rm_default_exact|].
  destruct op; simpl in Hop.
  - destruct (add_request _ _ _ _) as [[b r1]| |] eqn:Ha; simplify_eq/=.
    by eapply add_sound.
  - destruct (fulfill_spec (E:=Error) now r x IH) as (b & r1 & Hf & Hs & _).
    rewrite Hf in Hop. by simplify_eq/=.
  - simplify_eq. intros y i. simpl. rewrite lookup_delete.
    destruct (decide _); [done|]. apply IH.
  - simplify_eq. intros y i. simpl. by rewrite lookup_empty.
  - simplify_eq. intros y i. simpl. by rewrite lookup_empty.
  - by simplify_eq.
  - by simplify_eq.
Qed.

(** C3. Safety of the inverse index: after any history of operations, even
    one that forgets in-flight requests with [unfulfill], [fulfill_request]
    returns instead of panicking on a stale position. *)
Theorem rm_fulfill_safe r now x :
  rm_reachable r →
  rm_sound r ∧ ∃ b r', @fulfill_request T _ _ Error now r x = Ok (b, r') ∧ rm_sound r'.
Proof.
  intros Hr%rm_reachable_sound. split; [done|].
  destruct (fulfill_spec (E:=Error) now r x Hr) as (b & r' & ? & ? & _). eauto.
Qed.

(** An operation keeps the books if it does not forget an in-flight request
    and does not lower the limit. *)
Definition keeps_books (op : rm_op) r : Prop :=
  match op with
  | OpUnfulfill x => x ∉ requests r
  | OpLimit n => (limit r <= n)%N
  | _ => True
  end.

Definition rm_inv r : Prop := rm_exact r ∧ (rm_len r <= limit r)%N.

Lemma rm_empty_len r : rm_index r = ∅ → rm_len r = 0%N.
Proof. unfold rm_len. intros ->. by rewrite map_size_empty. Qed.

(** Requests in flight become more only up to the limit. *)
Lemma rm_add_grows {E} now now' r x b r' :
  rm_exact r → @add_request T _ _ E now now' r x = Ok (b, r') →
  limit r' = limit r ∧ (len (requests r') <= N.max (len (requests r)) (limit r))%N.
Proof.
  intros He. unfold add_request. case_match; [intros; simplify_eq; split; [done|lia]|].
  destruct (is_full r) eqn:Hfull; [intros; simplify_eq; split; [done|simpl; lia]|].
  intros (d & _ & Hr)%bind_ok. simplify_eq. simpl. split; [done|].
  unfold is_full in Hfull. apply N.leb_gt in Hfull. rewrite exact_size in Hfull by done.
  rewrite len_app, len_cons, len_nil. lia.
Qed.
Lemma rm_fulfill_grows {E} now r x b r' :
  rm_exact r → @fulfill_request T _ _ E now r x = Ok (b, r') →
  limit r' = limit r ∧ (len (requests r') <= len (requests r))%N.
Proof.
  intros He Hf.
  destruct (fulfill_spec (E:=E) now r x (exact_sound _ He))
    as (b1 & r1 & Hf1 & _ & _ & Hl & _ & Hcase).
  rewrite Hf in Hf1. injection Hf1 as <- <-. split; [done|].
  destruct (decide (x ∈ queue r)); [destruct Hcase as (_ & -> & _); done|].
  destruct Hcase as [_ Hcase]. case_match; destruct Hcase as [-> _]; [|done].
  unfold len in *. rewrite length_app, length_take, length_drop. lia.
Qed.
Lemma add_capacity {E} now now' r x b r' :
  rm_inv r → @add_request T _ _ E now now' r x = Ok (b, r') → (rm_len r' <= limit r')%N.
Proof.
  intros [He Hc] Hadd. pose proof (add_exact _ _ _ _ _ _ He Hadd) as He'.
  destruct (rm_add_grows _ _ _ _ _ _ He Hadd) as [-> Hg]. rewrite exact_size in * by done. lia.
Qed.

(** A request in flight that [unfulfill] forgets is in flight uncounted. *)
Lemma unfulfill_forgets r x :
  rm_exact r → x ∈ requests r →
  ¬ rm_exact (unfulfill r x) ∧ requests (unfulfill r x) = requests r ∧ (rm_len (unfulfill r x) + 1 = rm_len r)%N.
Proof.
  intros He Hx. pose proof Hx as Hi. apply exact_in_flight in Hi as [i Hi]; [|done]. split_and!; [|done|].
  - intros He'. apply (exact_index _ He') in Hx as [j Hj]. simpl in Hj. by rewrite lookup_delete_eq in Hj.
  - unfold rm_len. simpl. rewrite (map_size_delete_Some x (rm_index r)) by by eexists.
    assert (size (rm_index r) ≠ 0) by (intros He0%map_size_empty_inv; by rewrite He0, lookup_empty in Hi). lia.
Qed.
Lemma unfulfill_exact r x : rm_exact r → x ∉ requests r → rm_exact (unfulfill r x).
Proof.
  intros He Hx. rewrite exact_in_flight in Hx by done.
  replace (unfulfill r x) with (with_fulfilled r (fulfilled_index r ∖ {[x]}) (rm_index r)).
  - by destruct He.
  - unfold unfulfill. rewrite delete_id; [done|]. by apply eq_None_not_Some.
Qed.

(** C4. Exact books.  Every operation but one keeps the request list
    duplicate-free and the inverse index, the timeouts and the start times in
    step with it, and requests become more only up to the limit in force (a
    limit that is lowered leaves what is in flight): so they are never more than
    the limit as long as it is not lowered below them.  The exception is
    [unfulfill] of a request that is in flight, as a peer may do for the blocks
    of a corrupted piece: the request stays in the list and is no longer counted. *)
Theorem rm_inv_preserved r op r' :
  rm_exact r → rm_apply op r = Ok r' →
  (len (requests r') <= N.max (len (requests r)) (limit r'))%N ∧
  match op with
  | OpUnfulfill x =>
      if decide (x ∈ requests r) then ¬ rm_exact r' ∧ requests r' = requests r ∧ (rm_len r' + 1 = rm_len r)%N
      else rm_exact r'
  | _ => rm_exact r'
  end ∧
  ((rm_len r <= limit r)%N → keeps_books op r → rm_inv r').
Proof.
  intros He Hop.
  assert ((len (requests r') <= N.max (len (requests r)) (limit r'))%N ∧ (rm_exact r' → keeps_books op r → (limit r <= limit r')%N) ∧
    match op with OpUnfulfill x => if decide (x ∈ requests r) then True else rm_exact r' | _ => rm_exact r' end) as (Hg & Hl & Hex).
  { destruct op as [now now' x|now x|x| | |n|qnt]; simpl in Hop.
    - destruct (add_request _ _ _ _) as [[b r1]| |] eqn:Ha; simplify_eq/=.
      destruct (rm_add_grows _ _ _ _ _ _ He Ha) as [-> Hg]. split_and!; [done|done|by eapply add_exact].
    - destruct (fulfill_request _ _ _) as [[b r1]| |] eqn:Hf; simplify_eq/=.
      destruct (rm_fulfill_grows _ _ _ _ _ He Hf) as [-> Hg]. split_and!; [lia|done|by eapply fulfill_exact].
    - simplify_eq. split_and!; [simpl; lia|done|]. case_decide; [done|by apply unfulfill_exact].
    - simplify_eq. split_and!; [simpl; unfold len; simpl; lia|done|by apply empty_exact].
    - simplify_eq. split_and!; [simpl; unfold len; simpl; lia|done|by apply empty_exact].
    - simplify_eq. split_and!; [simpl; lia|done|by destruct He].
    - simplify_eq. split_and!; [simpl; lia|done|by destruct He]. }
  split_and!; [done| |].
  - destruct op; try done. case_decide; [|done]. injection Hop as <-. by apply unfulfill_forgets.
  - intros Hc Hk. assert (rm_exact r') as He' by (destruct op; try done; simpl in Hk; by rewrite decide_False in Hex).
    split; [done|]. specialize (Hl He' Hk). rewrite exact_size by done. rewrite exact_size in Hc by done. lia.
Qed.

(** The requests a manager is responsible for. *)
Definition pending r : list T := requests r ++ queue r.

(** Completing a request: with exact books [fulfill_request] marks the
    item fulfilled, answers whether it was queued or in flight, and removes
    it from one of the two lists; everything else stays where it was, in
    order, and an item that was neither leaves the manager's lists alone. *)
Theorem rm_fulfill_request r now x :
  rm_exact r →
  ∃ b r', @fulfill_request T _ _ Error now r x = Ok (b, r') ∧
    b = bool_decide (x ∈ pending r) ∧ was_fulfilled r' x = true ∧
    (x ∈ queue r → queue r ≡ₚ x :: queue r' ∧ requests r' = requests r) ∧
    (x ∉ queue r → queue r' = queue r ∧
       requests r' = filter (fun y => y ≠ x) (requests r)).
Proof.
  intros He. destruct (fulfill_spec (E:=Error) now r x (exact_sound _ He))
    as (b & r' & Hf & _ & Hful & _ & -> & Hcase).
  eexists _, r'. split; [done|]. split.
  { apply bool_decide_ext. unfold pending. rewrite elem_of_app, exact_in_flight by done.
    tauto. }
  split; [unfold was_fulfilled; apply bool_decide_eq_true; rewrite Hful; set_solver|].
  destruct (decide (x ∈ queue r)); split; try done.
  - intros _. by destruct Hcase as (? & ? & _).
  - intros _. destruct Hcase as [Hq Hcase]. split; [done|].
    destruct (rm_index r !! x) as [pos|] eqn:Hpos.
    + destruct Hcase as [-> _]. apply vec_remove_filter; [apply He|].
      by apply exact_sound.
    + destruct Hcase as [-> _]. symmetry. apply filter_all. intros y Hy ->.
      apply exact_in_flight in Hy; [|done]. rewrite Hpos in Hy. by destruct Hy.
Qed.

(** No request is lost when a peer gives up: [drain] hands back exactly
    the pending requests, in order, leaves nothing pending and keeps what is
    needed to reject duplicates; and the requests taken from the queue are
    exactly those that leave it. *)
Theorem rm_drain_conserves r qnt :
  (let (xs, r') := drain r in
   xs = pending r ∧ pending r' = [] ∧ rm_len r' = 0%N ∧
   limit r' = limit r ∧ fulfilled_index r' = fulfilled_index r) ∧
  (let (xs, r') := drain_qnt_queue r qnt in
   xs ++ queue r' = queue r ∧ requests r' = requests r ∧
   len xs = N.min qnt (len (queue r))).
Proof.
  split; simpl.
  - split; [done|]. split; [done|]. split; [by apply rm_empty_len|done].
  - split; [apply take_drop|]. split; [done|]. unfold len. rewrite length_take. lia.
Qed.

(** Bounds of the request timeout: five seconds before the first response,
    afterwards always between three and thirty seconds; the only other outcome
    is the panic of [Duration::mul_f32] when the product does not fit. *)
Theorem rm_get_timeout_bounds r :
  match @get_timeout T _ _ Error r with
  | Ok d => (avg_recv_time r = 0%N ∧ d = from_secs 5) ∨
            (from_millis 3000 <= d <= from_secs 30)%N
  | Err _ => False
  | Panic => duration_mul_f32 (avg_recv_time r) (timeout_mult r) = None
  end.
Proof.
  unfold get_timeout. destruct (N.eqb_spec (avg_recv_time r) 0) as [H0|H0]; [by left|].
  destruct (duration_mul_f32 _ _); simpl; [|done]. right. by apply clamp_bounds.
Qed.
(** [unfulfill] of a request that is still in flight forgets it in the
    index only: the request list keeps it, so adding the block again, which
    the index no longer forbids, puts it there a second time while [len]
    counts it once. *)
Theorem rm_unfulfill_stale r now now' x d :
  x ∈ requests r → is_full (unfulfill r x) = false →
  @get_timeout T _ _ Error r = Ok d →
  ∃ r', @add_request T _ _ Error now now' (unfulfill r x) x = Ok (true, r') ∧
    requests r' = requests r ++ [x] ∧
    rm_len r' = (rm_len (unfulfill r x) + 1)%N ∧
    ¬ NoDup (requests r').
Proof.
  intros Hx Hfull Hd. unfold add_request. simpl rm_index. simpl fulfilled_index.
  rewrite lookup_delete_eq, bool_decide_false by (by intros [? ?]).
  rewrite bool_decide_false by set_solver. simpl orb. rewrite Hfull.
  replace (get_timeout (unfulfill r x)) with (@get_timeout T _ _ Error r) by done.
  rewrite Hd. simpl. eexists. split; [done|]. split; [done|]. split.
  - unfold rm_len. simpl. rewrite map_size_insert_None by apply lookup_delete_eq. lia.
  - intros (_ & Hdis & _)%NoDup_app. apply (Hdis x Hx). left.
Qed.
End facts.

(** ** Concrete histories *)

Section examples.
Fixpoint rm_run (ops : list (rm_op (T:=N))) (r : RequestManager N) : outcome Error (RequestManager N) :=
  match ops with
  | [] => Ok r
  | op :: ops => r ← rm_apply op r; rm_run ops r
  end.

Lemma rm_run_reachable ops r r' :
  rm_reachable r → rm_run ops r = Ok r' → rm_reachable r'.
Proof.
  revert r. induction ops as [|op ops IH]; simpl; intros r Hr Hrun; [by simplify_eq|].
  apply bind_ok in Hrun as (r1 & Hop & Hrun). eapply IH; [|done]. by eapply rm_step.
Qed.

Definition ex_ops : list (rm_op (T:=N)) :=
  [OpLimit 2; OpAdd 0 0 7; OpAdd 1 1 8; OpAdd 2 2 9]%N.
Definition ex_rm : RequestManager N :=
  match rm_run ex_ops rm_new with Ok r => r | _ => rm_new end.

Lemma ex_rm_reachable : rm_reachable ex_rm.
Proof. by apply (rm_run_reachable ex_ops rm_new _ rm_init). Qed.

(** Adding requests keeps the invariant whatever the history. *)
Fixpoint adds_only (ops : list (rm_op (T:=N))) : bool :=
  match ops with
  | [] => true
  | OpAdd _ _ _ :: ops => adds_only ops
  | _ => false
  end.

Lemma rm_run_adds_inv ops r r' :
  adds_only ops = true → rm_inv r → rm_run ops r = Ok r' → rm_inv r'.
Proof.
  revert r. induction ops as [|op ops IH]; simpl; intros r Ha Hr Hrun; [by simplify_eq|].
  apply bind_ok in Hrun as (r1 & Hop & Hrun). destruct op; try done.
  apply (IH r1); [done| |done]. destruct Hr as [He Hc]. simpl in Hop.
  destruct (add_request _ _ _ _) as [[b r2]| |] eqn:Hadd; simplify_eq/=.
  split; [by eapply add_exact|by eapply add_capacity].
Qed.

Lemma ex_rm_inv : rm_inv ex_rm.
Proof.
  apply (rm_run_adds_inv (tail ex_ops) (set_limit rm_new 2 : RequestManager N)); [done| |done].
  split; [|done]. destruct (rm_default_exact (T:=N)). by split.
Qed.

Lemma rm_inv_preserved_witness :
  ∃ r', rm_apply (OpFulfill 5%N 7%N) ex_rm = Ok r' ∧ rm_inv r' ∧ requests r' = [8]%N.
Proof.
  eexists. split; [vm_compute; reflexivity|]. split; [|vm_compute; reflexivity].
  apply (rm_inv_preserved ex_rm (OpFulfill 5%N 7%N)); [exact (proj1 ex_rm_inv)|vm_compute; reflexivity|exact (proj2 ex_rm_inv)|exact I].
Defined.

Lemma rm_fulfill_safe_witness :
  ∃ b r', @fulfill_request N _ _ Error 5%N ex_rm 7%N = Ok (b, r') ∧ rm_sound r'.
Proof. exact (proj2 (rm_fulfill_safe ex_rm 5%N 7%N ex_rm_reachable)). Defined.

Lemma rm_fulfill_request_witness :
  ∃ b r', @fulfill_request N _ _ Error 5%N ex_rm 7%N = Ok (b, r') ∧ b = true ∧
    requests ex_rm = [7; 8]%N ∧ requests r' = [8]%N.
Proof.
  destruct (rm_fulfill_request ex_rm 5%N 7%N (proj1 ex_rm_inv))
    as (b & r' & Hf & -> & _ & _ & Hr).
  exists (bool_decide (7%N ∈ pending ex_rm)), r'. split; [exact Hf|].
  split; [vm_compute; reflexivity|]. split; [vm_compute; reflexivity|].
  destruct Hr as [_ ->]; [|vm_compute; reflexivity].
  replace (queue ex_rm) with [9%N] by (vm_compute; reflexivity). set_solver.
Defined.

Lemma rm_unfulfill_stale_witness :
  ∃ r', @add_request N _ _ Error 3%N 3%N (unfulfill ex_rm 7%N) 7%N = Ok (true, r') ∧
    requests r' = [7; 8; 7]%N ∧ rm_len r' = 2%N.
Proof.
  destruct (rm_unfulfill_stale ex_rm 3 3 7 (from_secs 5))%N as (r' & Hr & Hreq & Hlen & _).
  - vm_compute. left.
  - vm_compute. reflexivity.
  - vm_compute. reflexivity.
  - exists r'. split; [exact Hr|]. rewrite Hreq, Hlen. by vm_compute.
Defined.
End examples.
