(* ===== verification/Metainfo.v ===== *)
(** [metainfo.rs]: the torrent description ([Info], [MetaInfo]), the division of
    a torrent in pieces and of a piece in blocks, and the bencode conversions. *)
From Stdlib Require String Ascii.
From S2P Require Import Prelude Errors Bits Core Bencode.

(** ** Data *)

(** [struct InfoHash(pub [u8; 20])] *)
Definition InfoHash := list N.

(** [TryFrom<Vec<u8>> for InfoHash] *)
Definition InfoHash_try_from (value : list N) : option InfoHash :=
  if (len value =? 20)%N then Some value else None.

(** Strings are lists of UTF-8 bytes. *)
Record File := { f_length : N; f_path : list (list N) }.

Record Info := {
  cross_seed_entry : option (list N);
  file_length : option N;
  files : option (list File);
  info_name : list N;
  info_piece_length : N;
  info_pieces : list N;
  info_source : option (list N);
  metadata_size : N;
  info_hash : InfoHash;
}.

Record MetaInfo := {
  announce : list N;
  announce_list : option (list (list (list N)));
  comment : option (list N);
  creation_date : option N;
  mi_info : Info;
  http_seeds : option (list (list N));
}.

#[global] Instance File_eq_dec : EqDecision File.
Proof. solve_decision. Defined.
#[global] Instance Info_eq_dec : EqDecision Info.
Proof. solve_decision. Defined.

(** [Info::default()] *)
Definition Info_default : Info := {|
  cross_seed_entry := None; file_length := None; files := None; info_name := [];
  info_piece_length := 0; info_pieces := []; info_source := None;
  metadata_size := 0; info_hash := replicate 20 0%N |}.

Section Info.
Context `{Build}.
Implicit Types i : Info.

(** ** Sizes *)

(** [Info::pieces] *)
Definition pieces i : N := div_ceil (len (info_pieces i)) 20.

(** [iter.sum()] *)
Definition usum {E} (l : list N) : outcome E N :=
  foldl (fun acc x => a ← acc; uadd a x) (Ok 0%N) l.

(** [Info::get_torrent_size] *)
Definition get_torrent_size {E} i : outcome E N :=
  match files i with
  | Some fs => usum (f_length <$> fs)
  | None => Ok (default 0%N (file_length i))
  end.

(** [Info::blocks_count] *)
Definition blocks_count {E} i : outcome E N :=
  size ← get_torrent_size i;
  Ok (div_ceil size BLOCK_LEN).

(** [Info::piece_length] *)
Definition piece_length {E} i (piece : N) : outcome E N :=
  total_size ← get_torrent_size i;
  last ← usub (pieces i) 1;
  if (piece =? last)%N then
    remainder ← urem total_size (info_piece_length i);
    Ok (if (remainder =? 0)%N then info_piece_length i else remainder)
  else Ok (info_piece_length i).

(** [Info::downloaded_bytes] *)
Definition downloaded_bytes `{BitVecApi} {E} i (bitfield : bitvec) : outcome E N :=
  let ones := count_ones bitfield in
  r ← umul (ones - 1) (info_piece_length i);
  match list.last (bits bitfield) with
  | Some true =>
      l ← piece_length i (bv_len bitfield);
      uadd r l
  | _ => Ok r
  end.

(** ** Blocks *)

(** One block of a piece of [num_blocks] blocks. *)
Definition block_info_at {E} (piece_index piece_size num_blocks block_index : N)
    : outcome E BlockInfo :=
  begin ← umul block_index BLOCK_LEN;
  last ← usub num_blocks 1;
  if (block_index =? last)%N then
    l ← usub piece_size begin;
    Ok {| bi_index := piece_index; bi_begin := begin; bi_len := l |}
  else Ok {| bi_index := piece_index; bi_begin := begin; bi_len := BLOCK_LEN |}.

(** [Info::get_block_infos_of_piece] *)
Definition get_block_infos_of_piece {E} (total_size piece_length piece_index : N)
    : outcome E (list BlockInfo) :=
  piece_start ← umul piece_index piece_length;
  piece_end ← uadd piece_start piece_length;
  let piece_end := N.min piece_end total_size in
  piece_size ← usub piece_end piece_start;
  let num_blocks := div_ceil piece_size BLOCK_LEN in
  mapM_outcome (block_info_at piece_index piece_size num_blocks) (range num_blocks).

End Info.

(** ** Bencode *)

Section bencode.
Context `{BendyApi, Sha1Api}.

(** [Info::info_hash] *)
Definition info_hash_of (buf : list N) : InfoHash := sha1 buf.

Definition bstrs (l : list (list N)) : bval := BList (BStr <$> l).

(** [ToBencode for File] *)
Definition File_encode (f : File) : outcome Error bval :=
  emit_dict [(ascii "length", BInt (Z.of_N (f_length f))); (ascii "path", bstrs (f_path f))].

(** [FromBencode for File] *)
Definition File_decode (object : bval) : outcome Error File :=
  dict ← try_into_dictionary object;
  fold_pairs (fun key value f =>
    if decide (key = ascii "length") then
      n ← decode_uint usize_max value;
      Ok {| f_length := n; f_path := f_path f |}
    else if decide (key = ascii "path") then
      p ← decode_list decode_string value;
      Ok {| f_length := f_length f; f_path := p |}
    else Ok f) dict {| f_length := 0; f_path := [] |}.

(** [ToBencode for Info] *)
Definition Info_encode (i : Info) : outcome Error bval :=
  fs ← match files i with
       | Some fs => l ← mapM_outcome File_encode fs; Ok [(ascii "files", BList l)]
       | None => Ok []
       end;
  emit_dict (
    match file_length i with
    | Some n => [(ascii "length", BInt (Z.of_N n))]
    | None => []
    end ++ fs ++
    [(ascii "name", BStr (info_name i));
     (ascii "piece length", BInt (Z.of_N (info_piece_length i)));
     (ascii "pieces", BStr (info_pieces i))]).

(** The local variables of the decoding loop of [Info]. *)
Record InfoFields := {
  if_cross : option (list N); if_files : option (list File); if_length : option N;
  if_name : option (list N); if_source : option (list N);
  if_piece_length : option N; if_pieces : option (list N);
}.

(** A cross seed entry: copied into a 32-byte array, index by index. *)
Definition cross_seed_of (bytes : list N) : outcome Error (option (list N)) :=
  if (len bytes <? 32)%N then Ok None
  else if (32 <? len bytes)%N then Panic
  else Ok (Some bytes).

Definition Info_pair (key : list N) (value : bval) (s : InfoFields) : outcome Error InfoFields :=
  let 'Build_InfoFields c f l n so pl p := s in
  if decide (key = ascii "cross_seed_entry") then
    b ← decode_bytes value; c ← cross_seed_of b; Ok (Build_InfoFields c f l n so pl p)
  else if decide (key = ascii "files") then
    f ← decode_list File_decode value; Ok (Build_InfoFields c (Some f) l n so pl p)
  else if decide (key = ascii "length") then
    l ← decode_uint usize_max value; Ok (Build_InfoFields c f (Some l) n so pl p)
  else if decide (key = ascii "name") then
    n ← decode_string value; Ok (Build_InfoFields c f l (Some n) so pl p)
  else if decide (key = ascii "source") then
    so ← decode_string value; Ok (Build_InfoFields c f l n (Some so) pl p)
  else if decide (key = ascii "piece length") then
    pl ← decode_uint usize_max value; Ok (Build_InfoFields c f l n so (Some pl) p)
  else if decide (key = ascii "pieces") then
    p ← decode_bytes value; Ok (Build_InfoFields c f l n so pl (Some p))
  else Ok s.

(** [FromBencode for Info]: the hash is that of the bytes received *)
Definition Info_decode (object : bval) : outcome Error Info :=
  dict ← try_into_dictionary object;
  let bytes := raw object in
  s ← fold_pairs Info_pair dict (Build_InfoFields None None None None None None None);
  name ← ok_or BencodeError (if_name s);
  piece_length ← ok_or BencodeError (if_piece_length s);
  pieces ← ok_or BencodeError (if_pieces s);
  Ok {| cross_seed_entry := if_cross s; files := if_files s; file_length := if_length s;
        info_name := name; info_piece_length := piece_length; info_pieces := pieces;
        info_source := if_source s; metadata_size := len bytes;
        info_hash := info_hash_of bytes |}.

(** [ToBencode for MetaInfo] *)
Definition opt_pair {A} (key : list N) (f : A → bval) (o : option A) : list (list N * bval) :=
  match o with Some x => [(key, f x)] | None => [] end.

Definition MetaInfo_encode (m : MetaInfo) : outcome Error bval :=
  info ← Info_encode (mi_info m);
  emit_dict (
    [(ascii "announce", BStr (announce m))] ++
    opt_pair (ascii "announce-list") (fun l => BList (bstrs <$> l)) (announce_list m) ++
    opt_pair (ascii "comment") BStr (comment m) ++
    opt_pair (ascii "creation date") (fun n => BInt (Z.of_N n)) (creation_date m) ++
    opt_pair (ascii "httpseeds") bstrs (http_seeds m) ++
    [(ascii "info", info)]).

Record MetaInfoFields := {
  mf_announce : option (list N); mf_list : option (list (list (list N)));
  mf_comment : option (list N); mf_date : option N;
  mf_seeds : option (list (list N)); mf_info : option Info;
}.

Definition MetaInfo_pair (key : list N) (value : bval) (s : MetaInfoFields)
    : outcome Error MetaInfoFields :=
  let 'Build_MetaInfoFields a l c d h i := s in
  if decide (key = ascii "announce") then
    a ← decode_string value; Ok (Build_MetaInfoFields (Some a) l c d h i)
  else if decide (key = ascii "announce-list") then
    l ← decode_list (decode_list decode_string) value;
    Ok (Build_MetaInfoFields a (Some l) c d h i)
  else if decide (key = ascii "comment") then
    c ← decode_string value; Ok (Build_MetaInfoFields a l (Some c) d h i)
  else if decide (key = ascii "creation date") then
    d ← decode_uint u32_max value; Ok (Build_MetaInfoFields a l c (Some d) h i)
  else if decide (key = ascii "httpseeds") then
    h ← decode_list decode_string value; Ok (Build_MetaInfoFields a l c d (Some h) i)
  else if decide (key = ascii "info") then
    i ← Info_decode value; Ok (Build_MetaInfoFields a l c d h (Some i))
  else Ok s.

(** [FromBencode for MetaInfo] *)
Definition MetaInfo_decode (object : bval) : outcome Error MetaInfo :=
  dict ← try_into_dictionary object;
  s ← fold_pairs MetaInfo_pair dict (Build_MetaInfoFields None None None None None None);
  a ← ok_or BencodeError (mf_announce s);
  i ← ok_or BencodeError (mf_info s);
  Ok {| announce := a; announce_list := mf_list s; mi_info := i; comment := mf_comment s;
        creation_date := mf_date s; http_seeds := mf_seeds s |}.
End bencode.
