(* ===== verification/MetainfoFacts.v ===== *)
(** The geometry of a torrent and the bencode round trip: blocks tile their
    piece, pieces tile the torrent, the description survives being encoded. *)
From S2P Require Import Prelude Errors Bits Core Bencode Metainfo.
Import String.StringSyntax.

(** ** Blocks of a piece *)

(** The size of piece [piece] of a torrent of [total] bytes cut in pieces of
    [pl] bytes, and the blocks of a piece of [size] bytes. *)
Definition piece_size (total pl piece : N) : N := N.min pl (total - piece * pl).
Definition block_at (piece size k : N) : BlockInfo :=
  {| bi_index := piece; bi_begin := k * BLOCK_LEN;
     bi_len := N.min BLOCK_LEN (size - k * BLOCK_LEN) |}.
Definition blocks_of (piece size : N) : list BlockInfo :=
  block_at piece size <$> range (div_ceil size BLOCK_LEN).

Section blocks.
Context `{Build}.

Lemma block_info_at_spec {E} piece size k :
  (size <= usize_max)%N → (k < div_ceil size BLOCK_LEN)%N →
  @block_info_at _ E piece size (div_ceil size BLOCK_LEN) k = Ok (block_at piece size k).
Proof.
  intros Hs Hk. pose proof (div_ceil_spec size BLOCK_LEN eq_refl) as [H1 H2].
  unfold BLOCK_LEN in *. set (n := div_ceil size 16384) in *. clearbody n.
  unfold block_info_at, block_at, BLOCK_LEN.
  assert (k * 16384 < size)%N by nia.
  rewrite umul_ok by lia. simpl.
  rewrite (usub_ok n 1) by (unfold usize_max, u64_max in *; lia). simpl.
  destruct (N.eqb_spec k (n - 1)).
  - subst k. rewrite usub_ok by lia. simpl. do 2 f_equal. lia.
  - do 2 f_equal. lia.
Qed.

Lemma get_block_infos_spec {E} total pl piece :
  (piece * pl <= total)%N → (total <= usize_max)%N → (piece * pl + pl <= usize_max)%N →
  @get_block_infos_of_piece _ E total pl piece = Ok (blocks_of piece (piece_size total pl piece)).
Proof.
  intros H1 H2 H3. unfold get_block_infos_of_piece.
  rewrite umul_ok by lia. simpl. rewrite uadd_ok by lia. simpl.
  rewrite usub_ok by lia. simpl.
  replace (N.min (piece * pl + pl) total - piece * pl)%N with (piece_size total pl piece)
    by (unfold piece_size; lia).
  apply mapM_outcome_ok. intros k Hk%elem_of_range.
  apply block_info_at_spec; [unfold piece_size; lia|done].
Qed.

Lemma elem_of_blocks_of piece size b :
  b ∈ blocks_of piece size →
  ∃ k, (k < div_ceil size BLOCK_LEN)%N ∧ b = block_at piece size k.
Proof. intros (k & -> & Hk%elem_of_range)%list_elem_of_fmap. eauto. Qed.

Lemma block_at_bounds piece size k :
  (k < div_ceil size BLOCK_LEN)%N →
  (0 < bi_len (block_at piece size k) <= BLOCK_LEN)%N ∧
  (bi_begin (block_at piece size k) + bi_len (block_at piece size k) <= size)%N.
Proof.
  intros Hk. pose proof (div_ceil_spec size BLOCK_LEN eq_refl) as [H1 H2].
  unfold BLOCK_LEN in *. simpl. unfold BLOCK_LEN. nia.
Qed.

(** The windows of the first [n] blocks of a byte string are its first
    [n * BLOCK_LEN] bytes. *)
Lemma windows_of_blocks {A} (p : list A) n :
  (range n ≫= (fun k => window (k * BLOCK_LEN) (N.min BLOCK_LEN (len p - k * BLOCK_LEN)) p)) =
  window 0 (n * BLOCK_LEN) p.
Proof.
  induction n as [|n IH] using N_range_ind; [done|].
  rewrite range_succ, bind_app, IH. simpl. rewrite app_nil_r.
  replace ((n + 1) * BLOCK_LEN)%N with (n * BLOCK_LEN + BLOCK_LEN)%N by lia.
  rewrite window_split. f_equal. rewrite N.add_0_l.
  unfold window. unfold len.
  destruct (decide (BLOCK_LEN <= len p - n * BLOCK_LEN)%N) as [Hle|Hgt]; unfold len in *.
  - do 2 f_equal. lia.
  - rewrite !take_ge; rewrite ?length_drop; (done || lia).
Qed.

(** C5. The blocks requested for a piece tile it: for every piece that starts
    within the torrent the division succeeds, each block is non-empty, at most
    [BLOCK_LEN] long and inside the piece, no two blocks are equal, and reading
    any piece's bytes block by block, in order, yields exactly the piece. *)
Theorem info_blocks_tile {E} total pl piece (p : list N) :
  (piece * pl <= total)%N → (total <= usize_max)%N → (piece * pl + pl <= usize_max)%N →
  len p = piece_size total pl piece →
  ∃ bs, @get_block_infos_of_piece _ E total pl piece = Ok bs ∧ NoDup bs ∧
    Forall (fun b => bi_index b = piece ∧ (0 < bi_len b <= BLOCK_LEN)%N ∧
                     (bi_begin b + bi_len b <= len p)%N) bs ∧
    (bs ≫= (fun b => window (bi_begin b) (bi_len b) p)) = p.
Proof.
  intros H1 H2 H3 Hp. eexists. split; [by apply get_block_infos_spec|].
  rewrite <- Hp. split; [|split].
  - apply NoDup_fmap_2_strong, NoDup_range. intros k k' _ _ [= Hk]. unfold BLOCK_LEN in Hk. lia.
  - apply Forall_forall. intros b (k & Hk & ->)%elem_of_blocks_of.
    split; [done|]. by apply block_at_bounds.
  - unfold blocks_of. rewrite list_fmap_bind. etrans; [apply (windows_of_blocks p)|].
    apply window_all. pose proof (div_ceil_spec (len p) BLOCK_LEN eq_refl). lia.
Qed.

(** Of the blocks a piece is divided in, [is_valid], the test the peer's
    request handler applies, accepts exactly those among the first two: it
    bounds the offset within the piece by the length of a block. *)
Theorem info_blocks_valid {E} total pl piece bs k b :
  (piece * pl <= total)%N → (total <= usize_max)%N → (piece * pl + pl <= usize_max)%N →
  @get_block_infos_of_piece _ E total pl piece = Ok bs →
  bs !! k = Some b →
  BlockInfo_is_valid b = bool_decide (k < 2)%nat.
Proof.
  intros H1 H2 H3. rewrite get_block_infos_spec by done. intros [= <-] Hk.
  unfold blocks_of in Hk. rewrite list_lookup_fmap in Hk.
  destruct (range _ !! k) as [j|] eqn:Hj; [|done]. injection Hk as <-.
  pose proof (list_elem_of_lookup_2 _ _ _ Hj) as Hj'%elem_of_range.
  assert (j = N.of_nat k) as ->.
  { unfold range in Hj. rewrite list_lookup_fmap in Hj.
    destruct (seq _ _ !! k) eqn:Hs; [|done]. apply lookup_seq in Hs as [-> _].
    simpl in Hj. congruence. }
  destruct (block_at_bounds piece _ _ Hj') as [[Hb0 Hb1] _].
  unfold BlockInfo_is_valid. rewrite (proj2 (N.ltb_lt _ _) Hb0), (proj2 (N.leb_le _ _) Hb1).
  simpl. unfold BLOCK_LEN.
  destruct (N.leb_spec (N.of_nat k * 16384) 16384), (bool_decide_reflect (k < 2)%nat);
    (done || lia).
Qed.
End blocks.

(** ** Pieces of a torrent *)

Definition sum_N (l : list N) : N := foldr N.add 0%N l.

Lemma sum_N_app l k : sum_N (l ++ k) = (sum_N l + sum_N k)%N.
Proof. induction l as [|x l IH]; simpl; [done|]. rewrite IH. lia. Qed.

(** A description whose piece hashes match the size of its files. *)
Record info_shape `{Build} (i : Info) (total : N) : Prop := {
  shape_total : ∀ E, @get_torrent_size _ E i = Ok total;
  shape_pl : (0 < info_piece_length i)%N;
  shape_pos : (0 < total)%N;
  shape_pieces : pieces i = div_ceil total (info_piece_length i);
  shape_bound : (total + info_piece_length i <= usize_max)%N;
}.

(** The bytes of the pieces a bitfield holds, from piece [k] on. *)
Fixpoint have_bytes (total pl k : N) (l : list bool) : N :=
  match l with
  | [] => 0
  | b :: l => (if b then piece_size total pl k else 0) + have_bytes total pl (k + 1) l
  end%N.

Section pieces.
Context `{Build}.

Lemma pieces_bounds i total :
  info_shape i total →
  (0 < pieces i)%N ∧ (total <= pieces i * info_piece_length i)%N ∧
  ((pieces i - 1) * info_piece_length i < total)%N ∧ (pieces i <= usize_max)%N.
Proof.
  intros [_ Hpl Hpos Hp Hb]. rewrite Hp.
  pose proof (div_ceil_spec total _ Hpl). pose proof (div_ceil_pos total _ Hpl Hpos).
  set (n := div_ceil _ _) in *. clearbody n. repeat split; nia.
Qed.

Lemma piece_size_full total pl k : ((k + 1) * pl <= total)%N → piece_size total pl k = pl.
Proof. unfold piece_size. lia. Qed.

Lemma piece_length_spec {E} i total k :
  info_shape i total → (k < pieces i)%N →
  @piece_length _ E i k = Ok (piece_size total (info_piece_length i) k).
Proof.
  intros Hi Hk. destruct (pieces_bounds _ _ Hi) as (Hq0 & Hq1 & Hq2 & Hq3).
  destruct Hi as [Ht Hpl Hpos Hp Hb]. unfold piece_length. rewrite Ht. simpl.
  rewrite (usub_ok (pieces i) 1) by lia. simpl. unfold piece_size.
  set (n := pieces i) in *. set (pl := info_piece_length i) in *. clearbody n pl.
  destruct (N.eqb_spec k (n - 1)) as [->|Hne].
  - unfold urem. rewrite decide_False by lia. simpl. f_equal.
    assert (total mod pl = if decide (total = n * pl) then 0 else total - (n - 1) * pl)%N as ->.
    { destruct (decide _) as [->|].
      - by rewrite N.Div0.mod_mul.
      - symmetry. apply (N.mod_unique total pl (n - 1)); nia. }
    destruct (decide (total = n * pl)%N) as [->|]; simpl; [nia|].
    destruct (N.eqb_spec (total - (n - 1) * pl) 0); nia.
  - f_equal. nia.
Qed.

Lemma piece_length_past {E} i total k :
  info_shape i total → (pieces i <= k)%N →
  @piece_length _ E i k = Ok (info_piece_length i).
Proof.
  intros Hi Hk. destruct (pieces_bounds _ _ Hi) as (Hq0 & Hq1 & Hq2 & Hq3).
  unfold piece_length. rewrite (shape_total _ _ Hi). simpl.
  rewrite (usub_ok (pieces i) 1) by lia. simpl.
  by rewrite (proj2 (N.eqb_neq _ _)) by lia.
Qed.

Lemma sum_piece_sizes total pl n :
  (total <= n * pl)%N → ((n - 1) * pl < total)%N → (0 < n)%N →
  sum_N (piece_size total pl <$> range n) = total.
Proof.
  intros H1 H2 Hn.
  assert (Hgen : ∀ k, (k <= n - 1)%N → sum_N (piece_size total pl <$> range k) = (k * pl)%N).
  { intros k. induction k as [|k IH] using N_range_ind; [done|]. intros Hk.
    rewrite range_succ, fmap_app, sum_N_app, IH by lia. simpl.
    rewrite piece_size_full by nia. lia. }
  replace n with (n - 1 + 1)%N at 1 by lia.
  rewrite range_succ, fmap_app, sum_N_app, Hgen by lia. simpl. unfold piece_size. nia.
Qed.

(** The pieces partition the torrent: for a description whose hash list
    matches its files, [piece_length] succeeds on every piece, is the size of
    the blocks that are requested for it (positive, at most the nominal
    length), and the piece lengths add up to the torrent's size. *)
Theorem info_pieces_cover i total :
  info_shape i total →
  ∃ ls, mapM_outcome (@piece_length _ Error i) (range (pieces i)) = Ok ls ∧
    sum_N ls = total ∧
    (∀ k l, ls !! N.to_nat k = Some l → (0 < l <= info_piece_length i)%N ∧
       @get_block_infos_of_piece _ Error total (info_piece_length i) k = Ok (blocks_of k l)).
Proof.
  intros Hi. destruct (pieces_bounds _ _ Hi) as (Hq0 & Hq1 & Hq2 & Hq3).
  eexists. split.
  { apply (mapM_outcome_ok _ (piece_size total (info_piece_length i))).
    intros k Hk%elem_of_range. by apply piece_length_spec. }
  split; [by apply sum_piece_sizes|].
  intros k l Hk. rewrite list_lookup_fmap in Hk.
  destruct (range _ !! _) as [j|] eqn:Hj; [|done]. injection Hk as <-.
  pose proof (lookup_lt_Some _ _ _ Hj) as Hlt. rewrite <- len_nat, len_range in Hlt.
  rewrite lookup_range in Hj by lia. injection Hj as <-.
  pose proof (shape_bound _ _ Hi). pose proof (shape_pl _ _ Hi).
  assert (k * info_piece_length i < total)%N by nia.
  split; [unfold piece_size; lia|]. by apply get_block_infos_spec; lia.
Qed.

Lemma have_bytes_app total pl k l l' :
  have_bytes total pl k (l ++ l') =
  (have_bytes total pl k l + have_bytes total pl (k + len l) l')%N.
Proof.
  revert k. induction l as [|b l IH]; intros k; simpl.
  - by rewrite N.add_0_r.
  - rewrite IH, len_cons. replace (k + (1 + len l))%N with (k + 1 + len l)%N by lia. lia.
Qed.

Lemma count_true_cons b l : count_true (b :: l) = ((if b then 1 else 0) + count_true l)%N.
Proof. unfold count_true. rewrite filter_cons. destruct b; simpl; rewrite ?len_cons; lia. Qed.
Lemma count_true_app l k : count_true (l ++ k) = (count_true l + count_true k)%N.
Proof. unfold count_true. by rewrite filter_app, len_app. Qed.
Lemma count_true_le l : (count_true l <= len l)%N.
Proof. induction l as [|b l IH]; [done|]. rewrite count_true_cons, len_cons. destruct b; lia. Qed.

Lemma have_bytes_full total pl k l :
  ((k + len l) * pl <= total)%N → have_bytes total pl k l = (count_true l * pl)%N.
Proof.
  revert k. induction l as [|b l IH]; intros k Hk; [done|]. rewrite len_cons in Hk. simpl.
  rewrite IH by (replace (k + 1 + len l)%N with (k + (1 + len l))%N by lia; done).
  rewrite count_true_cons. destruct b; [|lia]. rewrite piece_size_full by nia. lia.
Qed.

(** What [downloaded_bytes] computes, against the bytes of the pieces held:
    when the last piece is held it exceeds them by what the last piece is short
    of a full one, and when it is not held it forgets one piece. *)
Theorem info_downloaded_bytes `{BitVecApi} i total v :
  info_shape i total → bv_len v = pieces i →
  let pl := info_piece_length i in
  let real := have_bytes total pl 0 (bits v) in
  ∃ n, @downloaded_bytes _ _ Error i v = Ok n ∧
    (list.last (bits v) = Some true →
       n = real + (pl - piece_size total pl (pieces i - 1)))%N ∧
    (list.last (bits v) = Some false → n + (if (real =? 0) then 0 else pl) = real)%N.
Proof.
  intros Hi Hl. destruct (pieces_bounds _ _ Hi) as (Hq0 & Hq1 & Hq2 & Hq3).
  pose proof (shape_bound _ _ Hi) as Hb. pose proof (shape_pl _ _ Hi) as Hpl.
  cbv zeta. unfold downloaded_bytes, bv_len, count_ones in *.
  destruct (bits v) as [|b l _] using rev_ind; [rewrite len_nil in Hl; lia|].
  rewrite last_snoc. rewrite len_app, len_cons, len_nil in Hl.
  pose proof (count_true_le l) as Hc.
  rewrite count_true_app, have_bytes_app, count_true_cons. change (count_true []) with 0%N.
  rewrite have_bytes_full by (rewrite N.add_0_l; nia). simpl have_bytes.
  replace (0 + len l)%N with (pieces i - 1)%N by lia.
  set (c := count_true l) in *. clearbody c. set (pl := info_piece_length i) in *.
  set (n := pieces i) in *.
  assert (c * pl <= usize_max)%N by nia.
  destruct b.
  - replace (c + (1 + 0) - 1)%N with c by lia. rewrite umul_ok by done. simpl.
    rewrite len_app, len_cons, len_nil.
    rewrite (piece_length_past i total _ Hi) by lia. simpl.
    fold pl. rewrite uadd_ok by nia. eexists. split; [done|]. split; [|done].
    intros _. unfold piece_size. lia.
  - replace (c + (0 + 0) - 1)%N with (c - 1)%N by lia. rewrite umul_ok by nia. simpl.
    eexists. split; [done|]. split; [done|]. intros _.
    clearbody pl. destruct (N.eqb_spec (c * pl + (0 + 0)) 0) as [Hz|Hz].
    + assert (c = 0)%N as -> by nia. lia.
    + destruct c as [|c]; [lia|]. rewrite !N.add_0_r, <- (N.succ_pred (N.pos c)) by done.
      rewrite N.mul_succ_l. f_equal. f_equal. lia.
Qed.
End pieces.
