(* ===== verification/MetainfoWire.v ===== *)
(** The bencode form of a torrent description: what a description becomes when
    it is encoded and decoded again, and what hash it then has. *)
From S2P Require Import Prelude Errors Bits Core Bencode BencodeText Metainfo MetainfoFacts.
Import String.StringSyntax.

Section wire.
Context `{BendyApi, Sha1Api}.

Definition File_wf (f : File) : Prop :=
  (f_length f <= usize_max)%N ∧ Forall utf8_valid (f_path f).

Record Info_wf (i : Info) : Prop := {
  wf_name : utf8_valid (info_name i) = true;
  wf_piece_length : (info_piece_length i <= usize_max)%N;
  wf_length : (default 0 (file_length i) <= usize_max)%N;
  wf_files : Forall File_wf (default [] (files i));
  wf_one : file_length i = None ∨ files i = None;
}.

Record MetaInfo_wf (m : MetaInfo) : Prop := {
  wf_announce : utf8_valid (announce m) = true;
  wf_list : Forall (Forall utf8_valid) (default [] (announce_list m));
  wf_comment : from_option utf8_valid true (comment m) = true;
  wf_date : (default 0 (creation_date m) <= u32_max)%N;
  wf_seeds : Forall utf8_valid (default [] (http_seeds m));
  wf_info : Info_wf (mi_info m);
}.

Lemma decode_strings l :
  Forall utf8_valid l → decode_list decode_string (bstrs l) = Ok l.
Proof.
  intros Hl. unfold bstrs. rewrite (decode_list_ok _ _ id), list_fmap_id; [done|].
  intros x Hx. rewrite Forall_forall in Hl. simpl. by rewrite (Is_true_true_1 _ (Hl x Hx)).
Qed.

Definition File_value (f : File) : bval :=
  BDict [(ascii "length", BInt (Z.of_N (f_length f))); (ascii "path", bstrs (f_path f))].

Lemma File_encode_ok f : File_encode f = Ok (File_value f).
Proof. reflexivity. Qed.

Lemma File_decode_ok f : File_wf f → File_decode (File_value f) = Ok f.
Proof.
  intros [Hl Hp]. unfold File_decode, File_value.
  cbn [try_into_dictionary mbind outcome_bind fold_pairs]. keys.
  rewrite decode_uint_ok by done. cbn [mbind outcome_bind]. keys.
  rewrite decode_strings by done. by destruct f.
Qed.

(** The description that comes back: the optional extras are not encoded, and
    the size and hash are those of the bytes written. *)
Definition reread (i : Info) (v : bval) : Info := {|
  cross_seed_entry := None; file_length := file_length i; files := files i;
  info_name := info_name i; info_piece_length := info_piece_length i;
  info_pieces := info_pieces i; info_source := None;
  metadata_size := len (raw v); info_hash := sha1 (raw v) |}.

Lemma Info_roundtrip i :
  Info_wf i → ∃ v, Info_encode i = Ok v ∧ Info_decode v = Ok (reread i v).
Proof.
  intros [Hn Hp Hl Hf Ho]. destruct i as [c fl fs n pl p so ms h]. cbn in *.
  destruct Ho as [-> | ->]; [destruct fs as [fs|]|destruct fl as [fl|]];
    cbn [Info_encode file_length files].
  - rewrite (mapM_outcome_ok _ File_value) by done. cbn [mbind outcome_bind].
    eexists. split; [reflexivity|].
    unfold Info_decode. cbn [try_into_dictionary mbind outcome_bind app fold_pairs Info_pair].
    keys. rewrite (decode_list_ok _ _ id), list_fmap_id; cycle 1.
    { intros f Hf'. rewrite Forall_forall in Hf. apply File_decode_ok. auto. }
    cbn [mbind outcome_bind]. unfold Info_pair. keys. cbn [decode_string]. rewrite Hn.
    cbn [mbind outcome_bind]. keys. rewrite decode_uint_ok by done.
    cbn [mbind outcome_bind]. keys. done.
  - eexists. split; [reflexivity|].
    unfold Info_decode. cbn [try_into_dictionary mbind outcome_bind app fold_pairs Info_pair].
    keys. cbn [decode_string]. rewrite Hn. cbn [mbind outcome_bind]. unfold Info_pair. keys.
    rewrite decode_uint_ok by done. cbn [mbind outcome_bind]. keys. done.
  - eexists. split; [reflexivity|].
    unfold Info_decode. cbn [try_into_dictionary mbind outcome_bind app fold_pairs Info_pair].
    keys. rewrite decode_uint_ok by done. cbn [mbind outcome_bind]. unfold Info_pair. keys.
    cbn [decode_string]. rewrite Hn. cbn [mbind outcome_bind]. keys.
    rewrite decode_uint_ok by done. cbn [mbind outcome_bind]. keys. done.
  - eexists. split; [reflexivity|].
    unfold Info_decode. cbn [try_into_dictionary mbind outcome_bind app fold_pairs Info_pair].
    keys. cbn [decode_string]. rewrite Hn. cbn [mbind outcome_bind]. unfold Info_pair. keys.
    rewrite decode_uint_ok by done. cbn [mbind outcome_bind]. keys. done.
Qed.

(** Decoding an optional entry. *)
Lemma fold_opt {S A} step key (f : A → bval) (upd : A → S) o k s :
  (∀ x, o = Some x → step key (f x) s = Ok (upd x)) →
  fold_pairs step (opt_pair key f o ++ k) s = fold_pairs step k (from_option upd s o).
Proof. intros Hf. destruct o as [x|]; [|done]. simpl. by rewrite Hf. Qed.

(** C6. Round trip of a torrent file: a well-formed description (UTF-8 texts,
    numbers within their widths, at most one of [length] and [files]) is encoded
    as a dictionary with sorted keys, and decoding it restores every field but
    these: the extras [source] and [cross_seed_entry], which [Info] does not
    encode, come back empty, and the size and hash are those of the new bytes. *)
Theorem metainfo_roundtrip m :
  MetaInfo_wf m →
  ∃ v iv, Info_encode (mi_info m) = Ok iv ∧ MetaInfo_encode m = Ok v ∧
    MetaInfo_decode v = Ok {| announce := announce m; announce_list := announce_list m;
      comment := comment m; creation_date := creation_date m;
      mi_info := reread (mi_info m) iv; http_seeds := http_seeds m |}.
Proof.
  intros [Ha Hl Hc Hd Hs Hi]. destruct (Info_roundtrip _ Hi) as (iv & He & Hdec).
  unfold MetaInfo_encode. rewrite He. cbn [mbind outcome_bind].
  exists (BDict ([(ascii "announce", BStr (announce m))] ++
    opt_pair (ascii "announce-list") (fun l => BList (bstrs <$> l)) (announce_list m) ++
    opt_pair (ascii "comment") BStr (comment m) ++
    opt_pair (ascii "creation date") (fun n => BInt (Z.of_N n)) (creation_date m) ++
    opt_pair (ascii "httpseeds") bstrs (http_seeds m) ++ [(ascii "info", iv)])), iv.
  split; [done|]. split.
  { destruct m as [a [l|] [c|] [d|] i [h|]]; reflexivity. }
  destruct m as [a l c d i h]. cbn in Ha, Hl, Hc, Hd, Hs, Hi, He, Hdec.
  cbn [announce announce_list comment creation_date mi_info http_seeds].
  unfold MetaInfo_decode. cbn [try_into_dictionary mbind outcome_bind].
  cbn [app fold_pairs MetaInfo_pair]. keys.
  cbn [decode_string]. rewrite Ha. cbn [mbind outcome_bind].
  rewrite (fold_opt _ _ _ (fun l => Build_MetaInfoFields (Some a) (Some l) None None None None)).
  2:{ intros x ->. unfold MetaInfo_pair. keys.
      rewrite (decode_list_ok _ _ id), list_fmap_id; [done|].
      intros y Hy. rewrite Forall_forall in Hl. apply decode_strings, (Hl y Hy). }
  rewrite (fold_opt _ _ _ (fun c => Build_MetaInfoFields (Some a) l (Some c) None None None)).
  2:{ intros x ->. destruct l; unfold MetaInfo_pair, from_option; keys;
        simpl in Hc; cbn [decode_string]; by rewrite Hc. }
  rewrite (fold_opt _ _ _ (fun d => Build_MetaInfoFields (Some a) l c (Some d) None None)).
  2:{ intros x ->. destruct l, c; unfold MetaInfo_pair, from_option; keys;
        by rewrite decode_uint_ok. }
  rewrite (fold_opt _ _ _ (fun h => Build_MetaInfoFields (Some a) l c d (Some h) None)).
  2:{ intros x ->. destruct l, c, d; unfold MetaInfo_pair, from_option; keys;
        by rewrite decode_strings. }
  destruct l, c, d, h; cbn [from_option fold_pairs MetaInfo_pair]; keys; by rewrite Hdec.
Qed.

(** The bytes of a description whose dictionary has a [source] entry are
    never reproduced: encoding what was decoded from it gives another value,
    so the metadata served to peers does not have the torrent's hash. *)
Theorem info_source_lost l v i :
  ascii "source" ∈ l.*1 → Info_decode (BDict l) = Ok i → Info_encode i = Ok v →
  v ≠ BDict l.
Proof.
  intros Hs _ He ->. unfold Info_encode in He. apply bind_ok in He as (fs & Hfs & He).
  unfold emit_dict in He. destruct (keys_sorted _); [|done]. injection He as <-.
  rewrite !fmap_app, !elem_of_app in Hs.
  assert (ascii "source" ∉ [ascii "length"; ascii "files"; ascii "name";
    ascii "piece length"; ascii "pieces"]) as Hne by (by apply (bool_decide_unpack _)).
  apply Hne. destruct Hs as [Hs|[Hs|Hs]].
  - destruct (file_length i); simpl in Hs; [|by apply elem_of_nil in Hs]. set_solver.
  - destruct (files i); [apply bind_ok in Hfs as (x & _ & [= <-])|injection Hfs as <-];
      simpl in Hs; [|by apply elem_of_nil in Hs]. set_solver.
  - simpl in Hs. set_solver.
Qed.

(** A cross-seed entry longer than 32 bytes, in a torrent file or in the
    metadata a peer sends, is copied past the end of its array: the decoder
    panics instead of returning an error. *)
Theorem info_cross_seed_panics s l :
  (32 < len s)%N → Info_decode (BDict ((ascii "cross_seed_entry", BStr s) :: l)) = Panic.
Proof.
  intros Hs. unfold Info_decode. cbn [try_into_dictionary mbind outcome_bind fold_pairs].
  unfold Info_pair. keys. cbn [decode_bytes mbind outcome_bind]. unfold cross_seed_of.
  rewrite (proj2 (N.ltb_ge _ _)) by lia. by rewrite (proj2 (N.ltb_lt _ _)) by lia.
Qed.
End wire.

(** ** Concrete descriptions *)

Section examples.
#[local] Existing Instances text_bendy prefix_sha1.

Definition ex_info : Info := {|
  cross_seed_entry := None; file_length := None;
  files := Some [{| f_length := 20000; f_path := [ascii "a"; ascii "b"] |};
                 {| f_length := 45; f_path := [ascii "c"] |}];
  info_name := ascii "t"; info_piece_length := 16384; info_pieces := replicate 40 7%N;
  info_source := None; metadata_size := 0; info_hash := [] |}.

Definition ex_meta : MetaInfo := {|
  announce := ascii "udp://x"; announce_list := Some [[ascii "udp://x"]]; comment := None;
  creation_date := Some 5%N; mi_info := ex_info; http_seeds := None |}.

Lemma metainfo_roundtrip_witness :
  MetaInfo_wf ex_meta ∧
  ∃ v m', MetaInfo_encode ex_meta = Ok v ∧ MetaInfo_decode v = Ok m' ∧
          files (mi_info m') = files ex_info.
Proof.
  assert (Hwf : MetaInfo_wf ex_meta).
  { split; try done; [by repeat constructor|].
    split; try done; [|by left]. by repeat constructor. }
  split; [exact Hwf|].
  destruct (metainfo_roundtrip ex_meta Hwf) as (v & iv & _ & Hv & Hd).
  eexists v, _. split; [exact Hv|]. split; [exact Hd|]. reflexivity.
Defined.

Lemma info_source_lost_witness :
  let d := [(ascii "name", BStr (ascii "t")); (ascii "piece length", BInt 5);
            (ascii "pieces", BStr []); (ascii "source", BStr (ascii "x"))] in
  ∃ i v, Info_decode (BDict d) = Ok i ∧ Info_encode i = Ok v ∧ v ≠ BDict d.
Proof.
  eexists _, _. split; [vm_compute; reflexivity|]. split; [vm_compute; reflexivity|].
  eapply info_source_lost; [|vm_compute; reflexivity|vm_compute; reflexivity].
  vm_compute. by repeat constructor.
Defined.

Lemma info_cross_seed_panics_witness :
  Info_decode (BDict [(ascii "cross_seed_entry", BStr (replicate 33 0%N))]) = Panic.
Proof. apply info_cross_seed_panics. vm_compute. reflexivity. Defined.

(** A torrent of 40 bytes in pieces of 16. *)
Definition ex_shape_info : Info := {|
  cross_seed_entry := None; file_length := Some 40000%N; files := None; info_name := [];
  info_piece_length := 32768; info_pieces := replicate 40 0%N; info_source := None;
  metadata_size := 0; info_hash := [] |}.

#[local] Existing Instance release.
#[local] Existing Instance list_bits.

Lemma ex_shape : info_shape ex_shape_info 40000.
Proof. by split. Qed.

Lemma info_pieces_cover_witness :
  ∃ ls, mapM_outcome (@piece_length _ Error ex_shape_info) (range 2) = Ok ls ∧
        ls = [32768; 7232]%N.
Proof.
  destruct (info_pieces_cover ex_shape_info 40000 ex_shape) as (ls & Hls & _).
  exists ls. split; [exact Hls|]. vm_compute in Hls. congruence.
Defined.

Lemma info_downloaded_bytes_witness :
  ∃ n, @downloaded_bytes _ _ Error ex_shape_info ([true; true] : @bitvec list_bits) = Ok n ∧ n = 65536%N.
Proof.
  destruct (info_downloaded_bytes ex_shape_info 40000 ([true; true] : @bitvec list_bits) ex_shape eq_refl)
    as (n & Hn & Hlast & _).
  exists n. split; [exact Hn|]. rewrite (Hlast eq_refl). reflexivity.
Defined.

Lemma info_blocks_tile_witness :
  ∃ bs, @get_block_infos_of_piece _ Error 40000 32768 1 = Ok bs ∧ NoDup bs ∧ length bs = 1%nat.
Proof.
  destruct (info_blocks_tile (E:=Error) 40000 32768 1 (replicate (N.to_nat 7232) 0%N))
    as (bs & Hbs & Hnd & _); [vm_compute; discriminate..|reflexivity|].
  exists bs. split; [exact Hbs|]. split; [exact Hnd|]. vm_compute in Hbs. by injection Hbs as <-.
Defined.

Definition ex_blocks : list BlockInfo := blocks_of 0 65536.

Lemma info_blocks_valid_witness :
  @get_block_infos_of_piece _ Error 65536 65536 0 = Ok ex_blocks ∧
  ∃ b, ex_blocks !! 2%nat = Some b ∧ BlockInfo_is_valid b = false.
Proof.
  assert (Hbs : @get_block_infos_of_piece _ Error 65536 65536 0 = Ok ex_blocks)
    by (vm_compute; reflexivity).
  split; [exact Hbs|]. exists (block_at 0 65536 2). split; [vm_compute; reflexivity|].
  rewrite (info_blocks_valid (E:=Error) 65536 65536 0 ex_blocks 2 (block_at 0 65536 2));
    [reflexivity|vm_compute; discriminate..|exact Hbs|vm_compute; reflexivity].
Defined.
End examples.
