(* ===== verification/Disk.v ===== *)
(** [disk.rs]: the torrents' files, the layout of pieces over them, reading,
    writing and hashing, and the queue of blocks to download. *)
From Stdlib Require String Ascii.
From stdpp Require Import sorting.
From S2P Require Import Prelude Errors Bits Core Bencode Metainfo.
Import String.StringSyntax.

(** ** Data *)

Inductive MetadataDir := Complete | Incomplete | Queue.
Inductive PieceStrategy := Random | Sequential.
#[global] Instance MetadataDir_eq_dec : EqDecision MetadataDir.
Proof. solve_decision. Defined.
#[global] Instance PieceStrategy_eq_dec : EqDecision PieceStrategy.
Proof. solve_decision. Defined.

(** A path is its bytes; two paths name the same file when they are equal. *)
Definition path := list N.

(** [PathBuf::push] *)
Definition path_push (base c : path) : path :=
  if decide (hd 0%N c = 47%N) then c else base ++ 47%N :: c.

Record FileMetadata := { fm_path : path; fm_start : N; fm_length : N }.

Record TorrentCache := {
  tc_files : list FileMetadata;
  tc_piece_length : N;
  tc_num_pieces : N;
  tc_total_size : N;
}.
Definition TorrentCache_default : TorrentCache :=
  {| tc_files := []; tc_piece_length := 0; tc_num_pieces := 0; tc_total_size := 0 |}.

(** [struct MetadataPiece(pub usize)] *)
Definition MetadataPiece := N.

Record TorrentData := {
  downloaded_per_piece : list N;
  endgame : bool;
  piece_tracker : list N;
  torrent_info : Info;
  metadata_pieces : list MetadataPiece;
  piece_strategy : PieceStrategy;
  td_queue : list BlockInfo;
  torrent_cache : TorrentCache;
}.

(** An open memory map: the file it shows, by its inode, and its length, which
    is the file's when it was mapped. *)
Definition mmap : Type := N * N.

(** The disk and the part of the file system it uses: directory entries, the
    bytes of every inode (also of the unlinked ones that are still mapped), the
    next fresh inode, and the two caches of maps.  The caches hold
    [FILE_CACHE_CAPACITY] files; dropping an entry only makes the next access
    open the file again, so eviction is left out. *)
Record Disk := {
  d_torrents : gmap InfoHash TorrentData;
  d_download_dir : path;
  d_metadata_dir : path;
  d_entries : gmap path N;
  d_inodes : gmap N (list N);
  d_next : N;
  d_dirs : gset path;
  d_read_cache : gmap path mmap;
  d_write_cache : gmap path mmap;
}.

(** What the disk sends: to a torrent, or to the daemon. *)
Inductive TorrentStatusErrorCode := FilesMissing | Unknown.
Inductive DiskEvent :=
  | DownloadedPiece (piece : N)
  | CorruptedPiece (piece : N)
  | EndgameStarted
  | SetTorrentError (code : TorrentStatusErrorCode)
  | AddTorrentToDaemon (bitfield : list bool) (files_missing : bool).

(** The disk and what it has sent so far. *)
Record DiskState := { disk : Disk; sent : list (InfoHash * DiskEvent) }.
Abbreviation act := (action DiskState Error).

(** ** Updates *)

Definition set_downloaded (l : list N) (t : TorrentData) : TorrentData := {|
  downloaded_per_piece := l; endgame := endgame t; piece_tracker := piece_tracker t;
  torrent_info := torrent_info t; metadata_pieces := metadata_pieces t;
  piece_strategy := piece_strategy t; td_queue := td_queue t; torrent_cache := torrent_cache t |}.
Definition set_endgame (b : bool) (t : TorrentData) : TorrentData := {|
  downloaded_per_piece := downloaded_per_piece t; endgame := b; piece_tracker := piece_tracker t;
  torrent_info := torrent_info t; metadata_pieces := metadata_pieces t;
  piece_strategy := piece_strategy t; td_queue := td_queue t; torrent_cache := torrent_cache t |}.
Definition set_tracker (l : list N) (t : TorrentData) : TorrentData := {|
  downloaded_per_piece := downloaded_per_piece t; endgame := endgame t; piece_tracker := l;
  torrent_info := torrent_info t; metadata_pieces := metadata_pieces t;
  piece_strategy := piece_strategy t; td_queue := td_queue t; torrent_cache := torrent_cache t |}.
Definition set_metadata (l : list MetadataPiece) (t : TorrentData) : TorrentData := {|
  downloaded_per_piece := downloaded_per_piece t; endgame := endgame t;
  piece_tracker := piece_tracker t; torrent_info := torrent_info t; metadata_pieces := l;
  piece_strategy := piece_strategy t; td_queue := td_queue t; torrent_cache := torrent_cache t |}.
Definition set_queue (s : PieceStrategy) (q : list BlockInfo) (t : TorrentData) : TorrentData := {|
  downloaded_per_piece := downloaded_per_piece t; endgame := endgame t;
  piece_tracker := piece_tracker t; torrent_info := torrent_info t;
  metadata_pieces := metadata_pieces t; piece_strategy := s; td_queue := q;
  torrent_cache := torrent_cache t |}.
Definition set_cache (c : TorrentCache) (t : TorrentData) : TorrentData := {|
  downloaded_per_piece := downloaded_per_piece t; endgame := endgame t;
  piece_tracker := piece_tracker t; torrent_info := torrent_info t;
  metadata_pieces := metadata_pieces t; piece_strategy := piece_strategy t;
  td_queue := td_queue t; torrent_cache := c |}.

Definition with_torrents (m : gmap InfoHash TorrentData) (d : Disk) : Disk := {|
  d_torrents := m; d_download_dir := d_download_dir d; d_metadata_dir := d_metadata_dir d; d_entries := d_entries d;
  d_inodes := d_inodes d;
  d_next := d_next d; d_dirs := d_dirs d;
  d_read_cache := d_read_cache d; d_write_cache := d_write_cache d |}.
Definition with_inodes (m : gmap N (list N)) (d : Disk) : Disk := {|
  d_torrents := d_torrents d; d_download_dir := d_download_dir d; d_metadata_dir := d_metadata_dir d; d_entries := d_entries d;
  d_inodes := m;
  d_next := d_next d; d_dirs := d_dirs d;
  d_read_cache := d_read_cache d; d_write_cache := d_write_cache d |}.
Definition with_dirs (m : gset path) (d : Disk) : Disk := {|
  d_torrents := d_torrents d; d_download_dir := d_download_dir d; d_metadata_dir := d_metadata_dir d; d_entries := d_entries d;
  d_inodes := d_inodes d;
  d_next := d_next d; d_dirs := m;
  d_read_cache := d_read_cache d; d_write_cache := d_write_cache d |}.
Definition with_read_cache (m : gmap path mmap) (d : Disk) : Disk := {|
  d_torrents := d_torrents d; d_download_dir := d_download_dir d; d_metadata_dir := d_metadata_dir d; d_entries := d_entries d;
  d_inodes := d_inodes d;
  d_next := d_next d; d_dirs := d_dirs d;
  d_read_cache := m; d_write_cache := d_write_cache d |}.
Definition with_write_cache (m : gmap path mmap) (d : Disk) : Disk := {|
  d_torrents := d_torrents d; d_download_dir := d_download_dir d; d_metadata_dir := d_metadata_dir d; d_entries := d_entries d;
  d_inodes := d_inodes d;
  d_next := d_next d; d_dirs := d_dirs d;
  d_read_cache := d_read_cache d; d_write_cache := m |}.
Definition with_entries (m : gmap path N) (d : Disk) : Disk := {|
  d_torrents := d_torrents d; d_download_dir := d_download_dir d; d_metadata_dir := d_metadata_dir d; d_entries := m;
  d_inodes := d_inodes d;
  d_next := d_next d; d_dirs := d_dirs d;
  d_read_cache := d_read_cache d; d_write_cache := d_write_cache d |}.
(** A new, empty file. *)
Definition with_new_file (p : path) (d : Disk) : Disk := {|
  d_torrents := d_torrents d; d_download_dir := d_download_dir d; d_metadata_dir := d_metadata_dir d;
  d_entries := <[p := d_next d]> (d_entries d);
  d_inodes := <[d_next d := []]> (d_inodes d); d_next := d_next d + 1;
  d_dirs := d_dirs d; d_read_cache := d_read_cache d; d_write_cache := d_write_cache d |}.

Definition with_disk (f : Disk → Disk) (s : DiskState) : DiskState :=
  {| disk := f (disk s); sent := sent s |}.

(** [torrent_data!(self, info_hash, field)?] *)
Definition torrent_data (h : InfoHash) : act TorrentData := fun s =>
  (ok_or TorrentDoesNotExist (d_torrents (disk s) !! h), s).
(** [*torrent_data_mut!(self, info_hash, field)? = ..] *)
Definition torrent_data_mut (h : InfoHash) (f : TorrentData → TorrentData) : act unit :=
  torrent_data h ≫= fun t =>
  modifyS (with_disk (fun d => with_torrents (<[h := f t]> (d_torrents d)) d)).
(** [torrent_ctx.tx.send(msg).await] *)
Definition send (h : InfoHash) (m : DiskEvent) : act unit :=
  modifyS (fun s => {| disk := disk s; sent := sent s ++ [(h, m)] |}).

(** ** Files *)

(** Everything before the last separator; the root is the empty path. *)
Fixpoint drop_while_not (c : N) (l : list N) : list N :=
  match l with
  | [] => []
  | x :: l' => if decide (x = c) then l else drop_while_not c l'
  end.
Definition path_parent (p : path) : path := rev (tail (drop_while_not 47 (rev p))).

(** All the directories above a path, itself included. *)
Fixpoint ancestors (fuel : nat) (p : path) : list path :=
  match fuel with
  | O => []
  | S fuel => p :: match p with [] => [] | _ => ancestors fuel (path_parent p) end
  end.
Definition create_dir_all (p : path) : act unit :=
  modifyS (with_disk (fun d => with_dirs (d_dirs d ∪ list_to_set (ancestors (S (length p)) p)) d)).

(** [Disk::open_file]: the file is created when it is missing; opening fails
    when its directory is. *)
Definition open_file (p : path) : act N := fun s =>
  match d_entries (disk s) !! p with
  | Some i => (Ok i, s)
  | None =>
      if decide (path_parent p ∈ d_dirs (disk s) ∨ path_parent p = [])
      then (Ok (d_next (disk s)), with_disk (with_new_file p) s)
      else (Err (IO NotFound), s)
  end.

Definition inode (d : Disk) (i : N) : list N := default [] (d_inodes d !! i).
Definition map_file (d : Disk) (i : N) : mmap := (i, len (inode d i)).
(** The bytes of a map. *)
Definition mapped (d : Disk) (m : mmap) : list N := take (N.to_nat m.2) (inode d m.1).

(** [Disk::get_cached_read_mmap] *)
Definition get_cached_read_mmap (p : path) : act mmap := fun s =>
  match d_read_cache (disk s) !! p with
  | Some m => (Ok m, s)
  | None =>
      match open_file p s with
      | (Ok i, s) =>
          let m := map_file (disk s) i in
          (Ok m, with_disk (fun d => with_read_cache (<[p := m]> (d_read_cache d)) d) s)
      | (Err e, s) => (Err e, s)
      | (Panic, s) => (Panic, s)
      end
  end.

(** [Disk::get_cached_write_mmap] *)
Definition get_cached_write_mmap (p : path) : act mmap := fun s =>
  match d_write_cache (disk s) !! p with
  | Some m => (Ok m, s)
  | None =>
      match open_file p s with
      | (Ok i, s) =>
          let m := map_file (disk s) i in
          (Ok m, with_disk (fun d => with_write_cache (<[p := m]> (d_write_cache d)) d) s)
      | (Err e, s) => (Err e, s)
      | (Panic, s) => (Panic, s)
      end
  end.

(** [l[a..a + k.len()].copy_from_slice(k)], for a range within [l] *)
Definition splice {A} (a : N) (k l : list A) : list A :=
  take (N.to_nat a) l ++ k ++ drop (N.to_nat a + length k) l.

(** [mmap[off..off + data.len()].copy_from_slice(data)] *)
Definition mmap_write (m : mmap) (off : N) (data : list N) : act unit := fun s =>
  if (off + len data <=? len (mapped (disk s) m))%N
  then (Ok tt, with_disk (fun d =>
    with_inodes (<[m.1 := splice off data (inode d m.1)]> (d_inodes d)) d) s)
  else (Panic, s).

(** [file.set_len(n)] *)
Definition set_len (i n : N) : act unit :=
  modifyS (with_disk (fun d => with_inodes
    (<[i := take (N.to_nat n) (inode d i) ++ replicate (N.to_nat n - length (inode d i)) 0%N]>
      (d_inodes d)) d)).

(** ** Layout *)

Section layout.
Context `{Build}.

(** [TorrentCache::piece_length] *)
Definition TorrentCache_piece_length {E} (c : TorrentCache) (piece : N) : outcome E N :=
  last ← usub (tc_num_pieces c) 1;
  if (piece =? last)%N then
    rem ← urem (tc_total_size c) (tc_piece_length c);
    Ok (if (rem =? 0)%N then tc_piece_length c else rem)
  else Ok (tc_piece_length c).

(** [Disk::base_path] *)
Definition base_path (d : Disk) (info : Info) : path := path_push (d_download_dir d) (info_name info).

(** The loop over the files of [compute_torrent_cache]. *)
Fixpoint layout_files (base : path) (offset : N) (l : list File) : outcome Error (list FileMetadata) :=
  match l with
  | [] => Ok []
  | f :: l =>
      let m := {| fm_path := foldl path_push base (f_path f); fm_start := offset;
                  fm_length := f_length f |} in
      offset ← uadd offset (f_length f);
      ms ← layout_files base offset l;
      Ok (m :: ms)
  end.

(** [Disk::compute_torrent_cache] *)
Definition compute_torrent_cache (info : Info) : act unit :=
  torrent_data (info_hash info) ≫= fun t =>
  getS ≫= fun s =>
  let base := base_path (disk s) (torrent_info t) in
  let num_pieces := pieces info in
  torrent_data_mut (info_hash info) (set_tracker (replicate (N.to_nat num_pieces) 0%N)) ≫= fun _ =>
  lift match files info with
       | Some fs => layout_files base 0 fs
       | None => Ok [{| fm_path := base; fm_start := 0; fm_length := default 0%N (file_length info) |}]
       end ≫= fun file_metadata =>
  lift (get_torrent_size info) ≫= fun total =>
  torrent_data_mut (info_hash info) (set_cache {|
    tc_files := file_metadata; tc_piece_length := info_piece_length info;
    tc_num_pieces := num_pieces; tc_total_size := total |}).

(** [Disk::new_torrent_data] *)
Definition new_torrent_data (info : Info) : act unit :=
  modifyS (with_disk (fun d => with_torrents (<[info_hash info := {|
    downloaded_per_piece := []; endgame := false; piece_tracker := []; torrent_info := info;
    metadata_pieces := []; piece_strategy := Sequential; td_queue := [];
    torrent_cache := TorrentCache_default |}]> (d_torrents d)) d)).

(** [Disk::pre_alloc_files] *)
Definition pre_alloc_file (m : FileMetadata) : act unit :=
  create_dir_all (path_parent (fm_path m)) ≫= fun _ =>
  if_ok (open_file (fm_path m)) (fun i => set_len i (fm_length m)) (mret tt).
Definition pre_alloc_files (h : InfoHash) : act unit :=
  getS ≫= fun s =>
  match d_torrents (disk s) !! h with
  | Some t => forM pre_alloc_file (tc_files (torrent_cache t))
  | None => mret tt
  end.

(** ** Writing *)

(** A write: the file, the offset in it and the range of the buffer. *)
Record write_op := { wo_path : path; wo_offset : N; wo_start : N; wo_end : N }.

(** The parts of the torrent's bytes from [start] to [end_] that fall in each
    file: the loop both [calculate_write_ops] share. *)
Fixpoint overlap_ops (start end_ : N) (l : list FileMetadata) : outcome Error (list write_op) :=
  match l with
  | [] => Ok []
  | m :: l =>
      file_end ← uadd (fm_start m) (fm_length m);
      let overlap_start := N.max start (fm_start m) in
      let overlap_end := N.min end_ file_end in
      if (overlap_end <=? overlap_start)%N then overlap_ops start end_ l
      else
        buffer_start ← usub overlap_start start;
        buffer_end ← usub overlap_end start;
        file_offset ← usub overlap_start (fm_start m);
        ops ← overlap_ops start end_ l;
        Ok ({| wo_path := fm_path m; wo_offset := file_offset;
               wo_start := buffer_start; wo_end := buffer_end |} :: ops)
  end.

(** [Disk::calculate_write_ops_for_block] *)
Definition calculate_write_ops_for_block (cache : TorrentCache) (b : BlockInfo)
    : outcome Error (list write_op) :=
  piece_start ← umul (bi_index b) (tc_piece_length cache);
  block_start ← uadd piece_start (bi_begin b);
  block_end ← uadd block_start (bi_len b);
  overlap_ops block_start (N.min block_end (tc_total_size cache)) (tc_files cache).

(** [Disk::calculate_write_ops] *)
Definition calculate_write_ops (cache : TorrentCache) (piece_index : N) (piece_buffer : list N)
    : outcome Error (list write_op) :=
  piece_start ← umul piece_index (tc_piece_length cache);
  piece_end ← uadd piece_start (tc_piece_length cache);
  let piece_end := N.min piece_end (tc_total_size cache) in
  piece_size ← usub piece_end piece_start;
  if (len piece_buffer <? piece_size)%N then Err PieceInvalid
  else overlap_ops piece_start piece_end (tc_files cache).

(** Perform one write of a block's bytes. *)
Definition write_one (data : list N) (op : write_op) : act unit :=
  get_cached_write_mmap (wo_path op) ≫= fun m =>
  lift (slice data (wo_start op) (wo_end op)) ≫= fun b =>
  mmap_write m (wo_offset op) b.

(** [downloaded_pieces_len[index] = n], within range *)
Definition set_piece_count (h : InfoHash) (i n : N) : act unit :=
  torrent_data_mut h (fun t => set_downloaded (<[N.to_nat i := n]> (downloaded_per_piece t)) t).

(** [Disk::is_piece_downloaded] *)
Definition is_piece_downloaded (piece : N) (h : InfoHash) : act bool :=
  torrent_data h ≫= fun t =>
  lift (n ← index (downloaded_per_piece t) piece;
        l ← TorrentCache_piece_length (torrent_cache t) piece;
        Ok (l <=? n)%N).

(** ** Hashing *)

Context `{Sha1Api}.

(** The bytes of a piece, gathered file by file. *)
Fixpoint validate_loop (piece_start piece_end : N) (l : list FileMetadata) (acc : list N)
    : act (list N) :=
  match l with
  | [] => mret acc
  | m :: l =>
      lift (e ← uadd (fm_start m) (fm_length m); usub e 1) ≫= fun file_end =>
      if (piece_start <=? file_end)%N && (fm_start m <=? piece_end)%N then
        lift (a ← usub (N.max piece_start (fm_start m)) (fm_start m);
              b ← usub (N.min piece_end file_end) (fm_start m);
              n ← usub b a; n ← uadd n 1; Ok (a, n)) ≫= fun '(overlap_start, n) =>
        get_cached_read_mmap (fm_path m) ≫= fun mm =>
        getS ≫= fun s =>
        lift (rest ← slice (mapped (disk s) mm) overlap_start (len (mapped (disk s) mm));
              slice rest 0 n) ≫= fun data =>
        validate_loop piece_start piece_end l (acc ++ data)
      else validate_loop piece_start piece_end l acc
  end.

(** [Disk::validate_piece] *)
Definition validate_piece (h : InfoHash) (piece : N) : act unit :=
  lift (b ← umul piece 20; e ← uadd b 20; Ok (b, e)) ≫= fun '(b, e) =>
  torrent_data h ≫= fun t =>
  let info := torrent_info t in
  lift (slice (info_pieces info) b e) ≫= fun hash_from_info =>
  lift (piece_start ← umul piece (info_piece_length info);
        piece_len ← piece_length info piece;
        e ← uadd piece_start piece_len;
        piece_end ← usub e 1; Ok (piece_start, piece_end)) ≫= fun '(piece_start, piece_end) =>
  validate_loop piece_start piece_end (tc_files (torrent_cache t)) [] ≫= fun data =>
  if decide (hash_from_info = sha1 data) then mret tt else lift (Err PieceInvalid).

(** [Disk::write_block] *)
Definition write_block (h : InfoHash) (block : Block) : act unit :=
  let n := len (bl_block block) in
  let i := bl_index block in
  torrent_data h ≫= fun t =>
  match downloaded_per_piece t !! N.to_nat i with
  | None => mret tt
  | Some downloaded =>
    if (downloaded =? usize_max)%N then mret tt else
    lift (calculate_write_ops_for_block (torrent_cache t)
      {| bi_len := n; bi_index := i; bi_begin := bl_begin block |}) ≫= fun ops =>
    forM (write_one (bl_block block)) ops ≫= fun _ =>
    lift (uadd downloaded n) ≫= fun downloaded =>
    set_piece_count h i downloaded ≫= fun _ =>
    is_piece_downloaded i h ≫= fun complete =>
    if negb complete then mret tt else
    if_ok (validate_piece h i) (fun _ =>
      set_piece_count h i usize_max ≫= fun _ =>
      send h (DownloadedPiece i))
    (
      let c := torrent_cache t in
      lift (get_block_infos_of_piece (tc_total_size c) (tc_piece_length c) i) ≫= fun blocks =>
      torrent_data_mut h (fun t => set_queue (piece_strategy t) (td_queue t ++ blocks) t) ≫= fun _ =>
      set_piece_count h i 0 ≫= fun _ =>
      send h (CorruptedPiece i))
  end.

(** ** Reading *)

(** [record_piece_access]: the piece's last access time ([now]).  The recording is
    a blocking task of its own, whose end nobody awaits: for a piece out of range
    it is the task that panics, nothing is recorded, and the poisoned lock is an
    error that is logged; the read goes on.  As the index is out of range, so is
    the insertion here. *)
Definition record_piece_access (now : N) (h : InfoHash) (piece : N) : act unit :=
  torrent_data_mut h (fun t => set_tracker (<[N.to_nat piece := now]> (piece_tracker t)) t).

(** The first file that contains an offset. *)
Fixpoint find_file (offset : N) (l : list FileMetadata) : outcome Error (option FileMetadata) :=
  match l with
  | [] => Ok None
  | m :: l =>
      if (fm_start m <=? offset)%N then
        e ← uadd (fm_start m) (fm_length m);
        if (offset <? e)%N then Ok (Some m) else find_file offset l
      else find_file offset l
  end.

(** [Disk::read_block] *)
Definition read_block (now : N) (h : InfoHash) (b : BlockInfo) : act (list N) :=
  torrent_data h ≫= fun t =>
  let c := torrent_cache t in
  lift (a ← umul (bi_index b) (tc_piece_length c); uadd a (bi_begin b)) ≫= fun absolute_offset =>
  lift (find_file absolute_offset (tc_files c)) ≫= fun found =>
  lift (ok_or TorrentDoesNotExist found) ≫= fun m =>
  lift (start ← usub absolute_offset (fm_start m);
        end_ ← uadd start (bi_len b); Ok (start, end_)) ≫= fun '(start, end_) =>
  record_piece_access now h (bi_index b) ≫= fun _ =>
  get_cached_read_mmap (fm_path m) ≫= fun mm =>
  getS ≫= fun s =>
  lift (slice (mapped (disk s) mm) start end_).

(** ** Verifying the files of a torrent *)

(** The loop of [verify_piece] over the open files. *)
Fixpoint verify_loop (piece_start piece_end : N) (l : list (FileMetadata * list N))
    (remaining : N) (acc : list N) : outcome Error (list N) :=
  match l with
  | [] => Ok acc
  | (m, bytes) :: l =>
      let file_start := fm_start m in
      file_end ← uadd file_start (fm_length m);
      if (piece_start <? file_end)%N && (file_start <? piece_end)%N then
        let read_start := N.max piece_start file_start in
        read_length ← usub (N.min piece_end file_end) read_start;
        file_offset ← usub read_start file_start;
        if (len bytes <=? file_offset)%N
        then verify_loop piece_start piece_end l remaining acc
        else
          let available := N.min read_length (len bytes - file_offset) in
          let acc := acc ++ window file_offset available bytes in
          remaining ← usub remaining read_length;
          if (remaining =? 0)%N then Ok acc
          else verify_loop piece_start piece_end l remaining acc
      else if (remaining =? 0)%N then Ok acc
      else verify_loop piece_start piece_end l remaining acc
  end.

(** [Disk::verify_piece] *)
Definition verify_piece (piece_index : N) (mmaps : list (FileMetadata * list N))
    (piece_length total_size : N) (expected_hash : list N) : outcome Error bool :=
  piece_start ← umul piece_index piece_length;
  e ← uadd piece_start piece_length;
  let piece_end := N.min e total_size in
  piece_size ← usub piece_end piece_start;
  data ← verify_loop piece_start piece_end mmaps piece_size [];
  Ok (bool_decide (sha1 data = expected_hash)).

(** [Disk::preopen_files]: the maps, and whether a file could not be opened,
    where it stops *)
Fixpoint preopen_files (l : list FileMetadata) : act (list (FileMetadata * mmap) * bool) :=
  match l with
  | [] => mret ([], false)
  | m :: l =>
      if_ok (open_file (fm_path m))
        (fun i => getS ≫= fun s =>
          preopen_files l ≫= fun ms : list (FileMetadata * mmap) * bool =>
          mret ((m, map_file (disk s) i) :: ms.1, ms.2))
        (mret ([], true))
  end.

(** [pieces.chunks_exact(20)] *)
Fixpoint chunks20 (fuel : nat) (l : list N) : list (list N) :=
  match fuel with
  | O => []
  | S fuel => if (len l <? 20)%N then [] else take 20 l :: chunks20 fuel (drop 20 l)
  end.

(** [Disk::compute_downloaded_pieces] *)
Definition compute_downloaded_pieces (info : Info) : act (list bool * N) :=
  torrent_data (info_hash info) ≫= fun t =>
  let c := torrent_cache t in
  let expected_hashes := chunks20 (length (info_pieces info)) (info_pieces info) in
  let total_pieces := pieces info in
  preopen_files (tc_files c) ≫= fun hs : list (FileMetadata * mmap) * bool =>
  let (handles, is_err) := hs in
  getS ≫= fun s =>
  lift (mapM_outcome (fun p =>
    expected ← index expected_hashes p;
    verify_piece p (prod_map id (mapped (disk s)) <$> handles) (info_piece_length info)
      (tc_total_size c) expected) (range total_pieces)) ≫= fun results =>
  forM (fun fm : FileMetadata * mmap => modifyS (with_disk (fun d =>
    with_read_cache (<[fm_path fm.1 := fm.2]> (d_read_cache d)) d))) handles ≫= fun _ =>
  lift (mapM_outcome (fun pr : N * bool => if pr.2 then piece_length info pr.1 else Ok 0%N)
    (zip (range total_pieces) results)) ≫= fun downloaded =>
  torrent_data_mut (info_hash info) (set_downloaded downloaded) ≫= fun _ =>
  let ones := count_true results in
  if is_err then lift (Err (TorrentFilesMissing results ones)) else mret (results, ones).

(** ** Requests *)

(** [while let Some(block) = queue.pop_if(|v| bitfield.safe_get(v.index))]: the
    queue is given from its end *)
Fixpoint pop_while `{BitVecApi} (bitfield : bitvec) (rq : list BlockInfo)
    : outcome Error (list BlockInfo * list BlockInfo * bitvec) :=
  match rq with
  | [] => Ok ([], [], bitfield)
  | b :: rq' =>
      '(has, bitfield) ← safe_get bitfield (bi_index b);
      if has : bool then
        '(popped, rest, bitfield) ← pop_while bitfield rq';
        Ok (b :: popped, rest, bitfield)
      else Ok ([], rq, bitfield)
  end.

(** In endgame the blocks the peer has are copied. *)
Fixpoint copy_blocks `{BitVecApi} (bitfield : bitvec) (q : list BlockInfo)
    : outcome Error (list BlockInfo) :=
  match q with
  | [] => Ok []
  | b :: q =>
      '(has, bitfield) ← safe_get bitfield (bi_index b);
      bs ← copy_blocks bitfield q;
      Ok (if has : bool then b :: bs else bs)
  end.

(** [Disk::enter_endgame] *)
Definition enter_endgame (h : InfoHash) : act unit :=
  torrent_data h ≫= fun t =>
  if endgame t then mret tt
  else torrent_data_mut h (set_endgame true) ≫= fun _ => send h EndgameStarted.

(** [Disk::request_blocks], for a peer that has [block_infos_len] blocks in
    flight: what the atomic of the peer holds when the disk handles the message *)
Definition request_blocks `{BitVecApi} (h : InfoHash) (block_infos_len : N) (ps : list N)
    (bitfield : bitvec) : act (list BlockInfo) :=
  torrent_data h ≫= fun t =>
  let c := torrent_cache t in
  lift (umul (div_ceil (tc_piece_length c) BLOCK_LEN) (len ps)) ≫= fun _ =>
  lift (mapM_outcome (get_block_infos_of_piece (tc_total_size c) (tc_piece_length c)) ps)
    ≫= fun blocks =>
  (if endgame t then
     lift (copy_blocks bitfield (td_queue t))
   else
     lift (pop_while bitfield (reverse (td_queue t)))
       ≫= fun pr : list BlockInfo * list BlockInfo * bitvec =>
     torrent_data_mut h (fun t => set_queue (piece_strategy t) (reverse pr.1.2) t) ≫= fun _ =>
     mret pr.1.1) ≫= fun queued =>
  let result := concat blocks ++ queued in
  (if (block_infos_len =? 0)%N && (len result =? 0)%N && negb (endgame t)
   then catch tt (enter_endgame h) else mret tt) ≫= fun _ =>
  mret result.

(** [Disk::request_metadata] *)
Definition request_metadata (h : InfoHash) (qnt metadata_size : N) : act (list MetadataPiece) :=
  torrent_data h ≫= fun t =>
  let metas := match metadata_pieces t with
               | [] => range (div_ceil metadata_size BLOCK_LEN)
               | l => l
               end in
  let n := N.to_nat (N.min qnt (len metas)) in
  torrent_data_mut h (set_metadata (drop n metas)) ≫= fun _ =>
  mret (take n metas).

(** The derived order of [BlockInfo]. *)
Definition BlockInfo_le (a b : BlockInfo) : Prop :=
  (bi_index a < bi_index b)%N ∨ (bi_index a = bi_index b ∧
    ((bi_begin a < bi_begin b)%N ∨ (bi_begin a = bi_begin b ∧ (bi_len a <= bi_len b)%N))).
#[global] Instance BlockInfo_le_dec a b : Decision (BlockInfo_le a b).
Proof. unfold BlockInfo_le. apply _. Defined.

(** [Disk::set_piece_strategy]; [shuffle] is the permutation drawn *)
Definition set_piece_strategy (shuffle : list BlockInfo → list BlockInfo) (h : InfoHash)
    (s : PieceStrategy) : act unit :=
  torrent_data_mut h (fun t =>
    set_queue s (match s with
                 | Random => shuffle (td_queue t)
                 | Sequential => merge_sort BlockInfo_le (td_queue t)
                 end) t).

(** ** Cold pieces *)

Definition COLD_PIECE_THRESHOLD : N := 30000.

(** The ranges of the maps [advise_piece_cold] gives up, with pages of [page]
    bytes. *)
Fixpoint advise_files (page piece_start piece_end : N) (cached : path → bool)
    (l : list FileMetadata) : outcome Error (list (path * N * N)) :=
  match l with
  | [] => Ok []
  | m :: l =>
      e ← uadd (fm_start m) (fm_length m);
      file_end ← usub e 1;
      if negb (cached (fm_path m)) ||
         negb ((piece_start <=? file_end)%N && (fm_start m <=? piece_end)%N)
      then advise_files page piece_start piece_end cached l
      else
        overlap_start ← usub (N.max piece_start (fm_start m)) (fm_start m);
        overlap_end ← usub (N.min piece_end file_end) (fm_start m);
        n ← usub overlap_end overlap_start; n ← uadd n 1;
        aligned_start ← (q ← udiv overlap_start page; umul q page);
        aligned_end ← (x ← uadd overlap_start n; q ← udiv_ceil x page; umul q page);
        aligned_len ← usub (N.min aligned_end (fm_length m)) aligned_start;
        rs ← advise_files page piece_start piece_end cached l;
        Ok ((fm_path m, aligned_start, aligned_len) :: rs)
  end.

Definition advise_piece_cold (page : N) (d : Disk) (c : TorrentCache) (piece : N)
    : outcome Error (list (path * N * N)) :=
  piece_len ← TorrentCache_piece_length c piece;
  piece_start ← umul piece piece_len;
  e ← uadd piece_start piece_len;
  piece_end ← usub e 1;
  advise_files page piece_start piece_end
    (fun p => bool_decide (is_Some (d_read_cache d !! p))) (tc_files c).

(** The pieces of a torrent that were read, but not for a while. *)
Definition cold_pieces (now : N) (tracker : list N) : list N :=
  fst <$> filter (fun pl : N * N => pl.2 ≠ 0%N ∧ (COLD_PIECE_THRESHOLD < now - pl.2)%N)
    (zip (range (len tracker)) tracker).

(** [Disk::evict_cold_pieces]: what is advised, torrent by torrent *)
Definition evict_cold_pieces (page now : N) (d : Disk) : outcome Error (list (path * N * N)) :=
  rs ← mapM_outcome (fun ht : InfoHash * TorrentData =>
    rs ← mapM_outcome (advise_piece_cold page d (torrent_cache ht.2))
      (cold_pieces now (piece_tracker ht.2));
    Ok (concat rs)) (map_to_list (d_torrents d));
  Ok (concat rs).

(** ** Torrent files

    [to_string] is the hexadecimal form of an info hash ([hex::encode]). *)

Context (to_string : InfoHash → list N).

(** [Disk::get_path_of] and the three paths *)
Definition get_path_of (d : Disk) (dir : MetadataDir) : path :=
  path_push (d_metadata_dir d)
    match dir with
    | Queue => ascii "queue" | Incomplete => ascii "incomplete" | Complete => ascii "complete"
    end.

(** The path of a torrent's metainfo: [set_extension] appends, since a
    hexadecimal name has no dot. *)
Definition metainfo_path (d : Disk) (dir : MetadataDir) (h : InfoHash) : path :=
  path_push (get_path_of d dir) (to_string h) ++ ascii ".torrent".

(** [let _ = std::fs::rename(from, to)] *)
Definition rename (from to : path) : act unit :=
  modifyS (with_disk (fun d =>
    match d_entries d !! from with
    | Some i => with_entries (<[to := i]> (delete from (d_entries d))) d
    | None => d
    end)).

(** [Disk::move_metainfo_to_dir] *)
Definition move_metainfo_to_dir (h : InfoHash) (from_dir to_dir : MetadataDir) : act unit :=
  getS ≫= fun s =>
  rename (metainfo_path (disk s) from_dir h) (metainfo_path (disk s) to_dir h).

(** [is_torrent_complete], [is_torrent_incomplete] *)
Definition path_exists (d : Disk) (p : path) : bool := bool_decide (is_Some (d_entries d !! p)).
Definition is_torrent_complete (d : Disk) (h : InfoHash) : bool :=
  path_exists d (metainfo_path d Complete h).
Definition is_torrent_incomplete (d : Disk) (h : InfoHash) : bool :=
  path_exists d (metainfo_path d Incomplete h).

(** [Disk::get_metainfo_path] *)
Definition get_metainfo_path (d : Disk) (h : InfoHash) : outcome Error path :=
  if is_torrent_complete d h then Ok (metainfo_path d Complete h)
  else if is_torrent_incomplete d h then Ok (metainfo_path d Incomplete h)
  else Err TorrentDoesNotExist.

(** [Disk::new_torrent]: what reaches the daemon is an event *)
Definition new_torrent (info : Info) (dir : MetadataDir) : act unit :=
  let h := info_hash info in
  new_torrent_data info ≫= fun _ =>
  compute_torrent_cache info ≫= fun _ =>
  (if decide (dir = Queue) then pre_alloc_files h else mret tt) ≫= fun _ =>
  (fun s => match compute_downloaded_pieces info s with
   | (Ok (bits, ones), s) => (Ok (false, bits, ones), s)
   | (Err (TorrentFilesMissing bits ones), s) => (Ok (true, bits, ones), s)
   | (Err e, s) => (Err e, s)
   | (Panic, s) => (Panic, s)
   end : outcome Error (bool * list bool * N) * DiskState)
  ≫= fun r : bool * list bool * N =>
  set_piece_strategy id h Sequential ≫= fun _ =>
  (if (pieces info <=? r.2)%N then move_metainfo_to_dir h Incomplete Complete else mret tt)
  ≫= fun _ =>
  send h (AddTorrentToDaemon r.1.2 r.1.1).

(** One entry of the loop of [Disk::read_metainfos_and_add]: [from_bencode] is
    the decoding of a file's bytes *)
Definition add_entry (from_bencode : list N → option MetaInfo) (dir : MetadataDir)
    (file_name : path) : act unit :=
  getS ≫= fun s =>
  match i ← d_entries (disk s) !! file_name; from_bencode (inode (disk s) i) with
  | None => mret tt
  | Some meta =>
      let h := info_hash (mi_info meta) in
      (if decide (dir = Queue)
       then rename file_name (path_push (path_parent file_name) (to_string h) ++ ascii ".torrent")
       else mret tt) ≫= fun _ =>
      if decide (is_Some (d_torrents (disk s) !! h)) then mret tt
      else
        (if decide (dir = Queue) then move_metainfo_to_dir h Queue Incomplete else mret tt)
        ≫= fun _ => new_torrent (mi_info meta) dir
  end.

(** [Disk::read_metainfos_and_add]: [entries] is the directory's listing *)
Definition read_metainfos_and_add (from_bencode : list N → option MetaInfo)
    (dir : MetadataDir) (entries : list path) : act unit :=
  forM (add_entry from_bencode dir) entries.

(** ** Messages *)

(** [Disk::sync_torrent] opens the maps; flushing them changes no byte. *)
Definition sync_torrent (h : InfoHash) : act unit :=
  torrent_data h ≫= fun t =>
  forM (fun m => get_cached_write_mmap (fm_path m) ≫= fun _ => mret tt)
    (tc_files (torrent_cache t)).

(** [std::fs::remove_file]; [remove_dir_all] *)
Definition remove_file (p : path) : act unit :=
  modifyS (with_disk (fun d => with_entries (delete p (d_entries d)) d)).
Definition remove_dir_all (p : path) : act unit :=
  modifyS (with_disk (fun d =>
    with_entries (filter (fun pi : path * N => ¬ ((p ++ [47%N]) `prefix_of` pi.1)) (d_entries d)) d)).

(** [Disk::handle_torrent_err] *)
Definition handle_torrent_err (h : InfoHash) (e : Error) : act unit :=
  match e with
  | IO NotFound => send h (SetTorrentError FilesMissing)
  | IO _ => send h (SetTorrentError Unknown)
  | _ => mret tt
  end.

(** The messages to the disk.  [RequestBlocks] has, for the context of the peer,
    the number [block_infos_len] that is read from it; [System.reads_len] lets it
    change while the message is on its way. *)
Inductive DiskMsg `{BitVecApi} :=
  | AddTorrent (meta : MetaInfo)
  | DeleteTorrent (h : InfoHash) (also_from_disk : bool)
  | FinishedDownload (h : InfoHash)
  | ReadBlock (h : InfoHash) (b : BlockInfo)
  | WriteBlock (h : InfoHash) (b : Block)
  | RequestBlocks (h : InfoHash) (block_infos_len : N) (ps : list N) (bitfield : bitvec)
  | RequestMetadata (h : InfoHash) (metadata_size qnt : N).

Inductive ReturnToDisk :=
  | ReturnBlock (h : InfoHash) (l : list BlockInfo)
  | ReturnMetadata (h : InfoHash) (l : list MetadataPiece).

(** What goes to a message's recipient. *)
Inductive DiskReply :=
  | NoReply
  | BlockReply (r : outcome Error (list N))
  | BlocksReply (r : outcome Error (list BlockInfo))
  | MetadataReply (l : list MetadataPiece).

(** The result of a call, kept for the recipient; a panic is not caught. *)
Definition result_of {A} (m : act A) : act (outcome Error A) := fun s =>
  match m s with (Panic, s) => (Panic, s) | (r, s) => (Ok r, s) end.

Definition report {A} (h : InfoHash) (r : outcome Error A) : act unit :=
  match r with Err e => handle_torrent_err h e | _ => mret tt end.

(** The messages of [Disk::run] ([Quit] leaves the loop) *)
Definition handle_disk_msg `{BitVecApi} (now : N) (m : DiskMsg) : act DiskReply :=
  match m with
  | DeleteTorrent h also_from_disk =>
      getS ≫= fun s =>
      match get_metainfo_path (disk s) h, d_torrents (disk s) !! h with
      | Ok metainfo_path, Some t =>
          lift (index (tc_files (torrent_cache t)) 0) ≫= fun first =>
          remove_file metainfo_path ≫= fun _ =>
          (if also_from_disk then
             if path_exists (disk s) (fm_path first) then remove_file (fm_path first)
             else remove_dir_all (fm_path first)
           else mret tt) ≫= fun _ =>
          modifyS (with_disk (fun d => with_torrents (delete h (d_torrents d)) d)) ≫= fun _ =>
          mret NoReply
      | _, _ => mret NoReply
      end
  | FinishedDownload h =>
      catch tt (sync_torrent h) ≫= fun _ =>
      move_metainfo_to_dir h Incomplete Complete ≫= fun _ =>
      catch tt (torrent_data_mut h (fun t =>
        set_queue (piece_strategy t) [] (set_metadata [] (set_downloaded [] t)))) ≫= fun _ =>
      mret NoReply
  | AddTorrent meta =>
      catch tt (new_torrent (mi_info meta) Queue) ≫= fun _ => mret NoReply
  | ReadBlock h b =>
      result_of (read_block now h b) ≫= fun r =>
      report h r ≫= fun _ => mret (BlockReply r)
  | WriteBlock h b =>
      result_of (write_block h b) ≫= fun r =>
      report h r ≫= fun _ => mret NoReply
  | RequestBlocks h n ps bitfield =>
      result_of (request_blocks h n ps bitfield) ≫= fun r => mret (BlocksReply r)
  | RequestMetadata h metadata_size qnt =>
      catch [] (request_metadata h qnt metadata_size) ≫= fun l => mret (MetadataReply l)
  end.

(** The blocks and metadata pieces peers give back. *)
Definition handle_return (m : ReturnToDisk) : act unit :=
  match m with
  | ReturnBlock h l =>
      catch tt (torrent_data_mut h (fun t => set_queue (piece_strategy t) (td_queue t ++ l) t))
  | ReturnMetadata h l =>
      catch tt (torrent_data_mut h (fun t => set_metadata (metadata_pieces t ++ l) t))
  end.
End layout.
