(* ===== verification/DiskFacts.v ===== *)
(** What the disk promises: the files of a torrent are one string of bytes, on
    which blocks are written, read and hashed, whatever the files' borders. *)
From S2P Require Import Prelude Errors Bits Core Bencode Metainfo MetainfoFacts Disk.

(** ** Splicing *)

Lemma len_splice {A} a (k l : list A) :
  (a + len k <= len l)%N → len (splice a k l) = len l.
Proof. unfold splice, len. intros. rewrite !length_app, length_take, length_drop. lia. Qed.

Lemma splice_nil {A} a (l : list A) : splice a [] l = l.
Proof. unfold splice. simpl. rewrite Nat.add_0_r. apply take_drop. Qed.

Lemma splice_app {A} a (k l l' : list A) :
  (a + len k <= len l + len l')%N →
  splice a k (l ++ l') =
  splice a (window 0 (len l - a) k) l ++ splice (a - len l) (window (len l - a) (len k) k) l'.
Proof.
  intros Hk. unfold splice, window, len in *. rewrite drop_0.
  destruct (decide (N.to_nat a <= length l)%nat) as [Ha|Ha].
  - rewrite take_app_le by lia.
    replace (N.to_nat (a - N.of_nat (length l))) with O by lia. simpl.
    destruct (decide (N.to_nat a + length k <= length l)%nat) as [Hs|Hs].
    + rewrite (take_ge k) by lia. rewrite (drop_ge k) by lia. rewrite take_nil. simpl.
      rewrite drop_app_le by lia. by rewrite !app_assoc.
    + rewrite (drop_ge l) by (rewrite length_take; lia).
      rewrite (drop_app_ge l) by lia. rewrite app_nil_r, <- !app_assoc. f_equal.
      rewrite (take_ge (drop _ k)) by (rewrite length_drop; lia).
      rewrite app_assoc, take_drop. f_equal. f_equal. rewrite length_drop. lia.
  - rewrite (take_ge l) by lia. rewrite (take_app_ge l) by lia.
    replace (N.to_nat (N.of_nat (length l) - a)) with O by lia. rewrite take_0. simpl.
    rewrite (drop_ge l) by lia. rewrite (drop_app_ge l) by lia.
    rewrite drop_0, (take_ge k) by lia. rewrite !app_nil_r, <- !app_assoc.
    f_equal. f_equal; [f_equal; lia|]. f_equal. f_equal. lia.
Qed.

Lemma window_splice_out {A} a n b (k l : list A) :
  (b + len k <= len l)%N → (a + n <= b ∨ b + len k <= a)%N →
  window a n (splice b k l) = window a n l.
Proof.
  unfold window, splice, len. intros Hk [Hl|Hr].
  - rewrite drop_app_le by (rewrite length_take; lia).
    rewrite take_app_le by (rewrite length_drop, length_take; lia).
    rewrite <- (take_drop (N.to_nat b) l) at 2.
    rewrite drop_app_le by (rewrite length_take; lia).
    by rewrite take_app_le by (rewrite length_drop, length_take; lia).
  - rewrite app_assoc, drop_app_ge by (rewrite length_app, length_take; lia).
    rewrite drop_drop, length_app, length_take. do 2 f_equal. lia.
Qed.

Lemma window_splice_in {A} b (k l : list A) :
  (b + len k <= len l)%N → window b (len k) (splice b k l) = k.
Proof.
  unfold window, splice, len. intros Hk.
  rewrite drop_app_length' by (rewrite length_take; lia).
  by rewrite take_app_length' by lia.
Qed.

(** ** The bytes of a torrent *)

(** The files are laid end to end from [off] to [total]. *)
Fixpoint tiled (off : N) (l : list FileMetadata) (total : N) : Prop :=
  match l with
  | [] => off = total
  | m :: l => fm_start m = off ∧ tiled (off + fm_length m) l total
  end.

(** File [m] is inode [i], has its length, and is what the caches map. *)
Record file_at (d : Disk) (m : FileMetadata) (i : N) : Prop := {
  fa_entry : d_entries d !! fm_path m = Some i;
  fa_len : len (inode d i) = fm_length m;
  fa_read : ∀ mm, d_read_cache d !! fm_path m = Some mm → mm = (i, fm_length m);
  fa_write : ∀ mm, d_write_cache d !! fm_path m = Some mm → mm = (i, fm_length m);
}.

(** The bytes of the files with the inodes [ns], end to end. *)
Definition bytes_of (d : Disk) (ns : list N) : list N := ns ≫= inode d.

(** Two states that differ in what is mapped only. *)
Record same_but_maps (s s' : DiskState) : Prop := {
  sm_torrents : d_torrents (disk s') = d_torrents (disk s);
  sm_entries : d_entries (disk s') = d_entries (disk s);
  sm_inodes : d_inodes (disk s') = d_inodes (disk s);
  sm_sent : sent s' = sent s;
}.
#[global] Instance same_but_maps_po : PreOrder same_but_maps.
Proof. split; [done|]. intros ??? [] []. split; congruence. Qed.

Lemma bytes_of_maps s s' ns :
  same_but_maps s s' → bytes_of (disk s') ns = bytes_of (disk s) ns.
Proof.
  intros [_ _ Hi _]. unfold bytes_of, inode. by rewrite Hi.
Qed.

Lemma tiled_end off l total : tiled off l total → (off <= total)%N.
Proof. revert off. induction l as [|m l IH]; simpl; intros off; [lia|]. intros [_ H%IH]. lia. Qed.

Lemma tiled_bytes d off l total ns :
  tiled off l total → Forall2 (file_at d) l ns → len (bytes_of d ns) = (total - off)%N.
Proof.
  intros Ht Hf. revert off Ht. induction Hf as [|m i l ns Hm Hf IH]; intros off; simpl.
  - intros ->. rewrite N.sub_diag. done.
  - intros [<- Ht]. rewrite len_app, (IH _ Ht), (fa_len _ _ _ Hm).
    pose proof (tiled_end _ _ _ Ht). lia.
Qed.

Lemma mapped_at d m i : file_at d m i → mapped d (i, fm_length m) = inode d i.
Proof.
  intros Hf. unfold mapped. simpl. apply take_ge. pose proof (fa_len _ _ _ Hf) as Hl.
  unfold len in Hl. lia.
Qed.

(** Mapping a file of the torrent. *)
Lemma file_at_cached d m i m' i' f :
  file_at d m i → file_at d m' i' →
  f = with_read_cache (<[fm_path m := (i, fm_length m)]> (d_read_cache d)) ∨
  f = with_write_cache (<[fm_path m := (i, fm_length m)]> (d_write_cache d)) →
  file_at (f d) m' i'.
Proof.
  intros Hm Hm' Hf.
  assert (Heq : fm_path m' = fm_path m → (i, fm_length m) = (i', fm_length m')).
  { intros Hp. pose proof (fa_entry _ _ _ Hm'). pose proof (fa_entry _ _ _ Hm).
    assert (i' = i) as -> by congruence.
    by rewrite <- (fa_len _ _ _ Hm), <- (fa_len _ _ _ Hm'). }
  destruct Hm' as [He Hl Hr Hw]. destruct Hf as [->| ->]; split; simpl; try done;
    intros mm; (destruct (decide (fm_path m' = fm_path m)) as [Hp|Hp];
      [rewrite Hp, lookup_insert_eq; intros [= <-]; auto|rewrite lookup_insert_ne by done; auto]).
Qed.

Lemma get_cached_read_at s m i :
  file_at (disk s) m i →
  ∃ s', get_cached_read_mmap (fm_path m) s = (Ok (i, fm_length m), s') ∧ same_but_maps s s' ∧
    ∀ m' i', file_at (disk s) m' i' → file_at (disk s') m' i'.
Proof.
  intros Hm. unfold get_cached_read_mmap.
  destruct (d_read_cache (disk s) !! fm_path m) as [mm|] eqn:Hc.
  - apply (fa_read _ _ _ Hm) in Hc as ->. by exists s.
  - unfold open_file. rewrite (fa_entry _ _ _ Hm). unfold map_file.
    rewrite (fa_len _ _ _ Hm). eexists. split; [done|]. split; [done|].
    intros m' i' Hm'. by apply (file_at_cached _ m i m' i' _ Hm Hm'); left.
Qed.

Lemma get_cached_write_at s m i :
  file_at (disk s) m i →
  ∃ s', get_cached_write_mmap (fm_path m) s = (Ok (i, fm_length m), s') ∧ same_but_maps s s' ∧
    ∀ m' i', file_at (disk s) m' i' → file_at (disk s') m' i'.
Proof.
  intros Hm. unfold get_cached_write_mmap.
  destruct (d_write_cache (disk s) !! fm_path m) as [mm|] eqn:Hc.
  - apply (fa_write _ _ _ Hm) in Hc as ->. by exists s.
  - unfold open_file. rewrite (fa_entry _ _ _ Hm). unfold map_file.
    rewrite (fa_len _ _ _ Hm). eexists. split; [done|]. split; [done|].
    intros m' i' Hm'. by apply (file_at_cached _ m i m' i' _ Hm Hm'); right.
Qed.

(** ** Writing *)

Lemma bytes_of_ext d d' ns :
  (∀ i, i ∈ ns → inode d' i = inode d i) → bytes_of d' ns = bytes_of d ns.
Proof.
  induction ns as [|i ns IH]; intros Hi; [done|]. simpl.
  rewrite Hi by left. f_equal. apply IH. intros j Hj. apply Hi. by right.
Qed.

(** What a write through the maps of a torrent leaves alone. *)
Record wrote (ns : list N) (s s' : DiskState) : Prop := {
  wr_torrents : d_torrents (disk s') = d_torrents (disk s);
  wr_entries : d_entries (disk s') = d_entries (disk s);
  wr_inodes : ∀ i, i ∉ ns → inode (disk s') i = inode (disk s) i;
  wr_sent : sent s' = sent s;
  wr_files : ∀ m i, file_at (disk s) m i → file_at (disk s') m i;
}.
#[global] Instance wrote_po ns : PreOrder (wrote ns).
Proof.
  split; [by split|]. intros s1 s2 s3 [] []. split; try congruence; [|by auto].
  intros i Hi. rewrite wr_inodes1, wr_inodes0; done.
Qed.

Lemma wrote_mono ns ns' s s' : (∀ i, i ∈ ns → i ∈ ns') → wrote ns s s' → wrote ns' s s'.
Proof. intros Hsub []. split; auto. Qed.

Lemma same_wrote s s' :
  same_but_maps s s' → (∀ m i, file_at (disk s) m i → file_at (disk s') m i) → wrote [] s s'.
Proof. intros [] Hf. split; try done. intros i _. unfold inode. by rewrite sm_inodes0. Qed.

Lemma mmap_write_at s m i off k :
  file_at (disk s) m i → (off + len k <= fm_length m)%N →
  ∃ s', mmap_write (i, fm_length m) off k s = (Ok tt, s') ∧ wrote [i] s s' ∧
    inode (disk s') i = splice off k (inode (disk s) i).
Proof.
  intros Hm Hk. unfold mmap_write. rewrite (mapped_at _ _ _ Hm), (fa_len _ _ _ Hm).
  rewrite (proj2 (N.leb_le _ _)) by done. eexists. split; [done|]. simpl fst.
  assert (Hin : ∀ j, inode (with_inodes (<[i:=splice off k (inode (disk s) i)]>
      (d_inodes (disk s))) (disk s)) j =
      if decide (j = i) then splice off k (inode (disk s) i) else inode (disk s) j).
  { intros j. unfold inode. simpl. destruct (decide (j = i)) as [->|Hj].
    - by rewrite lookup_insert_eq.
    - by rewrite lookup_insert_ne by done. }
  split; [|rewrite Hin; by rewrite decide_True].
  split; simpl; try done.
  - intros j Hj. rewrite Hin, decide_False; [done|]. set_solver.
  - intros m' j []. split; simpl; try done. rewrite Hin.
    destruct (decide (j = i)) as [->|]; [|done]. rewrite len_splice; [done|].
    by rewrite (fa_len _ _ _ Hm).
Qed.

Lemma write_one_at data s m i off a b :
  file_at (disk s) m i → (a <= b <= len data)%N → (off + (b - a) <= fm_length m)%N →
  ∃ s', write_one data {| wo_path := fm_path m; wo_offset := off; wo_start := a; wo_end := b |} s
      = (Ok tt, s') ∧ wrote [i] s s' ∧
    inode (disk s') i = splice off (window a (b - a) data) (inode (disk s) i).
Proof.
  intros Hm Hab Hk. unfold write_one. simpl.
  destruct (get_cached_write_at s m i Hm) as (s1 & Hg & Hs1 & Hf1).
  rewrite bind_action, Hg. rewrite (bind_lift _ _ _ (window a (b - a) data)) by (apply slice_ok; lia).
  destruct (mmap_write_at s1 m i off (window a (b - a) data)) as (s2 & Hw & Hs2 & Hi).
  { by apply Hf1. }
  { rewrite len_window by lia. lia. }
  exists s2. split; [done|]. split.
  - etrans; [|exact Hs2]. eapply wrote_mono; [|by apply same_wrote]. set_solver.
  - rewrite Hi. f_equal. unfold inode. by rewrite (sm_inodes _ _ Hs1).
Qed.

Section writes.
Context `{Build}.

(** The writes of a byte range splice it into the torrent's bytes. *)
Lemma write_ops_spec start end_ data total l : ∀ off ns s,
  tiled off l total → Forall2 (file_at (disk s)) l ns → NoDup ns →
  (total <= usize_max)%N → (start <= end_ <= total)%N → (end_ - start <= len data)%N →
  ∃ ops s', overlap_ops start end_ l = Ok ops ∧ forM (write_one data) ops s = (Ok tt, s') ∧
    bytes_of (disk s') ns =
      splice (start - off) (window (off - start) (end_ - N.max start off) data)
        (bytes_of (disk s) ns) ∧
    wrote ns s s'.
Proof.
  induction l as [|m l IH]; intros off ns s Ht Hf Hnd Htot Hse Hd.
  { apply Forall2_nil_inv_l in Hf as ->. simpl in Ht. subst off.
    exists [], s. split; [done|]. split; [done|]. split; [|done].
    rewrite window_nil by lia. by rewrite splice_nil. }
  apply Forall2_cons_inv_l in Hf as (i & ns' & Hm & Hf & ->).
  apply NoDup_cons in Hnd as [Hi Hnd]. destruct Ht as [Hoff Ht].
  pose proof (tiled_end _ _ _ Ht) as Hend. pose proof (fa_len _ _ _ Hm) as HL.
  pose proof (tiled_bytes _ _ _ _ _ Ht Hf) as Hlen.
  set (L := fm_length m) in *.
  assert (Hsplice : splice (start - off) (window (off - start) (end_ - N.max start off) data)
      (inode (disk s) i ++ bytes_of (disk s) ns') =
    splice (start - off) (window (off - start) (N.min end_ (off + L) - N.max start off) data)
      (inode (disk s) i) ++
    splice (start - (off + L)) (window (off + L - start) (end_ - N.max start (off + L)) data)
      (bytes_of (disk s) ns')).
  { rewrite splice_app by (rewrite len_window_min, HL, Hlen; lia).
    rewrite !window_window, HL, len_window_min. f_equal.
    - f_equal. rewrite N.add_0_r. f_equal. lia.
    - f_equal; [lia|]. replace (off - start + (L - (start - off)))%N with (off + L - start)%N by lia.
      f_equal. lia. }
  simpl overlap_ops. rewrite Hoff, uadd_ok by lia. cbn [mbind outcome_bind]. fold L.
  destruct (N.leb_spec (N.min end_ (off + L)) (N.max start off)) as [Hno|Hov].
  - destruct (IH (off + L)%N ns' s) as (ops & s' & Hops & Hrun & Hb & Hw); try done.
    exists ops, s'. split; [done|]. split; [done|]. split.
    + cbn [bytes_of mbind list_bind]. change (ns' ≫= inode (disk s')) with (bytes_of (disk s') ns').
      change (ns' ≫= inode (disk s)) with (bytes_of (disk s) ns').
      rewrite Hsplice, Hb, (wr_inodes _ _ _ Hw) by done. f_equal.
      rewrite (window_nil _ (_ - _)) by lia. by rewrite splice_nil.
    + eapply wrote_mono; [|done]. set_solver.
  - rewrite !usub_ok by lia. cbn [mbind outcome_bind].
    destruct (write_one_at data s m i (N.max start off - off)
      (N.max start off - start) (N.min end_ (off + L) - start)) as (s1 & Hw1 & Hs1 & Hi1);
      [done|lia|fold L; lia|].
    destruct (IH (off + L)%N ns' s1) as (ops & s' & Hops & Hrun & Hb & Hw); try done.
    { eapply Forall2_impl; [exact Hf|]. apply (wr_files _ _ _ Hs1). }
    rewrite Hops. cbn [mbind outcome_bind]. eexists _, s'. split; [done|].
    split; [cbn [forM]; rewrite bind_action, Hw1; exact Hrun|]. split.
    + cbn [bytes_of mbind list_bind]. change (ns' ≫= inode (disk s')) with (bytes_of (disk s') ns').
      change (ns' ≫= inode (disk s)) with (bytes_of (disk s) ns').
      rewrite Hsplice, Hb, (wr_inodes _ _ _ Hw), Hi1 by done. f_equal.
      * f_equal; [lia|]. f_equal; lia.
      * f_equal. apply bytes_of_ext. intros j Hj. apply (wr_inodes _ _ _ Hs1). set_solver.
    + etrans; [eapply wrote_mono; [|exact Hs1]; set_solver|].
      eapply wrote_mono; [|exact Hw]. set_solver.
Qed.
End writes.

(** ** Gathering a range of bytes *)

(** The bytes of a range, one file at a time. *)
Lemma window_cons d i ns ps pe off L :
  len (inode d i) = L → (ps <= pe)%N →
  window (ps - off) (pe - N.max ps off) (bytes_of d (i :: ns)) =
  window (N.max ps off - off) (N.min pe (off + L) - N.max ps off) (inode d i) ++
  window (ps - (off + L)) (pe - N.max ps (off + L)) (bytes_of d ns).
Proof.
  intros HL Hle. change (bytes_of d (i :: ns)) with (inode d i ++ bytes_of d ns).
  rewrite window_app, HL. f_equal.
  - replace (N.max ps off - off)%N with (ps - off)%N by lia. apply window_clip. rewrite HL. lia.
  - f_equal; lia.
Qed.

Section gather.
Context `{Build}.

Lemma validate_loop_spec ps pe total l : ∀ off ns s acc,
  tiled off l total → Forall2 (file_at (disk s)) l ns →
  Forall (fun m => 0 < fm_length m)%N l →
  (total <= usize_max)%N → (ps < pe <= total)%N →
  ∃ s', validate_loop ps (pe - 1) l acc s =
      (Ok (acc ++ window (ps - off) (pe - N.max ps off) (bytes_of (disk s) ns)), s') ∧
    same_but_maps s s' ∧ ∀ m i, file_at (disk s) m i → file_at (disk s') m i.
Proof.
  induction l as [|m l IH]; intros off ns s acc Ht Hf Hpos Htot Hse.
  { apply Forall2_nil_inv_l in Hf as ->. simpl in Ht. subst off. exists s.
    rewrite window_nil by lia. by rewrite app_nil_r. }
  apply Forall2_cons_inv_l in Hf as (i & ns' & Hm & Hf & ->).
  apply Forall_cons in Hpos as [HLpos Hpos]. destruct Ht as [Hoff Ht].
  pose proof (tiled_end _ _ _ Ht) as Hend. pose proof (fa_len _ _ _ Hm) as HL.
  set (L := fm_length m) in *. rewrite (window_cons _ _ _ _ _ _ L) by (done || lia).
  cbn [validate_loop]. rewrite Hoff. fold L. rewrite (uadd_ok off) by lia. cbn [mbind outcome_bind].
  rewrite (usub_ok (off + L) 1) by lia. rewrite bind_action. cbn [lift].
  destruct (decide (ps < off + L ∧ off < pe)%N) as [[Ho1 Ho2]|Hno].
  - rewrite (proj2 (N.leb_le ps _)), (proj2 (N.leb_le off _)) by lia. cbn [andb].
    rewrite (bind_lift _ _ _ (N.max ps off - off, N.min pe (off + L) - N.max ps off)%N).
    2:{ rewrite !usub_ok by lia. cbn [mbind outcome_bind].
        rewrite (usub_ok (_ - off) (_ - off)) by lia. cbn [mbind outcome_bind].
        rewrite uadd_ok by lia. cbn [mbind outcome_bind]. do 2 f_equal. lia. }
    destruct (get_cached_read_at s m i Hm) as (s1 & Hg & Hs1 & Hf1).
    fold L in Hg. rewrite bind_action, Hg. cbn [getS]. rewrite bind_action. cbn [getS].
    assert (Hin : inode (disk s1) i = inode (disk s) i)
      by (unfold inode; by rewrite (sm_inodes _ _ Hs1)).
    pose proof (mapped_at _ _ _ (Hf1 _ _ Hm)) as Hmap. fold L in Hmap. rewrite Hmap, Hin, HL.
    rewrite (bind_lift _ _ _ (window (N.max ps off - off)
      (N.min pe (off + L) - N.max ps off) (inode (disk s) i))).
    2:{ rewrite slice_ok by lia. cbn [mbind outcome_bind].
        rewrite slice_ok by (try rewrite len_window; lia). f_equal.
        rewrite window_window. f_equal; lia. }
    destruct (IH (off + L)%N ns' s1 (acc ++ window (N.max ps off - off)
      (N.min pe (off + L) - N.max ps off) (inode (disk s) i))) as (s' & Hr & Hs' & Hf'); try done.
    { eapply Forall2_impl; [exact Hf|]. done. }
    exists s'. rewrite Hr, (bytes_of_maps _ _ _ Hs1), <- app_assoc. split; [done|].
    split; [by etrans|]. eauto.
  - destruct (IH (off + L)%N ns' s acc) as (s' & Hr & Hs' & Hf'); try done.
    exists s'. rewrite (window_nil (_ - off)) by lia. rewrite app_nil_l. split; [|done].
    destruct (N.leb_spec ps (off + L - 1)), (N.leb_spec off (pe - 1)); cbn [andb];
      (exact Hr || lia).
Qed.

Lemma verify_loop_spec d ps pe total l : ∀ off ns acc,
  tiled off l total → Forall2 (file_at d) l ns →
  (total <= usize_max)%N → (ps <= pe <= total)%N →
  @verify_loop _ ps pe (zip_with (fun m i => (m, inode d i)) l ns) (pe - N.max ps off) acc =
    Ok (acc ++ window (ps - off) (pe - N.max ps off) (bytes_of d ns)).
Proof.
  induction l as [|m l IH]; intros off ns acc Ht Hf Htot Hse.
  { apply Forall2_nil_inv_l in Hf as ->. simpl in Ht. subst off.
    rewrite window_nil by lia. by rewrite app_nil_r. }
  apply Forall2_cons_inv_l in Hf as (i & ns' & Hm & Hf & ->). destruct Ht as [Hoff Ht].
  pose proof (tiled_end _ _ _ Ht) as Hend. pose proof (fa_len _ _ _ Hm) as HL.
  set (L := fm_length m) in *. rewrite (window_cons _ _ _ _ _ _ L) by (done || lia).
  specialize (IH (off + L)%N ns').
  cbn [zip_with verify_loop]. rewrite Hoff. fold L. rewrite (uadd_ok off) by lia.
  cbn [mbind outcome_bind].
  destruct (decide (ps < off + L ∧ off < pe)%N) as [[Ho1 Ho2]|Hno].
  - rewrite (proj2 (N.ltb_lt ps _)), (proj2 (N.ltb_lt off _)) by lia. cbn [andb].
    rewrite (usub_ok (N.min pe (off + L))) by lia. cbn [mbind outcome_bind].
    rewrite (usub_ok (N.max ps off) off) by lia. cbn [mbind outcome_bind].
    rewrite HL. destruct (N.leb_spec L (N.max ps off - off)) as [HL0|HLpos].
    { rewrite (window_nil (N.max ps off - off)) by lia. rewrite app_nil_l.
      replace (pe - N.max ps off)%N with (pe - N.max ps (off + L))%N at 1 by lia. by apply IH. }
    rewrite usub_ok by lia. cbn [mbind outcome_bind].
    replace (N.min _ (L - (N.max ps off - off)))%N with (N.min pe (off + L) - N.max ps off)%N by lia.
    replace (pe - N.max ps off - (N.min pe (off + L) - N.max ps off))%N
      with (pe - N.max ps (off + L))%N by lia.
    rewrite app_assoc. destruct (N.eqb_spec (pe - N.max ps (off + L)) 0) as [Hz|Hz].
    + rewrite Hz, (window_nil (_ - _) 0) by lia. by rewrite app_nil_r.
    + by apply IH.
  - rewrite (window_nil (_ - off)) by lia. rewrite app_nil_l.
    assert ((ps <? off + L) && (off <? pe) = false)%N as ->.
    { destruct (N.ltb_spec ps (off + L)), (N.ltb_spec off pe); (done || lia). }
    destruct (N.eqb_spec (pe - N.max ps off) 0) as [Hz|Hz].
    + rewrite (window_nil (_ - _)) by lia. by rewrite app_nil_r.
    + replace (pe - N.max ps off)%N with (pe - N.max ps (off + L))%N at 1 by lia. by apply IH.
Qed.
End gather.
