(* ===== verification/DiskTheorems.v ===== *)
(** The disk as a torrent sees it: reading, writing and validating blocks of
    one flat string of bytes. *)
From S2P Require Import Prelude Errors Bits Core Bencode BencodeText Metainfo MetainfoFacts.
From S2P Require Import Disk DiskFacts.

(** A torrent whose files are all there, mapped or not, and described by a
    consistent metainfo. *)
Record stored `{Build} (s : DiskState) (h : InfoHash) (t : TorrentData) (ns : list N) : Prop := {
  so_torrent : d_torrents (disk s) !! h = Some t;
  so_tiled : tiled 0 (tc_files (torrent_cache t)) (tc_total_size (torrent_cache t));
  so_files : Forall2 (file_at (disk s)) (tc_files (torrent_cache t)) ns;
  so_nodup : NoDup ns;
  so_shape : info_shape (torrent_info t) (tc_total_size (torrent_cache t));
  so_pl : tc_piece_length (torrent_cache t) = info_piece_length (torrent_info t);
  so_np : tc_num_pieces (torrent_cache t) = pieces (torrent_info t);
}.

(** The two sizes and the bytes a theorem speaks of. *)
Definition total_of (t : TorrentData) : N := tc_total_size (torrent_cache t).
Definition pl_of (t : TorrentData) : N := tc_piece_length (torrent_cache t).
Definition size_of (t : TorrentData) (p : N) : N := piece_size (total_of t) (pl_of t) p.
Definition hash_of (t : TorrentData) (p : N) : list N :=
  window (p * 20) 20 (info_pieces (torrent_info t)).
Definition piece_bytes (t : TorrentData) (p : N) (F : list N) : list N :=
  window (p * pl_of t) (size_of t p) F.

Section stored.
Context `{Build, Sha1Api}.

Lemma stored_len s h t ns : stored s h t ns → len (bytes_of (disk s) ns) = total_of t.
Proof.
  intros []. rewrite (tiled_bytes _ _ _ _ _ so_tiled0 so_files0). unfold total_of. lia.
Qed.

Lemma torrent_data_ok s h t : d_torrents (disk s) !! h = Some t → torrent_data h s = (Ok t, s).
Proof. intros Ht. unfold torrent_data. by rewrite Ht. Qed.

Lemma torrent_data_mut_ok s h t f :
  d_torrents (disk s) !! h = Some t →
  torrent_data_mut h f s =
    (Ok tt, with_disk (fun d => with_torrents (<[h := f t]> (d_torrents d)) d) s).
Proof. intros Ht. unfold torrent_data_mut. rewrite bind_action, (torrent_data_ok _ _ t) by done. done. Qed.

(** Changing what is not the layout keeps a torrent stored. *)
Lemma stored_update s s' h t t' ns :
  stored s h t ns → d_torrents (disk s') !! h = Some t' →
  torrent_cache t' = torrent_cache t → torrent_info t' = torrent_info t →
  (∀ m i, file_at (disk s) m i → file_at (disk s') m i) → stored s' h t' ns.
Proof.
  intros [] Ht Hc Hi Hf. split; rewrite ?Hc, ?Hi; try done. by eapply Forall2_impl.
Qed.

Lemma file_at_torrents d m i x : file_at d m i → file_at (with_torrents x d) m i.
Proof. by intros []. Qed.

Lemma stored_geom s h t ns p :
  stored s h t ns → (p < pieces (torrent_info t))%N →
  (p * pl_of t + size_of t p <= total_of t)%N ∧ (0 < size_of t p)%N ∧
  (total_of t + pl_of t <= usize_max)%N ∧ (size_of t p <= pl_of t)%N.
Proof.
  intros [] Hp. destruct (pieces_bounds _ _ so_shape0) as (H1 & H2 & H3 & H4).
  destruct so_shape0. rewrite <- so_pl0 in *. fold (total_of t) (pl_of t) in *.
  unfold size_of, piece_size. assert (p * pl_of t < total_of t)%N by nia. lia.
Qed.

Lemma cache_piece_length_spec {E} s h t ns p :
  stored s h t ns → (p < pieces (torrent_info t))%N →
  @TorrentCache_piece_length _ E (torrent_cache t) p = Ok (size_of t p).
Proof.
  intros [] Hp. pose proof (piece_length_spec (E:=E) _ _ _ so_shape0 Hp) as Hl.
  unfold piece_length in Hl. rewrite (shape_total _ _ so_shape0) in Hl.
  cbn [mbind outcome_bind] in Hl. unfold TorrentCache_piece_length. rewrite so_np0, so_pl0.
  rewrite Hl. unfold size_of, total_of, pl_of. by rewrite so_pl0.
Qed.

Lemma file_at_with_torrents s m d i :
  file_at (disk s) m i → file_at (disk (with_disk (fun d' => with_torrents (d d') d') s)) m i.
Proof. by intros []. Qed.

(** ** Reading *)

Lemma find_file_spec d total l : ∀ off ns a,
  tiled off l total → Forall2 (file_at d) l ns → (total <= usize_max)%N → (off <= a)%N →
  (total <= a ∧ find_file a l = Ok None)%N ∨
  (a < total)%N ∧ ∃ m i, find_file a l = Ok (Some m) ∧ m ∈ l ∧ file_at d m i ∧
    (fm_start m <= a < fm_start m + fm_length m)%N ∧ (fm_start m + fm_length m <= total)%N ∧
    ∀ n, (a + n <= fm_start m + fm_length m)%N →
      window (a - off) n (bytes_of d ns) = window (a - fm_start m) n (inode d i).
Proof.
  induction l as [|m l IH]; intros off ns a Ht Hf Htot Ha.
  { simpl in Ht. subst. by left. }
  apply Forall2_cons_inv_l in Hf as (i & ns' & Hm & Hf & ->). destruct Ht as [Hoff Ht].
  pose proof (tiled_end _ _ _ Ht) as Hend. pose proof (fa_len _ _ _ Hm) as HL.
  cbn [find_file]. rewrite Hoff, (proj2 (N.leb_le _ _)) by done.
  rewrite uadd_ok by lia. cbn [mbind outcome_bind].
  destruct (N.ltb_spec a (off + fm_length m)) as [Hin|Hout].
  - right. split; [lia|]. exists m, i. split; [done|]. split; [left|]. split; [done|].
    rewrite Hoff. split; [lia|]. split; [done|]. intros n Hn.
    change (bytes_of d (i :: ns')) with (inode d i ++ bytes_of d ns').
    by rewrite window_app_l by (rewrite HL; lia).
  - destruct (IH (off + fm_length m)%N ns' a) as [[??]|(? & m' & j & ? & ? & ? & ? & ? & Hw)];
      try done; [by left|].
    right. split; [done|]. exists m', j. split; [done|]. split; [by right|].
    split; [done|]. split; [done|]. split; [done|]. intros n Hn.
    change (bytes_of d (i :: ns')) with (inode d i ++ bytes_of d ns').
    rewrite window_app_r by lia. rewrite HL, <- (Hw n) by done. f_equal. lia.
Qed.

(** C9. Reading a block, against the torrent's bytes end to end: within one
    file it is exactly the requested range; an offset past the end is an error;
    a block that crosses the end of its file panics, also when the torrent goes
    on in the next file.  The files' bytes are left alone. *)
Theorem disk_read_block s h t ns now b :
  stored s h t ns →
  let a := (bi_index b * pl_of t + bi_begin b)%N in
  (a + bi_len b <= usize_max)%N →
  (total_of t <= a ∧ read_block now h b s = (Err TorrentDoesNotExist, s))%N ∨
  (a < total_of t)%N ∧ ∃ m s', m ∈ tc_files (torrent_cache t) ∧
    (fm_start m <= a < fm_start m + fm_length m)%N ∧
    bytes_of (disk s') ns = bytes_of (disk s) ns ∧
    (∀ m i, file_at (disk s) m i → file_at (disk s') m i) ∧
    read_block now h b s =
      (if decide (a + bi_len b <= fm_start m + fm_length m)%N
       then Ok (window a (bi_len b) (bytes_of (disk s) ns)) else Panic, s').
Proof.
  intros Hst a Ha. pose proof Hst as [Ht Htl Hf _ Hsh Hpl _]. pose proof (shape_bound _ _ Hsh) as Hb.
  assert (Hab : (bi_index b * tc_piece_length (torrent_cache t) + bi_begin b <= usize_max)%N)
    by (fold (pl_of t); subst a; lia).
  destruct (find_file_spec _ _ _ 0 ns a Htl Hf) as [[Hge Hn]|(Hlt & m & i & Hfind & Hm & Hi & Hin & Hend & Hw)];
    [lia|lia| |].
  - left. split; [done|]. unfold read_block. rewrite bind_action, (torrent_data_ok _ _ t) by done.
    rewrite (bind_lift _ _ _ a) by (rewrite umul_ok by lia; cbn [mbind outcome_bind]; by rewrite uadd_ok by lia).
    by rewrite (bind_lift _ _ _ None).
  - right. split; [done|]. exists m. unfold read_block. rewrite bind_action, (torrent_data_ok _ _ t) by done.
    rewrite (bind_lift _ _ _ a) by (rewrite umul_ok by lia; cbn [mbind outcome_bind]; by rewrite uadd_ok by lia).
    rewrite (bind_lift _ _ _ (Some m)) by done. rewrite (bind_lift _ _ _ m) by done.
    rewrite (bind_lift _ _ _ (a - fm_start m, a - fm_start m + bi_len b)%N).
    2:{ rewrite usub_ok by lia. cbn [mbind outcome_bind]. by rewrite uadd_ok by lia. }
    rewrite bind_action. unfold record_piece_access. rewrite (torrent_data_mut_ok _ _ t) by done.
    set (s1 := with_disk _ s).
    assert (Hf1 : ∀ m i, file_at (disk s) m i → file_at (disk s1) m i) by by intros ?? [].
    destruct (get_cached_read_at s1 m i (Hf1 _ _ Hi)) as (s2 & Hg & Hs2 & Hf2).
    rewrite bind_action, Hg, bind_action. cbn [getS].
    exists s2. split; [done|]. split; [done|]. split; [by rewrite (bytes_of_maps _ _ _ Hs2)|].
    split; [eauto|]. rewrite (mapped_at _ _ _ (Hf2 _ _ (Hf1 _ _ Hi))).
    assert (Hin2 : inode (disk s2) i = inode (disk s) i)
      by (unfold inode; by rewrite (sm_inodes _ _ Hs2)).
    rewrite Hin2. pose proof (fa_len _ _ _ Hi) as HL. unfold lift. destruct (decide _) as [Hle|Hgt].
    + rewrite slice_ok by lia. rewrite <- (N.sub_0_r a) at 4.
      rewrite (Hw (bi_len b)) by done. do 3 f_equal. lia.
    + by rewrite slice_out by lia.
Qed.

(** ** Validating and writing *)

(** One whole hash per piece, and no empty file. *)
Record hashable (t : TorrentData) : Prop := {
  ha_hashes : len (info_pieces (torrent_info t)) = (20 * pieces (torrent_info t))%N;
  ha_bound : (len (info_pieces (torrent_info t)) <= usize_max)%N;
  ha_files : Forall (fun m => 0 < fm_length m)%N (tc_files (torrent_cache t));
}.

Lemma validate_piece_spec s h t ns p :
  stored s h t ns → hashable t → (p < pieces (torrent_info t))%N →
  ∃ s', validate_piece h p s =
      ((if decide (hash_of t p = sha1 (piece_bytes t p (bytes_of (disk s) ns)))
        then Ok tt else Err PieceInvalid), s') ∧
    same_but_maps s s' ∧ ∀ m i, file_at (disk s) m i → file_at (disk s') m i.
Proof.
  intros Hst [Hh Hb Hpos] Hp. destruct (stored_geom _ _ _ _ _ Hst Hp) as (Hg1 & Hg2 & Hg3 & Hg4).
  pose proof Hst as [Ht Htl Hf _ Hsh Hpl _].
  unfold validate_piece. rewrite (bind_lift _ _ _ (p * 20, p * 20 + 20)%N).
  2:{ rewrite umul_ok by lia. cbn [mbind outcome_bind]. by rewrite uadd_ok by lia. }
  rewrite bind_action, (torrent_data_ok _ _ t) by done.
  rewrite (bind_lift _ _ _ (hash_of t p)).
  2:{ rewrite slice_ok by lia. unfold hash_of. do 2 f_equal. lia. }
  rewrite (bind_lift _ _ _ (p * pl_of t, p * pl_of t + size_of t p - 1)%N).
  2:{ rewrite <- Hpl. fold (pl_of t). rewrite umul_ok by lia. cbn [mbind outcome_bind].
      rewrite (piece_length_spec _ _ _ Hsh Hp), <- Hpl. cbn [mbind outcome_bind].
      change (piece_size _ _ p) with (size_of t p). rewrite uadd_ok by lia.
      cbn [mbind outcome_bind]. by rewrite usub_ok by lia. }
  destruct (validate_loop_spec (p * pl_of t) (p * pl_of t + size_of t p) _ _ 0 ns s [] Htl Hf Hpos)
    as (s' & Hv & Hs' & Hf'); [unfold total_of in *; lia..|].
  rewrite bind_action, Hv. exists s'. split; [|done]. rewrite app_nil_l.
  unfold piece_bytes. rewrite N.sub_0_r, N.max_0_r.
  replace (p * pl_of t + size_of t p - p * pl_of t)%N with (size_of t p) by lia.
  by destruct (decide _).
Qed.

(** The bytes once a block is written: what would go past the end is dropped. *)
Definition written (t : TorrentData) (b : Block) (F : list N) : list N :=
  let a := (bl_index b * pl_of t + bl_begin b)%N in
  splice a (window 0 (total_of t - a) (bl_block b)) F.

Lemma write_ops_block s h t ns b :
  stored s h t ns →
  let a := (bl_index b * pl_of t + bl_begin b)%N in
  (a <= total_of t)%N → (a + len (bl_block b) <= usize_max)%N →
  ∃ ops s', calculate_write_ops_for_block (torrent_cache t)
      {| bi_len := len (bl_block b); bi_index := bl_index b; bi_begin := bl_begin b |} = Ok ops ∧
    forM (write_one (bl_block b)) ops s = (Ok tt, s') ∧
    bytes_of (disk s') ns = written t b (bytes_of (disk s) ns) ∧ wrote ns s s'.
Proof.
  intros Hst a Ha Hb. pose proof Hst as [Ht Htl Hf Hnd Hsh Hpl _]. pose proof (shape_bound _ _ Hsh).
  unfold calculate_write_ops_for_block. cbn [bi_index bi_begin bi_len].
  fold (pl_of t) (total_of t). rewrite umul_ok by (subst a; lia). cbn [mbind outcome_bind].
  rewrite uadd_ok by (fold a; lia). cbn [mbind outcome_bind]. fold a.
  rewrite uadd_ok by lia. cbn [mbind outcome_bind].
  destruct (write_ops_spec a (N.min (a + len (bl_block b)) (total_of t)) (bl_block b) (total_of t)
    _ 0 ns s Htl Hf Hnd) as (ops & s' & Ho & Hr & Hby & Hw); [fold (total_of t) in *; lia|lia|lia|].
  exists ops, s'. split; [exact Ho|]. split; [exact Hr|]. split; [|exact Hw].
  rewrite Hby. unfold written. fold a. rewrite N.sub_0_r. f_equal.
  replace (0 - a)%N with 0%N by lia. apply window_clip. lia.
Qed.

Lemma set_piece_count_ok s h t i n :
  d_torrents (disk s) !! h = Some t →
  ∃ s', set_piece_count h i n s = (Ok tt, s') ∧ sent s' = sent s ∧
    d_torrents (disk s') !! h =
      Some (set_downloaded (<[N.to_nat i := n]> (downloaded_per_piece t)) t) ∧
    d_inodes (disk s') = d_inodes (disk s) ∧
    (∀ m i, file_at (disk s) m i → file_at (disk s') m i).
Proof.
  intros Ht. unfold set_piece_count. rewrite (torrent_data_mut_ok _ _ t) by done.
  eexists. split; [done|]. split; [done|]. split; [apply lookup_insert_eq|].
  split; [done|]. by intros ?? [].
Qed.

(** The record a torrent is left with by [write_block]. *)
Inductive write_result (t : TorrentData) (b : Block) (n : N) (F : list N) :
    TorrentData → list DiskEvent → Prop :=
  | write_partial :
      (n < size_of t (bl_index b))%N →
      write_result t b n F
        (set_downloaded (<[N.to_nat (bl_index b) := n]> (downloaded_per_piece t)) t) []
  | write_valid :
      (size_of t (bl_index b) <= n)%N →
      hash_of t (bl_index b) = sha1 (piece_bytes t (bl_index b) F) →
      write_result t b n F
        (set_downloaded (<[N.to_nat (bl_index b) := usize_max]> (downloaded_per_piece t)) t)
        [DownloadedPiece (bl_index b)]
  | write_corrupted :
      (size_of t (bl_index b) <= n)%N →
      hash_of t (bl_index b) ≠ sha1 (piece_bytes t (bl_index b) F) →
      write_result t b n F
        (set_queue (piece_strategy t)
          (td_queue t ++ blocks_of (bl_index b) (size_of t (bl_index b)))
          (set_downloaded (<[N.to_nat (bl_index b) := 0%N]> (downloaded_per_piece t)) t))
        [CorruptedPiece (bl_index b)].

Lemma bytes_of_inodes d d' ns : d_inodes d' = d_inodes d → bytes_of d' ns = bytes_of d ns.
Proof. intros Hi. unfold bytes_of, inode. by rewrite Hi. Qed.

Lemma torrent_data_mut_step s h t f :
  d_torrents (disk s) !! h = Some t →
  ∃ s', torrent_data_mut h f s = (Ok tt, s') ∧ sent s' = sent s ∧
    d_torrents (disk s') !! h = Some (f t) ∧ d_inodes (disk s') = d_inodes (disk s) ∧
    (∀ m i, file_at (disk s) m i → file_at (disk s') m i).
Proof.
  intros Ht. rewrite (torrent_data_mut_ok _ _ t) by done.
  eexists. split; [done|]. split; [done|]. split; [apply lookup_insert_eq|].
  split; [done|]. by intros ?? [].
Qed.

Lemma is_piece_downloaded_spec s h t ns p n :
  stored s h t ns → (p < pieces (torrent_info t))%N →
  downloaded_per_piece t !! N.to_nat p = Some n →
  is_piece_downloaded p h s = (Ok (size_of t p <=? n)%N, s).
Proof.
  intros Hst Hp Hn. unfold is_piece_downloaded.
  rewrite bind_action, (torrent_data_ok _ _ t) by apply Hst. unfold lift, index. rewrite Hn.
  cbn [or_panic mbind outcome_bind]. rewrite (cache_piece_length_spec _ _ _ _ _ Hst Hp). done.
Qed.

(** Only the last value a count was given matters. *)
Lemma set_downloaded_again t i m k :
  let t' := set_downloaded (<[i := m]> (downloaded_per_piece t)) t in
  set_downloaded (<[i := k]> (downloaded_per_piece t')) t' =
  set_downloaded (<[i := k]> (downloaded_per_piece t)) t.
Proof. unfold set_downloaded. simpl. by rewrite list_insert_insert_eq. Qed.

Lemma write_result_again t b n m F t' evs :
  write_result (set_downloaded (<[N.to_nat (bl_index b) := m]> (downloaded_per_piece t)) t)
    b n F t' evs → write_result t b n F t' evs.
Proof.
  destruct 1 as [Hn|Hn Hh|Hn Hh]; rewrite set_downloaded_again.
  - exact (write_partial t b n F Hn).
  - exact (write_valid t b n F Hn Hh).
  - exact (write_corrupted t b n F Hn Hh).
Qed.

(** The end of [write_block], once the whole piece is there. *)
Lemma finish_piece_spec s h t ns b n :
  stored s h t ns → hashable t → (bl_index b < pieces (torrent_info t))%N →
  downloaded_per_piece t !! N.to_nat (bl_index b) = Some n →
  (size_of t (bl_index b) <= n)%N →
  ∃ s' t' evs,
    if_ok (validate_piece h (bl_index b))
      (fun _ => set_piece_count h (bl_index b) usize_max ≫= fun _ =>
                send h (DownloadedPiece (bl_index b)))
      (lift (get_block_infos_of_piece (tc_total_size (torrent_cache t))
               (tc_piece_length (torrent_cache t)) (bl_index b)) ≫= fun blocks =>
       torrent_data_mut h (fun t => set_queue (piece_strategy t) (td_queue t ++ blocks) t) ≫= fun _ =>
       set_piece_count h (bl_index b) 0 ≫= fun _ =>
       send h (CorruptedPiece (bl_index b))) s = (Ok tt, s') ∧
    stored s' h t' ns ∧ d_inodes (disk s') = d_inodes (disk s) ∧
    write_result t b n (bytes_of (disk s) ns) t' evs ∧ sent s' = sent s ++ ((h,.) <$> evs).
Proof.
  intros Hst Hh Hp Hn Hfull.
  destruct (stored_geom _ _ _ _ _ Hst Hp) as (Hg1 & Hg2 & Hg3 & Hg4).
  destruct (validate_piece_spec s h t ns _ Hst Hh Hp) as (s1 & Hv & Hs1 & Hf1).
  unfold if_ok. rewrite Hv. pose proof (sm_torrents _ _ Hs1) as Ht1.
  rewrite <- (sm_sent _ _ Hs1).
  assert (Hst1 : stored s1 h t ns).
  { eapply stored_update; [done|by rewrite Ht1; apply Hst|done..]. }
  destruct (decide _) as [Hok|Hbad].
  - destruct (set_piece_count_ok s1 h t (bl_index b) usize_max (so_torrent _ _ _ _ Hst1))
      as (s2 & Hc & Hse & Ht2 & Hi2 & Hf2).
    rewrite bind_action, Hc. eexists _, _, [DownloadedPiece (bl_index b)]. split; [done|].
    split; [|split; [|split; [by constructor|by simpl; rewrite Hse]]].
    + eapply stored_update; [exact Hst1|exact Ht2|done..].
    + simpl. rewrite Hi2. apply Hs1.
  - rewrite (bind_lift _ _ _ (blocks_of (bl_index b) (size_of t (bl_index b)))).
    2:{ fold (total_of t) (pl_of t). by rewrite get_block_infos_spec by lia. }
    destruct (torrent_data_mut_step s1 h t (fun t0 => set_queue (piece_strategy t0)
      (td_queue t0 ++ blocks_of (bl_index b) (size_of t (bl_index b))) t0))
      as (s2 & Hq & Hse2 & Ht2 & Hi2 & Hf2); [apply Hst1|].
    cbv beta. rewrite bind_action, Hq, bind_action.
    destruct (set_piece_count_ok s2 h _ (bl_index b) 0 Ht2)
      as (s3 & Hc & Hse3 & Ht3 & Hi3 & Hf3).
    rewrite Hc. eexists _, _, [CorruptedPiece (bl_index b)]. split; [done|].
    split; [|split; [|split; [by constructor|by simpl; rewrite Hse3, Hse2]]].
    + eapply stored_update; [exact Hst1|exact Ht3|done..|]. eauto.
    + simpl. rewrite Hi3, Hi2. apply Hs1.
Qed.

(** The contract of [write_block]. *)
Lemma disk_write_block_lemma s h t ns b n :
  stored s h t ns → hashable t → (bl_index b < pieces (torrent_info t))%N →
  downloaded_per_piece t !! N.to_nat (bl_index b) = Some n → n ≠ usize_max →
  (bl_index b * pl_of t + bl_begin b <= total_of t)%N →
  (bl_index b * pl_of t + bl_begin b + len (bl_block b) <= usize_max)%N →
  (n + len (bl_block b) <= usize_max)%N →
  let F := written t b (bytes_of (disk s) ns) in
  ∃ s' t' evs, write_block h b s = (Ok tt, s') ∧ stored s' h t' ns ∧
    bytes_of (disk s') ns = F ∧ (∀ i, i ∉ ns → inode (disk s') i = inode (disk s) i) ∧
    write_result t b (n + len (bl_block b)) F t' evs ∧ sent s' = sent s ++ ((h,.) <$> evs).
Proof.
  intros Hst Hh Hp Hn Hne Ha Hb Hn' F. unfold write_block.
  rewrite bind_action, (torrent_data_ok _ _ t) by apply Hst. rewrite Hn.
  rewrite (proj2 (N.eqb_neq _ _)) by done.
  destruct (write_ops_block s h t ns b Hst Ha Hb) as (ops & s1 & Hops & Hrun & Hby & Hw).
  rewrite (bind_lift _ _ _ ops) by done. rewrite bind_action, Hrun.
  rewrite (bind_lift _ _ _ (n + len (bl_block b))%N) by (by apply uadd_ok).
  assert (Hst1 : stored s1 h t ns).
  { eapply stored_update; [exact Hst|by rewrite (wr_torrents _ _ _ Hw); apply Hst|done..|].
    apply (wr_files _ _ _ Hw). }
  destruct (set_piece_count_ok s1 h t (bl_index b) (n + len (bl_block b)) (so_torrent _ _ _ _ Hst1))
    as (s2 & Hc & Hse2 & Ht2 & Hi2 & Hf2).
  rewrite bind_action, Hc. set (t2 := set_downloaded _ t) in *.
  assert (Hst2 : stored s2 h t2 ns) by (eapply stored_update; [exact Hst1|exact Ht2|done..]).
  assert (Hn2 : downloaded_per_piece t2 !! N.to_nat (bl_index b) = Some (n + len (bl_block b))%N).
  { simpl. apply list_lookup_insert_eq. by eapply lookup_lt_Some. }
  rewrite bind_action, (is_piece_downloaded_spec _ _ _ _ _ _ Hst2 Hp Hn2).
  change (size_of t2) with (size_of t).
  pose proof (eq_sym (wr_sent _ _ _ Hw)) as Hse2'.
  assert (HF2 : bytes_of (disk s2) ns = F) by (rewrite (bytes_of_inodes _ _ _ Hi2); done).
  assert (Hout : ∀ s', d_inodes (disk s') = d_inodes (disk s2) →
    bytes_of (disk s') ns = F ∧ ∀ i, i ∉ ns → inode (disk s') i = inode (disk s) i).
  { intros s' Hi. split; [by rewrite (bytes_of_inodes _ _ _ Hi)|].
    intros i Hni. rewrite <- (wr_inodes _ _ _ Hw i Hni). unfold inode. by rewrite Hi, Hi2. }
  rewrite Hse2', <- Hse2.
  destruct (N.leb_spec (size_of t (bl_index b)) (n + len (bl_block b))) as [Hfull|Hpart]; cbn [negb].
  - assert (Hh2 : hashable t2) by (destruct Hh; by split).
    destruct (finish_piece_spec s2 h t2 ns b _ Hst2 Hh2 Hp Hn2 Hfull)
      as (s3 & t3 & evs & Hfin & Hst3 & Hi3 & Hres & Hse3).
    exists s3, t3, evs. destruct (Hout s3 Hi3) as [Hb3 Ho3]. split; [exact Hfin|].
    split; [done|]. split; [done|]. split; [done|]. split; [|done].
    rewrite HF2 in Hres. by apply write_result_again in Hres.
  - exists s2, t2, []. destruct (Hout s2 eq_refl) as [Hb3 Ho3]. split; [done|].
    split; [done|]. split; [done|]. split; [done|]. split; [by constructor|by rewrite app_nil_r].
Qed.
End stored.
