(* ===== verification/DiskLife.v ===== *)
(** The life of a torrent on disk: its layout and preallocated files, the pieces
    found valid at startup and those validated while downloading, and the
    blocks handed out to peers. *)
From S2P Require Import Prelude Errors Bits Core Bencode BencodeText Metainfo MetainfoFacts.
From S2P Require Import Disk DiskFacts DiskTheorems.

Section life.
Context `{Build, Sha1Api}.

(** ** Writing *)

(** C7. Writing a block, against the torrent's bytes end to end: a block of a
    piece that is not validated yet is spliced in at its offset at once, before
    its piece is complete, through however many files it spans, and nothing
    else of the torrent or of the file system changes; the piece's byte count
    grows by the block, and when it reaches the piece's size the piece is
    hashed: it is announced as downloaded if the hash of its bytes is the
    expected one, otherwise its blocks are queued again and its count is
    reset. *)
Theorem disk_write_block s h t ns b n :
  stored s h t ns → hashable t → (bl_index b < pieces (torrent_info t))%N →
  downloaded_per_piece t !! N.to_nat (bl_index b) = Some n → n ≠ usize_max →
  (bl_index b * pl_of t + bl_begin b <= total_of t)%N →
  (bl_index b * pl_of t + bl_begin b + len (bl_block b) <= usize_max)%N →
  (n + len (bl_block b) <= usize_max)%N →
  let F := written t b (bytes_of (disk s) ns) in
  ∃ s' t' evs, write_block h b s = (Ok tt, s') ∧ stored s' h t' ns ∧
    bytes_of (disk s') ns = F ∧ (∀ i, i ∉ ns → inode (disk s') i = inode (disk s) i) ∧
    write_result t b (n + len (bl_block b)) F t' evs ∧ sent s' = sent s ++ ((h,.) <$> evs).
Proof. apply disk_write_block_lemma. Qed.

(** ** Validated pieces stay valid *)

(** Every piece marked as downloaded and validated has the expected hash. *)
Definition valid_pieces (t : TorrentData) (F : list N) : Prop :=
  ∀ p, (p < pieces (torrent_info t))%N →
    downloaded_per_piece t !! N.to_nat p = Some usize_max →
    hash_of t p = sha1 (piece_bytes t p F).

(** A block inside one piece leaves the other pieces' bytes alone. *)
Lemma written_other s h t ns b p :
  stored s h t ns → (bl_index b < pieces (torrent_info t))%N → (p < pieces (torrent_info t))%N →
  (bl_begin b + len (bl_block b) <= size_of t (bl_index b))%N → p ≠ bl_index b →
  piece_bytes t p (written t b (bytes_of (disk s) ns)) = piece_bytes t p (bytes_of (disk s) ns).
Proof.
  intros Hst Hi Hp Hb Hne. pose proof (stored_len _ _ _ _ Hst) as HF.
  destruct (stored_geom _ _ _ _ _ Hst Hi) as (Hi1 & Hi2 & Hi3 & Hi4).
  destruct (stored_geom _ _ _ _ _ Hst Hp) as (Hp1 & Hp2 & Hp3 & Hp4).
  unfold piece_bytes, written. rewrite window_all by lia.
  apply window_splice_out; [rewrite HF; lia|].
  destruct (decide (p < bl_index b)%N); [left; nia|right; nia].
Qed.

(** C8. Marked pieces are what they should be: a block that lies inside its
    piece, whatever its bytes and however often it is written, keeps every
    piece that is marked as validated equal to its hash. *)
Theorem disk_valid_pieces s h t ns b n :
  stored s h t ns → hashable t → (bl_index b < pieces (torrent_info t))%N →
  downloaded_per_piece t !! N.to_nat (bl_index b) = Some n →
  n = usize_max ∨ (n + len (bl_block b) <= usize_max)%N →
  (bl_begin b + len (bl_block b) <= size_of t (bl_index b))%N →
  valid_pieces t (bytes_of (disk s) ns) →
  ∃ s' t', write_block h b s = (Ok tt, s') ∧ stored s' h t' ns ∧
    valid_pieces t' (bytes_of (disk s') ns).
Proof.
  intros Hst Hh Hi Hn Hnb Hb Hv. destruct (stored_geom _ _ _ _ _ Hst Hi) as (Hi1 & Hi2 & Hi3 & Hi4).
  destruct (decide (n = usize_max)) as [->|Hne].
  { exists s, t. split; [|done]. unfold write_block.
    rewrite bind_action, (torrent_data_ok _ _ t) by apply Hst. by rewrite Hn. }
  destruct (disk_write_block_lemma s h t ns b n)
    as (s' & t' & evs & Hw & Hst' & HF & _ & Hres & _); [done|done|done|done|done|lia..|].
  exists s', t'. split; [done|]. split; [done|]. rewrite HF.
  assert (Hold : ∀ p, (p < pieces (torrent_info t))%N → p ≠ bl_index b →
    downloaded_per_piece t !! N.to_nat p = Some usize_max →
    hash_of t p = sha1 (piece_bytes t p (written t b (bytes_of (disk s) ns)))).
  { intros p Hp Hpne Hd. rewrite (written_other s h) by done. by apply Hv. }
  assert (Hlt : (N.to_nat (bl_index b) < length (downloaded_per_piece t))%nat)
    by by eapply lookup_lt_Some.
  intros p Hp Hd. destruct (decide (p = bl_index b)) as [->|Hpne].
  - destruct Hres as [Hlt'|_ Hok|_ _]; simpl in Hd;
      rewrite list_lookup_insert_eq in Hd by done; [|exact Hok|done].
    injection Hd as Hd. unfold size_of, piece_size in *. lia.
  - assert (N.to_nat (bl_index b) ≠ N.to_nat p) by lia.
    destruct Hres; simpl in Hp, Hd; rewrite list_lookup_insert_ne in Hd by done;
      by apply Hold.
Qed.

(** ** Verification at startup *)

Lemma preopen_files_spec s l ns :
  Forall2 (file_at (disk s)) l ns →
  preopen_files l s = (Ok (zip_with (fun m i => (m, (i, fm_length m))) l ns, false), s).
Proof.
  induction 1 as [|m i l ns Hm Hf IH]; [done|]. cbn [preopen_files]. unfold if_ok, open_file.
  rewrite (fa_entry _ _ _ Hm), bind_action. cbn [getS]. rewrite bind_action, IH.
  unfold map_file. rewrite (fa_len _ _ _ Hm). done.
Qed.

Lemma chunks20_lookup fuel l p :
  (length l <= fuel)%nat → (p * 20 + 20 <= len l)%N →
  chunks20 fuel l !! N.to_nat p = Some (window (p * 20) 20 l).
Proof.
  revert l p. induction fuel as [|fuel IH]; intros l p Hf Hp; [unfold len in Hp; lia|].
  cbn [chunks20]. rewrite (proj2 (N.ltb_ge _ _)) by lia.
  destruct p as [|p] using N.peano_ind; [done|clear IHp].
  rewrite N2Nat.inj_succ. cbn [lookup list_lookup].
  fold (chunks20 fuel (drop 20 l) !! N.to_nat p).
  rewrite IH; [|rewrite length_drop; unfold len in Hp; lia|unfold len in *; rewrite length_drop; lia].
  unfold window. rewrite drop_drop. do 3 f_equal. lia.
Qed.

Lemma cache_maps_spec l : ∀ ns s,
  Forall2 (file_at (disk s)) l ns →
  ∃ s', forM (E:=Error) (fun fm : FileMetadata * mmap => modifyS (with_disk (fun d =>
      with_read_cache (<[fm_path fm.1 := fm.2]> (d_read_cache d)) d)))
      (zip_with (fun m i => (m, (i, fm_length m))) l ns) s = (Ok tt, s') ∧
    same_but_maps s s' ∧ ∀ m i, file_at (disk s) m i → file_at (disk s') m i.
Proof.
  induction l as [|m l IH]; intros ns s Hf.
  { apply Forall2_nil_inv_l in Hf as ->. by exists s. }
  apply Forall2_cons_inv_l in Hf as (i & ns' & Hm & Hf & ->). cbn [zip_with forM].
  rewrite bind_action. cbn [modifyS]. set (s1 := with_disk _ s).
  assert (Hf1 : ∀ m' i', file_at (disk s) m' i' → file_at (disk s1) m' i').
  { intros m' i' Hm'. by apply (file_at_cached _ m i m' i' _ Hm Hm'); left. }
  destruct (IH ns' s1) as (s' & Hr & Hs' & Hf'); [by eapply Forall2_impl|].
  exists s'. split; [exact Hr|]. split; [etrans; [|exact Hs']; done|]. eauto.
Qed.

(** The pieces whose bytes have the expected hash. *)
Definition good_pieces (t : TorrentData) (F : list N) : list bool :=
  (fun p => bool_decide (sha1 (piece_bytes t p F) = hash_of t p)) <$>
    range (pieces (torrent_info t)).

(** C10. Startup: the bitfield computed from the files has a bit per piece, set
    exactly when the piece's bytes, gathered over the files, have the expected
    hash; the files are untouched, and a piece found valid is counted with its
    size (not with the mark of a validated piece). *)
Theorem disk_startup_bitfield s h t ns :
  stored s h t ns → hashable t → info_hash (torrent_info t) = h →
  let good := good_pieces t (bytes_of (disk s) ns) in
  ∃ s', compute_downloaded_pieces (torrent_info t) s = (Ok (good, count_true good), s') ∧
    bytes_of (disk s') ns = bytes_of (disk s) ns ∧
    stored s' h (set_downloaded (zip_with (fun p b => if b : bool then size_of t p else 0%N)
      (range (pieces (torrent_info t))) good) t) ns.
Proof.
  intros Hst [Hh Hhb _] Hih good. pose proof Hst as [Ht Htl Hf Hnd Hsh Hpl Hnp].
  unfold compute_downloaded_pieces. rewrite Hih, bind_action, (torrent_data_ok _ _ t) by done.
  rewrite bind_action, (preopen_files_spec _ _ ns) by done. rewrite bind_action. cbn [getS].
  assert (Hz : prod_map id (mapped (disk s)) <$>
      zip_with (fun m i => (m, (i, fm_length m))) (tc_files (torrent_cache t)) ns =
      zip_with (fun m i => (m, inode (disk s) i)) (tc_files (torrent_cache t)) ns).
  { clear -Hf. induction Hf as [|m i l ns Hm Hf IH]; [done|]. cbn [zip_with].
    rewrite fmap_cons, IH. unfold prod_map at 1. cbn [fst snd].
    by rewrite (mapped_at _ _ _ Hm). }
  rewrite (bind_lift _ _ _ good).
  2:{ apply mapM_outcome_ok. intros p Hp%elem_of_range.
      destruct (stored_geom _ _ _ _ _ Hst Hp) as (Hg1 & Hg2 & Hg3 & Hg4).
      unfold index. rewrite chunks20_lookup by (done || lia). cbn [or_panic mbind outcome_bind].
      unfold verify_piece. rewrite Hz, <- Hpl. fold (pl_of t) (total_of t).
      rewrite umul_ok by lia. cbn [mbind outcome_bind]. rewrite uadd_ok by lia.
      cbn [mbind outcome_bind]. rewrite usub_ok by lia. cbn [mbind outcome_bind].
      pose proof (verify_loop_spec (disk s) (p * pl_of t) (N.min (p * pl_of t + pl_of t) (total_of t))
        _ _ 0 ns [] Htl Hf) as Hvl. rewrite N.max_0_r in Hvl.
      rewrite Hvl by (unfold total_of in *; lia).
      cbn [mbind outcome_bind]. rewrite app_nil_l, N.sub_0_r.
      replace (N.min (p * pl_of t + pl_of t) (total_of t) - p * pl_of t)%N with (size_of t p)
        by (unfold size_of, piece_size; lia). done. }
  destruct (cache_maps_spec _ _ _ Hf) as (s1 & Hc & Hs1 & Hf1).
  rewrite bind_action. rewrite Hc.
  rewrite (bind_lift _ _ _ (zip_with (fun p b => if b : bool then size_of t p else 0%N)
      (range (pieces (torrent_info t))) good)).
  2:{ rewrite (mapM_outcome_ok _ (fun pr : N * bool => if pr.2 then size_of t pr.1 else 0%N)).
      - f_equal. generalize (range (pieces (torrent_info t))). clear. induction good as [|b l IH];
          intros [|x r]; try done. simpl. by rewrite <- IH.
      - intros [p b] Hpb. apply elem_of_zip_l in Hpb as Hp. apply elem_of_range in Hp.
        simpl. destruct b; [|done]. rewrite (piece_length_spec _ _ _ Hsh Hp), <- Hpl. done. }
  assert (Ht1 : d_torrents (disk s1) !! h = Some t) by (by rewrite (sm_torrents _ _ Hs1)).
  destruct (torrent_data_mut_step s1 h t (set_downloaded (zip_with
      (fun p b => if b : bool then size_of t p else 0%N)
      (range (pieces (torrent_info t))) good)) Ht1) as (s2 & Hm & _ & Ht2 & Hi2 & Hf2).
  rewrite bind_action, Hm. exists s2. split; [done|]. split.
  - rewrite (bytes_of_inodes _ _ _ Hi2). apply (bytes_of_maps _ _ _ Hs1).
  - eapply stored_update; [exact Hst|exact Ht2|done..|eauto].
Qed.

(** ** Layout and preallocation *)

Definition file_lengths (info : Info) : list N :=
  match files info with
  | Some fs => f_length <$> fs
  | None => [default 0%N (file_length info)]
  end.

(** The files of a torrent under [base], end to end. *)
Fixpoint layout (base : path) (off : N) (l : list File) : list FileMetadata :=
  match l with
  | [] => []
  | f :: l => {| fm_path := foldl path_push base (f_path f); fm_start := off;
                 fm_length := f_length f |} :: layout base (off + f_length f) l
  end.
Definition layout_of (base : path) (info : Info) : list FileMetadata :=
  match files info with
  | Some fs => layout base 0 fs
  | None => [{| fm_path := base; fm_start := 0; fm_length := default 0%N (file_length info) |}]
  end.

Lemma layout_files_ok base fs : ∀ off,
  (off + sum_N (f_length <$> fs) <= usize_max)%N →
  layout_files base off fs = Ok (layout base off fs).
Proof.
  induction fs as [|f fs IH]; intros off Hs; [done|]. simpl in Hs. cbn [layout_files layout].
  rewrite uadd_ok by lia. cbn [mbind outcome_bind]. by rewrite IH by (unfold fmap in *; lia).
Qed.

Lemma layout_tiled base fs : ∀ off,
  tiled off (layout base off fs) (off + sum_N (f_length <$> fs)).
Proof.
  induction fs as [|f fs IH]; intros off; simpl; [lia|]. split; [done|].
  rewrite N.add_assoc. apply IH.
Qed.

Lemma layout_of_tiled base info : tiled 0 (layout_of base info) (sum_N (file_lengths info)).
Proof.
  unfold layout_of, file_lengths. destruct (files info) as [fs|]; [apply (layout_tiled base fs 0)|].
  simpl. split; [done|]. lia.
Qed.

(** Nothing exists yet under the paths of [l], and inodes are handed out in
    increasing order. *)
Record unused (d : Disk) (l : list FileMetadata) : Prop := {
  un_nodup : NoDup (fm_path <$> l);
  un_entry : ∀ m, m ∈ l → d_entries d !! fm_path m = None;
  un_read : ∀ m, m ∈ l → d_read_cache d !! fm_path m = None;
  un_write : ∀ m, m ∈ l → d_write_cache d !! fm_path m = None;
}.

Lemma pre_alloc_file_spec s m l :
  unused (disk s) (m :: l) →
  ∃ s', pre_alloc_file m s = (Ok tt, s') ∧ unused (disk s') l ∧
    file_at (disk s') m (d_next (disk s)) ∧
    inode (disk s') (d_next (disk s)) = replicate (N.to_nat (fm_length m)) 0%N ∧
    d_next (disk s') = (d_next (disk s) + 1)%N ∧
    d_torrents (disk s') = d_torrents (disk s) ∧
    ∀ m' i', m' ∉ m :: l → fm_path m' ∉ fm_path <$> m :: l → (i' < d_next (disk s))%N →
      file_at (disk s) m' i' → file_at (disk s') m' i' ∧ inode (disk s') i' = inode (disk s) i'.
Proof.
  intros [Hnd He Hr Hw]. unfold pre_alloc_file. rewrite bind_action. cbn [create_dir_all modifyS].
  unfold if_ok, open_file. simpl disk. simpl d_entries. rewrite He by left.
  rewrite decide_True; cycle 1.
  { left. simpl. set_solver. }
  eexists. split; [done|].
  assert (Hin : inode (disk (with_disk (with_new_file (fm_path m)) s)) (d_next (disk s)) = [])
    by (unfold inode; simpl; by rewrite lookup_insert_eq).
  rewrite fmap_cons in Hnd. apply NoDup_cons in Hnd as [Hnp Hnd].
  split; [|split; [|split; [|split; [|split]]]].
  - split; simpl; [done|..]; intros m' Hm'.
    + rewrite lookup_insert_ne; [apply He; by right|].
      intros Heq. apply Hnp. rewrite Heq. by apply list_elem_of_fmap_2.
    + apply Hr. by right.
    + apply Hw. by right.
  - split; simpl.
    + apply lookup_insert_eq.
    + unfold inode. simpl. rewrite !lookup_insert_eq. simpl. rewrite take_nil. simpl.
      unfold len. rewrite length_replicate. lia.
    + intros mm. rewrite Hr by left. done.
    + intros mm. rewrite Hw by left. done.
  - unfold inode. simpl. rewrite !lookup_insert_eq. simpl. rewrite take_nil. simpl.
    f_equal. lia.
  - done.
  - done.
  - intros m' i' _ Hp Hi' [Hfe Hfl Hfr Hfw].
    assert (Hino : ∀ d, inode (with_inodes (<[d_next (disk s):=d]> (<[d_next (disk s):=[]]>
        (d_inodes (disk s)))) (disk s)) i' = inode (disk s) i').
    { intros d. unfold inode. simpl. rewrite !lookup_insert_ne by lia. done. }
    split; [|unfold inode; simpl; rewrite !lookup_insert_ne by lia; done].
    split; simpl; [|unfold inode; simpl; rewrite !lookup_insert_ne by lia; done|done|done].
    rewrite lookup_insert_ne; [done|]. rewrite fmap_cons in Hp. set_solver.
Qed.

Lemma pre_alloc_spec l : ∀ s,
  unused (disk s) l →
  ∃ s' ns, forM pre_alloc_file l s = (Ok tt, s') ∧
    Forall2 (file_at (disk s')) l ns ∧ NoDup ns ∧ Forall (fun i => d_next (disk s) <= i)%N ns ∧
    bytes_of (disk s') ns = replicate (N.to_nat (sum_N (fm_length <$> l))) 0%N ∧
    d_torrents (disk s') = d_torrents (disk s) ∧
    ∀ m' i', fm_path m' ∉ fm_path <$> l → (i' < d_next (disk s))%N →
      file_at (disk s) m' i' → file_at (disk s') m' i' ∧ inode (disk s') i' = inode (disk s) i'.
Proof.
  induction l as [|m l IH]; intros s Hu.
  { exists s, []. split; [done|]. split; [constructor|]. split; [apply NoDup_nil_2|].
    split; [constructor|]. split; [done|]. split; [done|]. by intros ? ? ? ? ?. }
  pose proof (un_nodup _ _ Hu) as Hnd. rewrite fmap_cons in Hnd.
  apply NoDup_cons in Hnd as [Hnp _].
  destruct (pre_alloc_file_spec s m l Hu) as (s1 & Hp & Hu1 & Hf1 & Hi1 & Hn1 & Ht1 & Hk1).
  destruct (IH s1 Hu1) as (s' & ns & Hr & Hf & Hnd & Hge & Hb & Ht & Hk).
  destruct (Hk m (d_next (disk s))) as [Hfm Him]; [done|lia|done|].
  exists s', (d_next (disk s) :: ns). split; [cbn [forM]; rewrite bind_action, Hp; exact Hr|].
  split; [by constructor|]. split.
  { apply NoDup_cons. split; [|done]. intros Hin. rewrite Forall_forall in Hge.
    specialize (Hge _ Hin). simpl in Hge. lia. }
  split; [constructor; [lia|]; eapply Forall_impl; [exact Hge|]; simpl; lia|].
  split; [|split; [congruence|]].
  - cbn [bytes_of mbind list_bind]. change (ns ≫= inode (disk s')) with (bytes_of (disk s') ns).
    rewrite Hb, Him, Hi1, <- replicate_add. f_equal. simpl. unfold fmap. lia.
  - intros m' i' Hp' Hi' Hf'. rewrite fmap_cons in Hp'.
    destruct (Hk1 m' i') as [Hf'' Hi'']; [set_solver|by rewrite fmap_cons|done|done|].
    destruct (Hk m' i') as [? ?]; [set_solver|lia|done|]. split; [done|congruence].
Qed.

(** A new torrent: laying out the files and preallocating them, when no
    file is in the way, leaves a torrent that is stored as every operation
    expects, its files end to end in the order of the metainfo under the
    download directory and filled with zeroes. *)
Theorem disk_new_torrent info s total :
  info_shape info total → sum_N (file_lengths info) = total →
  let l := layout_of (base_path (disk s) info) info in
  unused (disk s) l →
  ∃ s' t ns,
    (new_torrent_data info ≫= fun _ => compute_torrent_cache info ≫= fun _ =>
     pre_alloc_files (info_hash info)) s = (Ok tt, s') ∧
    stored s' (info_hash info) t ns ∧ torrent_info t = info ∧ tc_files (torrent_cache t) = l ∧
    bytes_of (disk s') ns = replicate (N.to_nat total) 0%N ∧
    td_queue t = [] ∧ endgame t = false.
Proof.
  intros Hsh Hsum l Hu. set (h := info_hash info).
  rewrite bind_action. cbn [new_torrent_data modifyS]. set (s1 := with_disk _ s).
  set (t0 := {| downloaded_per_piece := []; endgame := false; piece_tracker := [];
    torrent_info := info; metadata_pieces := []; piece_strategy := Sequential;
    td_queue := []; torrent_cache := TorrentCache_default |}) in *.
  assert (Ht1 : d_torrents (disk s1) !! h = Some t0) by apply lookup_insert_eq.
  set (c := {| tc_files := l; tc_piece_length := info_piece_length info;
    tc_num_pieces := pieces info; tc_total_size := total |}).
  set (t := set_cache c (set_tracker (replicate (N.to_nat (pieces info)) 0%N) t0)).
  assert (Hc : ∃ s2, compute_torrent_cache info s1 = (Ok tt, s2) ∧
    d_torrents (disk s2) !! h = Some t ∧ unused (disk s2) l).
  { unfold compute_torrent_cache. fold h. rewrite bind_action, (torrent_data_ok _ _ t0) by done.
    rewrite bind_action. cbn [getS]. rewrite bind_action, (torrent_data_mut_ok _ _ t0) by done.
    set (s2 := with_disk _ s1).
    rewrite (bind_lift _ _ _ l).
    2:{ subst l. unfold layout_of. change (torrent_info t0) with info. destruct (files info) as [fs|] eqn:Hfs; [|done].
        change (base_path (disk s1) info) with (base_path (disk s) info).
        apply layout_files_ok. unfold file_lengths in Hsum. rewrite Hfs in Hsum.
        pose proof (shape_bound _ _ Hsh). lia. }
    rewrite (bind_lift _ _ _ total) by apply (shape_total _ _ Hsh).
    rewrite (torrent_data_mut_ok _ _ (set_tracker (replicate (N.to_nat (pieces info)) 0%N) t0))
      by apply lookup_insert_eq.
    eexists. split; [done|]. split; [apply lookup_insert_eq|]. by destruct Hu. }
  destruct Hc as (s2 & Hc & Ht2 & Hu2). rewrite bind_action, Hc.
  unfold pre_alloc_files. fold h. rewrite bind_action. cbn [getS]. rewrite Ht2.
  destruct (pre_alloc_spec l s2 Hu2) as (s3 & ns & Hr & Hf & Hnd & _ & Hb & Ht3 & _).
  exists s3, t, ns. split; [exact Hr|].
  pose proof (layout_of_tiled (base_path (disk s) info) info) as Htl. rewrite Hsum in Htl.
  split; [split; [by rewrite Ht3|exact Htl|exact Hf|exact Hnd|exact Hsh|done|done]|].
  split; [done|]. split; [done|]. split; [|done].
  rewrite Hb. f_equal. f_equal. rewrite <- Hsum. subst l. unfold layout_of, file_lengths.
  destruct (files info) as [fs|]; [|done]. generalize (base_path (disk s) info), 0%N.
  induction fs as [|f fs IH]; intros b off; [done|]. simpl. f_equal. apply IH.
Qed.
End life.
