(* ===== verification/DiskRequests.v ===== *)
(** The blocks the disk hands out, and what it does with blocks it did not ask
    for. *)
From S2P Require Import Prelude Errors Bits Core Bencode BencodeText Metainfo MetainfoFacts.
From S2P Require Import Disk DiskFacts DiskTheorems DiskLife.
Import String.StringSyntax.

Section requests.
Context `{Build, Sha1Api, BV : BitVecApi}.

(** Whether a bitfield says that the peer has a piece. *)
Definition has_piece (l : list bool) (i : N) : bool := default false (l !! N.to_nat i).

Lemma has_piece_grown l i j : has_piece (grown l i) j = has_piece l j.
Proof.
  unfold has_piece. destruct (decide (j <= i)%N) as [Hj|Hj].
  - by rewrite lookup_grown.
  - unfold grown. destruct (decide (N.to_nat j < length l)%nat) as [Hlt|Hge].
    + by rewrite lookup_app_l.
    + rewrite (lookup_ge_None_2 l) by lia. rewrite lookup_ge_None_2; [done|].
      rewrite length_app, length_replicate. unfold len. lia.
Qed.

Lemma pop_while_spec rq : ∀ v,
  Forall (fun b => bi_index b < usize_max)%N rq →
  ∃ popped rest v', pop_while v rq = Ok (popped, rest, v') ∧ popped ++ rest = rq ∧
    Forall (fun b => has_piece (bits v) (bi_index b) = true) popped ∧
    (∀ b, head rest = Some b → has_piece (bits v) (bi_index b) = false).
Proof.
  induction rq as [|b rq IH]; intros v Hrq; [by exists [], [], v|].
  apply Forall_cons in Hrq as [Hb Hrq]. cbn [pop_while].
  destruct (safe_get_ok (E:=Error) v (bi_index b) Hb) as (v1 & Hg & Hv1). rewrite Hg.
  cbn [mbind outcome_bind]. fold (has_piece (bits v) (bi_index b)).
  destruct (has_piece (bits v) (bi_index b)) eqn:Hhas.
  - destruct (IH v1 Hrq) as (popped & rest & v' & Hp & Happ & Hpop & Hrest).
    rewrite Hp. cbn [mbind outcome_bind]. exists (b :: popped), rest, v'.
    split; [done|]. split; [by rewrite <- Happ|]. split.
    + constructor; [done|]. eapply Forall_impl; [exact Hpop|]. intros x.
      by rewrite Hv1, has_piece_grown.
    + intros x Hx. rewrite <- (Hrest x Hx), Hv1. by rewrite has_piece_grown.
  - exists [], (b :: rq), v1. split; [done|]. split; [done|]. split; [done|].
    intros x [= <-]. done.
Qed.

(** C11. Handing out blocks, before the endgame: the answer is every block of
    the requested pieces followed by blocks taken from the end of the queue, all
    of pieces the peer has; what is taken and what stays are the queue, and the
    scan stops at the first block the peer lacks; a peer that has nothing in
    flight and gets nothing starts the endgame, and nothing else does. *)
Theorem disk_request_blocks s h t ns n ps v :
  stored s h t ns → endgame t = false →
  Forall (fun p => p < pieces (torrent_info t))%N ps →
  Forall (fun b => bi_index b < usize_max)%N (td_queue t) →
  (div_ceil (pl_of t) BLOCK_LEN * len ps <= usize_max)%N →
  ∃ s' t' popped,
    let result := concat ((fun p => blocks_of p (size_of t p)) <$> ps) ++ popped in
    request_blocks h n ps v s = (Ok result, s') ∧
    d_torrents (disk s') !! h = Some t' ∧
    td_queue t = td_queue t' ++ reverse popped ∧
    Forall (fun b => has_piece (bits v) (bi_index b) = true) popped ∧
    (∀ b, list.last (td_queue t') = Some b → has_piece (bits v) (bi_index b) = false) ∧
    endgame t' = (n =? 0)%N && (len result =? 0)%N ∧
    sent s' = sent s ++ (if endgame t' then [(h, EndgameStarted)] else []).
Proof.
  intros Hst Hend Hps Hq Hcap. pose proof Hst as [Ht _ _ _ _ _ _].
  unfold request_blocks. rewrite bind_action, (torrent_data_ok _ _ t) by done.
  fold (pl_of t) (total_of t). rewrite (bind_lift _ _ _ (div_ceil (pl_of t) BLOCK_LEN * len ps)%N)
    by by apply umul_ok.
  rewrite (bind_lift _ _ _ ((fun p => blocks_of p (size_of t p)) <$> ps)).
  2:{ apply mapM_outcome_ok. intros p Hp. rewrite Forall_forall in Hps.
      destruct (stored_geom _ _ _ _ _ Hst (Hps p Hp)) as (Hg1 & Hg2 & Hg3 & Hg4).
      by rewrite get_block_infos_spec by lia. }
  set (blocks := concat _). rewrite Hend.
  destruct (pop_while_spec (reverse (td_queue t)) v) as (popped & rest & v' & Hp & Happ & Hpop & Hrest).
  { rewrite Forall_forall in Hq |- *. intros b Hb. apply Hq. by apply elem_of_reverse. }
  destruct (torrent_data_mut_step s h t (fun t0 => set_queue (piece_strategy t0) (reverse rest) t0) Ht)
    as (s1 & Hm & Hse1 & Ht1 & _ & _).
  rewrite bind_action. rewrite (bind_lift _ _ _ (popped, rest, v')) by done.
  cbn [fst snd]. rewrite bind_action, Hm. cbn [mret action_ret].
  set (t1 := set_queue _ _ t) in *. cbv zeta. fold blocks.
  assert (Hqueue : td_queue t = td_queue t1 ++ reverse popped).
  { simpl. by rewrite <- reverse_app, Happ, reverse_involutive. }
  assert (Hlast : ∀ b, list.last (td_queue t1) = Some b → has_piece (bits v) (bi_index b) = false).
  { intros b Hb. simpl in Hb. rewrite last_reverse in Hb. by apply Hrest. }
  rewrite bind_action. cbn [negb]. rewrite andb_true_r.
  destruct ((n =? 0) && (len (blocks ++ popped) =? 0))%N eqn:Hcond.
  - unfold catch, enter_endgame. rewrite bind_action, (torrent_data_ok _ _ t1) by done.
    change (endgame t1) with (endgame t). rewrite Hend.
    destruct (torrent_data_mut_step s1 h t1 (set_endgame true) Ht1) as (s2 & Hm2 & Hse2 & Ht2 & _ & _).
    rewrite bind_action, Hm2. eexists _, _, popped. split; [done|]. split; [exact Ht2|].
    split; [done|]. split; [done|]. split; [done|]. split; [done|].
    simpl. by rewrite Hse2, Hse1.
  - exists s1, t1, popped. split; [done|]. split; [done|]. split; [done|]. split; [done|].
    split; [done|]. change (endgame t1) with (endgame t). rewrite Hend.
    split; [done|]. by rewrite app_nil_r.
Qed.
End requests.

(** ** A small torrent

    Two files of 20 and 12 bytes, two pieces of 16. *)
Section examples.
#[local] Existing Instances prefix_sha1 list_bits.
#[local] Instance profile : Build := release.

Definition ex_files : list File :=
  [{| f_length := 20; f_path := [ascii "a"] |}; {| f_length := 12; f_path := [ascii "b"] |}].
Definition ex_hash (b : N) : list N := replicate 16 b ++ replicate 4 0%N.
Definition ex_torrent : Info := {|
  cross_seed_entry := None; file_length := None; files := Some ex_files;
  info_name := ascii "t"; info_piece_length := 16; info_pieces := ex_hash 1 ++ ex_hash 2;
  info_source := None; metadata_size := 0; info_hash := replicate 20 9%N |}.
Definition ex_h : InfoHash := replicate 20 9%N.

Definition empty_disk : DiskState := {| disk := {|
  d_torrents := ∅; d_download_dir := ascii "/d"; d_metadata_dir := ascii "/m";
  d_entries := ∅; d_inodes := ∅; d_next := 0; d_dirs := ∅; d_read_cache := ∅;
  d_write_cache := ∅ |}; sent := [] |}.

Definition ex_added : DiskState := snd (new_torrent id ex_torrent Queue empty_disk).
Definition ex_block (i b : N) : Block := {| bl_index := i; bl_begin := 0; bl_block := replicate 16 b |}.
Definition count_of (s : DiskState) : option (list N) :=
  downloaded_per_piece <$> d_torrents (disk s) !! ex_h.
Definition all_bytes (s : DiskState) : list N := bytes_of (disk s) [0; 1]%N.
Definition outcome_of {A} (r : outcome Error A * DiskState) : option A :=
  match r.1 with Ok a => Some a | _ => None end.

(** A block that reaches past the end of its piece is written all the same:
    here a block of piece 0 overwrites piece 1, which stays marked as
    validated although its bytes no longer have its hash. *)
Theorem disk_block_past_piece :
  let s1 := snd (write_block ex_h (ex_block 1 2) ex_added) in
  let bad := {| bl_index := 0; bl_begin := 16; bl_block := [7; 7]%N |} in
  let s2 := snd (write_block ex_h bad s1) in
  fst (write_block ex_h bad s1) = Ok tt ∧
  count_of s1 = Some [0; usize_max]%N ∧ sha1 (window 16 16 (all_bytes s1)) = ex_hash 2 ∧
  count_of s2 = Some [2; usize_max]%N ∧ sha1 (window 16 16 (all_bytes s2)) ≠ ex_hash 2.
Proof.
  cbv zeta. split; [vm_compute; reflexivity|]. split; [vm_compute; reflexivity|].
  split; [vm_compute; reflexivity|]. split; [vm_compute; reflexivity|]. vm_compute. discriminate.
Qed.

(** A block that arrives twice is counted twice: the first half of piece 0,
    sent twice, makes the piece look complete, so it fails its hash and is
    reported as corrupted although every byte received was right. *)
Theorem disk_duplicate_counted :
  let half := {| bl_index := 0; bl_begin := 0; bl_block := replicate 8 1%N |} in
  let s1 := snd (write_block ex_h half ex_added) in
  let s2 := snd (write_block ex_h half s1) in
  window 0 8 (all_bytes s2) = replicate 8 1%N ∧ count_of s1 = Some [8; 0]%N ∧
  count_of s2 = Some [0; 0]%N ∧ list.last (sent s2) = Some (ex_h, CorruptedPiece 0).
Proof. repeat split; vm_compute; reflexivity. Qed.

(** Deleting a torrent with its files and adding it again goes wrong: the
    cached maps still show the deleted files, so what is downloaded next never
    reaches the new ones.  Only the first file was removed in the first
    place. *)
Theorem disk_stale_maps :
  let s1 := snd (write_block ex_h (ex_block 0 1) ex_added) in
  let meta := metainfo_path id (disk s1) Incomplete ex_h in
  let s1 := with_disk (fun d => with_entries (<[meta := 77%N]> (d_entries d)) d) s1 in
  let s2 := snd (handle_disk_msg id 0 (DeleteTorrent ex_h true) s1) in
  let s3 := snd (new_torrent id ex_torrent Queue s2) in
  let s4 := snd (write_block ex_h (ex_block 0 1) s3) in
  let file s p := inode (disk s) <$> d_entries (disk s) !! p in
  d_entries (disk s2) !! ascii "/d/t/a" = None ∧
  is_Some (d_entries (disk s2) !! ascii "/d/t/b") ∧
  fst (write_block ex_h (ex_block 0 1) s3) = Ok tt ∧
  file s1 (ascii "/d/t/a") = Some (replicate 16 1%N ++ replicate 4 0%N) ∧
  file s4 (ascii "/d/t/a") = Some (replicate 20 0%N).
Proof.
  cbv zeta. split; [vm_compute; reflexivity|]. split; [vm_compute; eauto|].
  repeat split; vm_compute; reflexivity.
Qed.

(** ** The theorems on the small torrent *)

Definition no_data : TorrentData := {|
  downloaded_per_piece := []; endgame := false; piece_tracker := []; torrent_info := ex_torrent;
  metadata_pieces := []; piece_strategy := Sequential; td_queue := [];
  torrent_cache := TorrentCache_default |}.
Definition ex_data : TorrentData := default no_data (d_torrents (disk ex_added) !! ex_h).

Lemma ex_shape_total : info_shape ex_torrent 32.
Proof. by split. Qed.

Lemma ex_file_at k m i :
  tc_files (torrent_cache ex_data) !! k = Some m → [0; 1]%N !! k = Some i →
  file_at (disk ex_added) m i.
Proof.
  intros Hm Hi. do 2 (destruct k as [|k];
    [vm_compute in Hm; injection Hm as <-; injection Hi as <-;
     (split; [vm_compute; reflexivity|vm_compute; reflexivity|intros mm; vm_compute; congruence..])|]).
  done.
Qed.

Lemma ex_stored : stored ex_added ex_h ex_data [0; 1]%N.
Proof.
  split; [vm_compute; reflexivity|vm_compute; done| | |exact ex_shape_total|done|done].
  - apply Forall2_same_length_lookup_2; [done|]. intros k m i Hm Hi. by eapply ex_file_at.
  - apply (bool_decide_unpack _). by vm_compute.
Qed.

Lemma ex_hashable : hashable ex_data.
Proof. split; [done|by vm_compute|]. apply (bool_decide_unpack _). by vm_compute. Qed.

Lemma disk_write_block_witness :
  ∃ s', write_block ex_h (ex_block 1 2) ex_added = (Ok tt, s') ∧
        bytes_of (disk s') [0; 1]%N = replicate 16 0%N ++ replicate 16 2%N.
Proof.
  destruct (disk_write_block ex_added ex_h ex_data [0; 1]%N (ex_block 1 2) 0 ex_stored ex_hashable)
    as (s' & t' & evs & Hw & _ & Hb & _); [by vm_compute..|].
  exists s'. split; [exact Hw|]. rewrite Hb. by vm_compute.
Defined.

Lemma disk_valid_pieces_witness :
  ∃ s' t', write_block ex_h (ex_block 1 2) ex_added = (Ok tt, s') ∧
    downloaded_per_piece t' !! 1%nat = Some usize_max ∧
    valid_pieces t' (bytes_of (disk s') [0; 1]%N).
Proof.
  destruct (disk_valid_pieces ex_added ex_h ex_data [0; 1]%N (ex_block 1 2) 0 ex_stored ex_hashable)
    as (s' & t' & Hw & Hst & Hv); [by vm_compute|by vm_compute|right; by vm_compute|by vm_compute| |].
  - intros p Hp. replace (pieces (torrent_info ex_data)) with 2%N in Hp by done.
    assert (p = 0 ∨ p = 1)%N as [-> | ->] by lia; by vm_compute.
  - exists s', t'. split; [exact Hw|]. split; [|exact Hv].
    pose proof (so_torrent _ _ _ _ Hst) as Ht.
    replace s' with (snd (write_block ex_h (ex_block 1 2) ex_added)) in Ht by (by rewrite Hw).
    vm_compute in Ht. injection Ht as <-. reflexivity.
Defined.

Lemma disk_read_block_witness :
  ∃ s', read_block 0 ex_h {| bi_index := 1; bi_begin := 0; bi_len := 8 |} ex_added = (Panic, s').
Proof.
  destruct (disk_read_block ex_added ex_h ex_data [0; 1]%N 0
    {| bi_index := 1; bi_begin := 0; bi_len := 8 |} ex_stored) as [[Hge _]|(_ & m & s' & Hm & Hin & _ & _ & Hr)].
  - by vm_compute.
  - by vm_compute in Hge.
  - exists s'. rewrite Hr. vm_compute in Hm.
    apply elem_of_cons in Hm as [-> |Hm]; [by vm_compute|].
    apply list_elem_of_singleton in Hm as ->. exfalso. destruct Hin as [Hin _]. by vm_compute in Hin.
Defined.

Lemma disk_startup_bitfield_witness :
  ∃ s', compute_downloaded_pieces ex_torrent ex_added = (Ok ([false; false], 0%N), s').
Proof.
  destruct (disk_startup_bitfield ex_added ex_h ex_data [0; 1]%N ex_stored ex_hashable)
    as (s' & Hs' & _); [by vm_compute|].
  exists s'. replace (torrent_info ex_data) with ex_torrent in Hs' by (by vm_compute).
  rewrite Hs'. by vm_compute.
Defined.

Lemma disk_new_torrent_witness :
  ∃ s' t ns, stored s' ex_h t ns ∧ bytes_of (disk s') ns = replicate 32 0%N.
Proof.
  destruct (disk_new_torrent ex_torrent empty_disk 32 ex_shape_total)
    as (s' & t & ns & _ & Hst & _ & _ & Hb & _); [done| |].
  - split; [apply (bool_decide_unpack _); by vm_compute|done..].
  - exists s', t, ns. split; [exact Hst|exact Hb].
Defined.

Lemma disk_request_blocks_witness :
  ∃ s', request_blocks ex_h 0 [1%N] ([false; true] : @bitvec list_bits) ex_added =
    (Ok [{| bi_index := 1; bi_begin := 0; bi_len := 16 |}], s').
Proof.
  destruct (disk_request_blocks ex_added ex_h ex_data [0; 1]%N 0 [1%N]
    ([false; true] : @bitvec list_bits) ex_stored) as (s' & t' & popped & Hr & _ & Hq & _).
  - by vm_compute.
  - constructor; [by vm_compute|constructor].
  - replace (td_queue ex_data) with (@nil BlockInfo) by (by vm_compute). constructor.
  - by vm_compute.
  - exists s'. rewrite Hr. replace (td_queue ex_data) with (@nil BlockInfo) in Hq by (by vm_compute).
    symmetry in Hq. apply app_eq_nil in Hq as [_ Hp].
    destruct popped as [|b popped]; [by vm_compute|].
    rewrite reverse_cons in Hp. by apply app_eq_nil in Hp as [_ ?].
Defined.
End examples.
