(* ===== verification/Counter.v ===== *)
(** [counter.rs]: transfer counters and their exponential moving averages.  The
    atomics are the fields of a record; a rate, which the source keeps as the
    bits of an [f64], is kept as the float. *)
From S2P Require Import Prelude Floats.
From Stdlib Require Import SpecFloat.

Record Counter := {
  total_downloaded : N;
  total_uploaded : N;
  window_downloaded : N;
  window_uploaded : N;
  ema_download : float;
  ema_upload : float;
  last_update : N;
}.

Definition f64_zero : float := S754_zero false.

(** [f64::to_bits] *)
Definition f64_to_bits (x : float) : N :=
  match x with
  | S754_zero s => if s then 2 ^ 63 else 0
  | S754_infinity s => (if s then 2 ^ 63 else 0) + 2047 * 2 ^ 52
  | S754_nan => 2047 * 2 ^ 52 + 2 ^ 51
  | S754_finite s m e =>
      (if s then 2 ^ 63 else 0) +
      (if (N.pos m <? 2 ^ 52) then N.pos m
       else Z.to_N (e + 1075) * 2 ^ 52 + (N.pos m - 2 ^ 52))
  end%N.

(** [EMA_ALPHA], [EMA_ALPHA_COMPLIMENT] *)
Definition EMA_ALPHA : float := f64_lit 3 10.
Definition EMA_ALPHA_COMPLIMENT : float := f64_sub (f64_lit 1 1) EMA_ALPHA.

(** [Counter::default], [new], [from_total_download] ([now] is in ms) *)
Definition Counter_default (now : N) : Counter := {|
  total_downloaded := 0; total_uploaded := 0; window_downloaded := 0; window_uploaded := 0;
  ema_download := f64_zero; ema_upload := f64_zero; last_update := now |}.
Definition from_total_download (now t : N) : Counter := {|
  total_downloaded := t; total_uploaded := 0; window_downloaded := 0; window_uploaded := 0;
  ema_download := f64_zero; ema_upload := f64_zero; last_update := now |}.

(** [fetch_add] wraps in every profile. *)
Definition fetch_add (a b : N) : N := ((a + b) mod 2 ^ 64)%N.

Definition record_download (bytes : N) (c : Counter) : Counter := {|
  total_downloaded := fetch_add (total_downloaded c) bytes; total_uploaded := total_uploaded c;
  window_downloaded := fetch_add (window_downloaded c) bytes;
  window_uploaded := window_uploaded c; ema_download := ema_download c;
  ema_upload := ema_upload c; last_update := last_update c |}.

Definition record_upload (bytes : N) (c : Counter) : Counter := {|
  total_downloaded := total_downloaded c; total_uploaded := fetch_add (total_uploaded c) bytes;
  window_downloaded := window_downloaded c;
  window_uploaded := fetch_add (window_uploaded c) bytes; ema_download := ema_download c;
  ema_upload := ema_upload c; last_update := last_update c |}.

(** [download_rate_f64], [download_rate_u64] *)
Definition download_rate_f64 (c : Counter) : float := ema_download c.
Definition upload_rate_f64 (c : Counter) : float := ema_upload c.
Definition download_rate_u64 (c : Counter) : N := f64_to_bits (ema_download c).

(** One step of the moving average. *)
Definition ema_step (rate current : float) : float :=
  if f_eq current f64_zero then rate
  else f64_add (f64_mul EMA_ALPHA rate) (f64_mul EMA_ALPHA_COMPLIMENT current).

(** [Counter::update_rates], at the time [now] *)
Definition update_rates `{Build} {E} (now : N) (c : Counter) : outcome E Counter :=
  elapsed_ms ← usub now (last_update c);
  if (elapsed_ms <? 1)%N then Ok c
  else
    let elapsed := f64_div (f64_of elapsed_ms) (f64_lit 1000 1) in
    let dl_rate := f64_div (f64_of (window_downloaded c)) elapsed in
    let ul_rate := f64_div (f64_of (window_uploaded c)) elapsed in
    Ok {| total_downloaded := total_downloaded c; total_uploaded := total_uploaded c;
          window_downloaded := 0; window_uploaded := 0;
          ema_download := ema_step dl_rate (ema_download c);
          ema_upload := ema_step ul_rate (ema_upload c); last_update := now |}.
