(* ===== verification/Torrent.v ===== *)
(** [torrent/mod.rs], [torrent/types.rs], [torrent/from_meta_info.rs] and
    [torrent/from_magnet.rs]: the peers of a torrent, who is unchoked, which
    pieces are wanted from whom, and the messages of its event loops. *)
From S2P Require Import Prelude Errors Bits Core Bencode Metainfo Disk Floats Counter.

(** ** Data *)

(** [struct PeerId(pub [u8; 20])] *)
Definition PeerId := list N.
(** A socket address; only its identity matters here. *)
Definition SocketAddr := N.

(** The part of a [PeerCtx] that never changes.  The context itself is shared
    ([Arc]): [pc_ref] is where its atomics are found. *)
Record PeerCtx := { pc_ref : N; pc_id : PeerId; pc_addr : SocketAddr }.
#[global] Instance PeerCtx_eq_dec : EqDecision PeerCtx.
Proof. solve_decision. Defined.

(** The atomics of a [PeerCtx]. *)
Record PeerShared := {
  am_choking : bool;
  am_interested : bool;
  peer_choking : bool;
  peer_interested : bool;
  pc_counter : Counter;
  block_infos_len : N;
}.

Inductive TorrentStatus :=
  | ConnectingTrackers | DownloadingMetainfo | Downloading | Seeding | Paused
  | StatusError (code : TorrentStatusErrorCode).
#[global] Instance TorrentStatusErrorCode_eq_dec : EqDecision TorrentStatusErrorCode.
Proof. solve_decision. Defined.
#[global] Instance TorrentStatus_eq_dec : EqDecision TorrentStatus.
Proof. solve_decision. Defined.

Record Stats := { interval : N; leechers : N; seeders : N }.

Inductive Event := EvNone | Completed | Started | Stopped.

(** What other tasks are told. *)
Inductive PeerBrMsg := Seedonly | HavePiece (p : N) | Pause | Resume | Quit | HaveInfo.
Inductive PeerMsg :=
  | PmEndgame | PmChoke | PmUnchoke | PmInterested | PmNotInterested
  | PmClone (qnt : N) | PmInterestedAlgorithm | PmRequestAlgorithm
  | PmBlocks (l : list BlockInfo)
  | PmCancel (b : BlockInfo)
  | PmCorruptedPiece (piece torrent_length piece_length : N).

Record TorrentState := {
  ts_name : list N; ts_stats : Stats; ts_status : TorrentStatus;
  ts_downloaded : N; ts_download_rate : float; ts_uploaded : N; ts_upload_rate : float;
  ts_size : N; ts_info_hash : InfoHash; ts_bitfield : list N;
  ts_connected_peers : N; ts_downloading_from : N; ts_idle_peers : N;
}.

Section Torrent.
Context `{Build, BV : BitVecApi}.

(** [Torrent<Connected, M>] with its context; the intervals are the ticks the
    event loop receives. *)
Record Torrent := {
  name : list N;
  status : TorrentStatus;
  bitfield : bitvec;
  stats : Stats;
  (** a [BTreeMap], in order of its keys *)
  t_info_pieces : list (N * list N);
  idle_peers : gset SocketAddr;
  error_peers : list SocketAddr;
  connected_peers : list PeerCtx;
  unchoked_peers : list PeerCtx;
  opt_unchoked_peer : option PeerCtx;
  peer_pieces : gmap PeerId bitvec;
  peer_pieces_diff : gmap PeerId bitvec;
  peer_pieces_req : bitvec;
  disk_size : N;
  t_counter : Counter;
  t_info_hash : InfoHash;
  t_metadata_size : N;
}.

(** What a torrent sends. *)
Inductive Out :=
  | ToPeer (p : PeerCtx) (m : PeerMsg)
  | Broadcast (m : PeerBrMsg)
  | ToTrackers (e : Event)
  | ToDisk (m : DiskMsg)
  | ToDaemon (s : TorrentState)
  | ToSelf (meta : MetaInfo)
  | Answer (r : Reply)
with Reply :=
  | RBlocks (l : list BlockInfo)
  | RPeers (l : list PeerCtx)
  | RPeer (p : option PeerCtx)
  | RStatus (s : TorrentStatus)
  | RBool (b : bool)
  | RBitfield (b : bitvec)
  | RPiece (p : option N)
  | RInfoPiece (b : option (list N)).

(** The torrent, the shared parts of its peers, the process-wide count
    [CONNECTED_PEERS], the limits of the configuration, and what was sent. *)
Record World := {
  torrent : Torrent;
  peers : gmap N PeerShared;
  connected_count : N;
  max_global_peers : N;
  max_torrent_peers : N;
  out : list Out;
}.

Abbreviation tact := (action World Error).

(** [debug_assert!]: checked in the profile that checks overflow. *)
Definition debug_assert {E} (b : bool) : outcome E unit :=
  if overflow_checks && negb b then Panic else Ok tt.

(** ** Updates *)

Definition with_torrent (f : Torrent → Torrent) (w : World) : World := {|
  torrent := f (torrent w); peers := peers w; connected_count := connected_count w;
  max_global_peers := max_global_peers w; max_torrent_peers := max_torrent_peers w;
  out := out w |}.
Definition with_count (f : N → N) (w : World) : World := {|
  torrent := torrent w; peers := peers w; connected_count := f (connected_count w);
  max_global_peers := max_global_peers w; max_torrent_peers := max_torrent_peers w;
  out := out w |}.
Definition with_peers (f : gmap N PeerShared → gmap N PeerShared) (w : World) : World := {|
  torrent := torrent w; peers := f (peers w); connected_count := connected_count w;
  max_global_peers := max_global_peers w; max_torrent_peers := max_torrent_peers w;
  out := out w |}.
Definition emit (o : list Out) (w : World) : World := {|
  torrent := torrent w; peers := peers w; connected_count := connected_count w;
  max_global_peers := max_global_peers w; max_torrent_peers := max_torrent_peers w;
  out := out w ++ o |}.

Definition with_status (x : TorrentStatus) (t : Torrent) : Torrent := {|
  name := name t; status := x; bitfield := bitfield t; stats := stats t; t_info_pieces :=
  t_info_pieces t; idle_peers := idle_peers t; error_peers := error_peers t; connected_peers :=
  connected_peers t; unchoked_peers := unchoked_peers t; opt_unchoked_peer := opt_unchoked_peer
  t; peer_pieces := peer_pieces t; peer_pieces_diff := peer_pieces_diff t; peer_pieces_req :=
  peer_pieces_req t; disk_size := disk_size t; t_counter := t_counter t; t_info_hash :=
  t_info_hash t; t_metadata_size := t_metadata_size t |}.
Definition with_bitfield (x : bitvec) (t : Torrent) : Torrent := {|
  name := name t; status := status t; bitfield := x; stats := stats t; t_info_pieces :=
  t_info_pieces t; idle_peers := idle_peers t; error_peers := error_peers t; connected_peers :=
  connected_peers t; unchoked_peers := unchoked_peers t; opt_unchoked_peer := opt_unchoked_peer
  t; peer_pieces := peer_pieces t; peer_pieces_diff := peer_pieces_diff t; peer_pieces_req :=
  peer_pieces_req t; disk_size := disk_size t; t_counter := t_counter t; t_info_hash :=
  t_info_hash t; t_metadata_size := t_metadata_size t |}.
Definition with_info_pieces (x : list (N * list N)) (t : Torrent) : Torrent := {|
  name := name t; status := status t; bitfield := bitfield t; stats := stats t; t_info_pieces :=
  x; idle_peers := idle_peers t; error_peers := error_peers t; connected_peers :=
  connected_peers t; unchoked_peers := unchoked_peers t; opt_unchoked_peer := opt_unchoked_peer
  t; peer_pieces := peer_pieces t; peer_pieces_diff := peer_pieces_diff t; peer_pieces_req :=
  peer_pieces_req t; disk_size := disk_size t; t_counter := t_counter t; t_info_hash :=
  t_info_hash t; t_metadata_size := t_metadata_size t |}.
Definition with_idle (x : gset SocketAddr) (t : Torrent) : Torrent := {|
  name := name t; status := status t; bitfield := bitfield t; stats := stats t; t_info_pieces :=
  t_info_pieces t; idle_peers := x; error_peers := error_peers t; connected_peers :=
  connected_peers t; unchoked_peers := unchoked_peers t; opt_unchoked_peer := opt_unchoked_peer
  t; peer_pieces := peer_pieces t; peer_pieces_diff := peer_pieces_diff t; peer_pieces_req :=
  peer_pieces_req t; disk_size := disk_size t; t_counter := t_counter t; t_info_hash :=
  t_info_hash t; t_metadata_size := t_metadata_size t |}.
Definition with_lists (i : gset SocketAddr) (e : list SocketAddr)
    (c u : list PeerCtx) (o : option PeerCtx) (t : Torrent) : Torrent := {|
  name := name t; status := status t; bitfield := bitfield t; stats := stats t; t_info_pieces :=
  t_info_pieces t; idle_peers := i; error_peers := e; connected_peers := c; unchoked_peers := u;
  opt_unchoked_peer := o; peer_pieces := peer_pieces t; peer_pieces_diff := peer_pieces_diff t;
  peer_pieces_req := peer_pieces_req t; disk_size := disk_size t; t_counter := t_counter t;
  t_info_hash := t_info_hash t; t_metadata_size := t_metadata_size t |}.
Definition with_pieces (p d : gmap PeerId bitvec) (t : Torrent) : Torrent := {|
  name := name t; status := status t; bitfield := bitfield t; stats := stats t; t_info_pieces :=
  t_info_pieces t; idle_peers := idle_peers t; error_peers := error_peers t; connected_peers :=
  connected_peers t; unchoked_peers := unchoked_peers t; opt_unchoked_peer := opt_unchoked_peer
  t; peer_pieces := p; peer_pieces_diff := d; peer_pieces_req := peer_pieces_req t; disk_size :=
  disk_size t; t_counter := t_counter t; t_info_hash := t_info_hash t; t_metadata_size :=
  t_metadata_size t |}.
Definition with_req (x : bitvec) (t : Torrent) : Torrent := {|
  name := name t; status := status t; bitfield := bitfield t; stats := stats t; t_info_pieces :=
  t_info_pieces t; idle_peers := idle_peers t; error_peers := error_peers t; connected_peers :=
  connected_peers t; unchoked_peers := unchoked_peers t; opt_unchoked_peer := opt_unchoked_peer
  t; peer_pieces := peer_pieces t; peer_pieces_diff := peer_pieces_diff t; peer_pieces_req := x;
  disk_size := disk_size t; t_counter := t_counter t; t_info_hash := t_info_hash t;
  t_metadata_size := t_metadata_size t |}.
Definition with_counter (x : Counter) (t : Torrent) : Torrent := {|
  name := name t; status := status t; bitfield := bitfield t; stats := stats t; t_info_pieces :=
  t_info_pieces t; idle_peers := idle_peers t; error_peers := error_peers t; connected_peers :=
  connected_peers t; unchoked_peers := unchoked_peers t; opt_unchoked_peer := opt_unchoked_peer
  t; peer_pieces := peer_pieces t; peer_pieces_diff := peer_pieces_diff t; peer_pieces_req :=
  peer_pieces_req t; disk_size := disk_size t; t_counter := x; t_info_hash := t_info_hash t;
  t_metadata_size := t_metadata_size t |}.
Definition with_metadata_size (x : N) (t : Torrent) : Torrent := {|
  name := name t; status := status t; bitfield := bitfield t; stats := stats t; t_info_pieces :=
  t_info_pieces t; idle_peers := idle_peers t; error_peers := error_peers t; connected_peers :=
  connected_peers t; unchoked_peers := unchoked_peers t; opt_unchoked_peer := opt_unchoked_peer
  t; peer_pieces := peer_pieces t; peer_pieces_diff := peer_pieces_diff t; peer_pieces_req :=
  peer_pieces_req t; disk_size := disk_size t; t_counter := t_counter t; t_info_hash :=
  t_info_hash t; t_metadata_size := x |}.

(** The atomics of a peer. *)
Definition no_shared : PeerShared := {|
  am_choking := true; am_interested := false; peer_choking := true; peer_interested := false;
  pc_counter := Counter_default 0; block_infos_len := 0 |}.
Definition shared (m : gmap N PeerShared) (p : PeerCtx) : PeerShared :=
  default no_shared (m !! pc_ref p).

(** [let _ = tx.send(m)]: a closed channel is ignored *)
Definition tell (o : Out) : tact unit := modifyS (emit [o]).

(** ** Connections *)

(** [Torrent::peer_connected] *)
Definition peer_connected (p : PeerCtx) : tact unit :=
  modifyS (with_torrent (fun t =>
    with_lists (idle_peers t ∖ {[pc_addr p]})
      (filter (fun a => a ≠ pc_addr p) (error_peers t))
      (connected_peers t ++ [p]) (unchoked_peers t) (opt_unchoked_peer t) t)) ≫= fun _ =>
  modifyS (with_count (fetch_add 1)).

(** [Torrent::peer_error]: [fetch_sub] wraps *)
Definition fetch_sub (n a : N) : N := ((a + (2 ^ 64 - n)) mod 2 ^ 64)%N.
Definition peer_error (addr : SocketAddr) : tact unit :=
  modifyS (with_torrent (fun t =>
    with_lists (idle_peers t ∖ {[addr]})
      (error_peers t ++ [addr])
      (filter (fun p => pc_addr p ≠ addr) (connected_peers t))
      (filter (fun p => pc_addr p ≠ addr) (unchoked_peers t))
      (match opt_unchoked_peer t with
       | Some p => if decide (pc_addr p = addr) then None else Some p
       | None => None
       end) t)) ≫= fun _ =>
  modifyS (with_count (fetch_sub 1)).

(** [Torrent::available_connections] *)
Definition available_connections (w : World) : outcome Error N :=
  let active := len (connected_peers (torrent w)) in
  if (max_torrent_peers w <=? active)%N || (max_global_peers w <=? connected_count w)%N
  then Ok 0%N
  else usub (max_torrent_peers w) active.

(** [Torrent::spawn_outbound_peers]: the addresses a connection is attempted
    to, [order] being the order the set is iterated in *)
Definition spawn_outbound_peers (order : list SocketAddr) (w : World) : outcome Error (list SocketAddr) :=
  to_request ← available_connections w;
  Ok (take (N.to_nat to_request) order).

(** [Torrent::get_peer] *)
Definition get_peer (id : PeerId) (t : Torrent) : option PeerCtx :=
  head (filter (fun p => pc_id p = id) (connected_peers t)).

(** ** Pausing and quitting *)

(** [Torrent::toggle_pause] *)
Definition toggle_pause : tact unit :=
  getS ≫= fun w =>
  let t := torrent w in
  if negb (bool_decide (status t = Downloading)) || negb (bool_decide (status t = Seeding)) ||
     negb (bool_decide (status t = Paused))
  then mret tt
  else
    tell (Broadcast (if decide (status t = Paused) then Resume else Pause)) ≫= fun _ =>
    modifyS (with_torrent (with_status (
      if decide (status t = Paused) then
        if (disk_size t <=? total_downloaded (t_counter t))%N then Seeding else Downloading
      else Paused))).

(** [Torrent::quit] *)
Definition quit : tact unit :=
  tell (Broadcast Quit) ≫= fun _ => tell (ToTrackers Stopped).

(** ** Choking *)

(** Whether a rate comes before another: lower first when ascending. *)
Definition before (is_asc : bool) (a b : N) : bool := if is_asc then (a <? b)%N else (b <? a)%N.

(** The inner [while] loop: the entry at [pos] moves up while it comes before
    its neighbour. *)
Fixpoint bubble (is_asc : bool) (pos : nat) (buffer : list (N * N)) : list (N * N) :=
  match pos with
  | O => buffer
  | S pos' =>
      match buffer !! pos, buffer !! pos' with
      | Some x, Some y =>
          if before is_asc x.1 y.1
          then bubble is_asc pos' (<[pos' := x]> (<[pos := y]> buffer))
          else buffer
      | _, _ => buffer
      end
  end.

(** One peer: its rate and index enter the buffer of the best [n]. *)
Definition sort_step (is_asc : bool) (n : nat) (st : list (N * N) * nat) (e : N * N)
    : list (N * N) * nat :=
  let (buffer, l) := st in
  if (l <? n)%nat then (bubble is_asc l (<[l := e]> buffer), S l)
  else
    match buffer !! (n - 1)%nat with
    | Some worst =>
        if before is_asc e.1 worst.1
        then (bubble is_asc (n - 1) (<[(n - 1)%nat := e]> buffer), l) else st
    | None => st
    end.

(** The peers that take part, with their rates and indices. *)
Definition rated (m : gmap N PeerShared) (skip_uninterested : bool) (l : list PeerCtx)
    : list (N * N) :=
  (fun ip : N * PeerCtx => (download_rate_u64 (pc_counter (shared m ip.2)), ip.1)) <$>
    filter (fun ip : N * PeerCtx =>
      (skip_uninterested && negb (peer_interested (shared m ip.2))) = false)
      (zip (range (len l)) l).

(** [Torrent::sort_peers_by_rate] *)
Definition sort_peers_by_rate (skip_uninterested is_asc : bool) (w : World)
    : outcome Error (list PeerCtx) :=
  let ps := connected_peers (torrent w) in
  match ps with
  | [] => Ok []
  | _ =>
      let n := Nat.min (length ps) 3 in
      let st := foldl (sort_step is_asc n) (replicate 3 (0, 0)%N, O)
        (rated (peers w) skip_uninterested ps) in
      mapM_outcome (fun e : N * N => index ps e.2) (take n st.1)
  end.

(** [Torrent::get_best_interested_downloaders] *)
Definition get_best_interested_downloaders := sort_peers_by_rate true false.

(** [Torrent::get_random_choked_interested_peer]: [pick] draws an index below
    the length it is given *)
Definition choked_interested (w : World) : list PeerCtx :=
  let t := torrent w in
  filter (fun p =>
    ¬ (Exists (fun q => pc_id q = pc_id p) (unchoked_peers t) ∨
       (pc_id <$> opt_unchoked_peer t) = Some (pc_id p)) ∧
    peer_interested (shared (peers w) p) = true) (connected_peers t).
Definition get_random_choked_interested_peer (pick : nat → nat) (w : World) : option PeerCtx :=
  let candidates := choked_interested w in
  match candidates with [] => None | _ => candidates !! pick (length candidates) end.

(** [Torrent::unchoke] *)
Definition unchoke : tact unit :=
  getS ≫= fun w =>
  lift (get_best_interested_downloaders w) ≫= fun best =>
  forM (fun p => if decide (Exists (fun q => pc_id q = pc_id p) best) then mret tt
                 else tell (ToPeer p PmChoke)) (unchoked_peers (torrent w)) ≫= fun _ =>
  modifyS (with_torrent (fun t =>
    with_lists (idle_peers t) (error_peers t) (connected_peers t) best (opt_unchoked_peer t) t))
  ≫= fun _ =>
  forM (fun p => if am_choking (shared (peers w) p) then tell (ToPeer p PmUnchoke) else mret tt) best.

(** [Torrent::optimistic_unchoke] *)
Definition set_opt (o : option PeerCtx) : tact unit :=
  modifyS (with_torrent (fun t => with_lists (idle_peers t) (error_peers t) (connected_peers t)
    (unchoked_peers t) o t)).
Definition optimistic_unchoke (pick : nat → nat) : tact unit :=
  getS ≫= fun w =>
  (match opt_unchoked_peer (torrent w) with
   | Some old =>
       set_opt None ≫= fun _ =>
       if decide (Exists (fun q => pc_id q = pc_id old) (unchoked_peers (torrent w))) then mret tt
       else tell (ToPeer old PmChoke)
   | None => mret tt
   end) ≫= fun _ =>
  getS ≫= fun w =>
  match get_random_choked_interested_peer pick w with
  | Some p => tell (ToPeer p PmUnchoke) ≫= fun _ => set_opt (Some p)
  | None => mret tt
  end.

(** ** Pieces *)

(** A remote bitfield is fitted to the length of the client's. *)
Definition fit (client_len : N) (v : bitvec) : bitvec :=
  bv_truncate (bv_grow v (client_len - bv_len v) false) client_len.

(** [Bitfield::default()] *)
Definition empty_bits : bitvec := from_elem_general 0 false.

(** [Torrent::gen_missing_pieces] *)
Definition gen_missing_pieces (id : PeerId) : tact unit :=
  getS ≫= fun w =>
  let t := torrent w in
  lift (ok_or PeerDoesNotExist (peer_pieces t !! id)) ≫= fun remote =>
  lift (debug_assert (bv_len (bitfield t) <=? bv_len remote)%N) ≫= fun _ =>
  lift (or_panic (bv_and remote (bv_negate (bitfield t)))) ≫= fun r =>
  modifyS (with_torrent (fun t =>
    with_pieces (peer_pieces t) (<[id := r]> (peer_pieces_diff t)) t)).

(** [Torrent::peer_have] *)
Definition peer_have (id : PeerId) (piece : N) : tact unit :=
  getS ≫= fun w =>
  let t := torrent w in
  let client_len := bv_len (bitfield t) in
  lift (or_panic (bv_set (fit client_len (default empty_bits (peer_pieces t !! id))) piece true))
    ≫= fun remote =>
  let no_diff := bool_decide (peer_pieces_diff t !! id = None) in
  let diff := fit client_len (default (from_elem_general piece false) (peer_pieces_diff t !! id)) in
  lift (debug_assert (client_len <=? bv_len remote)%N) ≫= fun _ =>
  lift (debug_assert (client_len <=? bv_len diff)%N) ≫= fun _ =>
  modifyS (with_torrent (fun t =>
    with_pieces (<[id := remote]> (peer_pieces t)) (<[id := diff]> (peer_pieces_diff t)) t))
    ≫= fun _ =>
  if no_diff then catch tt (gen_missing_pieces id) else mret tt.

(** The loop of [get_want_pieces] over the pieces from [piece] on; [acc] is
    what was picked so far. *)
Fixpoint want_loop (pieces_wanted piece : N) (diff : list bool) (req : bitvec) (acc : list N)
    : outcome Error (list N * bitvec) :=
  match diff with
  | [] => Ok (acc, req)
  | false :: diff => want_loop pieces_wanted (piece + 1) diff req acc
  | true :: diff =>
      '(requested, req) ← safe_get req piece;
      if requested : bool then want_loop pieces_wanted (piece + 1) diff req acc
      else
        req ← or_panic (bv_set req piece true);
        let acc := acc ++ [piece] in
        if (len acc =? pieces_wanted)%N then Ok (acc, req)
        else want_loop pieces_wanted (piece + 1) diff req acc
  end.

(** [Torrent::get_want_pieces] *)
Definition get_want_pieces (id : PeerId) (pieces_wanted : N) : tact (list N) :=
  getS ≫= fun w =>
  let t := torrent w in
  lift (ok_or PeerDoesNotExist (peer_pieces_diff t !! id)) ≫= fun diff =>
  lift (want_loop pieces_wanted 0 (bits diff) (peer_pieces_req t) [])
    ≫= fun r : list N * bitvec =>
  modifyS (with_torrent (with_req r.2)) ≫= fun _ =>
  mret r.1.

(** [Torrent::peer_has_piece_not_in_local] *)
Fixpoint first_true (i : N) (l : list bool) : option N :=
  match l with
  | [] => None
  | true :: _ => Some i
  | false :: l => first_true (i + 1) l
  end.
Definition peer_has_piece_not_in_local (id : PeerId) (t : Torrent) : option N :=
  if (count_ones (bitfield t) =? 0)%N then Some 0%N
  else diff ← peer_pieces_diff t !! id; first_true 0 (bits diff).

(** Clearing a piece in every peer's missing pieces; it cannot fail where the
    client's own bitfield took the piece. *)
Definition clear_piece (piece : N) (d : gmap PeerId bitvec) : gmap PeerId bitvec :=
  (fun v => match @safe_set _ _ Error v piece false with Ok v => v | _ => v end) <$> d.

(** [Torrent::downloaded_piece] *)
Definition downloaded_piece (piece : N) : tact unit :=
  getS ≫= fun w =>
  lift (safe_set (bitfield (torrent w)) piece true) ≫= fun b =>
  modifyS (with_torrent (fun t =>
    with_pieces (peer_pieces t) (clear_piece piece (peer_pieces_diff t)) (with_bitfield b t)))
    ≫= fun _ =>
  tell (Broadcast (HavePiece piece)) ≫= fun _ =>
  if negb (bv_len b <=? count_ones b)%N && negb (bool_decide (status (torrent w) = Seeding))
  then mret tt
  else
    modifyS (with_torrent (with_status Seeding)) ≫= fun _ =>
    tell (ToTrackers Completed) ≫= fun _ =>
    tell (ToDisk (FinishedDownload (t_info_hash (torrent w)))) ≫= fun _ =>
    tell (Broadcast Seedonly) ≫= fun _ =>
    modifyS (with_torrent (with_pieces ∅ ∅)).

(** ** Heartbeat *)

Definition update_peer (p : PeerCtx) (f : Counter → outcome Error Counter) : tact unit :=
  getS ≫= fun w =>
  let s := shared (peers w) p in
  lift (f (pc_counter s)) ≫= fun c =>
  modifyS (with_peers (fun m => <[pc_ref p := {|
    am_choking := am_choking s; am_interested := am_interested s;
    peer_choking := peer_choking s; peer_interested := peer_interested s;
    pc_counter := c; block_infos_len := block_infos_len s |}]> m)).

(** One more, in a [u8]. *)
Definition count_u8 {A} (f : A → bool) (l : list A) : outcome Error N :=
  foldl (fun acc x => a ← acc; if f x then arith u8_max (Z.of_N a + 1) else Ok a) (Ok 0%N) l.

(** [impl From<&Torrent<Connected, M>> for TorrentState] *)
Definition state_of (w : World) : outcome Error TorrentState :=
  let t := torrent w in
  let s p := shared (peers w) p in
  from ← count_u8 (fun p =>
    if decide (status t = Seeding) then peer_interested (s p)
    else negb (peer_choking (s p)) && am_interested (s p)) (connected_peers t);
  Ok {| ts_name := name t; ts_stats := stats t; ts_status := status t;
        ts_downloaded := total_downloaded (t_counter t);
        ts_download_rate := download_rate_f64 (t_counter t);
        ts_uploaded := total_uploaded (t_counter t);
        ts_upload_rate := upload_rate_f64 (t_counter t);
        ts_size := disk_size t; ts_info_hash := t_info_hash t;
        ts_bitfield := to_bytes (bitfield t);
        ts_connected_peers := as_u8 (len (connected_peers t));
        ts_downloading_from := from;
        ts_idle_peers := as_u8 (N.of_nat (size (idle_peers t))) |}.

Definition cap_downloaded (s : TorrentState) : TorrentState := {|
  ts_name := ts_name s; ts_stats := ts_stats s; ts_status := ts_status s;
  ts_downloaded := N.min (ts_downloaded s) (ts_size s);
  ts_download_rate := ts_download_rate s; ts_uploaded := ts_uploaded s;
  ts_upload_rate := ts_upload_rate s; ts_size := ts_size s; ts_info_hash := ts_info_hash s;
  ts_bitfield := ts_bitfield s; ts_connected_peers := ts_connected_peers s;
  ts_downloading_from := ts_downloading_from s; ts_idle_peers := ts_idle_peers s |}.

(** [Torrent::heartbeat_interval], at the time [now] *)
Definition heartbeat_interval (now : N) : tact unit :=
  getS ≫= fun w =>
  forM (fun p =>
    getS ≫= fun w =>
    let c := pc_counter (shared (peers w) p) in
    update_peer p (update_rates now) ≫= fun _ =>
    modifyS (with_torrent (fun t => with_counter
      (record_download (window_downloaded c) (record_upload (window_uploaded c) (t_counter t))) t)))
    (connected_peers (torrent w)) ≫= fun _ =>
  getS ≫= fun w =>
  lift (update_rates now (t_counter (torrent w))) ≫= fun c =>
  modifyS (with_torrent (with_counter c)) ≫= fun _ =>
  getS ≫= fun w =>
  lift (state_of w) ≫= fun s =>
  tell (ToDaemon (cap_downloaded s)).

(** ** Metadata *)

(** [map.entry(index).or_default().extend(bytes)], the map in order *)
Fixpoint extend_entry (index : N) (bytes : list N) (l : list (N * list N)) : list (N * list N) :=
  match l with
  | [] => [(index, bytes)]
  | (i, b) :: l' =>
      if (index <? i)%N then (index, bytes) :: l
      else if (index =? i)%N then (i, b ++ bytes) :: l'
      else (i, b) :: extend_entry index bytes l'
  end.
Fixpoint insert_entry (index : N) (bytes : list N) (l : list (N * list N)) : list (N * list N) :=
  match l with
  | [] => [(index, bytes)]
  | (i, b) :: l' =>
      if (index <? i)%N then (index, bytes) :: l
      else if (index =? i)%N then (i, bytes) :: l'
      else (i, b) :: insert_entry index bytes l'
  end.
Fixpoint get_entry (index : N) (l : list (N * list N)) : option (list N) :=
  match l with
  | [] => None
  | (i, b) :: l => if (index =? i)%N then Some b else get_entry index l
  end.

(** What [Torrent<Connected, FromMetaInfo>] serves: the encoded info cut in
    pieces by the size the metainfo was read with. *)
Definition serve_info_pieces (info_bytes : list N) (info_size : N)
    : outcome Error (list (N * list N)) :=
  mapM_outcome (fun p =>
    start ← umul p BLOCK_LEN;
    e ← uadd start BLOCK_LEN;
    b ← slice info_bytes start (N.min e info_size);
    Ok (p, b)) (range (div_ceil info_size BLOCK_LEN)).

(** [Torrent<Connected, FromMagnet>::downloaded_info_piece]; [from_bencode]
    decodes an [Info], [xt] is the hash of the magnet link *)
Definition downloaded_info_piece (from_bencode : list N → outcome Error Info) (xt : InfoHash)
    (trackers : list (list N)) (total index : N) (bytes : list N) : tact unit :=
  modifyS (with_torrent (fun t =>
    with_info_pieces (extend_entry index bytes (t_info_pieces t)) t)) ≫= fun _ =>
  getS ≫= fun w =>
  let pieces_l := t_info_pieces (torrent w) in
  if (foldl (fun acc e => acc + len e.2) 0 pieces_l <? total)%N then mret tt
  else
    lift (from_bencode (concat (snd <$> pieces_l))) ≫= fun info =>
    if decide (xt = info_hash info) then
      modifyS (with_torrent (with_bitfield (from_elem_general (pieces info) false))) ≫= fun _ =>
      let meta := {| announce := []; announce_list := Some [trackers]; comment := None;
                     creation_date := None; mi_info := info; http_seeds := None |} in
      tell (ToSelf meta) ≫= fun _ =>
      tell (ToDisk (AddTorrent meta)) ≫= fun _ =>
      modifyS (with_torrent (with_status Downloading)) ≫= fun _ =>
      tell (Broadcast HaveInfo)
    else
      modifyS (with_torrent (with_info_pieces [])) ≫= fun _ =>
      lift (Err PieceInvalid).

(** ** Messages *)

Inductive TorrentMsg :=
  | MPromote (meta : MetaInfo)
  | MEndgame
  | MBroadcastBlockInfos (p : PeerCtx) (l : list BlockInfo)
  | MRequest (p : PeerCtx) (qnt : N)
  | MUnchokeAlgorithm
  | MSetTorrentError (code : TorrentStatusErrorCode)
  | MOptUnchokeAlgorithm
  | MGetUnchokedPeers
  | MGetPeer (id : PeerId)
  | MDownloadedPiece (p : N)
  | MCorruptedPiece (p : N)
  | MAddIdlePeers (l : gset SocketAddr)
  | MGetTorrentStatus
  | MHaveInfo
  | MDownloadedInfoPiece (total index : N) (bytes : list N)
  | MReadBitfield
  | MPeerConnected (p : PeerCtx)
  | MPeerError (a : SocketAddr)
  | MSetPeerBitfield (id : PeerId) (b : bitvec)
  | MPeerHasPieceNotInLocal (id : PeerId)
  | MPeerHave (id : PeerId) (p : N)
  | MRequestInfoPiece (i : N)
  | MTogglePause
  | MQuit
  | MCancel (p : PeerCtx) (b : BlockInfo).

(** Whether the loop goes on, ends, or hands over to a promoted torrent. *)
Inductive flow := Continue | Return | Promoted (meta : MetaInfo).

Definition others (p : PeerCtx) (l : list PeerCtx) : list PeerCtx :=
  filter (fun q => pc_id q ≠ pc_id p) l.

Definition go (m : tact unit) : tact flow := m ≫= fun _ => mret Continue.

(** The messages both kinds of torrent answer in the same way. *)
Definition handle_common (m : TorrentMsg) : tact flow :=
  getS ≫= fun w =>
  let t := torrent w in
  match m with
  | MSetTorrentError code => go (modifyS (with_torrent (with_status (StatusError code))))
  | MGetPeer id => go (tell (Answer (RPeer (get_peer id t))))
  | MAddIdlePeers l => go (modifyS (with_torrent (fun t => with_idle (idle_peers t ∪ l) t)))
  | MGetTorrentStatus => go (tell (Answer (RStatus (status t))))
  | MPeerHave id p => go (peer_have id p)
  | MReadBitfield => go (tell (Answer (RBitfield (bitfield t))))
  | MPeerError a => go (peer_error a)
  | MPeerConnected p => go (peer_connected p)
  | MRequestInfoPiece i => go (tell (Answer (RInfoPiece (get_entry i (t_info_pieces t)))))
  | MTogglePause => go toggle_pause
  | MQuit => quit ≫= fun _ => mret Return
  | _ => mret Continue
  end.

(** [Torrent<Connected, FromMetaInfo>::inner_run]: one message.  A request to the
    disk carries the context of the peer, here what it holds when the torrent
    sends it; the disk may read another number ([System.reads_len]). *)
Definition handle_metainfo (pick : nat → nat) (info : Info) (m : TorrentMsg) : tact flow :=
  getS ≫= fun w =>
  let t := torrent w in
  match m with
  | MPromote _ | MDownloadedInfoPiece _ _ _ => mret Continue
  | MSetPeerBitfield id b =>
      let b := fit (bv_len (bitfield t)) b in
      lift (debug_assert (bv_len (bitfield t) <=? bv_len b)%N) ≫= fun _ =>
      modifyS (with_torrent (fun t =>
        with_pieces (<[id := b]> (peer_pieces t)) (peer_pieces_diff t) t)) ≫= fun _ =>
      go (catch tt (gen_missing_pieces id))
  | MRequest p qnt =>
      lift (umul qnt BLOCK_LEN) ≫= fun total_bytes =>
      lift (udiv_ceil total_bytes (info_piece_length info)) ≫= fun pieces_wanted =>
      if_ok (get_want_pieces (pc_id p) pieces_wanted)
        (fun l => getS ≫= fun w =>
          lift (ok_or PeerDoesNotExist (peer_pieces (torrent w) !! pc_id p)) ≫= fun b =>
          go (tell (ToDisk (RequestBlocks (t_info_hash t)
            (block_infos_len (shared (peers w) p)) l b))))
        (go (tell (Answer (RBlocks []))))
  | MBroadcastBlockInfos p l =>
      go (forM (fun q => tell (ToPeer q (PmBlocks l))) (others p (connected_peers t)))
  | MEndgame => go (forM (fun q => tell (ToPeer q PmEndgame)) (connected_peers t))
  | MCancel p b => go (forM (fun q => tell (ToPeer q (PmCancel b))) (others p (connected_peers t)))
  | MGetUnchokedPeers => go (tell (Answer (RPeers (unchoked_peers t))))
  | MUnchokeAlgorithm => go unchoke
  | MOptUnchokeAlgorithm => go (optimistic_unchoke pick)
  | MPeerHasPieceNotInLocal id => go (tell (Answer (RPiece (peer_has_piece_not_in_local id t))))
  | MHaveInfo => go (tell (Answer (RBool true)))
  | MDownloadedPiece p => go (downloaded_piece p)
  | MCorruptedPiece p =>
      lift (or_panic (bv_set (peer_pieces_req t) p false)) ≫= fun req =>
      modifyS (with_torrent (with_req req)) ≫= fun _ =>
      go (forM (fun q => tell (ToPeer q (PmCorruptedPiece p (disk_size t)
        (info_piece_length info)))) (connected_peers t))
  | _ => handle_common m
  end.

(** [Torrent<Connected, FromMagnet>::inner_run]: one message *)
Definition handle_magnet (from_bencode : list N → outcome Error Info) (xt : InfoHash)
    (trackers : list (list N)) (m : TorrentMsg) : tact flow :=
  match m with
  | MEndgame | MCancel _ _ | MDownloadedPiece _ | MRequest _ _ | MUnchokeAlgorithm
  | MGetUnchokedPeers | MOptUnchokeAlgorithm | MPeerHasPieceNotInLocal _
  | MBroadcastBlockInfos _ _ | MCorruptedPiece _ => mret Continue
  | MPromote meta =>
      modifyS (with_torrent (with_metadata_size (metadata_size (mi_info meta)))) ≫= fun _ =>
      mret (Promoted meta)
  | MHaveInfo => go (tell (Answer (RBool false)))
  | MSetPeerBitfield id b =>
      modifyS (with_torrent (fun t =>
        with_pieces (<[id := b]> (peer_pieces t)) (peer_pieces_diff t) t)) ≫= fun _ =>
      go (catch tt (gen_missing_pieces id))
  | MDownloadedInfoPiece total index bytes =>
      go (downloaded_info_piece from_bencode xt trackers total index bytes)
  | _ => handle_common m
  end.

(** The beginning of [inner_run] for a metainfo: the status, and the pieces of
    the metadata to serve. *)
Definition start_metainfo (info_bytes : list N) (info_size : N) : tact unit :=
  modifyS (with_torrent (fun t =>
    match status t with
    | StatusError _ => t
    | _ => with_status (if (bv_len (bitfield t) <=? count_ones (bitfield t))%N
                        then Seeding else Downloading) t
    end)) ≫= fun _ =>
  lift (serve_info_pieces info_bytes info_size) ≫= fun ps =>
  modifyS (with_torrent (fun t => with_info_pieces
    (foldl (fun m pb => insert_entry pb.1 pb.2 m) (t_info_pieces t) ps) t)).

(** The beginning of [inner_run] for a magnet link; the connections it attempts
    are those of [spawn_outbound_peers]. *)
Definition start_magnet : tact unit :=
  modifyS (with_torrent (with_status DownloadingMetainfo)).

(** A torrent as [Torrent<Idle, M>::start] connects it. *)
Definition connected_torrent (nm : list N) (b : bitvec) (size : N) (c : Counter) (h : InfoHash)
    (meta_size : N) (st : Stats) (idle : gset SocketAddr) : Torrent := {|
  name := nm; status := ConnectingTrackers; bitfield := b; stats := st; t_info_pieces := [];
  idle_peers := idle; error_peers := []; connected_peers := []; unchoked_peers := [];
  opt_unchoked_peer := None; peer_pieces := ∅; peer_pieces_diff := ∅;
  peer_pieces_req := from_elem_general (bv_len b) false; disk_size := size; t_counter := c;
  t_info_hash := h; t_metadata_size := meta_size |}.

(** [Torrent::new_metainfo], started *)
Definition new_metainfo (now : N) (meta : MetaInfo) (b : bitvec) (st : Stats)
    (idle : gset SocketAddr) : outcome Error Torrent :=
  let info := mi_info meta in
  size ← get_torrent_size info;
  downloaded ← downloaded_bytes info b;
  Ok (connected_torrent (info_name info) b size (from_total_download now downloaded)
    (info_hash info) (metadata_size info) st idle).

(** [Torrent::new_magnet], started; [size], [xt] and [dn] come from the link *)
Definition new_magnet (now : N) (size : option N) (xt : InfoHash) (dn : list N) (st : Stats)
    (idle : gset SocketAddr) : Torrent :=
  connected_torrent dn empty_bits (default u64_max size) (Counter_default now) xt 0 st idle.
End Torrent.
