(* ===== verification/TorrentChoke.v ===== *)
(** Who gets unchoked: the single pass that keeps the three best peers, against
    its specification. *)
From stdpp Require Import sorting.
From S2P Require Import Prelude Errors Bits Core Bencode Metainfo Disk Floats Counter Torrent.

Section choke.
Context `{Build, BV : BitVecApi} (is_asc : bool).
Implicit Types (e x y : N * N) (l : list (N * N)).

(** [x] may stand before [y] in the order asked for. *)
Definition at_least x y : Prop := before is_asc y.1 x.1 = false.

Lemma at_least_trans x y z : at_least x y → at_least y z → at_least x z.
Proof.
  unfold at_least, before. destruct is_asc; rewrite !N.ltb_ge; lia.
Qed.
Lemma at_least_before x y : before is_asc x.1 y.1 = true → at_least x y.
Proof. unfold at_least, before. destruct is_asc; rewrite N.ltb_lt, N.ltb_ge; lia. Qed.
Lemma at_least_refl x : at_least x x.
Proof. unfold at_least, before. destruct is_asc; rewrite N.ltb_ge; lia. Qed.

(** Bubbling an entry up: it passes exactly the entries it comes before. *)
Lemma bubble_spec l1 x l2 :
  ∃ p s, l1 = p ++ s ∧ bubble is_asc (length l1) (l1 ++ x :: l2) = p ++ x :: s ++ l2 ∧
    Forall (fun y => before is_asc x.1 y.1 = true) s ∧
    (∀ y, list.last p = Some y → at_least y x).
Proof.
  revert l2. induction l1 as [|y l1 IH] using rev_ind; intros l2.
  { exists [], []. by repeat split. }
  rewrite length_app, Nat.add_comm. cbn [Nat.add length bubble].
  rewrite <- app_assoc. cbn [app].
  replace ((l1 ++ y :: x :: l2) !! S (length l1)) with (Some x).
  2:{ rewrite lookup_app_r by lia. by replace (S (length l1) - length l1) with 1%nat by lia. }
  rewrite list_lookup_middle by done.
  destruct (before is_asc x.1 y.1) eqn:Hb.
  - replace (<[length l1 := x]> (<[S (length l1) := y]> (l1 ++ y :: x :: l2)))
      with (l1 ++ x :: y :: l2).
    2:{ rewrite !insert_app_r_alt by lia. rewrite Nat.sub_diag.
        by replace (S (length l1) - length l1) with 1%nat by lia. }
    destruct (IH (y :: l2)) as (p & s & -> & Hbub & Hs & Hp).
    exists p, (s ++ [y]). split; [by rewrite app_assoc|]. split; [|split; [|done]].
    + rewrite Hbub, <- app_assoc. done.
    + apply Forall_app. split; [done|]. by repeat constructor.
  - exists (l1 ++ [y]), []. split; [by rewrite app_nil_r|]. split; [by rewrite <- app_assoc|].
    split; [constructor|]. intros z. rewrite last_snoc. by intros [= <-].
Qed.

Lemma sorted_insert p s x :
  StronglySorted at_least (p ++ s) → Forall (fun y => before is_asc x.1 y.1 = true) s →
  (∀ y, list.last p = Some y → at_least y x) → StronglySorted at_least (p ++ x :: s).
Proof.
  intros Hps Hs Hp. induction p as [|a p IH]; simpl in *.
  - constructor; [done|]. eapply Forall_impl; [exact Hs|]. apply at_least_before.
  - inversion_clear Hps as [|?? Hps' Ha]. apply Forall_app in Ha as [Hap Has].
    assert (Hax : at_least a x).
    { destruct p as [|b p _] using rev_ind; [by apply Hp|].
      apply Forall_app in Hap as [_ Hb]. inversion_clear Hb.
      eapply at_least_trans; [done|]. apply Hp. rewrite app_comm_cons. by rewrite last_snoc. }
    constructor.
    + apply IH; [done|]. intros y Hy. apply Hp. destruct p; [done|exact Hy].
    + apply Forall_app. split; [done|]. by constructor.
Qed.

(** What the pass has kept of the entries [xs] seen so far. *)
Definition kept_of (n : nat) (xs : list (N * N)) (st : list (N * N) * nat) : Prop :=
  ∃ kept rest, st = (kept ++ replicate (3 - length kept) (0, 0)%N, length kept) ∧
    xs ≡ₚ kept ++ rest ∧ StronglySorted at_least kept ∧
    (∀ a b, a ∈ kept → b ∈ rest → at_least a b) ∧ length kept = Nat.min n (length xs).

Lemma sort_step_spec n xs st e :
  (1 <= n <= 3)%nat → kept_of n xs st → kept_of n (xs ++ [e]) (sort_step is_asc n st e).
Proof.
  intros Hn (kept & rest & -> & Hperm & Hsort & Hle & Hlen).
  pose proof (Permutation_length Hperm) as Hpl. rewrite length_app in Hpl.
  unfold sort_step. destruct (Nat.ltb_spec (length kept) n) as [Hlt|Hge].
  - assert (rest = []) as -> by (apply nil_length_inv; lia). rewrite app_nil_r in Hperm.
    replace (<[length kept := e]> (kept ++ replicate (3 - length kept) (0, 0)%N))
      with (kept ++ e :: replicate (2 - length kept) (0, 0)%N).
    2:{ rewrite insert_app_r_alt, Nat.sub_diag by lia.
        by replace (3 - length kept) with (S (2 - length kept)) by lia. }
    destruct (bubble_spec kept e (replicate (2 - length kept) (0, 0)%N)) as (p & s & Hk & -> & Hs & Hp).
    exists (p ++ e :: s), []. subst kept. rewrite !length_app in *. cbn [length] in *. split.
    { rewrite <- app_assoc. cbn [app]. f_equal; [|lia]. do 4 f_equal. lia. }
    split; [|split; [by apply sorted_insert|split; [set_solver|lia]]].
    rewrite app_nil_r, Hperm, <- app_assoc. apply Permutation_app_head.
    by rewrite Permutation_app_comm.
  - destruct kept as [|w k0 _] using rev_ind; [simpl in *; lia|].
    rewrite length_app in *. cbn [length] in *.
    assert (Hn1 : n = S (length k0)) by lia. rewrite Hn1.
    replace (S (length k0) - 1) with (length k0) by lia.
    rewrite <- app_assoc. cbn [app]. rewrite list_lookup_middle by done.
    destruct (before is_asc e.1 w.1) eqn:Hb.
    + rewrite insert_app_r_alt, Nat.sub_diag by lia. cbn [insert list_insert].
      destruct (bubble_spec k0 e (replicate (3 - (length k0 + 1)) (0, 0)%N))
        as (p & s & Hk & -> & Hs & Hp).
      exists (p ++ e :: s), (w :: rest). subst k0. rewrite !length_app in *. cbn [length] in *.
      apply StronglySorted_app in Hsort as (Hc & Hsort & _).
      split.
      { rewrite <- app_assoc. cbn [app]. f_equal; [|lia]. do 4 f_equal. lia. }
      split.
      { etrans; [apply Permutation_app_comm|]. rewrite Hperm, <- !app_assoc. cbn [app].
        apply Permutation_middle. }
      split; [by apply sorted_insert|]. split; [|lia].
      assert (Hwle : ∀ a, a ∈ p ++ e :: s → at_least a w).
      { intros a Ha. destruct (decide (a = e)) as [->|Hae]; [by apply at_least_before|].
        apply Hc; set_solver. }
      intros a b Ha Hb'. apply elem_of_cons in Hb' as [->|Hb']; [by apply Hwle|].
      eapply at_least_trans; [by apply Hwle|]. apply Hle; set_solver.
    + exists (k0 ++ [w]), (e :: rest). rewrite !length_app. cbn [length]. split.
      { rewrite <- app_assoc. done. }
      split; [rewrite Hperm, <- app_assoc; apply Permutation_app_head; by rewrite Permutation_app_comm|].
      split; [done|]. split; [|lia].
      intros a b Ha Hb'. apply elem_of_cons in Hb' as [->|Hb']; [|by apply Hle].
      apply StronglySorted_app in Hsort as (Hc & _ & _).
      apply elem_of_app in Ha as [Ha|Ha%list_elem_of_singleton].
      * eapply at_least_trans; [|exact Hb]. apply Hc; set_solver.
      * by subst a.
Qed.

Lemma sort_pass_spec n xs :
  (1 <= n <= 3)%nat → kept_of n xs (foldl (sort_step is_asc n) (replicate 3 (0, 0)%N, O) xs).
Proof.
  intros Hn. induction xs as [|e xs IH] using rev_ind.
  - exists [], []. split; [done|]. split; [done|]. split; [constructor|].
    split; [set_solver|]. simpl. lia.
  - rewrite foldl_app. simpl. by apply sort_step_spec.
Qed.
End choke.

Section best.
Context `{Build, BV : BitVecApi}.

(** The peers of [choose] name, where an index leads out of the list nothing. *)
Definition peers_at (ps : list PeerCtx) (l : list (N * N)) : list PeerCtx :=
  omap (fun e : N * N => ps !! N.to_nat e.2) l.

Lemma rated_index m skip ps e :
  e ∈ rated m skip ps → is_Some (ps !! N.to_nat e.2).
Proof.
  unfold rated. intros ([i p] & -> & [_ Hip]%list_elem_of_filter)%list_elem_of_fmap. simpl.
  apply elem_of_zip_l, elem_of_range in Hip. apply lookup_lt_is_Some_2. unfold len in Hip. lia.
Qed.

Lemma peers_at_ok ps l :
  (∀ e, e ∈ l → is_Some (ps !! N.to_nat e.2)) →
  mapM_outcome (fun e : N * N => @index Error _ ps e.2) l = Ok (peers_at ps l).
Proof.
  induction l as [|e l IH]; intros Hl; [done|].
  change (mapM_outcome _ (e :: l)) with
    (y ← @index Error _ ps e.2;
     ys ← mapM_outcome (fun e : N * N => @index Error _ ps e.2) l; Ok (y :: ys)).
  destruct (Hl e) as [p Hp]; [left|].
  assert (Hi : @index Error _ ps e.2 = Ok p) by (unfold index; by rewrite Hp).
  rewrite Hi. cbn [mbind outcome_bind].
  rewrite IH by (intros; apply Hl; by right). unfold peers_at. cbn [omap list_omap]. by rewrite Hp.
Qed.

(** C14. The unchoke candidates: the pass over the connected peers returns the
    peers of the best rates among those that take part, best first, at most
    three, and none that was left out has a better rate; but the answer always
    has as many entries as there are peers (up to three), and when fewer take
    part the missing ones are filled with copies of the first connected peer,
    whether it is interested or not. *)
Theorem torrent_best_peers skip is_asc w p0 ps :
  connected_peers (torrent w) = p0 :: ps →
  let all := p0 :: ps in
  let cands := rated (peers w) skip all in
  let n := Nat.min (length all) 3 in
  ∃ chosen rest,
    sort_peers_by_rate skip is_asc w =
      Ok (peers_at all chosen ++ replicate (n - length chosen) p0) ∧
    cands ≡ₚ chosen ++ rest ∧ StronglySorted (at_least is_asc) chosen ∧
    (∀ x y, x ∈ chosen → y ∈ rest → at_least is_asc x y) ∧
    length chosen = Nat.min n (length cands).
Proof.
  intros Hps all cands n. unfold sort_peers_by_rate. rewrite Hps. fold all cands n.
  destruct (sort_pass_spec is_asc n cands) as (kept & rest & -> & Hperm & Hs & Hle & Hlen).
  { subst n all. cbn [length]. lia. }
  exists kept, rest. split; [|done]. cbn [fst].
  assert (Hn : (length kept <= n <= 3)%nat) by lia.
  rewrite take_app, take_ge, take_replicate by lia.
  replace (Nat.min (n - length kept) (3 - length kept)) with (n - length kept) by lia.
  rewrite peers_at_ok.
  - f_equal. unfold peers_at. rewrite omap_app. f_equal.
    generalize (n - length kept). intros k. induction k as [|k IH]; [done|]. simpl. by f_equal.
  - intros e [He|He]%elem_of_app.
    + apply (rated_index (peers w) skip). fold all cands. rewrite Hperm. set_solver.
    + apply elem_of_replicate in He as [-> _]. by exists p0.
Qed.
End best.

(** Two peers of which one is interested. *)
Section witness.
#[local] Existing Instances dev list_bits.
Definition ex_ctx (n : N) : PeerCtx := {| pc_ref := n; pc_id := [n]; pc_addr := n |}.
Definition ex_choke_world : World := {|
  torrent := with_lists ∅ [] [ex_ctx 1; ex_ctx 2] [] None
    (connected_torrent [] [] 0 (Counter_default 0) [] 0
      {| interval := 0; leechers := 0; seeders := 0 |} ∅);
  peers := {[ 2%N := {| am_choking := true; am_interested := false; peer_choking := true;
                      peer_interested := true; pc_counter := Counter_default 0;
                      block_infos_len := 0 |} ]};
  connected_count := 2; max_global_peers := 5; max_torrent_peers := 3; out := [] |}.

Lemma torrent_best_peers_witness :
  get_best_interested_downloaders ex_choke_world = Ok [ex_ctx 2; ex_ctx 1] ∧
  ∃ chosen rest, sort_peers_by_rate true false ex_choke_world =
      Ok (peers_at [ex_ctx 1; ex_ctx 2] chosen ++ replicate (2 - length chosen) (ex_ctx 1)) ∧
    rated (peers ex_choke_world) true [ex_ctx 1; ex_ctx 2] ≡ₚ chosen ++ rest.
Proof.
  split; [vm_compute; reflexivity|].
  destruct (torrent_best_peers true false ex_choke_world (ex_ctx 1) [ex_ctx 2] eq_refl)
    as (chosen & rest & Hs & Hp & _).
  by exists chosen, rest.
Defined.
End witness.
