(* ===== verification/TorrentFacts.v ===== *)
(** What a torrent keeps true of the pieces of its peers, and which pieces it
    asks for. *)
From stdpp Require Import sorting.
From S2P Require Import Prelude Errors Bits Core Bencode Metainfo Disk Floats Counter Torrent.

Section want.
Context `{Build, BV : BitVecApi}.
Implicit Types (req diff v : bitvec) (l : list bool).

(** Whether a bit is set; bits past the end are not. *)
Definition has v (i : N) : bool := default false (bits v !! N.to_nat i).

Lemma has_grow v v' n i : bits v' = bits v ++ replicate n false → has v' i = has v i.
Proof.
  unfold has. intros ->. rewrite lookup_app.
  destruct (bits v !! N.to_nat i) as [b|]; [done|].
  destruct (replicate n false !! _) as [b|] eqn:Hb; [|done].
  by apply lookup_replicate in Hb as [-> _].
Qed.

Lemma safe_grow_has v v' k i : @safe_grow _ _ Error v k = Ok v' → has v' i = has v i.
Proof.
  unfold safe_grow. destruct (bv_len v <=? k)%N; [|by intros [= ->]].
  destruct (uadd k 1) as [m| |]; try done. cbn [mbind outcome_bind].
  destruct (usub m (bv_len v)) as [n| |]; try done. cbn [mbind outcome_bind].
  intros [= <-]. eapply has_grow, bits_grow.
Qed.

Lemma safe_get_has v v' k b :
  @safe_get _ _ Error v k = Ok (b, v') → b = has v k ∧ (k < len (bits v'))%N ∧ ∀ i, has v' i = has v i.
Proof.
  unfold safe_get. destruct (safe_grow v k) as [v1| |] eqn:Hg; try done.
  cbn [mbind outcome_bind]. destruct (bv_get v1 k) as [b1|] eqn:Hb; [|done].
  intros [= <- <-]. split; [|split; [|intros i; by eapply safe_grow_has]].
  2:{ unfold bv_get in Hb. apply lookup_lt_Some in Hb. unfold len. lia. }
  erewrite <- safe_grow_has by exact Hg. unfold has, bv_get in *. by rewrite Hb.
Qed.

Lemma safe_get_no_err v k e : @safe_get _ _ Error v k ≠ Err e.
Proof.
  unfold safe_get, safe_grow, uadd, usub. intros Hg.
  destruct (bv_len v <=? k)%N; [destruct (arith _ (Z.of_N k + _)) eqn:H1|];
    cbn [mbind outcome_bind] in Hg; [|injection Hg as ->; by apply arith_no_err in H1|done|by destruct (bv_get v k)].
  destruct (arith _ (Z.of_N a - _)) eqn:H2; cbn [mbind outcome_bind] in Hg;
    [|injection Hg as ->; by apply arith_no_err in H2|done]. by destruct (bv_get _ k).
Qed.

Lemma bv_set_has v v' k x i :
  bv_set v k x = Some v' → has v' i = if decide (i = k) then x else has v i.
Proof.
  intros Hs. pose proof (bits_set v k x) as Hb. rewrite Hs in Hb. simpl in Hb.
  case_decide as Hk; [|done]. injection Hb as Hb. unfold has. rewrite Hb. case_decide as Hi.
  - subst i. rewrite list_lookup_insert_eq by (unfold len in Hk; lia). done.
  - rewrite list_lookup_insert_ne by lia. done.
Qed.

Lemma safe_set_has v v' k x i :
  @safe_set _ _ Error v k x = Ok v' → has v' i = if decide (i = k) then x else has v i.
Proof.
  unfold safe_set. destruct (safe_grow v k) as [v1| |] eqn:Hg; try done.
  cbn [mbind outcome_bind]. destruct (bv_set v1 k x) as [v2|] eqn:Hs; [|done].
  intros [= <-]. rewrite (bv_set_has _ _ _ _ _ Hs). by rewrite (safe_grow_has _ _ _ _ Hg).
Qed.

Lemma has_fit n v i : has (fit n v) i = has v i && (i <? n)%N.
Proof.
  unfold fit, has. rewrite bits_truncate. destruct (N.ltb_spec i n) as [Hi|Hi].
  - rewrite lookup_take_lt by lia. rewrite andb_true_r.
    change (has (bv_grow v (n - bv_len v) false) i = has v i). eapply has_grow, bits_grow.
  - rewrite lookup_take_ge by lia. by rewrite andb_false_r.
Qed.

Lemma bv_len_fit n v : bv_len (fit n v) = n.
Proof.
  unfold fit, bv_len. rewrite bits_truncate, bits_grow. unfold len.
  rewrite length_take, length_app, length_replicate. unfold bv_len, len. lia.
Qed.

Lemma has_and_negate v w r i :
  bv_and v (bv_negate w) = Some r → has r i = has v i && negb (has w i) .
Proof.
  intros Ha. pose proof (bits_and v (bv_negate w)) as Hb. rewrite Ha, bits_negate in Hb.
  simpl in Hb. case_decide as Hl; [|done]. injection Hb as Hb. unfold has. rewrite Hb.
  rewrite lookup_zip_with, list_lookup_fmap. unfold len in Hl. rewrite length_fmap in Hl.
  destruct (bits v !! N.to_nat i) as [x|] eqn:Hx; [|done].
  destruct (lookup_lt_is_Some_2 (bits w) (N.to_nat i)) as [y Hy].
  { apply lookup_lt_Some in Hx. lia. }
  by rewrite Hy.
Qed.

(** What one search has to do with the pieces of [l], numbered from [p] on. *)
Record wants (wanted p : N) l req (acc new : list N) req' : Prop := {
  wants_sorted : StronglySorted N.lt new;
  wants_new i : i ∈ new → (p <= i)%N ∧ l !! N.to_nat (i - p) = Some true ∧ has req i = false;
  wants_req i : has req' i = has req i || bool_decide (i ∈ new);
  wants_most : (len acc < wanted)%N → (len (acc ++ new) <= wanted)%N;
  wants_all : len (acc ++ new) ≠ wanted ∨ new = [] →
    ∀ j, l !! j = Some true → has req' (p + N.of_nat j) = true;
}.

Lemma wants_skip wanted p b l req req1 acc new req' :
  (∀ i, has req1 i = has req i) → (b = true → has req p = true) →
  wants wanted (p + 1) l req1 acc new req' → wants wanted p (b :: l) req acc new req'.
Proof.
  intros Hr Hb [Hs Hn Hq Hm Ha]. constructor; [done| | |done|].
  - intros i Hi. destruct (Hn i Hi) as (Hp & Hl & Hh). rewrite <- Hr. split; [lia|].
    split; [|done]. by replace (N.to_nat (i - p)) with (S (N.to_nat (i - (p + 1)))) by lia.
  - intros i. by rewrite Hq, Hr.
  - intros Hc [|j] Hj; simpl in Hj.
    + injection Hj as ->. rewrite N.add_0_r, Hq, Hr, Hb by done. done.
    + replace (p + N.of_nat (S j))%N with (p + 1 + N.of_nat j)%N by lia. auto.
Qed.

Lemma wants_take wanted p l req req1 acc new req' :
  (∀ i, has req1 i = if decide (i = p) then true else has req i) → has req p = false →
  (∀ i, i ∈ new → (p < i)%N) → (len (acc ++ [p]) = wanted → new = [] ∧ req' = req1) →
  (len (acc ++ [p]) ≠ wanted → wants wanted (p + 1) l req1 (acc ++ [p]) new req') →
  wants wanted p (true :: l) req acc (p :: new) req'.
Proof.
  intros Hr Hp Hgt Hstop Hgo.
  assert (Happ : len (acc ++ p :: new) = len ((acc ++ [p]) ++ new)) by (by rewrite <- app_assoc).
  destruct (decide (len (acc ++ [p]) = wanted)) as [Hw|Hw].
  { destruct (Hstop Hw) as [-> ->]. constructor.
    - repeat constructor.
    - intros i ->%list_elem_of_singleton. rewrite N.sub_diag. split; [lia|done].
    - intros i. rewrite Hr. case_decide as Hi.
      + subst. rewrite bool_decide_true by set_solver. by rewrite orb_true_r.
      + rewrite bool_decide_false by set_solver. by rewrite orb_false_r.
    - intros _. rewrite Hw. done.
    - intros [Hc|Hc]; [by rewrite Hw in Hc|done]. }
  destruct (Hgo Hw) as [Hs Hn Hq Hm Ha]. constructor.
  - constructor; [done|]. apply Forall_forall. intros i Hi. by apply Hgt.
  - intros i [->|Hi]%elem_of_cons; [rewrite N.sub_diag; split; [lia|done]|].
    destruct (Hn i Hi) as (Hpi & Hl & Hh). rewrite Hr in Hh. rewrite decide_False in Hh by lia.
    split; [lia|]. split; [|done].
    by replace (N.to_nat (i - p)) with (S (N.to_nat (i - (p + 1)))) by lia.
  - intros i. rewrite Hq, Hr. case_decide as Hi.
    + subst. rewrite (bool_decide_true (p ∈ p :: new)) by left. by rewrite orb_true_r.
    + f_equal. apply bool_decide_ext. set_solver.
  - intros Hlt. rewrite Happ. apply Hm. autorewrite with vcz_len in *. lia.
  - intros Hc [|j] Hj; simpl in Hj.
    + rewrite N.add_0_r, Hq, Hr, decide_True by done. done.
    + replace (p + N.of_nat (S j))%N with (p + 1 + N.of_nat j)%N by lia. apply Ha; [|done].
      destruct Hc as [Hc|Hc]; [|done]. left. by rewrite <- Happ.
Qed.

(** The loop fails only for more pieces than an index can count. *)
Lemma want_loop_spec wanted l : ∀ p req acc,
  match want_loop wanted p l req acc with
  | Ok (r, req') => ∃ new, r = acc ++ new ∧ wants wanted p l req acc new req'
  | Err _ => False
  | Panic => (usize_max < p + len l)%N
  end.
Proof.
  induction l as [|b l IH]; intros p req acc.
  { exists []. rewrite app_nil_r. split; [done|]. constructor;
      [constructor|set_solver| |rewrite app_nil_r; lia|done].
    intros i. by rewrite bool_decide_false, orb_false_r by set_solver. }
  rewrite len_cons. cbn [want_loop].
  assert (Hskip : ∀ req1, (∀ i, has req1 i = has req i) → (b = true → has req p = true) →
    match want_loop wanted (p + 1) l req1 acc with
    | Ok (r, req') => ∃ new, r = acc ++ new ∧ wants wanted p (b :: l) req acc new req'
    | Err _ => False
    | Panic => (usize_max < p + (1 + len l))%N
    end).
  { intros req1 Hr Hb. specialize (IH (p + 1)%N req1 acc).
    destruct (want_loop _ _ _ _ _) as [[r req']| |]; [|done|lia].
    destruct IH as (new & -> & Hw). exists new. split; [done|]. by eapply wants_skip. }
  destruct b; [|by apply Hskip].
  destruct (safe_get req p) as [[bit req1]|e|] eqn:Hg; cbn [mbind outcome_bind].
  2:{ by apply safe_get_no_err in Hg. }
  2:{ destruct (decide (p < usize_max)%N) as [Hp|Hp]; [|lia].
      destruct (safe_get_ok (E:=Error) req p Hp) as (? & Heq & _). congruence. }
  apply safe_get_has in Hg as (-> & Hl & Hg).
  destruct (has req p) eqn:Hp; [by apply Hskip|].
  destruct (bv_set req1 p true) as [req2|] eqn:Hs; cbn [or_panic mbind outcome_bind].
  2:{ pose proof (bits_set req1 p true) as Hb. rewrite Hs in Hb. by case_decide. }
  assert (Hr2 : ∀ i, has req2 i = if decide (i = p) then true else has req i).
  { intros i. rewrite (bv_set_has _ _ _ _ _ Hs). by rewrite Hg. }
  destruct (N.eqb_spec (len (acc ++ [p])) wanted) as [Hw|Hw].
  { exists [p]. split; [done|]. eapply wants_take; [done|done|set_solver|done|done]. }
  specialize (IH (p + 1)%N req2 (acc ++ [p])).
  destruct (want_loop _ _ _ _ _) as [[r req']| |]; [|done|lia].
  destruct IH as (new & -> & Hws). exists (p :: new). rewrite <- app_assoc. split; [done|].
  eapply wants_take; [done|done| |done|done].
  intros i Hi. apply (wants_new _ _ _ _ _ _ _ Hws) in Hi. lia.
Qed.
End want.

Section inv.
Context `{Build, BV : BitVecApi}.
Implicit Types (t : Torrent) (w : World) (v : bitvec).

(** The pieces the disk was asked to fetch the blocks of, in order. *)
Definition requested (w : World) : list N :=
  out w ≫= fun o => match o with ToDisk (RequestBlocks _ _ l _) => l | _ => [] end.

(** The pieces kept as missing are pieces the peer has and the client lacks. *)
Definition missing_inv t : Prop := ∀ id d, peer_pieces_diff t !! id = Some d →
  ∃ r, peer_pieces t !! id = Some r ∧
    ∀ i, has d i = true → has r i = true ∧ has (bitfield t) i = false.

(** Steps that leave the pieces alone, and steps that only request nothing. *)
Definition same_pieces w w' : Prop :=
  bitfield (torrent w') = bitfield (torrent w) ∧
  peer_pieces (torrent w') = peer_pieces (torrent w) ∧
  peer_pieces_diff (torrent w') = peer_pieces_diff (torrent w).
Definition same_req w w' : Prop :=
  peer_pieces_req (torrent w') = peer_pieces_req (torrent w) ∧ requested w' = requested w.
Definition quiet w w' : Prop := same_pieces w w' ∧ same_req w w'.
Definition keeps_inv w w' : Prop := missing_inv (torrent w) → missing_inv (torrent w').

#[export] Instance same_req_preorder : PreOrder same_req.
Proof. unfold same_req. split; [done|]. intros ???. naive_solver congruence. Qed.
#[export] Instance quiet_preorder : PreOrder quiet.
Proof. unfold quiet, same_pieces, same_req. split; [done|]. intros ???. naive_solver congruence. Qed.
#[export] Instance keeps_inv_preorder : PreOrder keeps_inv.
Proof. unfold keeps_inv. split; [by intros ?|]. intros ???. auto. Qed.

Lemma quiet_inv w w' : quiet w w' → keeps_inv w w'.
Proof. intros [(H1 & H2 & H3) _]. unfold keeps_inv, missing_inv. by rewrite H1, H2, H3. Qed.
Lemma quiet_req w w' : quiet w w' → same_req w w'.
Proof. by intros []. Qed.

Lemma requested_emit w o :
  match o with ToDisk (RequestBlocks _ _ _ _) => False | _ => True end →
  requested (emit [o] w) = requested w.
Proof.
  intros Ho. unfold requested. cbn [out emit]. rewrite bind_app. cbn.
  destruct o as [| | |m| | |]; rewrite ?app_nil_r; try done.
  destruct m; by rewrite ?app_nil_r.
Qed.
End inv.

(** One update that leaves pieces and requests alone. *)
Ltac upd := first
  [ done
  | split; [done|split; [done|by apply requested_emit]]
  | split; [done|by apply requested_emit]
  | unfold quiet, same_pieces, same_req; simpl; repeat case_match; done ].

Section quiet.
Context `{Build, BV : BitVecApi}.

Lemma tell_quiet o :
  match o with ToDisk (RequestBlocks _ _ _ _) => False | _ => True end →
  keeps quiet (tell o).
Proof. intros Ho. unfold tell. keep upd. Qed.

Lemma peer_connected_quiet p : keeps quiet (peer_connected p).
Proof. unfold peer_connected. keep upd. Qed.
Lemma peer_error_quiet a : keeps quiet (peer_error a).
Proof. unfold peer_error. keep upd. Qed.
Lemma toggle_pause_quiet : keeps quiet toggle_pause.
Proof. unfold toggle_pause, tell. keep upd. Qed.
Lemma quit_quiet : keeps quiet quit.
Proof. unfold quit, tell. keep upd. Qed.
Lemma unchoke_quiet : keeps quiet unchoke.
Proof. unfold unchoke, tell. keep upd. Qed.
Lemma optimistic_unchoke_quiet pick : keeps quiet (optimistic_unchoke pick).
Proof. unfold optimistic_unchoke, set_opt, tell. keep upd. Qed.
Lemma heartbeat_quiet now : keeps quiet (heartbeat_interval now).
Proof. unfold heartbeat_interval, update_peer, tell. keep upd. Qed.
Lemma start_metainfo_quiet b n : keeps quiet (start_metainfo b n).
Proof. unfold start_metainfo. keep upd. Qed.
Lemma start_magnet_quiet : keeps quiet start_magnet.
Proof. unfold start_magnet. keep upd. Qed.
End quiet.

Section handlers.
Context `{Build, BV : BitVecApi}.
Implicit Types (t : Torrent) (w : World).

(** One peer's missing pieces are made anew. *)
Lemma gen_missing_inv id w r w' :
  gen_missing_pieces id w = (r, w') → r ≠ Panic →
  (∀ id', id' ≠ id → ∀ d, peer_pieces_diff (torrent w) !! id' = Some d →
    ∃ r, peer_pieces (torrent w) !! id' = Some r ∧
      ∀ i, has d i = true → has r i = true ∧ has (bitfield (torrent w)) i = false) →
  is_Some (peer_pieces (torrent w) !! id) → missing_inv (torrent w').
Proof.
  intros Hg Hr Hinv [remote Hrem]. unfold gen_missing_pieces in Hg.
  rewrite bind_action in Hg. cbn [getS] in Hg. rewrite Hrem in Hg. cbn [ok_or] in Hg.
  rewrite !bind_action in Hg. cbn [lift] in Hg. unfold debug_assert in Hg.
  destruct (overflow_checks && _); [by injection Hg as <- _|].
  rewrite !bind_action in Hg. cbn [lift] in Hg.
  destruct (bv_and remote _) as [d|] eqn:Ha; cbn [or_panic] in Hg; [|by injection Hg as <- _].
  injection Hg as <- <-. intros id' d' Hd'. cbn in Hd' |- *.
  destruct (decide (id' = id)) as [->|Hne].
  - rewrite lookup_insert_eq in Hd'. injection Hd' as <-. exists remote. split; [done|].
    intros i. rewrite (has_and_negate _ _ _ _ Ha).
    by intros [? ?%negb_true_iff]%andb_true_iff.
  - rewrite lookup_insert_ne in Hd' by done. by apply (Hinv id').
Qed.

Lemma peer_have_inv id p : keeps keeps_inv (peer_have id p).
Proof.
  intros w r w' Hp Hr Hinv. unfold peer_have in Hp.
  rewrite bind_action in Hp. cbn [getS] in Hp. rewrite bind_action in Hp. cbn [lift] in Hp.
  destruct (bv_set _ p true) as [remote|] eqn:Hs; cbn [or_panic] in Hp; [|by injection Hp as <- _].
  rewrite !bind_action in Hp. cbn [lift] in Hp. unfold debug_assert in Hp.
  destruct (overflow_checks && _); [by injection Hp as <- _|].
  rewrite !bind_action in Hp. cbn [lift] in Hp.
  destruct (overflow_checks && _); [by injection Hp as <- _|].
  rewrite bind_action in Hp. cbn [modifyS] in Hp.
  destruct (peer_pieces_diff (torrent w) !! id) as [diff|] eqn:Hd.
  - rewrite bool_decide_false in Hp by done. injection Hp as <- <-.
    intros id' d' Hd'. cbn in Hd' |- *. destruct (decide (id' = id)) as [->|Hne].
    + rewrite lookup_insert_eq in Hd'. injection Hd' as <-.
      rewrite lookup_insert_eq. exists remote. split; [done|].
      destruct (Hinv id diff Hd) as (r0 & Hr0 & Hi). intros i. rewrite has_fit. simpl.
      intros [Hdi Hlt]%andb_true_iff. destruct (Hi i Hdi) as [Hri Hli]. split; [|done].
      rewrite (bv_set_has _ _ _ _ _ Hs). case_decide; [done|].
      rewrite has_fit, Hlt, Hr0. simpl. by rewrite Hri.
    + rewrite lookup_insert_ne in Hd' by done. rewrite lookup_insert_ne by done. by apply Hinv.
  - rewrite bool_decide_true in Hp by done. unfold catch in Hp.
    destruct (gen_missing_pieces id _) as [r1 w1] eqn:Hg.
    assert (w1 = w') as -> by (by destruct r1; injection Hp as _ ->).
    eapply gen_missing_inv; [exact Hg| | |].
    + intros ->. by injection Hp as <-.
    + intros id' Hne d. cbn. rewrite !lookup_insert_ne by done. apply Hinv.
    + cbn. by rewrite lookup_insert_eq.
Qed.

Lemma set_peer_bitfield_inv id b :
  keeps keeps_inv (modifyS (with_torrent (fun t =>
    with_pieces (<[id := b]> (peer_pieces t)) (peer_pieces_diff t) t)) ≫= fun _ =>
    catch tt (gen_missing_pieces id)).
Proof.
  intros w r w' Hp Hr Hinv. rewrite bind_action in Hp. cbn [modifyS] in Hp. unfold catch in Hp.
  destruct (gen_missing_pieces id _) as [r1 w1] eqn:Hg.
  assert (w1 = w') as -> by (by destruct r1; injection Hp as _ ->).
  eapply gen_missing_inv; [exact Hg| | |].
  - intros ->. by injection Hp as <-.
  - intros id' Hne d. cbn. rewrite !lookup_insert_ne by done. apply Hinv.
  - cbn. by rewrite lookup_insert_eq.
Qed.

Lemma clear_piece_has p m id d :
  clear_piece p m !! id = Some d →
  ∃ d0, m !! id = Some d0 ∧ ∀ i, has d i = if decide (i = p) then false else has d0 i.
Proof.
  unfold clear_piece. rewrite lookup_fmap. destruct (m !! id) as [d0|]; [|done].
  intros [= <-]. exists d0. split; [done|]. intros i.
  destruct (safe_set d0 p false) as [v| |] eqn:Hs; [by rewrite (safe_set_has _ _ _ _ _ Hs)| |].
  all: case_decide; [subst|done]; unfold has; rewrite lookup_ge_None_2; [done|].
  all: destruct (decide (p < len (bits d0))%N) as [Hl|Hl]; [|unfold len in Hl; lia].
  all: unfold safe_set, safe_grow, bv_len in Hs; destruct (N.leb_spec (len (bits d0)) p); [lia|].
  all: cbn [mbind outcome_bind] in Hs; destruct (bv_set_some d0 p false Hl) as (? & Hb & _).
  all: by rewrite Hb in Hs.
Qed.

Lemma downloaded_piece_inv p : keeps keeps_inv (downloaded_piece p).
Proof.
  intros w r w' Hp Hr. unfold downloaded_piece in Hp.
  rewrite bind_action in Hp. cbn [getS] in Hp. rewrite bind_action in Hp. cbn [lift] in Hp.
  destruct (safe_set _ p true) as [b| |] eqn:Hs; [|injection Hp as <- <-; by intros ?|by injection Hp as <- _].
  rewrite bind_action in Hp. cbn [modifyS] in Hp.
  match type of Hp with _ ?w1 = _ => assert (keeps_inv w w1) end.
  { intros Hinv id d (d0 & Hd0 & Hd)%clear_piece_has. cbn in *.
    destruct (Hinv id d0 Hd0) as (r0 & Hr0 & Hi). exists r0. split; [done|]. intros i.
    rewrite Hd, (safe_set_has _ _ _ _ _ Hs).
    destruct (decide (i = p)); [by intros [=]|]. apply Hi. }
  etrans; [done|]. clear H0. revert Hp Hr. match goal with |- ?m _ = _ → _ => assert (keeps keeps_inv m) as Hk end.
  { unfold tell. keep idtac; try (apply quiet_inv; upd). all: intros ???; done. }
  intros. by eapply Hk.
Qed.
End handlers.

#[export] Hint Resolve peer_connected_quiet peer_error_quiet toggle_pause_quiet quit_quiet
  unchoke_quiet optimistic_unchoke_quiet heartbeat_quiet start_metainfo_quiet : keeps.
#[export] Hint Resolve peer_have_inv set_peer_bitfield_inv downloaded_piece_inv : keeps.

Section requests.
Context `{Build, BV : BitVecApi}.
Implicit Types (t : Torrent) (w : World).

Lemma quiet_keeps_inv {A} (m : action World Error A) : keeps quiet m → keeps keeps_inv m.
Proof. apply keeps_impl, quiet_inv. Qed.
Lemma quiet_same_req {A} (m : action World Error A) : keeps quiet m → keeps same_req m.
Proof. apply keeps_impl, quiet_req. Qed.
#[local] Hint Resolve quiet_keeps_inv quiet_same_req : keeps.

Lemma gen_missing_req id : keeps same_req (gen_missing_pieces id).
Proof. unfold gen_missing_pieces. keep upd. Qed.
#[local] Hint Resolve gen_missing_req : keeps.
Lemma peer_have_req id p : keeps same_req (peer_have id p).
Proof. unfold peer_have. keep upd. Qed.
Lemma downloaded_piece_req p : keeps same_req (downloaded_piece p).
Proof. unfold downloaded_piece, tell. keep upd. Qed.
Lemma downloaded_info_req f xt tr n i b : keeps same_req (downloaded_info_piece f xt tr n i b).
Proof. unfold downloaded_info_piece, tell. keep upd. Qed.
Lemma downloaded_info_inv f xt tr n i b :
  keeps keeps_inv (downloaded_info_piece f xt tr n i b).
Proof.
  unfold downloaded_info_piece, tell. keep ltac:(try (apply quiet_inv; upd)).
  intros Hinv id d Hd. destruct (Hinv id d Hd) as (r & Hr & Hi). exists r. split; [done|].
  intros j Hj. split; [by apply Hi|]. cbn. unfold has. rewrite bits_from_elem.
  destruct (replicate _ false !! _) eqn:Hb; [|done]. by apply lookup_replicate in Hb as [-> _].
Qed.
#[local] Hint Resolve peer_have_req downloaded_piece_req downloaded_info_req downloaded_info_inv : keeps.

(** What one search does to the state. *)
Lemma get_want_spec id wanted w r w' :
  get_want_pieces id wanted w = (r, w') → r ≠ Panic →
  (r = Err PeerDoesNotExist ∧ w' = w ∧ peer_pieces_diff (torrent w) !! id = None) ∨
  ∃ diff l req, r = Ok l ∧ peer_pieces_diff (torrent w) !! id = Some diff ∧
    w' = with_torrent (with_req req) w ∧
    wants wanted 0 (bits diff) (peer_pieces_req (torrent w)) [] l req.
Proof.
  unfold get_want_pieces. rewrite bind_action. cbn [getS]. rewrite bind_action. cbn [lift].
  destruct (peer_pieces_diff (torrent w) !! id) as [diff|] eqn:Hd; cbn [ok_or].
  2:{ intros [= <- <-] _. by left. }
  pose proof (want_loop_spec wanted (bits diff) 0 (peer_pieces_req (torrent w)) []) as Hw.
  rewrite bind_action. cbn [lift].
  destruct (want_loop _ _ _ _ _) as [[l req]| |]; [|done|by intros [= <- _]].
  destruct Hw as (new & -> & Hw). intros [= <- <-] _. right. by exists diff, new, req.
Qed.

Lemma get_want_inv id wanted : keeps keeps_inv (get_want_pieces id wanted).
Proof.
  intros w r w' Hw Hr. destruct (get_want_spec _ _ _ _ _ Hw Hr) as
    [(_ & -> & _)|(diff & l & req & _ & _ & -> & _)]; by intros ?.
Qed.
#[local] Hint Resolve get_want_inv : keeps.

Lemma tell_inv o : keeps keeps_inv (tell o).
Proof. unfold tell. keep ltac:(by intros ?). Qed.
Lemma tell_req o :
  match o with ToDisk (RequestBlocks _ _ _ _) => False | _ => True end → keeps same_req (tell o).
Proof. intros Ho. unfold tell. keep upd. Qed.
#[local] Hint Resolve tell_inv : keeps.
#[local] Hint Extern 2 (keeps same_req (tell _)) => (apply tell_req; exact I) : keeps.

Lemma handle_common_inv m : keeps keeps_inv (handle_common m).
Proof. unfold handle_common, go. keep ltac:(try (apply quiet_inv; upd)). Qed.
Lemma handle_common_req m : keeps same_req (handle_common m).
Proof. unfold handle_common, go. keep upd. Qed.
#[local] Hint Resolve handle_common_inv handle_common_req : keeps.

Lemma set_bitfield_go_inv id b :
  keeps keeps_inv (modifyS (with_torrent (fun t =>
    with_pieces (<[id := b]> (peer_pieces t)) (peer_pieces_diff t) t)) ≫= fun _ =>
    go (catch tt (gen_missing_pieces id))).
Proof.
  intros w r w' Hb Hr. unfold go in Hb. rewrite bind_action in Hb. cbn [modifyS] in Hb.
  rewrite bind_action in Hb.
  destruct (catch tt _ _) as [[u|e|] w1] eqn:Hc; injection Hb as <- <-; try done.
  all: eapply (set_peer_bitfield_inv id b w); [rewrite bind_action; cbn [modifyS]; exact Hc|done].
Qed.

Lemma handle_metainfo_inv pick info m : keeps keeps_inv (handle_metainfo pick info m).
Proof.
  unfold handle_metainfo. apply keeps_bind; [apply _|apply keeps_getS; apply _|]. intros w.
  destruct m; try (unfold go; keep ltac:(first [apply quiet_inv; upd | by intros ?]); fail).
  apply keeps_bind; [apply _|apply keeps_lift; apply _|intros; apply set_bitfield_go_inv].
Qed.
Lemma handle_magnet_inv f xt tr m : keeps keeps_inv (handle_magnet f xt tr m).
Proof.
  unfold handle_magnet.
  destruct m; try (unfold go; keep ltac:(first [apply quiet_inv; upd | by intros ?]); fail).
  apply set_bitfield_go_inv.
Qed.
Lemma handle_magnet_req f xt tr m : keeps same_req (handle_magnet f xt tr m).
Proof. unfold handle_magnet, go. keep upd. Qed.

(** New requests are for pieces that were not requested before. *)
Definition asks w w' : Prop := ∃ l,
  requested w' = requested w ++ l ∧ NoDup l ∧
  (∀ i, i ∈ l → has (peer_pieces_req (torrent w)) i = false) ∧
  (∀ i, i ∈ l ∨ has (peer_pieces_req (torrent w)) i = true →
    has (peer_pieces_req (torrent w')) i = true).
#[export] Instance asks_preorder : PreOrder asks.
Proof.
  split.
  - intros w. exists []. rewrite app_nil_r. split_and!; [done|constructor|set_solver|set_solver].
  - intros w1 w2 w3 (l1 & Hr1 & Hd1 & Hn1 & Hm1) (l2 & Hr2 & Hd2 & Hn2 & Hm2).
    exists (l1 ++ l2). rewrite app_assoc, <- Hr1. split; [done|]. split; [|split].
    + apply NoDup_app. split; [done|]. split; [|done]. intros i Hi1 Hi2%Hn2.
      rewrite Hm1 in Hi2 by (by left). done.
    + intros i [Hi|Hi]%elem_of_app; [by apply Hn1|]. apply not_true_iff_false. intros Ht.
      apply Hn2 in Hi. rewrite Hm1 in Hi by (by right). done.
    + intros i [[Hi|Hi]%elem_of_app|Hi]; apply Hm2; auto.
Qed.
Lemma same_req_asks w w' : same_req w w' → asks w w'.
Proof.
  intros [Hq Hr]. exists []. rewrite Hr, Hq, app_nil_r.
  split_and!; [done|constructor|set_solver|]. intros i [Hi|Hi]; [set_solver|done].
Qed.
Lemma same_req_keeps_asks {A} (m : action World Error A) : keeps same_req m → keeps asks m.
Proof. apply keeps_impl, same_req_asks. Qed.
#[local] Hint Resolve same_req_keeps_asks : keeps.

Lemma N_sorted_NoDup l : StronglySorted N.lt l → NoDup l.
Proof.
  induction 1 as [|x l Hs IH Hx]; constructor; [|done]. intros Hi.
  rewrite Forall_forall in Hx. specialize (Hx x Hi). lia.
Qed.

Lemma wants_asks wanted l acc p w bl new req o :
  wants wanted p bl (peer_pieces_req (torrent w)) acc new req →
  requested o = requested (with_torrent (with_req req) w) ++ l →
  l = new ∨ l = [] → torrent o = torrent (with_torrent (with_req req) w) → asks w o.
Proof.
  intros Hw Hr Hl Ht. exists l. split; [done|]. rewrite Ht. cbn.
  split; [|split].
  - destruct Hl as [->| ->]; [by eapply N_sorted_NoDup, wants_sorted|constructor].
  - intros i Hi. destruct Hl as [->| ->]; [by eapply wants_new|set_solver].
  - intros i Hi. rewrite (wants_req _ _ _ _ _ _ _ Hw). destruct Hi as [Hi| ->]; [|done].
    destruct Hl as [->| ->]; [|set_solver]. by rewrite bool_decide_true, orb_true_r.
Qed.

Lemma handle_request_asks pick info p n : keeps asks (handle_metainfo pick info (MRequest p n)).
Proof.
  unfold handle_metainfo. apply keeps_bind; [apply _|apply keeps_getS; apply _|]. intros w.
  do 2 (apply keeps_bind; [apply _|apply keeps_lift; apply _|intros]).
  intros w1 r w2. unfold if_ok. destruct (get_want_pieces _ _ w1) as [r1 w3] eqn:Hg.
  destruct r1 as [l|e|]; [| |by intros [= <- _]].
  - destruct (get_want_spec _ _ _ _ _ Hg) as [(? & _)|(diff & ? & req & [= <-] & Hd & -> & Hw)];
      [done|done|]. rewrite bind_action. cbn [getS]. rewrite bind_action. cbn [lift].
    destruct (peer_pieces _ !! _); cbn [ok_or].
    + intros [= <- <-] _. eapply wants_asks; [done| |by left|done].
      unfold requested. cbn. rewrite bind_app. cbn. by rewrite app_nil_r.
    + intros [= <- <-] _. eapply wants_asks; [done| |by right|done]. by rewrite app_nil_r.
  - destruct (get_want_spec _ _ _ _ _ Hg) as [(_ & -> & _)|(diff & ? & req & ? & _)]; [done| |done].
    intros Hh Hr. eapply (same_req_keeps_asks (go (tell (Answer (RBlocks []))))); [|done|done].
    unfold go. keep upd.
Qed.

Lemma handle_metainfo_req pick info m :
  match m with MCorruptedPiece _ | MRequest _ _ => False | _ => True end → keeps same_req (handle_metainfo pick info m).
Proof. intros Hm. destruct m; try done; unfold handle_metainfo, go; keep upd. Qed.
Lemma handle_metainfo_asks pick info m :
  (∀ p, m ≠ MCorruptedPiece p) → keeps asks (handle_metainfo pick info m).
Proof.
  intros Hm. destruct m; try (by destruct (Hm p)); try (by apply handle_request_asks).
  all: by apply same_req_keeps_asks, handle_metainfo_req.
Qed.

(** Pieces are marked as requested only when they are. *)
Definition marks w w' : Prop := ∃ l, requested w' = requested w ++ l ∧
  ∀ i, has (peer_pieces_req (torrent w')) i = true → has (peer_pieces_req (torrent w)) i = true ∨ i ∈ l.
#[export] Instance marks_preorder : PreOrder marks.
Proof.
  split; [intros w; exists []; rewrite app_nil_r; by auto|]. intros w1 w2 w3 (l1 & Hr1 & Hm1) (l2 & Hr2 & Hm2).
  exists (l1 ++ l2). rewrite Hr2, Hr1, app_assoc. split; [done|]. intros i Hi. destruct (Hm2 i Hi) as [Hi2|]; [|set_solver].
  destruct (Hm1 i Hi2); set_solver.
Qed.
Lemma same_req_marks w w' : same_req w w' → marks w w'.
Proof. intros [Hq Hr]. exists []. rewrite Hq, Hr, app_nil_r. by auto. Qed.
Lemma handle_request_marks pick info p n w w' :
  handle_metainfo pick info (MRequest p n) w = (Ok Continue, w') → marks w w'.
Proof.
  unfold handle_metainfo. rewrite bind_action. cbn [getS]. do 2 (rewrite bind_action; unfold lift at 1; case_match; [|done..]).
  unfold if_ok. destruct (get_want_pieces _ _ w) as [r1 w1] eqn:Hg. destruct r1 as [l|e|]; [| |done].
  - destruct (get_want_spec _ _ _ _ _ Hg) as [(? & _)|(diff & ? & req & [= <-] & Hd & -> & Hw)]; [done|done|].
    rewrite bind_action. cbn [getS]. rewrite bind_action. cbn [lift]. destruct (peer_pieces _ !! _); cbn [ok_or]; [|done].
    intros [= <-]. exists l. split.
    + unfold requested. cbn. rewrite bind_app. cbn. by rewrite app_nil_r.
    + cbn. intros i. rewrite (wants_req _ _ _ _ _ _ _ Hw), orb_true_iff, bool_decide_eq_true. by auto.
  - destruct (get_want_spec _ _ _ _ _ Hg) as [(_ & -> & _)|(diff & ? & req & ? & _)]; [done| |done].
    intros Hh. apply same_req_marks. eapply (_ : keeps same_req (go (tell (Answer (RBlocks []))))); [exact Hh|done].
    Unshelve. unfold go. keep upd.
Qed.
Lemma handle_corrupted_marks pick info p w w' :
  handle_metainfo pick info (MCorruptedPiece p) w = (Ok Continue, w') → marks w w'.
Proof.
  unfold handle_metainfo. rewrite bind_action. cbn [getS]. rewrite bind_action. unfold lift at 1.
  destruct (bv_set (peer_pieces_req (torrent w)) p false) as [req|] eqn:Hset; cbn [or_panic]; [|done]. rewrite bind_action. cbn [modifyS].
  intros Hh. trans (with_torrent (with_req req) w).
  - exists []. split; [by rewrite app_nil_r|]. cbn. intros i Hi. left. revert Hi. unfold has.
    assert (bits req = <[N.to_nat p := false]> (bits (peer_pieces_req (torrent w)))) as ->.
    { pose proof (bits_set (peer_pieces_req (torrent w)) p false) as Hb. rewrite Hset in Hb. simpl in Hb. case_decide; congruence. }
    destruct (decide (i = p)) as [->|Hne]; [|rewrite list_lookup_insert_ne by lia; done].
    destruct (decide (N.to_nat p < length (bits (peer_pieces_req (torrent w)))))%nat as [Hl|Hl].
    + by rewrite list_lookup_insert_eq.
    + by rewrite list_insert_ge by lia.
  - apply same_req_marks. unfold go in Hh. match type of Hh with (?m ?s) = _ => assert (keeps same_req m) as Hk; [keep upd|by eapply Hk] end.
Qed.
Lemma handle_metainfo_marks pick info m w w' : handle_metainfo pick info m w = (Ok Continue, w') → marks w w'.
Proof.
  destruct m; first [apply handle_request_marks|apply handle_corrupted_marks|intros Hh; apply same_req_marks].
  all: by eapply (handle_metainfo_req pick info); [|exact Hh|].
Qed.
End requests.
