(* ===== verification/TorrentTheorems.v ===== *)
(** The theorems about a running torrent: what it takes for missing, what it
    asks for, what a finished piece does, and where the counts go wrong. *)
From stdpp Require Import sorting relations.
From S2P Require Import Prelude Errors Bits Core Bencode Metainfo Disk Floats Counter Torrent TorrentFacts.

Section steps.
Context `{Build, BV : BitVecApi}.
Implicit Types (t : Torrent) (w : World).

(** What happens to a torrent: its loops handle the messages [allowed] and the
    ticks, and other tasks change the peers and the shared count. *)
Inductive torrent_step (allowed : TorrentMsg → Prop) : relation World :=
  | step_metainfo pick info m w r w' : allowed m →
      handle_metainfo pick info m w = (r, w') → r ≠ Panic → torrent_step allowed w w'
  | step_magnet from_bencode xt trackers m w r w' : allowed m →
      handle_magnet from_bencode xt trackers m w = (r, w') → r ≠ Panic → torrent_step allowed w w'
  | step_start info_bytes info_size w r w' :
      start_metainfo info_bytes info_size w = (r, w') → r ≠ Panic → torrent_step allowed w w'
  | step_start_magnet w r w' : start_magnet w = (r, w') → r ≠ Panic → torrent_step allowed w w'
  | step_unchoke w r w' : unchoke w = (r, w') → r ≠ Panic → torrent_step allowed w w'
  | step_opt_unchoke pick w r w' :
      optimistic_unchoke pick w = (r, w') → r ≠ Panic → torrent_step allowed w w'
  | step_heartbeat now w r w' :
      heartbeat_interval now w = (r, w') → r ≠ Panic → torrent_step allowed w w'
  | step_others w w' : torrent w' = torrent w → out w' = out w → torrent_step allowed w w'.

Lemma step_keeps_inv allowed w w' : torrent_step allowed w w' → keeps_inv w w'.
Proof.
  destruct 1.
  - by eapply handle_metainfo_inv.
  - by eapply handle_magnet_inv.
  - by eapply quiet_inv, start_metainfo_quiet.
  - by eapply quiet_inv, start_magnet_quiet.
  - by eapply quiet_inv, unchoke_quiet.
  - by eapply quiet_inv, optimistic_unchoke_quiet.
  - by eapply quiet_inv, heartbeat_quiet.
  - intros ?. by rewrite H0.
Qed.

Lemma step_asks allowed w w' :
  (∀ p, ¬ allowed (MCorruptedPiece p)) → torrent_step allowed w w' → asks w w'.
Proof.
  intros Hc. destruct 1.
  - eapply handle_metainfo_asks; [|done|done]. intros p ->. by apply (Hc p).
  - by eapply same_req_asks, handle_magnet_req.
  - by eapply same_req_asks, quiet_req, start_metainfo_quiet.
  - by eapply same_req_asks, quiet_req, start_magnet_quiet.
  - by eapply same_req_asks, quiet_req, unchoke_quiet.
  - by eapply same_req_asks, quiet_req, optimistic_unchoke_quiet.
  - by eapply same_req_asks, quiet_req, heartbeat_quiet.
  - apply same_req_asks. unfold same_req, requested. by rewrite H0, H1.
Qed.

(** C12. In every run of a torrent that starts without recorded peers, whatever
    messages arrive in whatever order, the pieces picked for a peer are pieces
    that peer has and the client does not have. *)
Theorem torrent_picks_missing allowed w0 w id wanted l w' :
  peer_pieces_diff (torrent w0) = ∅ → rtc (torrent_step allowed) w0 w →
  get_want_pieces id wanted w = (Ok l, w') →
  ∃ r, peer_pieces (torrent w) !! id = Some r ∧
    ∀ i, i ∈ l → has r i = true ∧ has (bitfield (torrent w)) i = false.
Proof.
  intros He Hrun Hg.
  assert (Hinv : missing_inv (torrent w)).
  { assert (H0 : missing_inv (torrent w0)) by (intros ??; rewrite He; by rewrite lookup_empty).
    clear Hg He. induction Hrun as [|w1 w2 w3 Hs _ IH]; [done|].
    apply IH. by eapply step_keeps_inv. }
  destruct (get_want_spec _ _ _ _ _ Hg) as [(? & _)|(d & ? & req & [= <-] & Hd & -> & Hw)];
    [done|done|].
  destruct (Hinv id d Hd) as (r & Hr & Hi). exists r. split; [done|].
  intros i (_ & Hb & _)%(wants_new _ _ _ _ _ _ _ Hw). apply Hi.
  rewrite N.sub_0_r in Hb. unfold has. by rewrite Hb.
Qed.

(** C13. While no piece is reported corrupted, the disk is never asked twice for
    the same piece: the lists of pieces of all requests, to all peers, are
    disjoint. *)
Theorem torrent_requests_once allowed w0 w :
  (∀ p, ¬ allowed (MCorruptedPiece p)) → out w0 = [] →
  rtc (torrent_step allowed) w0 w → NoDup (requested w).
Proof.
  intros Hc Ho Hrun. assert (Ha : asks w0 w).
  { clear Ho. induction Hrun as [|w1 w2 w3 Hs _ IH]; [done|]. etrans; [by eapply step_asks|done]. }
  destruct Ha as (l & -> & Hl & _). unfold requested. by rewrite Ho.
Qed.

(** Picking pieces for a peer returns, in order and without repetition,
    pieces the peer has that are missing and not yet requested; it marks them
    and no other as requested; it returns at most as many as were wanted, and
    fewer only when nothing requestable is left.  Wanting no piece at all means
    wanting every piece. *)
Theorem torrent_want_pieces id wanted w diff :
  peer_pieces_diff (torrent w) !! id = Some diff → (bv_len diff <= usize_max)%N →
  ∃ l req,
    get_want_pieces id wanted w = (Ok l, with_torrent (with_req req) w) ∧
    StronglySorted N.lt l ∧
    (∀ i, i ∈ l → has diff i = true ∧ has (peer_pieces_req (torrent w)) i = false) ∧
    (∀ i, has req i = has (peer_pieces_req (torrent w)) i || bool_decide (i ∈ l)) ∧
    ((0 < wanted)%N → (len l <= wanted)%N) ∧
    (wanted = 0%N ∨ (len l < wanted)%N → ∀ i, has diff i = true → has req i = true).
Proof.
  intros Hd Hlen. destruct (get_want_pieces id wanted w) as [r w'] eqn:Hg.
  assert (Hr : r ≠ Panic).
  { intros ->. unfold get_want_pieces in Hg. rewrite bind_action in Hg. cbn [getS] in Hg.
    rewrite Hd in Hg. cbn [ok_or lift] in Hg. rewrite !bind_action in Hg. cbn [lift] in Hg.
    pose proof (want_loop_spec wanted (bits diff) 0 (peer_pieces_req (torrent w)) []) as Hw.
    rewrite bind_action in Hg. cbn [lift] in Hg.
    destruct (want_loop _ _ _ _ _) as [[l req]| |]; [done|done|]. unfold bv_len in Hlen. lia. }
  destruct (get_want_spec _ _ _ _ _ Hg Hr) as [(_ & _ & Hn)|(d & l & req & -> & Hd' & -> & Hw)];
    [congruence|]. rewrite Hd in Hd'. injection Hd' as <-. destruct Hw as [Hs Hn Hq Hm Ha].
  exists l, req. split_and!; [done|done| |done|intros; by apply Hm|].
  - intros i Hi. destruct (Hn i Hi) as (_ & Hb & Hh). rewrite N.sub_0_r in Hb.
    unfold has at 1. by rewrite Hb.
  - intros Hc i Hi. unfold has in Hi. destruct (bits diff !! N.to_nat i) as [[]|] eqn:Hb; try done.
    assert (Hall : has req (0 + N.of_nat (N.to_nat i)) = true); [|by rewrite N2Nat.id in Hall].
    apply Ha; [|done]. rewrite app_nil_l. destruct Hc as [->|Hc]; [|left; lia].
    destruct l; [by right|]. left. rewrite len_cons. lia.
Qed.

(** A finished piece is marked in the client's bitfield and taken from the
    missing pieces of every peer, all peers are told; when it was the last one
    the torrent seeds, tells the trackers, the disk and its peers, and forgets
    what the peers have.  Nothing else changes. *)
Theorem torrent_downloaded_piece p w :
  (p < usize_max)%N →
  ∃ b, (∀ i, has b i = if decide (i = p) then true else has (bitfield (torrent w)) i) ∧
  let done := (bv_len b <=? count_ones b)%N || bool_decide (status (torrent w) = Seeding) in
  ∃ w', downloaded_piece p w = (Ok tt, w') ∧
    bitfield (torrent w') = b ∧
    status (torrent w') = (if done then Seeding else status (torrent w)) ∧
    peer_pieces (torrent w') = (if done then ∅ else peer_pieces (torrent w)) ∧
    (∀ id d, peer_pieces_diff (torrent w') !! id = Some d →
      done = false ∧ ∃ d0, peer_pieces_diff (torrent w) !! id = Some d0 ∧
        ∀ i, has d i = if decide (i = p) then false else has d0 i) ∧
    out w' = out w ++ Broadcast (HavePiece p) ::
      (if done then [ToTrackers Completed; ToDisk (FinishedDownload (t_info_hash (torrent w)));
                     Broadcast Seedonly] else []) ∧
    peer_pieces_req (torrent w') = peer_pieces_req (torrent w) ∧
    connected_peers (torrent w') = connected_peers (torrent w).
Proof.
  intros Hp. destruct (safe_set_ok (E:=Error) (bitfield (torrent w)) p true Hp) as (b & Hs & _).
  exists b. split; [intros i; by apply safe_set_has|]. cbv zeta.
  unfold downloaded_piece. rewrite bind_action. cbn [getS]. rewrite bind_action. cbn [lift].
  rewrite Hs. rewrite bind_action. cbn [modifyS]. unfold tell at 1. rewrite bind_action. cbn [modifyS].
  rewrite <- negb_orb. destruct (_ || _) eqn:Hdone; cbn [negb].
  - eexists. split; [done|]. cbn. rewrite <- !app_assoc.
    by split_and!.
  - eexists. split; [done|]. cbn. split_and!; try done.
    intros id d Hd%clear_piece_has. done.
Qed.

(** Pausing does nothing: the guard asks the status to be three things at
    once, so whatever the state a toggle changes nothing and tells nobody. *)
Lemma torrent_pause_noop w : toggle_pause w = (Ok tt, w).
Proof.
  unfold toggle_pause. rewrite bind_action. cbn [getS].
  destruct (decide (status (torrent w) = Downloading)) as [Hs|Hs].
  - rewrite Hs. done.
  - rewrite (bool_decide_false _ Hs). done.
Qed.

(** An attempt to connect that fails counts as a peer that left: when no
    peer was connected the count wraps, and no torrent of the process connects
    to anybody any more. *)
Theorem torrent_count_wraps addr order w :
  connected_count w = 0%N → (max_global_peers w <= usize_max)%N →
  Forall (fun p => pc_addr p ≠ addr) (connected_peers (torrent w)) →
  ∃ w', peer_error addr w = (Ok tt, w') ∧ connected_count w' = usize_max ∧
    connected_peers (torrent w') = connected_peers (torrent w) ∧
    spawn_outbound_peers order w' = Ok [].
Proof.
  intros Hc Hm Hp. eexists. split; [done|].
  assert (Hn : connected_count (with_count (fetch_sub 1) w) = usize_max) by (cbn; by rewrite Hc).
  split; [done|]. split.
  - cbn. apply filter_all. by apply Forall_forall.
  - unfold spawn_outbound_peers, available_connections. cbn in *. rewrite Hn.
    destruct (N.leb_spec (max_global_peers w) usize_max); [|lia]. by rewrite orb_true_r.
Qed.

(** Within the limits, the connections attempted and those that exist are
    together no more than the torrent may have. *)
Theorem torrent_connections_bounded order w l :
  (max_torrent_peers w <= usize_max)%N →
  spawn_outbound_peers order w = Ok l →
  l = take (length l) order ∧
  (l ≠ [] → len (connected_peers (torrent w)) + len l <= max_torrent_peers w ∧
            connected_count w < max_global_peers w)%N.
Proof.
  intros Hm. unfold spawn_outbound_peers, available_connections.
  destruct (N.leb_spec (max_torrent_peers w) (len (connected_peers (torrent w))));
    [by intros [= <-]|].
  destruct (N.leb_spec (max_global_peers w) (connected_count w)); [by intros [= <-]|].
  cbn [orb]. rewrite usub_ok by lia. cbn [mbind outcome_bind]. intros [= <-]. split.
  - rewrite length_take. symmetry. rewrite <- take_take. f_equal. apply take_ge. lia.
  - intros _. unfold len in *. rewrite length_take. lia.
Qed.

(** Once the missing pieces of a peer are known, a piece the peer announces
    later is recorded as had but never becomes one to ask for. *)
Theorem torrent_have_ignored id p w diff :
  peer_pieces_diff (torrent w) !! id = Some diff → (p < bv_len (bitfield (torrent w)))%N →
  bv_len diff = bv_len (bitfield (torrent w)) →
  ∃ w' r d, peer_have id p w = (Ok tt, w') ∧
    peer_pieces (torrent w') !! id = Some r ∧ has r p = true ∧
    peer_pieces_diff (torrent w') !! id = Some d ∧ bits d = bits diff.
Proof.
  intros Hd Hp Hlen. unfold peer_have. rewrite bind_action. cbn [getS].
  rewrite bind_action. cbn [lift].
  set (n := bv_len (bitfield (torrent w))) in *.
  set (v := fit n (default empty_bits (peer_pieces (torrent w) !! id))).
  destruct (bv_set_some v p true) as (r & Hs & Hb).
  { change (p < bv_len v)%N. unfold v. by rewrite bv_len_fit. }
  assert (Hbr : (n <=? bv_len r)%N = true).
  { apply N.leb_le. unfold bv_len. rewrite Hb. unfold len. rewrite length_insert.
    fold (len (bits v)). change (n <= bv_len v)%N. unfold v. by rewrite bv_len_fit. }
  rewrite Hs. cbn [or_panic]. rewrite Hd. cbn [default].
  rewrite bind_action. cbn [lift]. unfold debug_assert.
  rewrite Hbr, bv_len_fit, N.leb_refl. cbn [negb]. rewrite andb_false_r.
  rewrite bind_action. cbn [lift]. rewrite bind_action. cbn [modifyS].
  rewrite bool_decide_false by done. eexists _, r, (fit n diff). split; [done|].
  cbn. rewrite !lookup_insert_eq. split; [done|]. split; [|split; [done|]].
  - rewrite (bv_set_has _ _ _ _ _ Hs). by rewrite decide_True.
  - unfold fit. rewrite bits_truncate, bits_grow, Hlen, N.sub_diag, app_nil_r.
    apply take_ge. unfold bv_len, len in Hlen. lia.
Qed.
End steps.

(** ** At concrete inputs *)
Section witnesses.
#[local] Existing Instances dev list_bits.

(** A torrent of four pieces whose first is there; the peer 7 has the pieces 1
    and 3. *)
Definition ex_torrent : Torrent := connected_torrent [] [true; false; false; false] 100
  (Counter_default 0) [] 10 {| interval := 0; leechers := 0; seeders := 0 |} ∅.
Definition ex_world : World := {|
  torrent := ex_torrent; peers := ∅; connected_count := 0; max_global_peers := 5;
  max_torrent_peers := 3; out := [] |}.
Definition ex_set_bitfield : TorrentMsg := MSetPeerBitfield [7%N] [true; true; false; true; false].
Definition ex_known : World := (handle_metainfo id Info_default ex_set_bitfield ex_world).2.
Definition ex_peer : PeerCtx := {| pc_ref := 0; pc_id := [7%N]; pc_addr := 7%N |}.

Lemma torrent_picks_missing_witness :
  ∃ l w', get_want_pieces [7%N] 1 ex_known = (Ok l, w') ∧ l = [1%N] ∧
  ∃ r, peer_pieces (torrent ex_known) !! [7%N] = Some r ∧
    ∀ i, i ∈ l → has r i = true ∧ has (bitfield (torrent ex_known)) i = false.
Proof.
  do 2 eexists. split; [vm_compute; reflexivity|]. split; [done|].
  eapply (torrent_picks_missing (fun _ => True) ex_world ex_known [7%N] 1);
    [done| |vm_compute; reflexivity].
  apply rtc_once. eapply (step_metainfo _ id Info_default ex_set_bitfield); [done|apply surjective_pairing|].
  vm_compute. discriminate.
Defined.

(** The same peer asks for a piece twice. *)
Definition ex_asked : World :=
  (handle_metainfo id (mi_info {| announce := []; announce_list := None; comment := None;
    creation_date := None; http_seeds := None; mi_info := {|
    cross_seed_entry := None; file_length := Some 100%N; files := None; info_name := [];
    info_piece_length := 32768; info_pieces := []; info_source := None; metadata_size := 10;
    info_hash := [] |} |}) (MRequest ex_peer 2) ex_known).2.

Lemma torrent_requests_once_witness :
  requested ex_asked = [1%N] ∧ NoDup (requested ex_asked).
Proof.
  split; [vm_compute; reflexivity|].
  apply (torrent_requests_once (fun m => ∀ p, m ≠ MCorruptedPiece p) ex_world ex_asked);
    [naive_solver|done|].
  eapply rtc_l; [|apply rtc_once].
  - eapply (step_metainfo _ id Info_default ex_set_bitfield); [done|apply surjective_pairing|].
    vm_compute. discriminate.
  - eapply (step_metainfo _ id _ (MRequest ex_peer 2)); [done|apply surjective_pairing|].
    vm_compute. discriminate.
Defined.

Lemma torrent_want_pieces_witness :
  ∃ l req, get_want_pieces [7%N] 0 ex_known = (Ok l, with_torrent (with_req req) ex_known) ∧
    l = [1; 3]%N.
Proof.
  destruct (torrent_want_pieces [7%N] 0 ex_known [false; true; false; true]) as (l & req & Hg & _);
    [vm_compute; reflexivity|vm_compute; discriminate|].
  exists l, req. split; [exact Hg|].
  assert (Hc : (get_want_pieces [7%N] 0 ex_known).1 = Ok [1; 3]%N) by (vm_compute; reflexivity).
  rewrite Hg in Hc. by injection Hc.
Defined.

Lemma torrent_downloaded_piece_witness :
  ∃ w', downloaded_piece 1 ex_known = (Ok tt, w') ∧ status (torrent w') = ConnectingTrackers.
Proof.
  destruct (torrent_downloaded_piece 1 ex_known) as (b & Hb & w' & Hd & Hw & Hs & _);
    [vm_compute; reflexivity|].
  exists w'. split; [exact Hd|].
  assert (Hc : status (torrent (downloaded_piece 1 ex_known).2) = ConnectingTrackers)
    by (vm_compute; reflexivity).
  rewrite Hd in Hc. exact Hc.
Defined.

Lemma torrent_count_wraps_witness :
  ∃ w', peer_error 9%N ex_world = (Ok tt, w') ∧ spawn_outbound_peers [1; 2]%N w' = Ok [] ∧
    spawn_outbound_peers [1; 2]%N ex_world = Ok [1; 2]%N.
Proof.
  destruct (torrent_count_wraps 9%N [1; 2]%N ex_world) as (w' & He & _ & _ & Hs);
    [done|vm_compute; discriminate|constructor|].
  exists w'. by split.
Defined.

Lemma torrent_connections_bounded_witness :
  spawn_outbound_peers [1; 2; 3; 4]%N ex_world = Ok [1; 2; 3]%N ∧
  (len (connected_peers (torrent ex_world)) + 3 <= 3)%N.
Proof.
  split; [reflexivity|].
  by apply (torrent_connections_bounded [1; 2; 3; 4]%N ex_world [1; 2; 3]%N);
    [vm_compute; discriminate|reflexivity|].
Defined.

Lemma torrent_have_ignored_witness :
  ∃ w' r d, peer_have [7%N] 2 ex_known = (Ok tt, w') ∧
    peer_pieces (torrent w') !! [7%N] = Some r ∧ has r 2 = true ∧
    peer_pieces_diff (torrent w') !! [7%N] = Some d ∧ bits d = [false; true; false; true].
Proof.
  apply (torrent_have_ignored [7%N] 2 ex_known [false; true; false; true]); vm_compute; reflexivity.
Defined.
End witnesses.
