(* ===== verification/TorrentMetadata.v ===== *)
(** The metadata of a torrent on its way from a peer that serves it to a magnet
    link that assembles it. *)
From stdpp Require Import sorting.
From S2P Require Import Prelude Errors Bits Core Bencode Metainfo Disk Floats Counter Torrent TorrentFacts.

Lemma mapM_outcome_panic {E A B} (f : A → outcome E B) l x :
  x ∈ l → f x = Panic → (∀ y e, y ∈ l → f y ≠ Err e) → mapM_outcome f l = Panic.
Proof.
  induction l as [|y l IH]; intros Hx Hf He; [by apply not_elem_of_nil in Hx|].
  cbn [mapM_outcome]. destruct (f y) as [b|e|] eqn:Hy; [|by destruct (He y e); [left|]|done].
  cbn [mbind outcome_bind]. apply elem_of_cons in Hx as [->|Hx]; [congruence|].
  rewrite IH; [done|done|done|]. intros z e Hz. apply He. by right.
Qed.

(** ** Pieces in order *)

Definition key_lt (x y : N * list N) : Prop := (x.1 < y.1)%N.
#[export] Instance key_lt_trans : Transitive key_lt.
Proof. unfold key_lt. intros ???. lia. Qed.

(** The bytes received so far, in order. *)
Definition received (l : list (N * list N)) : list N := concat (snd <$> l).

Lemma len_received_nil : len (received []) = 0%N.
Proof. done. Qed.
Lemma len_received_cons e l : len (received (e :: l)) = (len e.2 + len (received l))%N.
Proof. unfold received. cbn [fmap list_fmap concat]. by rewrite len_app. Qed.
#[local] Hint Rewrite len_received_nil len_received_cons : vcz_len.

Lemma foldl_len l : ∀ a, foldl (fun acc (e : N * list N) => acc + len e.2)%N a l = (a + len (received l))%N.
Proof.
  induction l as [|e l IH]; intros a; cbn [foldl]; rewrite ?IH; autorewrite with vcz_len; lia.
Qed.

Lemma len_received_extend i b l :
  len (received (extend_entry i b l)) = (len (received l) + len b)%N.
Proof.
  unfold received. induction l as [|[j c] l IH]; cbn [extend_entry].
  - cbn. rewrite app_nil_r. done.
  - destruct (i <? j)%N; [cbn; rewrite !len_app; lia|].
    destruct (i =? j)%N; cbn; [rewrite !len_app; lia|]. rewrite !len_app, IH. lia.
Qed.

(** A new piece takes its place among the others. *)
Lemma extend_entry_new i b l :
  StronglySorted key_lt l → i ∉ fst <$> l →
  extend_entry i b l ≡ₚ (i, b) :: l ∧ StronglySorted key_lt (extend_entry i b l).
Proof.
  intros Hl. induction Hl as [|[j c] l Hl IH Hj]; intros Hi; cbn [extend_entry].
  { split; [done|repeat constructor]. }
  cbn in Hi. apply not_elem_of_cons in Hi as [Hij Hi]. destruct (IH Hi) as [IHp IHs].
  destruct (N.ltb_spec i j) as [Hlt|Hge].
  - split; [done|]. constructor; [by constructor|]. constructor; [done|].
    eapply Forall_impl; [exact Hj|]. intros e. unfold key_lt. simpl. lia.
  - destruct (N.eqb_spec i j); [done|]. split.
    + rewrite IHp. constructor.
    + constructor; [done|]. rewrite IHp. constructor; [unfold key_lt; simpl; lia|done].
Qed.

Definition assembled (l : list (N * list N)) : list (N * list N) :=
  foldl (fun m e => extend_entry e.1 e.2 m) [] l.

Lemma assembled_spec l :
  NoDup (fst <$> l) → assembled l ≡ₚ l ∧ StronglySorted key_lt (assembled l).
Proof.
  unfold assembled. induction l as [|e l IH] using rev_ind; intros Hn.
  { split; [done|constructor]. }
  rewrite fmap_app in Hn. apply NoDup_app in Hn as (Hl & Hd & _).
  destruct (IH Hl) as [Hp Hs]. rewrite foldl_app. cbn [foldl].
  destruct (extend_entry_new e.1 e.2 _ Hs) as [Hp' Hs'].
  { rewrite Hp. intros Hi. apply (Hd _ Hi). by left. }
  split; [|done]. rewrite Hp', Hp, <- surjective_pairing. apply Permutation_cons_append.
Qed.

(** Whatever the order they arrive in, distinct pieces end up in order. *)
Lemma assembled_sorted l k :
  l ≡ₚ k → StronglySorted key_lt k → assembled l = k.
Proof.
  intros Hp Hk.
  assert (Hn : NoDup (fst <$> l)).
  { rewrite Hp. clear Hp. induction Hk as [|e k Hk IH He]; cbn; [constructor|].
    constructor; [|done]. intros (x & Hx & Hxk)%list_elem_of_fmap.
    rewrite Forall_forall in He. specialize (He x Hxk). unfold key_lt in He. lia. }
  destruct (assembled_spec l Hn) as [Ha Hs].
  eapply (StronglySorted_unique_strong key_lt); [|done|done|by rewrite Ha].
  unfold key_lt. intros. lia.
Qed.

(** ** Serving *)

Section serve.
Context `{Build, BV : BitVecApi}.

Definition served (info_bytes : list N) (n : N) : list (N * list N) :=
  (fun p => (p, window (p * BLOCK_LEN) BLOCK_LEN (take (N.to_nat n) info_bytes))) <$>
    range (div_ceil n BLOCK_LEN).

Lemma serve_spec b n :
  (n <= len b)%N → (n + BLOCK_LEN <= usize_max)%N → serve_info_pieces b n = Ok (served b n).
Proof.
  intros Hn Hmax. unfold serve_info_pieces, served. apply mapM_outcome_ok.
  intros p Hp%elem_of_range.
  assert (Hpn : (p * BLOCK_LEN < n)%N).
  { pose proof (div_ceil_spec n BLOCK_LEN eq_refl). unfold BLOCK_LEN in *. lia. }
  rewrite umul_ok by lia. cbn [mbind outcome_bind]. rewrite uadd_ok by lia.
  cbn [mbind outcome_bind]. rewrite slice_ok by (unfold BLOCK_LEN in *; lia).
  cbn [mbind outcome_bind]. do 2 f_equal.
  unfold window, len in *. rewrite skipn_firstn_comm, take_take. f_equal.
  unfold BLOCK_LEN in *. lia.
Qed.

Lemma received_served b n : (n <= len b)%N → received (served b n) = take (N.to_nat n) b.
Proof.
  intros Hn. unfold received, served. rewrite <- list_fmap_compose.
  set (l := take (N.to_nat n) b).
  assert (Hl : len l = n) by (unfold l, len in *; rewrite length_take; lia).
  assert (Hw : ∀ k, concat ((snd ∘ (fun p => (p, window (p * BLOCK_LEN) BLOCK_LEN l))) <$> range k)
    = window 0 (k * BLOCK_LEN) l).
  { intros k. induction k as [|k IH] using N_range_ind; [done|].
    rewrite range_succ, fmap_app, concat_app, IH. cbn. rewrite app_nil_r.
    replace ((k + 1) * BLOCK_LEN)%N with (k * BLOCK_LEN + BLOCK_LEN)%N by lia.
    by rewrite window_split, N.add_0_l. }
  rewrite Hw. apply window_all. rewrite Hl. pose proof (div_ceil_spec n BLOCK_LEN eq_refl). lia.
Qed.

Lemma served_sorted b n : StronglySorted key_lt (served b n).
Proof.
  unfold served. generalize (div_ceil n BLOCK_LEN). intros k.
  induction k as [|k IH] using N_range_ind; [constructor|].
  rewrite range_succ, fmap_app. apply StronglySorted_app. split; [|split; [done|repeat constructor]].
  intros x y (p & -> & Hp%elem_of_range)%list_elem_of_fmap ->%list_elem_of_singleton. done.
Qed.

Lemma served_nonempty b n e : (n <= len b)%N → e ∈ served b n → (0 < len e.2)%N.
Proof.
  intros Hn (p & -> & Hp%elem_of_range)%list_elem_of_fmap. cbn. rewrite len_window_min.
  pose proof (div_ceil_spec n BLOCK_LEN eq_refl).
  assert (len (take (N.to_nat n) b) = n) as -> by (unfold len in *; rewrite length_take; lia).
  unfold BLOCK_LEN in *. lia.
Qed.

(** A torrent whose recorded metadata size is larger than what its metadata
    encodes to panics when it is started, before it handles any message. *)
Theorem torrent_serve_panics info_bytes n w :
  (0 < n)%N → (len info_bytes < n)%N → (n + BLOCK_LEN <= usize_max)%N →
  ∃ w', start_metainfo info_bytes n w = (Panic, w').
Proof.
  intros Hn Hlen Hmax. unfold start_metainfo. rewrite bind_action. cbn [modifyS].
  rewrite bind_action. cbn [lift].
  assert (serve_info_pieces info_bytes n = Panic) as ->; [|by eexists].
  unfold serve_info_pieces.
  pose proof (div_ceil_spec n BLOCK_LEN eq_refl) as [Hc1 Hc2].
  set (k := div_ceil n BLOCK_LEN) in *.
  assert (Hk : (0 < k)%N) by (unfold k; by apply div_ceil_pos).
  assert (Hf : ∀ p, (p < k)%N → (start ← @umul Error _ p BLOCK_LEN; e ← uadd start BLOCK_LEN;
      b ← slice info_bytes start (N.min e n); Ok (p, b)) =
      b ← slice info_bytes (p * BLOCK_LEN) (N.min (p * BLOCK_LEN + BLOCK_LEN) n); Ok (p, b)).
  { intros p Hp. unfold BLOCK_LEN in *. rewrite umul_ok by lia. cbn [mbind outcome_bind].
    by rewrite uadd_ok by lia. }
  apply (mapM_outcome_panic _ _ (k - 1)%N); [apply elem_of_range; lia| |].
  - rewrite Hf by lia. by rewrite slice_out by (unfold BLOCK_LEN in *; lia).
  - intros p e Hp%elem_of_range. rewrite Hf by lia. unfold slice. by case_decide.
Qed.

(** ** Assembling *)

Context (from_bencode : list N → outcome Error Info) (xt : InfoHash) (trackers : list (list N)).

Definition receive (total : N) (e : N * list N) : action World Error unit :=
  downloaded_info_piece from_bencode xt trackers total e.1 e.2.
Definition with_received (l : list (N * list N)) (w : World) : World :=
  with_torrent (with_info_pieces l) w.

(** Until enough bytes are there, the pieces are only kept. *)
Lemma receive_some total l : ∀ m w,
  t_info_pieces (torrent w) = m → (len (received m) + len (received l) < total)%N →
  forM (receive total) l w =
    (Ok tt, with_received (foldl (fun m e => extend_entry e.1 e.2 m) m l) w).
Proof.
  induction l as [|e l IH]; intros m w Hm Hlt; cbn [forM foldl].
  { subst m. destruct w as [t0 ? ? ? ? ?]. by destruct t0. }
  rewrite bind_action. unfold receive at 1, downloaded_info_piece.
  rewrite bind_action. cbn [modifyS]. rewrite bind_action. cbn [getS].
  autorewrite with vcz_len in Hlt.
  cbn [with_torrent torrent with_info_pieces t_info_pieces]. rewrite Hm, foldl_len, len_received_extend.
  destruct (N.ltb_spec (0 + (len (received m) + len e.2)) total); [|lia].
  cbn [mret action_ret].
  rewrite (IH (extend_entry e.1 e.2 m)); [done|cbn; by rewrite Hm|]. rewrite len_received_extend. lia.
Qed.

(** The piece that completes the metadata is the one that is decoded with. *)
Lemma receive_last total m e w :
  t_info_pieces (torrent w) = m → (total <= len (received m) + len e.2)%N →
  receive total e w =
    let w' := with_received (extend_entry e.1 e.2 m) w in
    (lift (from_bencode (received (extend_entry e.1 e.2 m))) ≫= fun info =>
     if decide (xt = info_hash info) then
       modifyS (with_torrent (with_bitfield (from_elem_general (pieces info) false))) ≫= fun _ =>
       let meta := {| announce := []; announce_list := Some [trackers]; comment := None;
                      creation_date := None; mi_info := info; http_seeds := None |} in
       tell (ToSelf meta) ≫= fun _ =>
       tell (ToDisk (AddTorrent meta)) ≫= fun _ =>
       modifyS (with_torrent (with_status Downloading)) ≫= fun _ =>
       tell (Broadcast HaveInfo)
     else
       modifyS (with_torrent (with_info_pieces [])) ≫= fun _ => lift (Err PieceInvalid)) w'.
Proof.
  intros Hm Hle. unfold receive, downloaded_info_piece.
  rewrite bind_action. cbn [modifyS]. rewrite bind_action. cbn [getS].
  cbn [with_torrent torrent with_info_pieces t_info_pieces]. rewrite foldl_len, len_received_extend, Hm.
  destruct (N.ltb_spec (0 + (len (received m) + len e.2)) total); [lia|]. by subst m.
Qed.

Lemma receive_all total l w :
  t_info_pieces (torrent w) = [] → total = len (received l) → l ≠ [] →
  (∀ e, e ∈ l → (0 < len e.2)%N) → ∃ m e,
  t_info_pieces (torrent (with_received m w)) = m ∧ extend_entry e.1 e.2 m = assembled l ∧
  (total <= len (received m) + len e.2)%N ∧
  forM (receive total) l w = receive total e (with_received m w).
Proof.
  intros Hw -> Hl Hpos. destruct l as [|e l _] using rev_ind; [done|].
  assert (He : (0 < len e.2)%N) by (apply Hpos; set_solver).
  assert (Hlen : len (received (l ++ [e])) = (len (received l) + len e.2)%N).
  { unfold received. rewrite fmap_app, concat_app, len_app. cbn. by rewrite app_nil_r. }
  assert (Hsum : ∀ l m, len (received (foldl (fun m e => extend_entry e.1 e.2 m) m l)) =
    (len (received m) + len (received l))%N).
  { clear. induction l as [|e l IH]; intros m; cbn [foldl];
      rewrite ?IH, ?len_received_extend; autorewrite with vcz_len; lia. }
  exists (assembled l), e. split; [done|]. split; [|split].
  - unfold assembled. by rewrite foldl_app.
  - unfold assembled. rewrite Hsum, Hlen. autorewrite with vcz_len. lia.
  - assert (Happ : ∀ l1 l2 w, forM (receive (len (received (l ++ [e])))) (l1 ++ l2) w =
      (forM (receive (len (received (l ++ [e])))) l1 ≫= fun _ =>
       forM (receive (len (received (l ++ [e])))) l2) w).
    { clear. induction l1 as [|x l1 IH]; intros l2 w; [done|]. cbn [app forM].
      rewrite !bind_action. destruct (receive _ x w) as [[[]| |] w1]; [|done|done]. apply IH. }
    rewrite Happ, bind_action, (receive_some _ l []); [|done|rewrite Hlen; autorewrite with vcz_len; lia].
    cbn [forM]. rewrite bind_action. by destruct (receive _ e _) as [[[]| |] w1].
Qed.

End serve.

(** ** At concrete inputs *)
Section witnesses.
#[local] Existing Instances dev list_bits.

Definition ex_magnet : World := {|
  torrent := new_magnet 0 None [1%N] [] {| interval := 0; leechers := 0; seeders := 0 |} ∅;
  peers := ∅; connected_count := 0; max_global_peers := 5; max_torrent_peers := 3; out := [] |}.
Definition ex_meta_info : Info := {|
  cross_seed_entry := None; file_length := Some 100%N; files := None; info_name := [];
  info_piece_length := 50; info_pieces := replicate 40 0%N; info_source := None;
  metadata_size := 3; info_hash := [1%N] |}.


Lemma torrent_serve_panics_witness : ∃ w', start_metainfo [7; 8]%N 3 ex_magnet = (Panic, w').
Proof. apply (torrent_serve_panics [7; 8]%N 3 ex_magnet); by vm_compute. Defined.
End witnesses.
