(* ===== verification/Utp.v ===== *)
(** The crate [utp]: packets ([header.rs], [packet.rs]), the congestion control
    ([congestion_control.rs]) and the state of a stream ([stream.rs]).  The
    clock ([now], microseconds), the random numbers and what the socket answers
    are arguments. *)
From S2P Require Import Prelude Floats.

(** ** Packets *)

(** [std::io::Error], by its kind *)
Inductive io_error := InvalidData | OtherError.
#[global] Instance io_error_eq_dec : EqDecision io_error.
Proof. solve_decision. Defined.

Inductive PacketType := Data | Fin | State | Reset | Syn.
#[global] Instance PacketType_eq_dec : EqDecision PacketType.
Proof. solve_decision. Defined.

Definition UTP_VERSION : N := 1.
Definition HEADER_LEN : N := 20.

(** [packet as u8] and [PacketType::try_from] *)
Definition PacketType_as_u8 (t : PacketType) : N :=
  match t with Data => 0 | Fin => 1 | State => 2 | Reset => 3 | Syn => 4 end.
Definition PacketType_try_from (n : N) : option PacketType :=
  match n with
  | 0 => Some Data | 1 => Some Fin | 2 => Some State | 3 => Some Reset | 4 => Some Syn
  | _ => None
  end%N.

(** [struct TypeVer(u8)] *)
Definition TypeVer := N.
Definition version (t : TypeVer) : N := N.land t 15.
Definition packet_type (t : TypeVer) : outcome io_error PacketType :=
  ok_or OtherError (PacketType_try_from (N.land (N.shiftr t 4) 15)).
Definition from_packet (t : PacketType) : TypeVer :=
  N.lor UTP_VERSION (N.shiftl (PacketType_as_u8 t) 4).

Record Header := {
  type_ver : TypeVer;
  extension : N;
  conn_id : N;
  timestamp : N;
  timestamp_diff : N;
  wnd_size : N;
  seq_nr : N;
  ack_nr : N;
}.
#[global] Instance Header_eq_dec : EqDecision Header.
Proof. solve_decision. Defined.

(** [Header::to_bytes], [as_bytes_mut] *)
Definition to_bytes (h : Header) : list N :=
  [type_ver h] ++ [extension h] ++ be_bytes 2 (conn_id h) ++ be_bytes 4 (timestamp h) ++
  be_bytes 4 (timestamp_diff h) ++ be_bytes 4 (wnd_size h) ++ be_bytes 2 (seq_nr h) ++
  be_bytes 2 (ack_nr h).

(** The fields at their offsets. *)
Definition read_header (buf : list N) : Header :=
  let u n i := be_val (window i n buf) in
  {| type_ver := u 1 0; extension := u 1 1; conn_id := u 2 2; timestamp := u 4 4;
     timestamp_diff := u 4 8; wnd_size := u 4 12; seq_nr := u 2 16; ack_nr := u 2 18 |}%N.

(** [Header::from_bytes] *)
Definition header_from_bytes (buf : list N) : outcome io_error Header :=
  if (len buf =? HEADER_LEN)%N then Ok (read_header buf) else Err InvalidData.

(** [TryFrom<&[u8]> for Header] *)
Definition header_try_from (buf : list N) : outcome io_error Header :=
  if (len buf <? HEADER_LEN)%N then Err InvalidData
  else
    b ← index buf 0;
    if negb (N.land b 15 =? 1)%N || bool_decide (PacketType_try_from (N.shiftr b 4) = None)
    then Err InvalidData
    else Ok (read_header buf).

Record Packet := { header : Header; payload : list N }.
#[global] Instance Packet_eq_dec : EqDecision Packet.
Proof. solve_decision. Defined.

(** [Packet::into_bytes], [as_bytes_mut] *)
Definition into_bytes (p : Packet) : list N := to_bytes (header p) ++ payload p.

(** [Packet::from_bytes]: slicing the header panics on fewer than 20 bytes *)
Definition packet_from_bytes (data : list N) : outcome io_error Packet :=
  b ← slice data 0 20;
  h ← header_try_from b;
  p ← slice data 20 (len data);
  Ok {| header := h; payload := p |}.

Record SentPacket := { packet : Packet; retransmit_count : N }.

(** ** What a socket knows to build headers *)

Record UtpHeader := {
  h_seq_nr : N;
  h_ack_nr : N;
  last_ack_nr : N;
  ack_history : gmap N N;
  conn_id_send : N;
  conn_id_recv : N;
  last_recv_packet_timestamp : N;
  last_sent_packet_timestamp : N;
}.

Definition UtpHeader_default : UtpHeader := {|
  h_seq_nr := 0; h_ack_nr := 0; last_ack_nr := 0; ack_history := ∅; conn_id_send := 0;
  conn_id_recv := 0; last_recv_packet_timestamp := 0; last_sent_packet_timestamp := 0 |}.

Definition set_nrs (seq ack last : N) (h : UtpHeader) : UtpHeader := {|
  h_seq_nr := seq; h_ack_nr := ack; last_ack_nr := last; ack_history := ack_history h;
  conn_id_send := conn_id_send h; conn_id_recv := conn_id_recv h;
  last_recv_packet_timestamp := last_recv_packet_timestamp h;
  last_sent_packet_timestamp := last_sent_packet_timestamp h |}.
Definition set_history (m : gmap N N) (h : UtpHeader) : UtpHeader := {|
  h_seq_nr := h_seq_nr h; h_ack_nr := h_ack_nr h; last_ack_nr := last_ack_nr h;
  ack_history := m; conn_id_send := conn_id_send h; conn_id_recv := conn_id_recv h;
  last_recv_packet_timestamp := last_recv_packet_timestamp h;
  last_sent_packet_timestamp := last_sent_packet_timestamp h |}.
Definition set_ids (send recv : N) (h : UtpHeader) : UtpHeader := {|
  h_seq_nr := h_seq_nr h; h_ack_nr := h_ack_nr h; last_ack_nr := last_ack_nr h;
  ack_history := ack_history h; conn_id_send := send; conn_id_recv := recv;
  last_recv_packet_timestamp := last_recv_packet_timestamp h;
  last_sent_packet_timestamp := last_sent_packet_timestamp h |}.
Definition set_times (recv sent : N) (h : UtpHeader) : UtpHeader := {|
  h_seq_nr := h_seq_nr h; h_ack_nr := h_ack_nr h; last_ack_nr := last_ack_nr h;
  ack_history := ack_history h; conn_id_send := conn_id_send h; conn_id_recv := conn_id_recv h;
  last_recv_packet_timestamp := recv; last_sent_packet_timestamp := sent |}.

(** [seq_nr.fetch_add(1)] wraps *)
Definition next_seq_nr (h : UtpHeader) : N * UtpHeader :=
  (h_seq_nr h, set_nrs (as_u16 (h_seq_nr h + 1)) (h_ack_nr h) (last_ack_nr h) h).

(** [get_timestamp_diff], [get_rtt]: saturating *)
Definition get_timestamp_diff (now : N) (h : UtpHeader) : N := (now - last_recv_packet_timestamp h)%N.
Definition get_rtt (now : N) (h : UtpHeader) : N := (now - last_sent_packet_timestamp h)%N.

Definition sent_at (now : N) (h : UtpHeader) : UtpHeader :=
  set_times (last_recv_packet_timestamp h) now h.

(** [new_fin], [new_data] and [new_state] build the header of a packet of type
    [t] with the next sequence number. *)
Definition new_numbered (t : PacketType) (now wnd : N) (h : UtpHeader) : Header * UtpHeader :=
  let h := sent_at now h in
  let '(s, h) := next_seq_nr h in
  ({| type_ver := from_packet t; extension := 0; conn_id := conn_id_send h; timestamp := now;
      timestamp_diff := get_timestamp_diff now h; wnd_size := wnd; seq_nr := s;
      ack_nr := h_ack_nr h |}, h).
Definition new_fin := new_numbered Fin.
Definition new_data := new_numbered Data.
Definition new_state := new_numbered State.

Definition new_retransmit_data (now wnd seq : N) (h : UtpHeader) : Header * UtpHeader :=
  let h := sent_at now h in
  ({| type_ver := from_packet Data; extension := 0; conn_id := conn_id_send h; timestamp := now;
      timestamp_diff := get_timestamp_diff now h; wnd_size := wnd; seq_nr := seq;
      ack_nr := h_ack_nr h |}, h).

Definition new_reset (now seq wnd : N) (h : UtpHeader) : Header * UtpHeader :=
  let h := sent_at now h in
  ({| type_ver := from_packet Reset; extension := 0; conn_id := conn_id_send h; timestamp := now;
      timestamp_diff := get_timestamp_diff now h; wnd_size := wnd; seq_nr := h_seq_nr h;
      ack_nr := seq |}, h).

Section stream.
Context `{Build}.

(** [new_syn] with the random id [id] *)
Definition new_syn (id now wnd : N) : action UtpHeader io_error Header :=
  modifyS (fun h => set_ids (conn_id_send h) id h) ≫= fun _ =>
  lift (arith u16_max (Z.of_N id + 1)) ≫= fun send =>
  modifyS (fun h => sent_at now (set_ids send (conn_id_recv h) h)) ≫= fun _ =>
  getS ≫= fun h =>
  modifyS (fun h => (next_seq_nr h).2) ≫= fun _ =>
  mret {| type_ver := from_packet Syn; extension := 0; conn_id := conn_id_recv h; timestamp := now;
          timestamp_diff := 0; wnd_size := wnd; seq_nr := h_seq_nr h; ack_nr := h_ack_nr h |}.

Definition inc_duplicate_ack (seq : N) : action UtpHeader io_error N :=
  getS ≫= fun h =>
  lift (arith u32_max (Z.of_N (default 0%N (ack_history h !! seq)) + 1)) ≫= fun v =>
  modifyS (set_history (<[seq := v]> (ack_history h))) ≫= fun _ =>
  mret v.
Definition zero_duplicate_ack (seq : N) (h : UtpHeader) : UtpHeader :=
  set_history (<[seq := 0%N]> (ack_history h)) h.

(** [UtpHeader::handle_syn], with the random number [rnd] *)
Definition header_handle_syn (rnd : N) (hd : Header) : action UtpHeader io_error unit :=
  modifyS (fun h => set_ids (conn_id hd) (conn_id_recv h)
    (set_times (timestamp hd) (last_sent_packet_timestamp h) h)) ≫= fun _ =>
  lift (arith u16_max (Z.of_N (conn_id hd) + 1)) ≫= fun recv =>
  modifyS (fun h => set_nrs rnd (seq_nr hd) (last_ack_nr h) (set_ids (conn_id_send h) recv h)).

(** [UtpHeader::handle_new_ack] and [UtpHeader::handle_data] *)
Definition handle_new_ack (hd : Header) (h : UtpHeader) : UtpHeader :=
  set_nrs (h_seq_nr h) (seq_nr hd) (ack_nr hd)
    (set_times (timestamp hd) (last_sent_packet_timestamp h) h).
Definition header_handle_data (hd : Header) (h : UtpHeader) : UtpHeader :=
  set_nrs (h_seq_nr h) (seq_nr hd) (last_ack_nr h)
    (set_times (timestamp hd) (last_sent_packet_timestamp h) h).

(** ** Congestion control *)

Definition CCONTROL_TARGET : float := f32_of 100000.
Definition MIN_TIMEOUT : N := 500000.
Definition MIN_TIMEOUT_F64 : float := f32_of 500000.
Definition MAX_CWND_INCREASE_PACKETS_PER_RTT : float := f32_of 2.
Definition MIN_WINDOW_SIZE : N := 1500.
Definition MIN_WINDOW_SIZE_F64 : float := f32_of 1500.
Definition MAX_CWND_INCREASE_BYTES_PER_RTT : float :=
  f32_mul MIN_WINDOW_SIZE_F64 MAX_CWND_INCREASE_PACKETS_PER_RTT.
Definition MAX_WINDOW_DECAY : N := 500000.
Definition WINDOW_DECAY_FACTOR : float := f32_lit 1 2.
Definition BASE_DELAY_WINDOW : N := 120 * 1000000.

Record CongestionControl := {
  window_ : N;
  rtt : N;
  rtt_var : N;
  timeout : N;
  last_window_update : N;
  last_decay : N;
  base_delay : N;
  diff_timestamp_history : list (N * N);
}.

Definition CongestionControl_default (now : N) : CongestionControl := {|
  window_ := 65536; rtt := 100000; rtt_var := 0; timeout := MIN_TIMEOUT;
  last_window_update := now; last_decay := now; base_delay := u32_max;
  diff_timestamp_history := [] |}.

Definition with_base_delay (d : N) (l : list (N * N)) (c : CongestionControl) : CongestionControl := {|
  window_ := window_ c; rtt := rtt c; rtt_var := rtt_var c; timeout := timeout c;
  last_window_update := last_window_update c; last_decay := last_decay c; base_delay := d;
  diff_timestamp_history := l |}.
Definition with_rtt (r v t : N) (c : CongestionControl) : CongestionControl := {|
  window_ := window_ c; rtt := r; rtt_var := v; timeout := t;
  last_window_update := last_window_update c; last_decay := last_decay c;
  base_delay := base_delay c; diff_timestamp_history := diff_timestamp_history c |}.
Definition with_window (w u d : N) (c : CongestionControl) : CongestionControl := {|
  window_ := w; rtt := rtt c; rtt_var := rtt_var c; timeout := timeout c;
  last_window_update := u; last_decay := d;
  base_delay := base_delay c; diff_timestamp_history := diff_timestamp_history c |}.

(** The [while let] that drops measurements older than two minutes. *)
Fixpoint drop_old (now : N) (l : list (N * N)) : outcome io_error (list (N * N)) :=
  match l with
  | [] => Ok []
  | (t, d) :: l' =>
      age ← arith u32_max (Z.of_N now - Z.of_N t);
      if (BASE_DELAY_WINDOW <? age)%N then drop_old now l' else Ok l
  end.

Definition update_base_delay (now diff : N) (c : CongestionControl) : outcome io_error CongestionControl :=
  l ← drop_old now (diff_timestamp_history c ++ [(now, diff)]);
  Ok (with_base_delay (foldl N.min u32_max (snd <$> l)) l c).

(** [f32::abs] *)
Definition f_abs (x : float) : float := SpecFloat.SFabs x.

Definition update_rtt (now packet_rtt diff : N) (c : CongestionControl)
    : outcome io_error CongestionControl :=
  if (packet_rtt =? 0)%N then Ok c
  else
    c ← update_base_delay now diff c;
    let r := f32_of (rtt c) in
    let v := f32_of (rtt_var c) in
    let p := f32_of packet_rtt in
    let delta := f32_sub r p in
    let new_rtt_var := f32_add v (f32_div (f32_sub (f_abs delta) v) (f32_of 4)) in
    let new_rtt := f32_add r (f32_div (f32_sub p r) (f32_of 8)) in
    let new_timeout := f_max (f32_add new_rtt (f32_mul new_rtt_var (f32_of 4))) MIN_TIMEOUT_F64 in
    Ok (with_rtt (f_as_uint u32_max new_rtt) (f_as_uint u32_max new_rtt_var)
      (f_as_uint u32_max new_timeout) c).

Definition packet_loss (now : N) (c : CongestionControl) : CongestionControl :=
  with_window (f_as_uint u32_max
    (f_max (f32_mul (f32_of (window_ c)) WINDOW_DECAY_FACTOR) (f32_of MIN_WINDOW_SIZE)))
    (last_window_update c) now c.

Definition apply_window_decay (now : N) (c : CongestionControl) : CongestionControl :=
  if (MAX_WINDOW_DECAY <=? now - last_decay c)%N then packet_loss now c else c.

Definition update_window (now outstanding_bytes diff : N) (c : CongestionControl)
    : outcome io_error CongestionControl :=
  c ← update_base_delay now diff c;
  if (now - last_window_update c <? rtt c)%N then Ok c
  else
    let our_delay := f32_sub (f32_of diff) (f32_of (base_delay c)) in
    let off_target := f32_sub CCONTROL_TARGET our_delay in
    let delay_factor := f32_div off_target CCONTROL_TARGET in
    let w := f32_of (window_ c) in
    let window_factor := f32_div (f32_of outstanding_bytes) (f_max w (f32_of 1)) in
    let scaled_gain :=
      f32_mul (f32_mul MAX_CWND_INCREASE_BYTES_PER_RTT delay_factor) window_factor in
    let new_window := f_as_uint u32_max (f_max (f32_add w scaled_gain) MIN_WINDOW_SIZE_F64) in
    Ok (apply_window_decay now (with_window new_window now (last_decay c) c)).

(** ** The stream *)

Inductive ConnectionState := SynSent | SynRecv | Connected | Closing | Closed.
#[global] Instance ConnectionState_eq_dec : EqDecision ConnectionState.
Proof. solve_decision. Defined.

Record UtpStream := {
  utp_header : UtpHeader;
  state : ConnectionState;
  cc : CongestionControl;
  incoming_buf : list (list N);
  sent_packets : list SentPacket;
  write_buf : list Packet;
}.

(** [UtpStream::new], [from_socket] *)
Definition UtpStream_new (now : N) : UtpStream := {|
  utp_header := UtpHeader_default; state := Closed; cc := CongestionControl_default now;
  incoming_buf := []; sent_packets := []; write_buf := [] |}.

Definition with_header (f : UtpHeader → UtpHeader) (s : UtpStream) : UtpStream := {|
  utp_header := f (utp_header s); state := state s; cc := cc s; incoming_buf := incoming_buf s;
  sent_packets := sent_packets s; write_buf := write_buf s |}.
Definition with_state (st : ConnectionState) (s : UtpStream) : UtpStream := {|
  utp_header := utp_header s; state := st; cc := cc s; incoming_buf := incoming_buf s;
  sent_packets := sent_packets s; write_buf := write_buf s |}.
Definition with_cc (c : CongestionControl) (s : UtpStream) : UtpStream := {|
  utp_header := utp_header s; state := state s; cc := c; incoming_buf := incoming_buf s;
  sent_packets := sent_packets s; write_buf := write_buf s |}.
Definition with_sent (l : list SentPacket) (s : UtpStream) : UtpStream := {|
  utp_header := utp_header s; state := state s; cc := cc s; incoming_buf := incoming_buf s;
  sent_packets := l; write_buf := write_buf s |}.
Definition with_write_buf (l : list Packet) (s : UtpStream) : UtpStream := {|
  utp_header := utp_header s; state := state s; cc := cc s; incoming_buf := incoming_buf s;
  sent_packets := sent_packets s; write_buf := l |}.
Definition with_incoming (l : list (list N)) (s : UtpStream) : UtpStream := {|
  utp_header := utp_header s; state := state s; cc := cc s; incoming_buf := l;
  sent_packets := sent_packets s; write_buf := write_buf s |}.

Abbreviation uact := (action UtpStream io_error).

Definition on_header {A} (m : action UtpHeader io_error A) : uact A := fun s =>
  let '(r, h) := m (utp_header s) in (r, with_header (fun _ => h) s).
Definition on_header' {A} (f : UtpHeader → A * UtpHeader) : uact A := fun s =>
  let '(a, h) := f (utp_header s) in (Ok a, with_header (fun _ => h) s).

Definition on_packet_acked (now outstanding_bytes diff : N) : uact unit :=
  getS ≫= fun s =>
  lift (update_rtt now (get_rtt now (utp_header s)) diff (cc s)) ≫= fun c =>
  modifyS (with_cc c) ≫= fun _ =>
  lift (update_window now outstanding_bytes diff c) ≫= fun c =>
  modifyS (with_cc c).

(** [UtpStream::handle_syn] *)
Definition handle_syn (rnd : N) (hd : Header) : uact unit :=
  modifyS (fun s => if decide (state s = Closed) then with_state SynRecv s else s) ≫= fun _ =>
  on_header (header_handle_syn rnd hd).

Definition send_state (now : N) : uact unit :=
  getS ≫= fun s =>
  on_header' (new_state now (window_ (cc s))) ≫= fun h =>
  modifyS (fun s => with_sent (sent_packets s ++
    [{| packet := {| header := h; payload := [] |}; retransmit_count := 0 |}]) s).

(** [send_syn] up to the socket: the packet it sends *)
Definition send_syn (id now : N) : uact (list N) :=
  getS ≫= fun s =>
  on_header (new_syn id now (window_ (cc s))) ≫= fun h =>
  modifyS (fun s => with_sent (sent_packets s ++
    [{| packet := {| header := h; payload := [] |}; retransmit_count := 0 |}]) s) ≫= fun _ =>
  modifyS (with_state SynSent) ≫= fun _ =>
  mret (to_bytes h).

(** The packets at the front that [ack] acknowledges. *)
Fixpoint drop_acked (ack : N) (l : list SentPacket) : list SentPacket :=
  match l with
  | [] => []
  | p :: l' => if (seq_nr (header (packet p)) <=? ack)%N then drop_acked ack l' else l
  end.
Definition process_new_ack (ack : N) (s : UtpStream) : UtpStream :=
  with_header (fun h => set_history (filter (fun e : N * N => (ack < e.1)%N) (ack_history h)) h)
    (with_sent (drop_acked ack (sent_packets s)) s).

(** [iter_mut().find(..)] and what is done to the packet found, if it was not
    retransmitted ten times: the packets, and the packet to write *)
Fixpoint retransmit_find (now wnd seq : N) (l : list SentPacket) : list SentPacket * option Packet :=
  match l with
  | [] => ([], None)
  | p :: l' =>
      let h := header (packet p) in
      if (seq_nr h =? seq)%N then
        if (retransmit_count p <? 10)%N then
          let p' := {| header := {| type_ver := type_ver h; extension := extension h;
                         conn_id := conn_id h; timestamp := now;
                         timestamp_diff := timestamp_diff h; wnd_size := wnd;
                         seq_nr := seq_nr h; ack_nr := ack_nr h |};
                       payload := payload (packet p) |} in
          ({| packet := p'; retransmit_count := retransmit_count p + 1 |} :: l', Some p')
        else (l, None)
      else let '(l', r) := retransmit_find now wnd seq l' in (p :: l', r)
  end.
Definition retransmit_packet (now seq : N) (s : UtpStream) : UtpStream :=
  match retransmit_find now (window_ (cc s)) seq (sent_packets s) with
  | (l, Some p) => with_write_buf (write_buf s ++ [p]) (with_sent l s)
  | (l, None) => with_sent l s
  end.

Definition handle_packet_loss (now seq : N) (s : UtpStream) : UtpStream :=
  with_header (zero_duplicate_ack seq)
    (retransmit_packet now seq (with_cc (packet_loss now (cc s)) s)).

(** [UtpStream::handle_state] *)
Definition handle_state (now : N) (hd : Header) : uact unit :=
  modifyS (fun s => if decide (state s = SynSent) then with_state Connected s else s) ≫= fun _ =>
  getS ≫= fun s =>
  let last_ack := last_ack_nr (utp_header s) in
  if (last_ack <? ack_nr hd)%N || ((ack_nr hd =? 0)%N && (last_ack =? 0)%N) then
    modifyS (fun s => process_new_ack (ack_nr hd) (with_header (handle_new_ack hd) s))
  else
    on_header (inc_duplicate_ack (seq_nr hd)) ≫= fun count =>
    if (3 <=? count)%N then
      lift (arith u16_max (Z.of_N (ack_nr hd) + 1)) ≫= fun seq =>
      modifyS (handle_packet_loss now seq)
    else mret tt.

(** [UtpStream::check_timeouts] *)
Fixpoint timed_out (now limit : N) (l : list SentPacket) : option N :=
  match l with
  | [] => None
  | p :: l =>
      if (limit <=? now - timestamp (header (packet p)))%N then Some (seq_nr (header (packet p)))
      else timed_out now limit l
  end.
Definition check_timeouts (now : N) (s : UtpStream) : UtpStream :=
  match timed_out now (timeout (cc s)) (sent_packets s) with
  | Some seq => handle_packet_loss now seq s
  | None => s
  end.

Definition push_to_write_buf (now : N) (bytes : list N) : uact unit :=
  getS ≫= fun s =>
  on_header' (new_data now (window_ (cc s))) ≫= fun h =>
  modifyS (fun s => with_write_buf (write_buf s ++ [{| header := h; payload := bytes |}]) s).

Definition any_packet_to_send (s : UtpStream) : bool :=
  existsb (fun p => negb (bool_decide (payload p = []))) (write_buf s).

(** [UtpStream::handle_data] *)
Definition handle_data (now : N) (p : Packet) : uact unit :=
  modifyS (fun s => with_header (header_handle_data (header p)) (with_state Connected s)) ≫= fun _ =>
  modifyS (process_new_ack (ack_nr (header p))) ≫= fun _ =>
  getS ≫= fun s =>
  if any_packet_to_send s then mret tt else send_state now.

(** [handle_fin], [handle_reset]: [todo!()] *)
Definition handle_fin (hd : Header) : uact unit := lift Panic.
Definition handle_reset (hd : Header) : uact unit := lift Panic.

(** ** Polling *)

Inductive poll (A : Type) := Pending | Ready (a : A).
#[global] Arguments Pending {A}.
#[global] Arguments Ready {A} a.

(** The bytes in flight, added as [u32]. *)
Definition outstanding (l : list SentPacket) : outcome io_error N :=
  foldl (fun acc p => a ← acc; arith u32_max (Z.of_N a + Z.of_N (as_u32 (len (payload (packet p))))))
    (Ok 0%N) l.

(** The last packet sent is sent (again), [send] being the socket's answer. *)
Definition resend_last (send : list N → poll (option N)) (p : Packet) : uact (poll Packet) :=
  getS ≫= fun s =>
  match list.last (sent_packets s) with
  | Some st =>
      match send (into_bytes (packet st)) with
      | Pending => mret Pending
      | Ready (Some _) => mret (Ready p)
      | Ready None => lift (Err OtherError)
      end
  | None => mret (Ready p)
  end.

(** [UtpStream::try_receive_packet], where the socket has received a datagram
    and [buf] is the initialised part of the buffer ([ReadBuf::initialized]).
    One [now] stands for the readings of the clock, which the code takes one
    after the other: the round trip, the two of the congestion control and the
    one of the packet answered. *)
Definition try_receive_packet (now rnd : N) (send : list N → poll (option N)) (buf : list N)
    : uact (poll Packet) :=
  lift (packet_from_bytes buf) ≫= fun p =>
  getS ≫= fun s =>
  lift (outstanding (sent_packets s)) ≫= fun n =>
  on_packet_acked now n (timestamp_diff (header p)) ≫= fun _ =>
  lift (packet_type (type_ver (header p))) ≫= fun t =>
  match t with
  | Data => handle_data now p ≫= fun _ => resend_last send p
  | State => handle_state now (header p) ≫= fun _ => mret (Ready p)
  | Syn => handle_syn rnd (header p) ≫= fun _ => send_state now ≫= fun _ => resend_last send p
  | Fin => handle_fin (header p) ≫= fun _ => mret (Ready p)
  | Reset => handle_reset (header p) ≫= fun _ => mret (Ready p)
  end.

(** [poll_write]: a packet per write *)
Definition poll_write (now : N) (buf : list N) : uact N :=
  push_to_write_buf now buf ≫= fun _ =>
  modifyS (check_timeouts now) ≫= fun _ =>
  mret (len buf).

(** The loop of [poll_flush]: what was sent, what stays, and whether the socket
    failed (which ends the loop); [send i] answers the packet number [i]. *)
Fixpoint flush_loop (send : nat → list N → poll (option N)) (i : nat) (l : list Packet)
    : list SentPacket * list Packet * bool :=
  match l with
  | [] => ([], [], false)
  | p :: l' =>
      match send i (into_bytes p) with
      | Ready None => ([], l, true)
      | r =>
          let '(sent, kept, failed) := flush_loop send (S i) l' in
          match r with
          | Ready (Some n) =>
              if (n =? len (into_bytes p))%N
              then ({| packet := p; retransmit_count := 0 |} :: sent, kept, failed)
              else (sent, p :: kept, failed)
          | _ => (sent, p :: kept, failed)
          end
      end
  end.

(** [poll_flush] *)
Definition poll_flush (now : N) (send : nat → list N → poll (option N)) : uact unit :=
  modifyS (check_timeouts now) ≫= fun _ =>
  getS ≫= fun s =>
  match write_buf s with
  | [] => mret tt
  | _ =>
      let '(sent, kept, failed) := flush_loop send 0 (write_buf s) in
      modifyS (fun s => with_write_buf kept (with_sent (sent_packets s ++ sent) s)) ≫= fun _ =>
      if failed : bool then lift (Err OtherError) else mret tt
  end.

(** [poll_shutdown]; [send8] is the socket's answer to the byte 8 *)
Definition poll_shutdown (now : N) (send : nat → list N → poll (option N))
    (send8 : poll (option N)) : uact (poll unit) := fun s =>
  match poll_flush now send (with_state Closing s) with
  | (Ok _, s) =>
      match send8 with
      | Pending => (Ok Pending, s)
      | Ready None => (Err OtherError, with_state Closed s)
      | Ready (Some _) => (Ok (Ready tt), with_state Closed s)
      end
  | (Err e, s) => (Err e, with_state Closed s)
  | (Panic, s) => (Panic, s)
  end.

(** [send_fin]: the bytes sent *)
Definition send_fin (now : N) : uact (list N) :=
  getS ≫= fun s =>
  on_header' (new_fin now (window_ (cc s))) ≫= fun hd =>
  mret (to_bytes hd).

(** The loop of [poll_read] over the buffers, [room] bytes of the user's buffer
    being left: the buffers after it, the bytes copied, and whether the user's
    buffer became full *)
Fixpoint read_incoming (room : N) (bufs : list (list N)) : list (list N) * list N * bool :=
  match bufs with
  | [] => ([], [], false)
  | b :: bufs' =>
      let n := N.to_nat (N.min (len b) room) in
      let room' := (room - N.min (len b) room)%N in
      if (room' =? 0)%N then (drop n b :: bufs', take n b, true)
      else
        let '(rest, out, full) := read_incoming room' bufs' in
        (drop n b :: rest, take n b ++ out, full)
  end.

(** [poll_read]: the bytes copied from the buffers, and the answer.  [recv]
    says what [poll_recv] leaves initialised in the user's buffer, [ready] what
    [poll_recv_ready] answers. *)
Definition poll_read (now rnd room : N) (recv : list N → poll (option (list N)))
    (ready : poll (option unit)) (send : list N → poll (option N)) : uact (list N * poll unit) :=
  getS ≫= fun s =>
  let '(bufs, copied, full) := read_incoming room (incoming_buf s) in
  modifyS (with_incoming bufs) ≫= fun _ =>
  if full then mret (copied, Ready tt)
  else
    match recv copied with
    | Pending => mret Pending
    | Ready None => lift (Err OtherError)
    | Ready (Some buf) => try_receive_packet now rnd send buf
    end ≫= fun r =>
    match r with
    | Ready _ => mret (copied, Ready tt)
    | Pending =>
        match ready with
        | Pending => mret (copied, Pending)
        | Ready (Some _) => mret (copied, Ready tt)
        | Ready None => lift (Err OtherError)
        end
    end.

(** [UtpListener::accept], with the 20 bytes of the first datagram: whatever
    its type is. *)
Definition accept (now rnd : N) (buf : list N) : outcome io_error UtpStream :=
  match (lift (header_from_bytes buf) ≫= handle_syn rnd) (UtpStream_new now) with
  | (Ok _, s) => Ok s
  | (Err e, _) => Err e
  | (Panic, _) => Panic
  end.

(** [Header::default] *)
Definition Header_default (rnd now : N) : Header := {|
  type_ver := from_packet Syn; extension := 0; conn_id := rnd; timestamp := now; timestamp_diff := 0;
  wnd_size := 10000; seq_nr := 0; ack_nr := 0 |}.

(** An address is its octets and its port. *)
Definition unspecified (addr : list N * N) : list N * N :=
  (if (len addr.1 =? 4)%N then replicate 4 0%N else replicate 16 0%N, 0%N).
(** [UtpStream::connect]: what the address resolves to, and whether the socket
    can be bound, connected and written to; the address bound, the one connected
    to, what is sent there, and the stream *)
Definition UtpStream_connect (id t0 now : N) (resolved : list (list N * N)) (bound connected sends : bool)
    : outcome io_error ((list N * N) * (list N * N) * list N * UtpStream) :=
  match resolved with
  | [] => Err OtherError
  | addr :: _ =>
      if bound && connected then
        match send_syn id now (UtpStream_new t0) with
        | (Ok bytes, s) => if sends then Ok (unspecified addr, addr, bytes, s) else Err OtherError
        | (Err e, _) => Err e
        | (Panic, _) => Panic
        end
      else Err OtherError
  end.
End stream.
