(* ===== verification/UtpFacts.v ===== *)
(** The packets of the crate [utp] are what they are encoded to; what an
    acknowledgement removes, and when it stops to. *)
From stdpp Require Import sorting.
From S2P Require Import Prelude Floats Utp.

(** ** Packets *)

Definition header_ok (h : Header) : Prop :=
  (∃ t, type_ver h = from_packet t) ∧ byte_ok (extension h) ∧ (conn_id h < 2 ^ 16)%N ∧
  (timestamp h < 2 ^ 32)%N ∧ (timestamp_diff h < 2 ^ 32)%N ∧ (wnd_size h < 2 ^ 32)%N ∧
  (seq_nr h < 2 ^ 16)%N ∧ (ack_nr h < 2 ^ 16)%N.

Lemma len_to_bytes h : len (to_bytes h) = 20%N.
Proof. unfold to_bytes, len. rewrite !length_app, !length_be_bytes. done. Qed.

Lemma be_val_byte b : be_val [b] = b.
Proof. rewrite be_val_cons. replace (be_val []) with 0%N by done. unfold len. simpl. lia. Qed.

#[local] Transparent be_bytes.
Lemma read_to_bytes h : header_ok h → read_header (to_bytes h) = h.
Proof.
  intros (_ & _ & H1 & H2 & H3 & H4 & H5 & H6).
  destruct h as [tv ex ci ts td ws sn an]; cbn [type_ver extension conn_id timestamp
    timestamp_diff wnd_size seq_nr ack_nr] in *.
  change (read_header _) with {| type_ver := be_val [tv]; extension := be_val [ex];
    conn_id := be_val (be_bytes 2 ci); timestamp := be_val (be_bytes 4 ts);
    timestamp_diff := be_val (be_bytes 4 td); wnd_size := be_val (be_bytes 4 ws);
    seq_nr := be_val (be_bytes 2 sn); ack_nr := be_val (be_bytes 2 an) |}.
  by rewrite !be_val_byte, !be_val_be_bytes.
Qed.
#[local] Opaque be_bytes.

Lemma to_bytes_read buf : len buf = 20%N → bytes_ok buf → to_bytes (read_header buf) = buf.
Proof.
  intros Hl Hb. unfold len in Hl.
  do 20 (destruct buf as [|? buf]; [simpl in Hl; lia|]). destruct buf; [|simpl in Hl; lia]. clear Hl.
  assert (He : ∀ l, bytes_ok l → be_bytes (length l) (be_val l) = l) by apply be_bytes_be_val.
  unfold bytes_ok in Hb. rewrite !Forall_cons in Hb.
  match goal with |- to_bytes (read_header [?b0; ?b1; ?b2; ?b3; ?b4; ?b5; ?b6; ?b7; ?b8; ?b9; ?b10;
      ?b11; ?b12; ?b13; ?b14; ?b15; ?b16; ?b17; ?b18; ?b19]) = _ =>
    change (to_bytes _) with ([be_val [b0]] ++ [be_val [b1]] ++ be_bytes (length [b2; b3]) (be_val [b2; b3]) ++
      be_bytes (length [b4; b5; b6; b7]) (be_val [b4; b5; b6; b7]) ++
      be_bytes (length [b8; b9; b10; b11]) (be_val [b8; b9; b10; b11]) ++
      be_bytes (length [b12; b13; b14; b15]) (be_val [b12; b13; b14; b15]) ++
      be_bytes (length [b16; b17]) (be_val [b16; b17]) ++
      be_bytes (length [b18; b19]) (be_val [b18; b19])) end.
  rewrite !be_val_byte, !He; [done|..]; unfold bytes_ok; rewrite !Forall_cons; naive_solver.
Qed.

(** The type and version byte of a packet that is accepted. *)
Definition type_ok (b : N) : bool :=
  (N.land b 15 =? 1)%N && bool_decide (PacketType_try_from (N.shiftr b 4) ≠ None).

Lemma type_ok_from_packet t : type_ok (from_packet t) = true.
Proof. by destruct t. Qed.

Lemma type_ok_inv b : byte_ok b → type_ok b = true → ∃ t, b = from_packet t.
Proof.
  intros Hb Ht. unfold byte_ok in Hb.
  assert (Hall : forallb (fun n => negb (type_ok (N.of_nat n)) ||
    existsb (fun t => N.of_nat n =? from_packet t)%N [Data; Fin; State; Reset; Syn]) (seq 0 256) = true)
    by (vm_compute; reflexivity).
  rewrite forallb_forall in Hall. specialize (Hall (N.to_nat b)).
  rewrite N2Nat.id, Ht in Hall. cbn [negb orb] in Hall.
  assert (Hex := Hall ltac:(apply in_seq; lia)).
  apply existsb_exists in Hex as (t & _ & Ht'%N.eqb_eq). by exists t.
Qed.

Lemma header_try_from_spec buf :
  len buf = 20%N → header_try_from buf =
    if type_ok (type_ver (read_header buf)) then Ok (read_header buf) else Err InvalidData.
Proof.
  intros Hl. unfold header_try_from. rewrite Hl.
  replace (20 <? HEADER_LEN)%N with false by done. destruct buf as [|b buf]; [done|].
  replace (@index io_error _ (b :: buf) 0) with (@Ok io_error _ b) by done. cbn [mbind outcome_bind].
  assert (type_ver (read_header (b :: buf)) = b) as -> by apply be_val_byte.
  unfold type_ok. destruct (N.land b 15 =? 1)%N; [|done]. cbn [negb orb andb].
  by repeat case_bool_decide.
Qed.

Lemma packet_from_bytes_spec data :
  packet_from_bytes data =
    if (len data <? 20)%N then Panic
    else if type_ok (type_ver (read_header (take 20 data)))
    then Ok {| header := read_header (take 20 data); payload := drop 20 data |}
    else Err InvalidData.
Proof.
  unfold packet_from_bytes. destruct (N.ltb_spec (len data) 20) as [Hl|Hl].
  { rewrite (slice_out data 0 20) by lia. reflexivity. }
  rewrite (slice_ok data 0 20) by lia. cbn [mbind outcome_bind].
  change (window 0 (20 - 0) data) with (take 20 data).
  rewrite header_try_from_spec by (unfold len in *; rewrite length_take; lia).
  destruct (type_ok _); [|done]. cbn [mbind outcome_bind]. rewrite slice_ok by lia.
  cbn [mbind outcome_bind]. do 2 f_equal. unfold window. change (N.to_nat 20) with 20%nat.
  apply take_ge. unfold len in *. rewrite length_drop. lia.
Qed.

Lemma packet_from_into p : header_ok (header p) → packet_from_bytes (into_bytes p) = Ok p.
Proof.
  destruct p as [h pl]. intros Hh. cbn [header] in Hh. rewrite packet_from_bytes_spec. unfold into_bytes.
  cbn [header payload]. pose proof (len_to_bytes h) as Hl.
  rewrite len_app, Hl. destruct (N.ltb_spec (20 + len pl) 20); [lia|].
  unfold len in Hl. rewrite take_app_length', drop_app_length' by lia.
  rewrite read_to_bytes by done. destruct Hh as [[t ->] _]. by rewrite type_ok_from_packet.
Qed.

(** C17. A packet survives the wire: the bytes of a packet with a proper header
    are read back as the packet; and whatever bytes are accepted are the bytes
    of the packet read.  Other bytes are an error when there are at least 20 of
    them, and a panic when there are fewer. *)
Theorem utp_packet_roundtrip data :
  bytes_ok data →
  match packet_from_bytes data with
  | Ok p => header_ok (header p) ∧ bytes_ok (payload p) ∧ into_bytes p = data
  | Err _ => (20 <= len data)%N ∧ ∀ p, header_ok (header p) → into_bytes p ≠ data
  | Panic => (len data < 20)%N
  end ∧ ∀ p, header_ok (header p) → packet_from_bytes (into_bytes p) = Ok p.
Proof.
  intros Hb.
  pose proof packet_from_into as Hback. split; [|done].
  destruct (packet_from_bytes data) as [p|e|] eqn:Hp; rewrite packet_from_bytes_spec in Hp;
    destruct (N.ltb_spec (len data) 20) as [Hl|Hl]; try done;
    destruct (type_ok _) eqn:Ht; try done.
  - injection Hp as <-. cbn [header payload].
    assert (Hl' : len (take 20 data) = 20%N) by (unfold len in *; rewrite length_take; lia).
    assert (Hb' : bytes_ok (take 20 data)) by (by apply Forall_take).
    split; [|split; [by apply Forall_drop|]].
    + assert (Hw : ∀ a n k, n = N.of_nat k → (be_val (window a n (take 20 data)) < 256 ^ N.of_nat k)%N).
      { intros a n k ->. eapply N.lt_le_trans; [apply be_val_bound; by apply Forall_take, Forall_drop|].
        apply N.pow_le_mono_r; [done|]. rewrite len_window_min. lia. }
      split; [apply type_ok_inv; [apply (Hw _ 1%N 1%nat eq_refl)|done]|].
      split_and!; [apply (Hw _ _ 1%nat)|apply (Hw _ _ 2%nat)|apply (Hw _ _ 4%nat)|apply (Hw _ _ 4%nat)
        |apply (Hw _ _ 4%nat)|apply (Hw _ _ 2%nat)|apply (Hw _ _ 2%nat)]; done.
    + unfold into_bytes. cbn [header payload]. rewrite to_bytes_read by done. apply take_drop.
  - split; [done|]. intros p Hh Heq. apply Hback in Hh. rewrite Heq, packet_from_bytes_spec in Hh.
    destruct (N.ltb_spec (len data) 20); [done|]. by rewrite Ht in Hh.
Qed.

(** ** Acknowledgements *)
Section acks.
Context `{Build}.
Implicit Types (s : UtpStream) (l : list SentPacket).

Definition sent_seqs s : list N := (fun p => seq_nr (header (packet p))) <$> sent_packets s.

Lemma drop_acked_sorted a l :
  StronglySorted N.lt ((fun p => seq_nr (header (packet p))) <$> l) →
  drop_acked a l = filter (fun p => (a < seq_nr (header (packet p)))%N) l.
Proof.
  induction l as [|p l IH]; intros Hs; [done|]. cbn [fmap list_fmap] in Hs.
  inversion_clear Hs as [|?? Hs' Hp]. cbn [drop_acked].
  destruct (N.leb_spec (seq_nr (header (packet p))) a) as [Hle|Hgt].
  - rewrite filter_cons_False by lia. by apply IH.
  - rewrite filter_cons_True by done. f_equal. symmetry. apply filter_all.
    intros q Hq. rewrite Forall_fmap, Forall_forall in Hp. specialize (Hp q Hq). simpl in Hp. lia.
Qed.

Lemma retransmit_find_seqs now wnd seq l :
  (fun p => seq_nr (header (packet p))) <$> (retransmit_find now wnd seq l).1 =
  (fun p => seq_nr (header (packet p))) <$> l.
Proof.
  induction l as [|p l IH]; [done|]. cbn [retransmit_find].
  destruct (seq_nr (header (packet p)) =? seq)%N; [by destruct (retransmit_count p <? 10)%N|].
  destruct (retransmit_find now wnd seq l) as [l' r]. cbn in *. by rewrite IH.
Qed.

Lemma packet_loss_sent now seq s :
  sent_seqs (handle_packet_loss now seq s) = sent_seqs s ∧
  last_ack_nr (utp_header (handle_packet_loss now seq s)) = last_ack_nr (utp_header s).
Proof.
  unfold handle_packet_loss, retransmit_packet, sent_seqs. cbn [cc with_cc sent_packets].
  pose proof (retransmit_find_seqs now (window_ (packet_loss now (cc s))) seq (sent_packets s)) as Hf.
  destruct (retransmit_find _ _ _ _) as [l [p|]]; cbn in *; by rewrite Hf.
Qed.

(** The status a [State] packet brings, and nothing else. *)
Lemma acked_state s : ∃ s1,
  (if decide (state s = SynSent) then with_state Connected s else s) = s1 ∧
  utp_header s1 = utp_header s ∧ sent_packets s1 = sent_packets s ∧
  write_buf s1 = write_buf s ∧ cc s1 = cc s.
Proof. eexists. split; [done|]. by case_decide. Qed.

Lemma handle_state_new now hd s :
  StronglySorted N.lt (sent_seqs s) → (last_ack_nr (utp_header s) < ack_nr hd)%N →
  ∃ s', handle_state now hd s = (Ok tt, s') ∧
    sent_packets s' = filter (fun p => (ack_nr hd < seq_nr (header (packet p)))%N) (sent_packets s) ∧
    last_ack_nr (utp_header s') = ack_nr hd ∧ h_ack_nr (utp_header s') = seq_nr hd ∧
    ack_history (utp_header s') =
      filter (fun e : N * N => (ack_nr hd < e.1)%N) (ack_history (utp_header s)) ∧
    write_buf s' = write_buf s ∧ cc s' = cc s.
Proof.
  intros Hs Hlt. unfold handle_state. rewrite bind_action. cbn [modifyS].
  destruct (acked_state s) as (s1 & -> & Hh & Hp & Hw & Hc).
  rewrite bind_action. cbn [getS]. rewrite Hh. apply N.ltb_lt in Hlt. rewrite Hlt. cbn [orb].
  eexists. split; [done|]. cbn. rewrite Hp, Hw, Hc, Hh. split; [by apply drop_acked_sorted|done].
Qed.

Lemma handle_state_old now hd s r s' :
  last_ack_nr (utp_header s) ≠ 0%N → (ack_nr hd <= last_ack_nr (utp_header s))%N →
  handle_state now hd s = (r, s') → r ≠ Panic →
  r = Ok tt ∧ sent_seqs s' = sent_seqs s ∧ last_ack_nr (utp_header s') = last_ack_nr (utp_header s).
Proof.
  intros H0 Hle. unfold handle_state. rewrite bind_action. cbn [modifyS].
  destruct (acked_state s) as (s1 & -> & Hh & Hp & _). rewrite bind_action. cbn [getS]. rewrite Hh.
  apply N.eqb_neq in H0. rewrite H0, andb_false_r, orb_false_r.
  apply N.ltb_ge in Hle. rewrite Hle.
  assert (Hse : sent_seqs s1 = sent_seqs s) by (unfold sent_seqs; by rewrite Hp).
  unfold on_header, inc_duplicate_ack. rewrite bind_action, Hh, bind_action. cbn [getS].
  rewrite bind_action. cbn [lift].
  destruct (arith u32_max _) as [v|e|] eqn:Ha; [|by apply arith_no_err in Ha|by intros [= <- _]].
  rewrite bind_action. cbn [modifyS mret action_ret].
  destruct (3 <=? v)%N; [|by intros [= <- <-] _; cbn].
  rewrite bind_action. cbn [lift].
  destruct (arith u16_max _) as [q|e|] eqn:Hq; [|by apply arith_no_err in Hq|by intros [= <- _]].
  cbn [modifyS]. intros [= <- <-] _. split; [done|].
  by destruct (packet_loss_sent now q (with_header (fun _ => set_history
    (<[seq_nr hd := v]> (ack_history (utp_header s))) (utp_header s)) s1)) as [-> ->].
Qed.

(** A [Data] packet drops what it acknowledges, whatever was acknowledged
    before it, and is answered when there is nothing to send with data. *)
Lemma handle_data_acks now p s :
  StronglySorted N.lt (sent_seqs s) →
  ∃ s' answer, handle_data now p s = (Ok tt, s') ∧
    sent_packets s' = filter (fun q => (ack_nr (header p) < seq_nr (header (packet q)))%N)
      (sent_packets s) ++ answer ∧
    (answer = [] ↔ any_packet_to_send s = true) ∧
    last_ack_nr (utp_header s') = last_ack_nr (utp_header s).
Proof.
  intros Hs. unfold handle_data. rewrite !bind_action. unfold modifyS at 1.
  rewrite bind_action. unfold modifyS at 1. rewrite bind_action. cbn [getS].
  change (any_packet_to_send (process_new_ack _ _)) with (any_packet_to_send s).
  rewrite <- (drop_acked_sorted (ack_nr (header p)) (sent_packets s) Hs).
  destruct (any_packet_to_send s); eexists _, _; (split; [reflexivity|]);
    (split; [|split; [|reflexivity]]).
  - symmetry. apply app_nil_r.
  - done.
  - reflexivity.
  - done.
Qed.

(** C19. Handling acknowledgements, over the life of a stream.  A STATE packet
    that acknowledges more than the last removes exactly the packets it covers
    from those in flight, as long as their numbers have not wrapped, and forgets
    the duplicates counted for them; once a packet has been acknowledged, any
    other STATE removes nothing.  So once a STATE has acknowledged 65535, no
    STATE ever removes anything again, however many arrive: the comparison does
    not follow the numbers when they wrap.  A DATA packet is not compared: it
    removes what it acknowledges whatever the last acknowledgement, and does not
    become the last one itself. *)
Theorem utp_acks s :
  (∀ now p, StronglySorted N.lt (sent_seqs s) →
    ∃ s' answer, handle_data now p s = (Ok tt, s') ∧
      sent_packets s' = filter (fun q => (ack_nr (header p) < seq_nr (header (packet q)))%N)
        (sent_packets s) ++ answer ∧
      (answer = [] ↔ any_packet_to_send s = true) ∧
      last_ack_nr (utp_header s') = last_ack_nr (utp_header s)) ∧
  (last_ack_nr (utp_header s) ≠ 0%N →
  (∀ now hd, StronglySorted N.lt (sent_seqs s) → (last_ack_nr (utp_header s) < ack_nr hd)%N →
    ∃ s', handle_state now hd s = (Ok tt, s') ∧
      sent_packets s' = filter (fun p => (ack_nr hd < seq_nr (header (packet p)))%N) (sent_packets s) ∧
      last_ack_nr (utp_header s') = ack_nr hd ∧ h_ack_nr (utp_header s') = seq_nr hd ∧
      ack_history (utp_header s') =
        filter (fun e : N * N => (ack_nr hd < e.1)%N) (ack_history (utp_header s)) ∧
      write_buf s' = write_buf s ∧ cc s' = cc s) ∧
  (∀ (acks : list (N * Header)) r s',
    Forall (fun e => ack_nr e.2 <= last_ack_nr (utp_header s))%N acks →
    forM (fun e => handle_state e.1 e.2) acks s = (r, s') → r ≠ Panic →
    r = Ok tt ∧ sent_seqs s' = sent_seqs s) ∧
  (last_ack_nr (utp_header s) = u16_max → ∀ acks r s',
    Forall (fun e : N * Header => ack_nr e.2 < 2 ^ 16)%N acks →
    forM (fun e => handle_state e.1 e.2) acks s = (r, s') → r ≠ Panic →
    r = Ok tt ∧ sent_seqs s' = sent_seqs s)).
Proof.
  split; [intros now p; apply handle_data_acks|]. intros H0. split; [intros now hd; apply handle_state_new|].
  assert (Hold : ∀ (acks : list (N * Header)) s r s', last_ack_nr (utp_header s) ≠ 0%N →
    Forall (fun e => ack_nr e.2 <= last_ack_nr (utp_header s))%N acks →
    forM (fun e => handle_state e.1 e.2) acks s = (r, s') → r ≠ Panic →
    r = Ok tt ∧ sent_seqs s' = sent_seqs s).
  { clear. intros acks. induction acks as [|[now hd] acks IH]; intros s r s' H0 Ha.
    - by intros [= <- <-] _.
    - inversion_clear Ha as [|?? Hle Ha']. cbn [forM fst snd]. rewrite bind_action.
      destruct (handle_state now hd s) as [r1 s1] eqn:H1. intros Hf Hr.
      destruct (handle_state_old now hd s r1 s1 H0 Hle H1) as (-> & Hs1 & Hl1).
      { intros ->. by injection Hf as <- _. }
      destruct (IH s1 r s') as [-> Hs']; [by rewrite Hl1|by rewrite Hl1|done|done|].
      split; [done|]. by rewrite Hs'. }
  split; [intros acks r s'; by apply Hold|].
  intros Hmax acks r s' Ha. apply Hold; [done|].
  eapply Forall_impl; [exact Ha|]. intros e He. cbn beta in He. rewrite Hmax. unfold u16_max. lia.
Qed.

End acks.

(** ** Connecting *)
Section connect.
Context `{Build}.

(** The packet [send_syn] sends, from a fresh stream *)
Definition syn_packet (id now : N) : Packet := {| payload := []; header := {|
  type_ver := from_packet Syn; extension := 0; conn_id := id; timestamp := now;
  timestamp_diff := 0; wnd_size := 65536; seq_nr := 0; ack_nr := 0 |} |}.

Lemma arith_succ16 {E} id : (id < u16_max)%N → @arith E _ u16_max (Z.of_N id + 1) = Ok (id + 1)%N.
Proof. intros. rewrite arith_ok by lia. f_equal. lia. Qed.

(** The two streams after the SYN *)
Record syn_sent id t0 t1 s : Prop := {
  ss_state : state s = SynSent;
  ss_cc : cc s = CongestionControl_default t0;
  ss_write : write_buf s = [];
  ss_sent : sent_packets s = [{| packet := syn_packet id t1; retransmit_count := 0 |}];
  ss_header : utp_header s = set_nrs 1 0 0 (set_ids (id + 1) id (set_times 0 t1 UtpHeader_default));
}.
Record syn_taken id rnd t1 t2 s : Prop := {
  st_state : state s = SynRecv;
  st_cc : cc s = CongestionControl_default t2;
  st_sent : sent_packets s = [];
  st_write : write_buf s = [];
  st_header : utp_header s = set_nrs rnd 0 0 (set_ids id (id + 1) (set_times t1 0 UtpHeader_default));
}.
Lemma send_syn_new id t0 t1 :
  (id < u16_max)%N →
  ∃ s1, send_syn id t1 (UtpStream_new t0) = (Ok (into_bytes (syn_packet id t1)), s1) ∧
    syn_sent id t0 t1 s1.
Proof.
  intros Hid. eexists. split.
  - unfold send_syn, new_syn, on_header.
    rewrite !bind_action. cbn [getS]. rewrite !bind_action. unfold modifyS at 1. cbv beta iota.
    rewrite !bind_action. cbn [lift]. rewrite arith_succ16 by done. cbv beta iota.
    rewrite !bind_action. unfold into_bytes. cbn [payload]. rewrite app_nil_r. reflexivity.
  - by split.
Qed.

Lemma syn_packet_ok id t1 : (id < u16_max)%N → (t1 < 2 ^ 32)%N → header_ok (header (syn_packet id t1)).
Proof.
  intros. unfold u16_max in *. split; [by exists Syn|].
  cbn [header syn_packet conn_id timestamp]. split_and!; try done; lia.
Qed.

Lemma accept_syn id rnd t1 t2 :
  (id < u16_max)%N → (t1 < 2 ^ 32)%N →
  ∃ r1, accept t2 rnd (into_bytes (syn_packet id t1)) = Ok r1 ∧
    syn_taken id rnd t1 t2 r1.
Proof.
  intros Hid Ht. eexists. split.
  - unfold accept, into_bytes. cbn [payload syn_packet]. rewrite app_nil_r.
    rewrite bind_action. unfold header_from_bytes. rewrite len_to_bytes. cbn [lift].
    change (20 =? HEADER_LEN)%N with true. cbv beta iota.
    rewrite read_to_bytes by (by apply syn_packet_ok).
    unfold handle_syn. rewrite bind_action. unfold modifyS at 1. rewrite decide_True by done.
    unfold on_header, header_handle_syn. rewrite !bind_action.
    unfold modifyS at 1. rewrite bind_action. cbn [lift header syn_packet conn_id].
    rewrite arith_succ16 by done. reflexivity.
  - by split.
Qed.

Lemma handle_data_idle now p s :
  write_buf s = [] →
  handle_data now p s = send_state now (process_new_ack (ack_nr (header p))
    (with_header (header_handle_data (header p)) (with_state Connected s))).
Proof.
  intros Hw. unfold handle_data. rewrite !bind_action. unfold modifyS at 1.
  rewrite bind_action. unfold modifyS at 1. rewrite bind_action. cbn [getS].
  unfold any_packet_to_send. change (write_buf (process_new_ack _ _)) with (write_buf s).
  by rewrite Hw.
Qed.

(** A socket that takes the packets of [l] in this order, and fails for
    anything else it is given.  Together with the failure on a socket that takes
    nothing, a call that succeeds on it has sent. *)
Definition takes (l : list Packet) (i : nat) (bs : list N) : poll (option N) :=
  if decide (into_bytes <$> l !! i = Some bs) then Ready (Some (len bs)) else Ready None.

Lemma takes_ok l i p : l !! i = Some p → takes l i (into_bytes p) = Ready (Some (len (into_bytes p))).
Proof. intros Hp. unfold takes. rewrite Hp. by rewrite decide_True. Qed.

Lemma flush_one p : flush_loop (takes [p]) 0 [p] =
  ([{| packet := p; retransmit_count := 0 |}], [], false).
Proof. cbn [flush_loop]. rewrite takes_ok by done. cbn [flush_loop]. by rewrite N.eqb_refl. Qed.

Lemma update_base_delay_now now diff c l :
  diff_timestamp_history c = l → Forall (fun e => e.1 = now) l →
  ∃ d, update_base_delay now diff c = Ok (with_base_delay d (l ++ [(now, diff)]) c).
Proof.
  intros Hc Hl. unfold update_base_delay. rewrite Hc.
  assert (drop_old now (l ++ [(now, diff)]) = Ok (l ++ [(now, diff)])) as ->.
  { destruct Hl as [|[t d] l Ht Hl]; cbn in *; subst; rewrite Z.sub_diag; by rewrite arith_ok. }
  cbn [mbind outcome_bind]. by eexists.
Qed.

Lemma f_as_uint_le m x : (f_as_uint m x <= m)%N.
Proof. unfold f_as_uint. repeat case_match; lia. Qed.

(** The first packet a stream receives measures the delay without a panic. *)
Lemma on_packet_acked_first now n diff s :
  diff_timestamp_history (cc s) = [] → (window_ (cc s) <= u32_max)%N →
  ∃ c, on_packet_acked now n diff s = (Ok tt, with_cc c s) ∧ (window_ c <= u32_max)%N.
Proof.
  intros Hh Hw.
  assert (Hr : ∃ c l, update_rtt now (get_rtt now (utp_header s)) diff (cc s) = Ok c ∧
    diff_timestamp_history c = l ∧ Forall (fun e => e.1 = now) l ∧ (window_ c <= u32_max)%N).
  { unfold update_rtt. destruct (_ =? 0)%N; [by exists (cc s), []; rewrite Hh|].
    destruct (update_base_delay_now now diff (cc s) [] Hh ltac:(done)) as [d ->].
    cbn [mbind outcome_bind]. eexists _, _. split; [done|]. split; [reflexivity|].
    by split; [repeat constructor|]. }
  destruct Hr as (c1 & l & Hr & Hl & Hn & Hw1).
  assert (Hu : ∃ c, update_window now n diff c1 = Ok c ∧ (window_ c <= u32_max)%N).
  { unfold update_window. destruct (update_base_delay_now now diff c1 l Hl Hn) as [d ->].
    cbn [mbind outcome_bind]. destruct (_ <? _)%N; [by eexists|]. eexists. split; [done|].
    unfold apply_window_decay, packet_loss. case_match; apply f_as_uint_le. }
  destruct Hu as (c & Hu & Hc). exists c. split; [|done].
  unfold on_packet_acked. rewrite bind_action. cbn [getS]. rewrite bind_action, Hr. cbn [lift].
  rewrite !bind_action. cbn [modifyS]. rewrite bind_action, Hu. cbn [lift modifyS]. by destruct s.
Qed.

(** What a stream does with the first packet it receives. *)
Lemma receive_first now p s n :
  header_ok (header p) → diff_timestamp_history (cc s) = [] → (window_ (cc s) <= u32_max)%N →
  outstanding (sent_packets s) = Ok n →
  ∃ c, (window_ c <= u32_max)%N ∧ ∀ rnd send t,
    packet_type (type_ver (header p)) = Ok t →
    try_receive_packet now rnd send (into_bytes p) s =
    match t with
    | Data => handle_data now p ≫= fun _ => resend_last send p
    | State => handle_state now (header p) ≫= fun _ => mret (Ready p)
    | Syn => handle_syn rnd (header p) ≫= fun _ => send_state now ≫= fun _ => resend_last send p
    | Fin => handle_fin (header p) ≫= fun _ => mret (Ready p)
    | Reset => handle_reset (header p) ≫= fun _ => mret (Ready p)
    end (with_cc c s).
Proof.
  intros Hp Hh Hw Hn.
  destruct (on_packet_acked_first now n (timestamp_diff (header p)) s Hh Hw) as (c & Hc & Hcw).
  exists c. split; [done|]. intros rnd send t Ht. unfold try_receive_packet.
  rewrite bind_action, (packet_from_into p Hp). cbn [lift].
  rewrite bind_action. cbn [getS]. rewrite bind_action, Hn. cbn [lift].
  rewrite bind_action, Hc. by rewrite bind_action, Ht.
Qed.
(** The packet of type [t] a stream numbers next. *)
Definition next_packet (t : PacketType) (now : N) (bs : list N) s : Packet :=
  {| header := (new_numbered t now (window_ (cc s)) (utp_header s)).1; payload := bs |}.

Lemma numbered_ok t now w h :
  (now < 2 ^ 32)%N → (w <= u32_max)%N → (conn_id_send h < 2 ^ 16)%N →
  (h_seq_nr h < 2 ^ 16)%N → (h_ack_nr h < 2 ^ 16)%N → header_ok (new_numbered t now w h).1.
Proof.
  intros. unfold u32_max in *. split; [by exists t|]. cbn.
  unfold get_timestamp_diff. split_and!; try done; lia.
Qed.

(** [send_state], and the packet it leaves sent at once. *)
Lemma answer_state now s (p : Packet) :
  let st := next_packet State now [] s in
  ∃ s', (send_state now ≫= fun _ => resend_last (takes [st] 0) p) s = (Ok (Ready p), s') ∧
    ((send_state now ≫= fun _ => resend_last (fun _ => Ready None) p) s).1 = Err OtherError ∧
    sent_packets s' = sent_packets s ++ [{| packet := st; retransmit_count := 0 |}] ∧
    state s' = state s ∧ conn_id_recv (utp_header s') = conn_id_recv (utp_header s).
Proof.
  intros st. assert (∀ send, ∃ s', (send_state now ≫= fun _ => resend_last send p) s =
    (match send (into_bytes st) with Pending => Ok Pending | Ready (Some _) => Ok (Ready p) | Ready None => Err OtherError end, s') ∧
    sent_packets s' = sent_packets s ++ [{| packet := st; retransmit_count := 0 |}] ∧
    state s' = state s ∧ conn_id_recv (utp_header s') = conn_id_recv (utp_header s)) as Hsend.
  2: { destruct (Hsend (takes [st] 0)) as (s' & Hr & Hs'). destruct (Hsend (fun _ => Ready None)) as (s2 & Hr2 & _).
    exists s'. rewrite Hr2, Hr, takes_ok by done. by split_and!; try apply Hs'. }
  intros send. eexists. split.
  { rewrite bind_action. unfold send_state, on_header'. rewrite !bind_action. cbn [getS].
  rewrite bind_action. cbn [new_state new_numbered next_seq_nr modifyS]. unfold resend_last.
  rewrite bind_action. cbn [getS].
  match goal with |- context [list.last (sent_packets ?s')] =>
    assert (list.last (sent_packets s') = Some {| packet := st; retransmit_count := 0 |}) as ->
      by (cbn; by rewrite last_snoc) end.
  cbn [packet]. by destruct (send (into_bytes st)) as [|[]]. }
  by split_and!.
Qed.

(** The first packet is a [Data] packet, and the stream has nothing to write:
    it is connected and answers with a [State]. *)
Lemma receive_data_first now rnd p s :
  header_ok (header p) → type_ver (header p) = from_packet Data →
  diff_timestamp_history (cc s) = [] → (window_ (cc s) <= u32_max)%N →
  sent_packets s = [] → write_buf s = [] →
  ∃ w st s', (w <= u32_max)%N ∧
    try_receive_packet now rnd (takes [st] 0) (into_bytes p) s = (Ok (Ready p), s') ∧
    (try_receive_packet now rnd (fun _ => Ready None) (into_bytes p) s).1 = Err OtherError ∧
    state s' = Connected ∧ sent_packets s' = [{| packet := st; retransmit_count := 0 |}] ∧
    st = {| header := (new_state now w (header_handle_data (header p) (utp_header s))).1; payload := [] |}.
Proof.
  intros Hp Ht Hh Hw Hs Hb.
  destruct (receive_first now p s 0 Hp Hh Hw ltac:(by rewrite Hs)) as (c & Hcw & Hrec).
  set (s1 := process_new_ack (ack_nr (header p))
    (with_header (header_handle_data (header p)) (with_state Connected (with_cc c s)))).
  destruct (answer_state now s1 p) as (s' & Hr & Hr2 & Hsent & Hst & _).
  exists (window_ c), (next_packet State now [] s1), s'.
  split; [done|]. split_and!; [| |done|by rewrite Hsent; cbn; rewrite Hs|done];
    rewrite Hrec with (t := Data) by (by rewrite Ht); rewrite bind_action, (handle_data_idle now p (with_cc c s) Hb).
  - rewrite <- Hr. by rewrite bind_action.
  - rewrite <- Hr2. by rewrite bind_action.
Qed.

(** The first packet is a [Syn] again: it is answered. *)
Lemma receive_syn_first now rnd p s :
  header_ok (header p) → type_ver (header p) = from_packet Syn → (conn_id (header p) < u16_max)%N →
  diff_timestamp_history (cc s) = [] → (window_ (cc s) <= u32_max)%N →
  sent_packets s = [] → state s ≠ Closed →
  ∃ w st s', (w <= u32_max)%N ∧
    try_receive_packet now rnd (takes [st] 0) (into_bytes p) s = (Ok (Ready p), s') ∧
    (try_receive_packet now rnd (fun _ => Ready None) (into_bytes p) s).1 = Err OtherError ∧
    state s' = state s ∧ sent_packets s' = [{| packet := st; retransmit_count := 0 |}] ∧
    st = {| header := (new_state now w (set_nrs rnd (seq_nr (header p)) (last_ack_nr (utp_header s))
      (set_ids (conn_id (header p)) (conn_id (header p) + 1)
        (set_times (timestamp (header p)) (last_sent_packet_timestamp (utp_header s)) (utp_header s))))).1;
      payload := [] |}.
Proof.
  intros Hp Ht Hid Hh Hw Hs Hcl.
  destruct (receive_first now p s 0 Hp Hh Hw ltac:(by rewrite Hs)) as (c & Hcw & Hrec).
  set (h := set_nrs rnd (seq_nr (header p)) (last_ack_nr (utp_header s))
    (set_ids (conn_id (header p)) (conn_id (header p) + 1)
      (set_times (timestamp (header p)) (last_sent_packet_timestamp (utp_header s)) (utp_header s)))).
  set (s1 := with_header (fun _ => h) (with_cc c s)).
  destruct (answer_state now s1 p) as (s' & Hr & Hr2 & Hsent & Hst & _).
  assert (handle_syn rnd (header p) (with_cc c s) = (Ok tt, s1)) as Hsyn.
  { unfold handle_syn. rewrite bind_action. unfold modifyS at 1. rewrite decide_False by done.
    unfold on_header, header_handle_syn. rewrite bind_action. unfold modifyS at 1.
    rewrite bind_action. cbn [lift]. by rewrite arith_succ16. }
  exists (window_ c), (next_packet State now [] s1), s'.
  split; [done|]. split_and!; [| |done|by rewrite Hsent; cbn; rewrite Hs|done];
    rewrite Hrec with (t := Syn) by (by rewrite Ht); by rewrite bind_action, Hsyn.
Qed.

(** The first packet is a [State] that acknowledges all that is in flight. *)
Lemma receive_state_first now rnd send p s n :
  header_ok (header p) → type_ver (header p) = from_packet State →
  diff_timestamp_history (cc s) = [] → (window_ (cc s) <= u32_max)%N →
  state s = SynSent → last_ack_nr (utp_header s) = 0%N →
  outstanding (sent_packets s) = Ok n →
  drop_acked (ack_nr (header p)) (sent_packets s) = [] →
  ∃ s', try_receive_packet now rnd send (into_bytes p) s = (Ok (Ready p), s') ∧
    state s' = Connected ∧ sent_packets s' = [] ∧ h_ack_nr (utp_header s') = seq_nr (header p).
Proof.
  intros Hp Ht Hh Hw Hst Hl Hn Hd.
  destruct (receive_first now p s n Hp Hh Hw Hn) as (c & Hcw & Hrec).
  eexists. split; [|split_and!].
  - rewrite Hrec with (t := State) by (by rewrite Ht). rewrite bind_action.
    unfold handle_state. rewrite bind_action. unfold modifyS at 1. rewrite decide_True by done.
    rewrite bind_action. cbn [getS].
    change (utp_header (with_state Connected (with_cc c s))) with (utp_header s). rewrite Hl.
    assert ((0 <? ack_nr (header p))%N || ((ack_nr (header p) =? 0)%N && (0 =? 0)%N) = true) as ->
      by (destruct (ack_nr (header p)); done).
    reflexivity.
  - reflexivity.
  - exact Hd.
  - reflexivity.
Qed.

(** A packet written and flushed while nothing in flight times out *)
Lemma write_flush t t' data s :
  timed_out t (timeout (cc s)) (sent_packets s) = None →
  timed_out t' (timeout (cc s)) (sent_packets s) = None → write_buf s = [] →
  let dp := next_packet Data t data s in
  ∃ s2 s3, poll_write t data s = (Ok (len data), s2) ∧ poll_flush t' (takes [dp]) s2 = (Ok tt, s3) ∧
    (poll_flush t' (fun _ _ => Ready None) s2).1 = Err OtherError ∧
    sent_packets s3 = sent_packets s ++ [{| packet := dp; retransmit_count := 0 |}] ∧
    state s3 = state s ∧ cc s3 = cc s ∧ last_ack_nr (utp_header s3) = last_ack_nr (utp_header s) ∧
    conn_id_recv (utp_header s3) = conn_id_recv (utp_header s).
Proof.
  intros Ht Ht' Hb dp.
  set (s2 := with_write_buf [dp] (with_header (fun _ => (new_data t (window_ (cc s)) (utp_header s)).2) s)).
  assert (check_timeouts t' s2 = s2) as Hs2 by (unfold check_timeouts; cbn; by rewrite Ht').
  exists s2. eexists. split; [|split; [|split]].
  - unfold poll_write, push_to_write_buf. rewrite !bind_action. cbn [getS].
    unfold on_header'. rewrite bind_action. cbn [new_data new_numbered next_seq_nr modifyS].
    rewrite bind_action. cbn [modifyS mret action_ret]. f_equal.
    unfold check_timeouts. cbn [cc sent_packets with_write_buf with_header]. rewrite Ht.
    unfold s2, with_write_buf, with_header. cbn. by rewrite Hb.
  - unfold poll_flush. rewrite bind_action. unfold modifyS at 1. rewrite Hs2.
    rewrite bind_action. cbn [getS]. change (write_buf s2) with [dp]. rewrite flush_one.
    rewrite bind_action. cbn [modifyS]. reflexivity.
  - unfold poll_flush. rewrite bind_action. unfold modifyS at 1. by rewrite Hs2.
  - by split_and!.
Qed.

(** The only packet in flight times out: it is sent again. *)
Lemma flush_again t p s :
  sent_packets s = [{| packet := p; retransmit_count := 0 |}] → write_buf s = [] →
  (timeout (cc s) <= t - timestamp (header p))%N →
  ∃ p' s', poll_flush t (takes [p']) s = (Ok tt, s') ∧
    (poll_flush t (fun _ _ => Ready None) s).1 = Err OtherError ∧
    sent_packets s' = [{| packet := p'; retransmit_count := 1 |}; {| packet := p'; retransmit_count := 0 |}] ∧
    state s' = state s ∧ cc s' = packet_loss t (cc s) ∧
    last_ack_nr (utp_header s') = last_ack_nr (utp_header s) ∧
    conn_id_recv (utp_header s') = conn_id_recv (utp_header s) ∧
    payload p' = payload p ∧ header p' = let h := header p in
      {| type_ver := type_ver h; extension := extension h; conn_id := conn_id h; timestamp := t;
         timestamp_diff := timestamp_diff h; wnd_size := window_ (packet_loss t (cc s));
         seq_nr := seq_nr h; ack_nr := ack_nr h |}.
Proof.
  intros Hs Hb Ht. destruct s as [hd st c inc sent wb]. cbn [sent_packets write_buf cc] in *. subst.
  eexists {| header := _; payload := payload p |}, _. split; [|split_and!; [..|reflexivity]].
  - unfold poll_flush. rewrite bind_action. unfold modifyS at 1.
    unfold check_timeouts. cbn [cc sent_packets timed_out packet].
    apply N.leb_le in Ht. rewrite Ht. unfold handle_packet_loss, retransmit_packet.
    cbn [cc with_cc sent_packets retransmit_find packet]. rewrite N.eqb_refl.
    cbn [retransmit_count]. change (0 <? 10)%N with true. cbv beta iota.
    rewrite bind_action. cbn [getS write_buf with_header with_write_buf with_sent with_cc app].
    rewrite flush_one. rewrite bind_action. cbn [modifyS]. reflexivity.
  - unfold poll_flush. rewrite bind_action. unfold modifyS at 1.
    unfold check_timeouts. cbn [cc sent_packets timed_out packet].
    apply N.leb_le in Ht. rewrite Ht. unfold handle_packet_loss, retransmit_packet.
    cbn [cc with_cc sent_packets retransmit_find packet]. rewrite N.eqb_refl.
    cbn [retransmit_count]. change (0 <? 10)%N with true. reflexivity.
  - reflexivity.
  - reflexivity.
  - reflexivity.
  - reflexivity.
  - reflexivity.
  - reflexivity.
Qed.

Lemma outstanding_two p q :
  payload (packet p) = [] → outstanding [p; q] = Ok (as_u32 (len (payload (packet q)))).
Proof.
  intros Hp. unfold outstanding. cbn [foldl]. rewrite Hp. cbn [mbind outcome_bind].
  pose proof (N.mod_lt (len (payload (packet q))) (2 ^ 32)). unfold as_u32.
  rewrite arith_ok by done. cbn [mbind outcome_bind]. rewrite arith_ok; [f_equal; lia|].
  unfold u32_max. lia.
Qed.

Lemma data_connects id rnd rnd' t0 t1 t2 t3 t4 t5 t6 data s1 r1 :
  (id < u16_max)%N → (rnd < 2 ^ 16)%N → (t3 < 2 ^ 32)%N → (t5 < 2 ^ 32)%N →
  (t3 - t1 < MIN_TIMEOUT)%N → (t4 - t1 < MIN_TIMEOUT)%N → syn_sent id t0 t1 s1 → syn_taken id rnd t1 t2 r1 →
  ∃ dp s2 s3 st r2 s4,
   (poll_write t3 data s1 = (Ok (len data), s2) ∧ poll_flush t4 (takes [dp]) s2 = (Ok tt, s3) ∧
    (poll_flush t4 (fun _ _ => Ready None) s2).1 = Err OtherError ∧ state s3 = SynSent ∧
    sent_packets s3 = sent_packets s1 ++ [{| packet := dp; retransmit_count := 0 |}]) ∧
   (payload dp = data ∧ seq_nr (header dp) = 1%N ∧ conn_id (header dp) = conn_id_recv (utp_header r1)) ∧
   (try_receive_packet t5 rnd' (takes [st] 0) (into_bytes dp) r1 = (Ok (Ready dp), r2) ∧
    (try_receive_packet t5 rnd' (fun _ => Ready None) (into_bytes dp) r1).1 = Err OtherError ∧
    state r2 = Connected ∧ sent_packets r2 = [{| packet := st; retransmit_count := 0 |}]) ∧
   (type_ver (header st) = from_packet State ∧ ack_nr (header st) = 1%N ∧
    seq_nr (header st) = rnd ∧ conn_id (header st) = conn_id_recv (utp_header s3)) ∧
   try_receive_packet t6 rnd' (takes [] 0) (into_bytes st) s3 = (Ok (Ready st), s4) ∧
   state s4 = Connected ∧ sent_packets s4 = [] ∧ h_ack_nr (utp_header s4) = rnd.
Proof.
  intros Hid Hr H3 H5 Ht3 Ht4 [Hst Hcc Hwb Hsent Hh] [Hrst Hrcc Hrsent Hrwb Hrh].
  assert (Hid' : (id + 1 < 2 ^ 16)%N) by (unfold u16_max in *; lia).
  assert (Hto : ∀ t, (t - t1 < MIN_TIMEOUT)%N → timed_out t (timeout (cc s1)) (sent_packets s1) = None).
  { intros t Ht. rewrite Hsent, Hcc. cbn [timed_out packet header syn_packet timestamp].
    apply N.leb_gt in Ht. change (timeout _) with MIN_TIMEOUT. by rewrite Ht. }
  destruct (write_flush t3 t4 data s1 (Hto t3 Ht3) (Hto t4 Ht4) Hwb)
    as (s2 & s3 & Hwr & Hfl & Hff & Hs3 & Hst3 & Hcc3 & Hl3 & Hc3).
  set (dp := next_packet Data t3 data s1) in *.
  assert (Hdp : header_ok (header dp)).
  { apply numbered_ok; rewrite ?Hcc, ?Hh; cbn; done || lia. }
  destruct (receive_data_first t5 rnd' dp r1 Hdp eq_refl) as (w & st & r2 & Hw' & Hrec & Hrf & Hr2 & Hrs2 & Hst');
    [by rewrite Hrcc|by rewrite Hrcc|done|done|].
  assert (Hsth : type_ver (header st) = from_packet State ∧ ack_nr (header st) = 1%N ∧
    seq_nr (header st) = rnd ∧ conn_id (header st) = id) by (rewrite Hst', Hrh; cbn; by rewrite Hh).
  destruct Hsth as (Hsty & Hsa & Hss & Hsc).
  assert (Hsok : header_ok (header st)).
  { rewrite Hst'. apply numbered_ok; rewrite ?Hrh; cbn; rewrite ?Hh; done || (unfold u16_max in *; lia). }
  destruct (receive_state_first t6 rnd' (takes [] 0) st s3 (as_u32 (len data)) Hsok Hsty) as (s4 & Hrec4 & H4s & H4p & H4a);
    [by rewrite Hcc3, Hcc|by rewrite Hcc3, Hcc|by rewrite Hst3|by rewrite Hl3, Hh
    |by rewrite Hs3, Hsent; apply outstanding_two|by rewrite Hs3, Hsent, Hsa; cbn; rewrite Hh|].
  exists dp, s2, s3, st, r2, s4. rewrite Hst3, Hc3, Hh, Hrh.
  split_and!; (done || congruence || (cbn; rewrite ?Hh; done)).
Qed.
Lemma syn_again_connects id rnd rnd' t0 t1 t2 t4 t5 t6 s1 r1 :
  (id < u16_max)%N → (rnd' < 2 ^ 16)%N → (t1 < 2 ^ 32)%N → (t4 < 2 ^ 32)%N → (t5 < 2 ^ 32)%N →
  (MIN_TIMEOUT <= t4 - t1)%N → syn_sent id t0 t1 s1 → syn_taken id rnd t1 t2 r1 →
   ∃ syn' s2 st r2 s3,
   (poll_flush t4 (takes [syn']) s1 = (Ok tt, s2) ∧
    (poll_flush t4 (fun _ _ => Ready None) s1).1 = Err OtherError ∧ state s2 = SynSent) ∧
   (try_receive_packet t5 rnd' (takes [st] 0) (into_bytes syn') r1 = (Ok (Ready syn'), r2) ∧
    (try_receive_packet t5 rnd' (fun _ => Ready None) (into_bytes syn') r1).1 = Err OtherError ∧
    state r2 = SynRecv ∧ sent_packets r2 = [{| packet := st; retransmit_count := 0 |}]) ∧
   (type_ver (header st) = from_packet State ∧ ack_nr (header st) = 0%N ∧
    seq_nr (header st) = rnd' ∧ conn_id (header st) = conn_id_recv (utp_header s2)) ∧
   try_receive_packet t6 rnd' (takes [] 0) (into_bytes st) s2 = (Ok (Ready st), s3) ∧
   state s3 = Connected ∧ sent_packets s3 = [] ∧ h_ack_nr (utp_header s3) = rnd'.
Proof.
  intros Hid Hr' H1 H4 H5 Ht4 [Hst Hcc Hwb Hsent Hh] [Hrst Hrcc Hrsent Hrwb Hrh].
  assert (Hid' : (id + 1 < 2 ^ 16)%N) by (unfold u16_max in *; lia).
  destruct (flush_again t4 (syn_packet id t1) s1 Hsent Hwb) as (syn' & s2 & Hfl & Hff & Hs2 & Hst2 & Hcc2 & Hl2 & Hc2 & Hpl & Hhd);
    [by rewrite Hcc|].
  assert (Hty : type_ver (header syn') = from_packet Syn ∧ conn_id (header syn') = id ∧
    seq_nr (header syn') = 0%N) by (by rewrite Hhd).
  destruct Hty as (Hty & Hci & Hsq).
  assert (Hsyok : header_ok (header syn')).
  { rewrite Hhd. destruct (syn_packet_ok id t1 Hid H1) as (Ht & Hx). split; [exact Ht|].
    rewrite Hcc. cbn in Hx |- *. split_and!; done || (unfold u16_max in *; lia). }
  destruct (receive_syn_first t5 rnd' syn' r1 Hsyok Hty) as (w & st & r2 & Hw' & Hrec & Hrf & Hr2 & Hrs2 & Hst');
    [by rewrite Hci|by rewrite Hrcc|by rewrite Hrcc|done|by rewrite Hrst|].
  assert (Hsth : type_ver (header st) = from_packet State ∧ ack_nr (header st) = 0%N ∧
    seq_nr (header st) = rnd' ∧ conn_id (header st) = id) by (rewrite Hst', Hci, Hsq; done).
  destruct Hsth as (Hsty & Hsa & Hss & Hsc).
  assert (Hsok : header_ok (header st)).
  { rewrite Hst'. apply numbered_ok; cbn; rewrite ?Hci, ?Hsq; done || (unfold u16_max in *; lia). }
  destruct (receive_state_first t6 rnd' (takes [] 0) st s2 0 Hsok Hsty) as (s3 & Hrec3 & H3s & H3p & H3a);
    [by rewrite Hcc2, Hcc|by rewrite Hcc2, Hcc|by rewrite Hst2|by rewrite Hl2, Hh
    |by rewrite Hs2; cbn; rewrite Hpl|by rewrite Hs2, Hsa; cbn; rewrite Hsq|].
  exists syn', s2, st, r2, s3. rewrite Hst2, Hc2, Hh.
  split_and!; (done || congruence || (cbn; rewrite ?Hh; done)).
Qed.


End connect.

(** ** At concrete inputs *)
Section witnesses.
#[local] Existing Instance dev.

Definition ex_header (t : PacketType) (seq ack : N) : Header := {|
  type_ver := from_packet t; extension := 0; conn_id := 12345; timestamp := 1000000;
  timestamp_diff := 500000; wnd_size := 10000; seq_nr := seq; ack_nr := ack |}.
Definition ex_sent (seq : N) : SentPacket :=
  {| packet := {| header := ex_header Data seq 0; payload := [1%N] |}; retransmit_count := 0 |}.
Definition ex_stream (last : N) : UtpStream :=
  with_header (set_nrs 7 1 last) (with_sent [ex_sent 3; ex_sent 5] (UtpStream_new 0)).

(** The type bytes of the unit tests. *)
Example type_ver_creation : from_packet <$> [Syn; Data; Reset; Fin; State] = [65; 1; 49; 17; 33]%N.
Proof. reflexivity. Qed.

(** The window of the unit test [congestion_control_formula]. *)
Example congestion_control_formula :
  window_ <$> (c ← update_base_delay 1000000 100000 (CongestionControl_default 1000000);
    update_window 1000000 15000 150000 (with_window 30000 (1000000 - 200000) 1000000 c)) = Ok 30750%N.
Proof. vm_compute. reflexivity. Qed.

Lemma utp_packet_roundtrip_witness :
  packet_from_bytes (into_bytes (packet (ex_sent 3))) = Ok (packet (ex_sent 3)).
Proof.
  apply (utp_packet_roundtrip []); [constructor|].
  split; [by exists Data|]. by vm_compute.
Defined.


Lemma utp_acks_witness :
  (∃ s', handle_state 0 (ex_header State 9 4) (ex_stream 2) = (Ok tt, s') ∧ sent_packets s' = [ex_sent 5]) ∧
  (∃ s', forM (fun e => handle_state e.1 e.2) [(0, ex_header State 9 4); (0, ex_header State 10 6)]%N
     (ex_stream 65535) = (Ok tt, s') ∧ sent_seqs s' = [3; 5]%N) ∧
  (∃ s' answer, handle_data 0 {| header := ex_header Data 9 4; payload := [1%N] |} (ex_stream 65535) = (Ok tt, s') ∧
     sent_packets s' = ex_sent 5 :: answer).
Proof.
  split; [|split].
  - destruct (utp_acks (ex_stream 2)) as (_ & Hacks). destruct (Hacks ltac:(done)) as (Hnew & _).
    destruct (Hnew 0%N (ex_header State 9 4)) as (s' & Hs & Hp & _);
      [repeat constructor|by vm_compute|].
    exists s'. split; [exact Hs|]. rewrite Hp. reflexivity.
  - destruct (utp_acks (ex_stream 65535)) as (_ & Hacks). destruct (Hacks ltac:(done)) as (_ & _ & Hmax).
    destruct (forM (fun e => handle_state e.1 e.2) [(0, ex_header State 9 4); (0, ex_header State 10 6)]%N
      (ex_stream 65535)) as [r s'] eqn:Hf.
    assert (Hr : r ≠ Panic) by (vm_compute in Hf; by injection Hf as <- _).
    destruct (Hmax eq_refl [(0, ex_header State 9 4); (0, ex_header State 10 6)]%N r s') as [-> Hs];
      [by repeat constructor|exact Hf|exact Hr|].
    exists s'. split; [done|]. rewrite Hs. reflexivity.
  - destruct (utp_acks (ex_stream 65535)) as (Hdata & _).
    destruct (Hdata 0%N {| header := ex_header Data 9 4; payload := [1%N] |}) as (s' & answer & Hd & Hp & _);
      [repeat constructor|].
    exists s', answer. split; [exact Hd|]. rewrite Hp. reflexivity.
Defined.
End witnesses.
