(* ===== verification/Handshake.v ===== *)
(** [extensions/extended/mod.rs] and [extensions/core/handshake_codec.rs]: the
    extension dictionary and the codec of the handshakes. *)
From S2P Require Import Prelude Errors Buffers Bits Core Bencode Metainfo.
Import String.StringSyntax.

(** ** The extension dictionary *)

(** [struct M]: the extensions a peer supports *)
Record M := { ut_metadata : option N }.

Record Extension := {
  e_m : M;
  e_metadata_size : option N;
  e_p : option N;
  e_reqq : option N;
  e_v : option (list N);
}.
#[global] Instance M_eq_dec : EqDecision M.
Proof. solve_decision. Defined.
#[global] Instance Extension_eq_dec : EqDecision Extension.
Proof. solve_decision. Defined.

(** [Extension::ID], [Metadata::ID] *)
Definition Extension_ID : N := 0.
Definition Metadata_ID : N := 3.

Section extension.
Context `{BendyApi}.

(** [crate::VERSION] *)
Definition VERSION : list N := ascii "0.0.1".

(** [Extension::supported] *)
Definition supported (metadata_size : option N) : Extension := {|
  e_m := {| ut_metadata := Some Metadata_ID |}; e_p := None;
  e_v := Some (ascii "vincenzo-" ++ VERSION); e_reqq := Some 200%N;
  e_metadata_size := metadata_size |}.

Definition nat_value (n : N) : bval := BInt (Z.of_N n).

(** [ToBencode for M] *)
Definition M_encode (x : M) : outcome Error bval :=
  emit_dict (opt_pair (ascii "ut_metadata") nat_value (ut_metadata x)).

(** [FromBencode for M] *)
Definition M_decode (object : bval) : outcome Error M :=
  dict ← try_into_dictionary object;
  fold_pairs (fun key value x =>
    if decide (key = ascii "ut_metadata") then
      n ← decode_uint u8_max value; Ok {| ut_metadata := Some n |}
    else Ok x) dict {| ut_metadata := None |}.

(** [ToBencode for Extension] *)
Definition Extension_encode (e : Extension) : outcome Error bval :=
  mv ← M_encode (e_m e);
  emit_dict (
    [(ascii "m", mv)] ++
    opt_pair (ascii "metadata_size") nat_value (e_metadata_size e) ++
    opt_pair (ascii "p") nat_value (e_p e) ++
    opt_pair (ascii "reqq") nat_value (e_reqq e) ++
    opt_pair (ascii "v") BStr (e_v e)).

Definition Extension_pair (key : list N) (value : bval) (e : Extension)
    : outcome Error Extension :=
  let 'Build_Extension m0 ms p0 r0 v0 := e in
  if decide (key = ascii "m") then
    x ← M_decode value; Ok (Build_Extension x ms p0 r0 v0)
  else if decide (key = ascii "metadata_size") then
    n ← decode_uint usize_max value; Ok (Build_Extension m0 (Some n) p0 r0 v0)
  else if decide (key = ascii "p") then
    n ← decode_uint u16_max value; Ok (Build_Extension m0 ms (Some n) r0 v0)
  else if decide (key = ascii "reqq") then
    n ← decode_uint u16_max value; Ok (Build_Extension m0 ms p0 (Some n) v0)
  else if decide (key = ascii "v") then
    s ← decode_string value; Ok (Build_Extension m0 ms p0 r0 (Some s))
  else Ok e.

(** [FromBencode for Extension] *)
Definition Extension_decode (object : bval) : outcome Error Extension :=
  dict ← try_into_dictionary object;
  fold_pairs Extension_pair dict (Build_Extension {| ut_metadata := None |} None None None None).

(** [Extension::from_bencode] *)
Definition Extension_from_bencode (bytes : list N) : outcome Error Extension :=
  '(value, _) ← ok_or BencodeError (parse bytes);
  Extension_decode value.
End extension.

(** ** Handshakes *)

Record Handshake := {
  pstr_len : N;
  pstr : list N;
  reserved : Reserved;
  hs_info_hash : InfoHash;
  hs_peer_id : list N;
  ext : option Extension;
}.

Definition MIN_LEN : N := 68.

Section codec.
Context `{Build, B : BytesApi, BendyApi}.

(** [Handshake::new] *)
Definition Handshake_new (info_hash : InfoHash) (peer_id : list N) : Handshake := {|
  pstr_len := PSTR_LEN; pstr := PSTR; reserved := Reserved.supported;
  hs_info_hash := info_hash; hs_peer_id := peer_id;
  ext := Some (supported (Some 0%N)) |}.

(** [Handshake::validate] *)
Definition validate (self target : Handshake) : bool :=
  (len (hs_peer_id target) =? 20)%N && bool_decide (hs_info_hash self = hs_info_hash target) &&
  (pstr_len target =? 19)%N && bool_decide (pstr target = PSTR).

(** [HandshakeCodec::encode] *)
Definition HandshakeCodec_encode (h : Handshake) : action bytes_mut Error unit :=
  modifyS (fun buf =>
    extend_from_slice (extend_from_slice (extend_from_slice (extend_from_slice
      (put_u8 buf PSTR_LEN) (pstr h)) (reserved h)) (hs_info_hash h)) (hs_peer_id h)) ≫= fun _ =>
  match ext h with
  | None => mret tt
  | Some e =>
      lift (Extension_encode e) ≫= fun value =>
      let bencoded_ext := raw value in
      lift (u32add 2 (as_u32 (len bencoded_ext))) ≫= fun n =>
      modifyS (fun buf => extend_from_slice
        (put_u8 (put_head buf n CoreId_Extended) Extension_ID) bencoded_ext)
  end.

(** The extended handshake that may follow. *)
Definition decode_ext (h : Handshake) : action bytes_mut Error (option Handshake) :=
  getS ≫= fun buf =>
  if (remaining buf <? 6)%N then mret (Some h)
  else
    lift (peek_u32 buf) ≫= fun size =>
    if (remaining buf <? size + 4)%N then mret None
    else
      lift (index (view buf) 4) ≫= fun b4 =>
      lift (index (view buf) 5) ≫= fun b5 =>
      if negb (b4 =? CoreId_as_u8 CoreId_Extended)%N || negb (b5 =? Extension_ID)%N
      then mret (Some h)
      else
        skip_bytes 6 ≫= fun _ =>
        lift (usub size 2) ≫= fun n =>
        take_bytes n ≫= fun payload =>
        match Extension_from_bencode payload with
        | Ok e => mret (Some {| pstr_len := pstr_len h; pstr := pstr h; reserved := reserved h;
            hs_info_hash := hs_info_hash h; hs_peer_id := hs_peer_id h; ext := Some e |})
        | Err _ => mret (Some h)
        | Panic => lift Panic
        end.

(** [HandshakeCodec::decode] *)
Definition HandshakeCodec_decode : action bytes_mut Error (option Handshake) :=
  getS ≫= fun buf =>
  if (remaining buf <? MIN_LEN)%N then mret None
  else
    take_u8 ≫= fun n =>
    if negb (n =? PSTR_LEN)%N then lift (Err HandshakeInvalid)
    else
      take_bytes 19 ≫= fun pstr =>
      take_bytes 8 ≫= fun reserved =>
      take_bytes 20 ≫= fun info_hash =>
      take_bytes 20 ≫= fun peer_id =>
      decode_ext {| pstr_len := PSTR_LEN; pstr := pstr; reserved := reserved;
                    hs_info_hash := info_hash; hs_peer_id := peer_id; ext := None |}.
End codec.
