(* ===== verification/HandshakeFacts.v ===== *)
(** Handshakes survive the wire whole, and are lost when they arrive in two
    parts. *)
From S2P Require Import Prelude Errors Buffers Bits Core CoreFacts Bencode BencodeText Metainfo MetainfoWire Handshake.
Import String.StringSyntax.

Section extension.
Context `{BendyApi}.

Record ext_wf (e : Extension) : Prop := {
  ew_m : (default 0 (ut_metadata (e_m e)) <= u8_max)%N;
  ew_size : (default 0 (e_metadata_size e) <= usize_max)%N;
  ew_p : (default 0 (e_p e) <= u16_max)%N;
  ew_reqq : (default 0 (e_reqq e) <= u16_max)%N;
  ew_v : from_option utf8_valid true (e_v e) = true;
}.

Lemma bval_ok_dict d l :
  bval_ok (S d) (BDict l) = keys_sorted l && forallb (fun kv => bval_ok d kv.2) l.
Proof. done. Qed.

Lemma M_roundtrip x : (default 0 (ut_metadata x) <= u8_max)%N →
  ∃ mv, M_encode x = Ok mv ∧ M_decode mv = Ok x ∧ ∀ d, bval_ok (S d) mv = true.
Proof.
  intros Hx. exists (BDict (opt_pair (ascii "ut_metadata") nat_value (ut_metadata x))).
  destruct x as [[n|]]; (split; [reflexivity|]); split; [|by intros []| |by intros []];
    unfold M_decode; [|done].
  cbn [try_into_dictionary mbind outcome_bind opt_pair ut_metadata fold_pairs]. keys.
  unfold nat_value. by rewrite decode_uint_ok.
Qed.

Lemma Extension_roundtrip e : ext_wf e →
  ∃ value, Extension_encode e = Ok value ∧ Extension_decode value = Ok e ∧
    bval_ok MAX_DEPTH value = true.
Proof.
  intros [Hm Hs Hp Hr Hv]. destruct (M_roundtrip _ Hm) as (mv & Hme & Hmd & Hok).
  destruct e as [mm ms pp r v]. cbn [e_m e_metadata_size e_p e_reqq e_v] in *.
  exists (BDict ([(ascii "m", mv)] ++ opt_pair (ascii "metadata_size") nat_value ms ++
    opt_pair (ascii "p") nat_value pp ++ opt_pair (ascii "reqq") nat_value r ++
    opt_pair (ascii "v") BStr v)).
  split; [|split].
  - unfold Extension_encode. cbn [e_m e_metadata_size e_p e_reqq e_v]. rewrite Hme.
    cbn [mbind outcome_bind]. by destruct ms, pp, r, v.
  - unfold Extension_decode. cbn [try_into_dictionary mbind outcome_bind].
    cbn [app fold_pairs Extension_pair]. keys. rewrite Hmd. cbn [mbind outcome_bind].
    rewrite (fold_opt _ _ _ (fun n => Build_Extension mm (Some n) None None None)).
    2:{ intros n ->. unfold Extension_pair. keys. unfold nat_value. by rewrite decode_uint_ok. }
    rewrite (fold_opt _ _ _ (fun n => Build_Extension mm ms (Some n) None None)).
    2:{ intros n ->. destruct ms; unfold Extension_pair, from_option; keys; unfold nat_value;
          by rewrite decode_uint_ok. }
    rewrite (fold_opt _ _ _ (fun n => Build_Extension mm ms pp (Some n) None)).
    2:{ intros n ->. destruct ms, pp; unfold Extension_pair, from_option; keys; unfold nat_value;
          by rewrite decode_uint_ok. }
    rewrite <- (app_nil_r (opt_pair (ascii "v") BStr v)).
    rewrite (fold_opt _ _ _ (fun s => Build_Extension mm ms pp r (Some s))).
    2:{ intros s ->. simpl in Hv. destruct ms, pp, r; unfold Extension_pair, from_option; keys;
          cbn [decode_string]; by rewrite Hv. }
    by destruct ms, pp, r, v.
  - assert (Hd : ∀ d, bval_ok (S (S d)) (BDict ([(ascii "m", mv)] ++
      opt_pair (ascii "metadata_size") nat_value ms ++ opt_pair (ascii "p") nat_value pp ++
      opt_pair (ascii "reqq") nat_value r ++ opt_pair (ascii "v") BStr v)) = true).
    { intros d. rewrite bval_ok_dict. apply andb_true_iff.
      split; [by destruct ms, pp, r, v|]. cbn [app forallb snd]. rewrite Hok.
      by destruct ms, pp, r, v. }
    exact (Hd 2046%nat).
Qed.
End extension.

Section codec.
Context `{Build, B : BytesApi, BendyApi}.
Implicit Types (h : Handshake) (buf : bytes_mut) (rest : list N).

(** ** The wire format *)

Definition head_bytes h : list N :=
  [PSTR_LEN] ++ pstr h ++ reserved h ++ hs_info_hash h ++ hs_peer_id h.
Definition ext_frame (value : bval) : list N :=
  be_bytes 4 (2 + len (raw value)) ++ [20; 0]%N ++ raw value.
Definition with_ext (o : option Extension) h : Handshake := {|
  pstr_len := pstr_len h; pstr := pstr h; reserved := reserved h;
  hs_info_hash := hs_info_hash h; hs_peer_id := hs_peer_id h; ext := o |}.

Record head_wf h : Prop := {
  hw_len : pstr_len h = PSTR_LEN;
  hw_pstr : len (pstr h) = 19%N;
  hw_reserved : len (reserved h) = 8%N;
  hw_info_hash : len (hs_info_hash h) = 20%N;
  hw_peer_id : len (hs_peer_id h) = 20%N;
}.

Lemma len_head h : head_wf h → len (head_bytes h) = 68%N.
Proof.
  intros [_ H1 H2 H3 H4]. unfold head_bytes. rewrite !len_app, H1, H2, H3, H4. done.
Qed.

(** ** Reading *)

Lemma decode_head h buf rest :
  head_wf h → view buf = head_bytes h ++ rest →
  ∃ buf', view buf' = rest ∧ HandshakeCodec_decode buf = decode_ext (with_ext None h) buf'.
Proof.
  intros Hw Hv. pose proof (len_head h Hw) as Hl. destruct Hw as [Hpl H1 H2 H3 H4].
  unfold HandshakeCodec_decode. rewrite bind_action. cbn [getS]. unfold remaining.
  rewrite Hv, len_app, Hl. destruct (N.ltb_spec (68 + len rest) MIN_LEN) as [Hb|_].
  { unfold MIN_LEN in Hb. lia. }
  unfold head_bytes in Hv. rewrite <- !app_assoc in Hv. cbn [app] in Hv.
  rewrite bind_action.
  destruct (take_u8_cons (E:=Error) _ _ _ Hv) as (b1 & -> & Hv1).
  replace (PSTR_LEN =? PSTR_LEN)%N with true by done. cbn [negb].
  destruct (take_bytes_app (E:=Error) b1 (pstr h) _ 19 Hv1 H1) as (b2 & Ht1 & Hv2).
  destruct (take_bytes_app (E:=Error) b2 (reserved h) _ 8 Hv2 H2) as (b3 & Ht2 & Hv3).
  destruct (take_bytes_app (E:=Error) b3 (hs_info_hash h) _ 20 Hv3 H3) as (b4 & Ht3 & Hv4).
  destruct (take_bytes_app (E:=Error) b4 (hs_peer_id h) rest 20 Hv4 H4) as (b5 & Ht4 & Hv5).
  exists b5. split; [done|]. rewrite bind_action, Ht1, bind_action, Ht2, bind_action, Ht3, bind_action, Ht4.
  unfold with_ext. by rewrite Hpl.
Qed.

(** What follows a handshake decides what is done with it. *)
Lemma decode_ext_short h buf : (len (view buf) < 6)%N → decode_ext h buf = (Ok (Some h), buf).
Proof.
  intros Hl. unfold decode_ext. rewrite bind_action. cbn [getS]. unfold remaining.
  destruct (N.ltb_spec (len (view buf)) 6); [done|lia].
Qed.

Lemma decode_ext_size h buf size rest :
  (size <= u32_max)%N → (6 <= len (view buf))%N → view buf = be_bytes 4 size ++ rest →
  decode_ext h buf =
    (if (len (view buf) <? size + 4)%N then mret None
     else
       lift (index rest 0) ≫= fun b4 =>
       lift (index rest 1) ≫= fun b5 =>
       if negb (b4 =? 20)%N || negb (b5 =? 0)%N then mret (Some h)
       else
         skip_bytes 6 ≫= fun _ =>
         lift (usub size 2) ≫= fun n =>
         take_bytes n ≫= fun payload =>
         match Extension_from_bencode payload with
         | Ok e => mret (Some {| pstr_len := pstr_len h; pstr := pstr h; reserved := reserved h;
             hs_info_hash := hs_info_hash h; hs_peer_id := hs_peer_id h; ext := Some e |})
         | Err _ => mret (Some h)
         | Panic => lift Panic
         end) buf.
Proof.
  intros Hs Hl Hv. unfold decode_ext. rewrite bind_action. cbn [getS]. unfold remaining.
  destruct (N.ltb_spec (len (view buf)) 6); [lia|].
  rewrite bind_action, (peek_u32_frame _ size rest Hs Hv). cbn [lift].
  destruct (len (view buf) <? size + 4)%N; [done|].
  assert (Hi : ∀ i, @index Error _ (view buf) (4 + i) = index rest i).
  { intros i. unfold index. rewrite Hv, lookup_app_r by (rewrite length_be_bytes; lia).
    rewrite length_be_bytes. do 2 f_equal. lia. }
  by rewrite <- (Hi 0%N), <- (Hi 1%N).
Qed.

Lemma ext_frame_len value : len (ext_frame value) = (6 + len (raw value))%N.
Proof. unfold ext_frame. rewrite !len_app, len_be4. change (len [20; 0]%N) with 2%N. lia. Qed.

Lemma decode_ext_frame h buf e value rest :
  Extension_encode e = Ok value → Extension_decode value = Ok e → bval_ok MAX_DEPTH value = true →
  (len (raw value) + 2 <= u32_max)%N → view buf = ext_frame value ++ rest →
  ∃ buf', decode_ext h buf = (Ok (Some (with_ext (Some e) h)), buf') ∧ view buf' = rest.
Proof.
  intros _ Hd Hok Hl Hv. pose proof (ext_frame_len value) as Hf.
  assert (Hlv : len (view buf) = (6 + len (raw value) + len rest)%N) by (by rewrite Hv, len_app, Hf).
  unfold ext_frame in Hv. rewrite <- !app_assoc in Hv.
  rewrite (decode_ext_size h buf (2 + len (raw value)) _ ltac:(lia) ltac:(lia) Hv).
  destruct (N.ltb_spec (len (view buf)) (2 + len (raw value) + 4)); [lia|].
  rewrite bind_action. change (lift (index ([20; 0]%N ++ raw value ++ rest) 0) buf) with (@Ok Error _ 20%N, buf). cbv beta iota. cbv beta iota.
  rewrite bind_action. change (lift (index ([20; 0]%N ++ raw value ++ rest) 1) buf) with (@Ok Error _ 0%N, buf). cbv beta iota.
  cbn [negb orb N.eqb Pos.eqb].
  rewrite app_assoc in Hv.
  destruct (skip_bytes_app (E:=Error) buf _ _ 6 Hv) as (b1 & Ht1 & Hv1).
  { rewrite len_app, len_be4. done. }
  rewrite bind_action, Ht1, bind_action. cbn [lift].
  rewrite usub_ok by (unfold usize_max, u64_max, u32_max in *; lia).
  replace (2 + len (raw value) - 2)%N with (len (raw value)) by lia.
  destruct (take_bytes_app (E:=Error) b1 _ _ _ Hv1 eq_refl) as (b2 & Ht2 & Hv2).
  rewrite bind_action, Ht2. exists b2. split; [|done].
  unfold Extension_from_bencode. rewrite <- (app_nil_r (raw value)), parse_raw by done.
  cbn [ok_or mbind outcome_bind]. by rewrite Hd.
Qed.

(** ** The theorems *)

(** Round trip of a handshake: a client's handshake, with its extension
    dictionary, is written in the wire format; a buffer that starts with it
    yields the handshake and is left at the message that follows.  A handshake
    without extensions is returned as it is, and what follows is untouched, when
    fewer than six bytes follow. *)
Theorem handshake_roundtrip h e buf :
  head_wf h → ext_wf e →
  ∃ value, Extension_encode e = Ok value ∧
  ((len (raw value) + 2 <= u32_max)%N →
   (∃ buf', HandshakeCodec_encode (with_ext (Some e) h) buf = (Ok tt, buf') ∧
      view buf' = view buf ++ head_bytes h ++ ext_frame value) ∧
   (∀ b rest, view b = head_bytes h ++ ext_frame value ++ rest →
      ∃ b', HandshakeCodec_decode b = (Ok (Some (with_ext (Some e) h)), b') ∧ view b' = rest)) ∧
  (∃ buf', HandshakeCodec_encode (with_ext None h) buf = (Ok tt, buf') ∧
      view buf' = view buf ++ head_bytes h) ∧
  (∀ b rest, view b = head_bytes h ++ rest → (len rest < 6)%N →
      ∃ b', HandshakeCodec_decode b = (Ok (Some (with_ext None h)), b') ∧ view b' = rest).
Proof.
  intros Hh He. destruct (Extension_roundtrip e He) as (value & Henc & Hdec & Hok).
  assert (Hput : view (extend_from_slice (extend_from_slice (extend_from_slice (extend_from_slice
    (put_u8 buf PSTR_LEN) (pstr h)) (reserved h)) (hs_info_hash h)) (hs_peer_id h)) =
    view buf ++ head_bytes h).
  { rewrite !view_extend, view_put_u8 by done. unfold head_bytes. by rewrite <- !app_assoc. }
  exists value. split; [done|]. split; [intros Hl; split|split].
  - unfold HandshakeCodec_encode. rewrite bind_action. cbn [modifyS with_ext ext].
    rewrite bind_action, Henc. cbn [lift]. rewrite as_u32_id, bind_action by (unfold u32_max in *; lia).
    rewrite u32add_ok by lia. cbn [lift]. eexists. split; [done|]. cbn [with_ext pstr reserved hs_info_hash hs_peer_id].
    rewrite view_extend, view_put_u8, view_put_head, Hput by (done || lia).
    unfold ext_frame. by rewrite <- !app_assoc.
  - intros b rest Hv. destruct (decode_head h b _ Hh Hv) as (b1 & Hv1 & ->).
    destruct (decode_ext_frame (with_ext None h) b1 e value rest Henc Hdec Hok Hl Hv1) as (b2 & -> & Hv2).
    by exists b2.
  - eexists. split; [done|]. exact Hput.
  - intros b rest Hv Hl. destruct (decode_head h b _ Hh Hv) as (b1 & Hv1 & ->).
    exists b1. rewrite decode_ext_short by (by rewrite Hv1). done.
Qed.

(** A handshake that arrives in two parts, cut anywhere within its extension
    dictionary, is lost: the first part is consumed without an answer, and when
    the second part has arrived the decoder, which is now past the handshake,
    never returns one. *)
Theorem handshake_split_lost h e value k b :
  head_wf h → Extension_encode e = Ok value → (len (raw value) + 2 < 2 ^ 24)%N →
  let wire := head_bytes h ++ ext_frame value in
  (74 <= k < len wire)%N → view b = take (N.to_nat k) wire →
  ∃ b1, HandshakeCodec_decode b = (Ok None, b1) ∧
    view b1 = drop 68 (take (N.to_nat k) wire) ∧
    ∀ b2 rest, view b2 = view b1 ++ drop (N.to_nat k) wire ++ rest →
      (HandshakeCodec_decode b2).1 = Ok None ∨ (HandshakeCodec_decode b2).1 = Err HandshakeInvalid.
Proof.
  intros Hh _ Hl wire Hk Hv. pose proof (len_head h Hh) as Hlh.
  assert (Hlen : length (head_bytes h) = 68%nat) by (unfold len in Hlh; lia).
  assert (Hlw : len wire = (74 + len (raw value))%N).
  { unfold wire. rewrite len_app, Hlh, ext_frame_len. lia. }
  assert (Hv' : view b = head_bytes h ++ take (N.to_nat (k - 68)) (ext_frame value)).
  { rewrite Hv. unfold wire. rewrite take_app_ge by lia. do 2 f_equal. rewrite Hlen. lia. }
  destruct (decode_head h b _ Hh Hv') as (b1 & Hv1 & ->).
  assert (Hv1' : view b1 = be_bytes 4 (2 + len (raw value)) ++
    take (N.to_nat (k - 72)) ([20; 0]%N ++ raw value)).
  { rewrite Hv1. unfold ext_frame. rewrite take_app_ge by (rewrite length_be_bytes; lia).
    rewrite length_be_bytes. do 2 f_equal. lia. }
  assert (Hl1 : len (view b1) = (k - 68)%N).
  { rewrite Hv1. pose proof (ext_frame_len value). unfold len in *. rewrite length_take. lia. }
  rewrite (decode_ext_size (with_ext None h) b1 (2 + len (raw value)) _) with (3 := Hv1')
    by (unfold u32_max; lia).
  destruct (N.ltb_spec (len (view b1)) (2 + len (raw value) + 4)); [|lia].
  exists b1. split; [done|]. split.
  { rewrite <- Hv, Hv', Hv1. by rewrite <- Hlen, drop_app_length. }
  intros b2 rest Hv2.
  assert (Hz : ∃ l, view b2 = 0%N :: l).
  { rewrite Hv2, Hv1'. Transparent be_bytes. cbn [be_bytes]. Opaque be_bytes.
    rewrite N.div_small by (change (256 ^ N.of_nat 3)%N with 16777216%N; lia). by eexists. }
  destruct Hz as [l Hz]. unfold HandshakeCodec_decode. rewrite bind_action. cbn [getS].
  destruct (remaining b2 <? MIN_LEN)%N; [by left|right]. rewrite bind_action.
  by destruct (take_u8_cons (E:=Error) _ _ _ Hz) as (b3 & -> & _).
Qed.

(** A peer panics the client with the message after its handshake: an
    extended handshake whose length is too short for its two ids. *)
Theorem handshake_short_ext_panics h size rest b :
  head_wf h → (size < 2)%N →
  view b = head_bytes h ++ be_bytes 4 size ++ [20; 0]%N ++ rest →
  (len rest < usize_max - 2)%N →
  ∃ b', HandshakeCodec_decode b = (Panic, b').
Proof.
  intros Hh Hs Hv Hr. destruct (decode_head h b _ Hh Hv) as (b1 & Hv1 & ->).
  assert (Hl1 : len (view b1) = (6 + len rest)%N).
  { rewrite Hv1, !len_app, len_be4. change (len [20; 0]%N) with 2%N. lia. }
  rewrite (decode_ext_size (with_ext None h) b1 size _) with (3 := Hv1) by (unfold u32_max; lia).
  destruct (N.ltb_spec (len (view b1)) (size + 4)); [lia|].
  rewrite bind_action. change (lift (index ([20; 0]%N ++ rest) 0) b1) with (@Ok Error _ 20%N, b1). cbv beta iota. cbv beta iota.
  rewrite bind_action. change (lift (index ([20; 0]%N ++ rest) 1) b1) with (@Ok Error _ 0%N, b1). cbv beta iota.
  cbn [negb orb N.eqb Pos.eqb]. rewrite app_assoc in Hv1.
  destruct (skip_bytes_app (E:=Error) b1 _ _ 6 Hv1) as (b2 & Ht & Hv2).
  { rewrite len_app, len_be4. done. }
  rewrite bind_action, Ht, bind_action. cbn [lift].
  destruct (usub_underflow (E:=Error) size 2 Hs ltac:(done)) as [-> | ->]; [by eexists|].
  exists b2. rewrite bind_action, take_bytes_short; [done|]. rewrite Hv2.
  unfold usize_max, u64_max in *. lia.
Qed.
End codec.

(** ** At concrete inputs *)
Section witnesses.
#[local] Existing Instances dev list_bytes text_bendy.

Definition ex_handshake : Handshake := Handshake_new (replicate 20 7%N) (replicate 20 9%N).
Definition ex_ext_value : bval := BDict [
  (ascii "m", BDict [(ascii "ut_metadata", BInt 3)]); (ascii "metadata_size", BInt 0);
  (ascii "reqq", BInt 200); (ascii "v", BStr (ascii "vincenzo-0.0.1"))].

Lemma ex_head_wf : head_wf ex_handshake.
Proof. by split. Qed.

(** The bytes of the unit test [test_my_extended_handshake]. *)
Example my_extended_handshake :
  raw ex_ext_value =
  ascii "d1:md11:ut_metadatai3ee13:metadata_sizei0e4:reqqi200e1:v14:vincenzo-0.0.1e".
Proof. vm_compute. reflexivity. Qed.

Lemma handshake_roundtrip_witness :
  Extension_encode (supported (Some 0%N)) = Ok ex_ext_value ∧
  ∃ b', HandshakeCodec_decode (head_bytes ex_handshake ++ ext_frame ex_ext_value ++ [1; 2; 3]%N) =
    (Ok (Some (with_ext (Some (supported (Some 0%N))) ex_handshake)), b') ∧ b' = [1; 2; 3]%N.
Proof.
  split; [vm_compute; reflexivity|].
  destruct (handshake_roundtrip ex_handshake (supported (Some 0%N)) (@nil N : @bytes_mut list_bytes)) as (value & Hv & Hrt & _);
    [by split|split; vm_compute; done|].
  assert (Hc : Extension_encode (supported (Some 0%N)) = Ok ex_ext_value) by (vm_compute; reflexivity).
  rewrite Hc in Hv. injection Hv as <-.
  destruct Hrt as [_ Hd]; [vm_compute; discriminate|].
  exact (Hd (head_bytes ex_handshake ++ ext_frame ex_ext_value ++ [1; 2; 3]%N) [1; 2; 3]%N eq_refl).
Defined.

Definition ex_split : @bytes_mut list_bytes :=
  take 100 (head_bytes ex_handshake ++ ext_frame ex_ext_value).
Definition ex_short : @bytes_mut list_bytes := head_bytes ex_handshake ++ [0; 0; 0; 1; 20; 0]%N.

Lemma handshake_split_lost_witness : ∃ b1, HandshakeCodec_decode ex_split = (Ok None, b1).
Proof.
  destruct (handshake_split_lost ex_handshake (supported (Some 0%N)) ex_ext_value 100 ex_split)
    as (b1 & Hd & _);
    [by split|vm_compute; reflexivity|vm_compute; reflexivity
    |split; vm_compute; [discriminate|reflexivity]|reflexivity|].
  exists b1. exact Hd.
Defined.

Lemma handshake_short_ext_panics_witness : ∃ b', HandshakeCodec_decode ex_short = (Panic, b').
Proof.
  apply (handshake_short_ext_panics ex_handshake 1 []);
    [by split|done|vm_compute; reflexivity|vm_compute; reflexivity].
Defined.
End witnesses.
