(* ===== verification/DaemonWire.v ===== *)
(** [daemon_wire.rs]: the messages between the daemon and its frontends, and
    their codec.  The serialiser [rkyv] and the parser of magnet links are
    interfaces. *)
From S2P Require Import Prelude Buffers Errors Core Metainfo Floats Torrent.

(** [rkyv::to_bytes], and [rkyv::access] followed by [deserialize] *)
Class RkyvApi (T : Type) := {
  rk_to : T → option (list N);
  rk_from : list N → option T;
  rk_back x bytes : rk_to x = Some bytes → rk_from bytes = Some x;
}.

(** [magnet_url::Magnet]: [Magnet::new] and [to_string] *)
Class MagnetApi := {
  Magnet : Type;
  Magnet_new : list N → option Magnet;
  Magnet_to_string : Magnet → list N;
  Magnet_utf8 m : utf8_valid (Magnet_to_string m) = true;
}.

(** [enum MessageId], and its discriminants *)
Inductive MessageId :=
  | IdNewTorrent | IdTorrentState | IdGetTorrentState | IdTogglePause | IdPrintTorrentStatus
  | IdQuit | IdFrontendQuit | IdTorrentStates | IdDeleteTorrent | IdInit.
Definition MessageId_as_u8 (i : MessageId) : N :=
  match i with
  | IdNewTorrent => 1 | IdTorrentState => 2 | IdGetTorrentState => 3 | IdTogglePause => 4
  | IdPrintTorrentStatus => 5 | IdQuit => 6 | IdFrontendQuit => 7 | IdTorrentStates => 8
  | IdDeleteTorrent => 9 | IdInit => 10
  end.
Definition MessageId_try_from (n : N) : option MessageId :=
  list_find (fun i => MessageId_as_u8 i = n)
    [IdNewTorrent; IdTorrentState; IdGetTorrentState; IdTogglePause; IdPrintTorrentStatus;
     IdQuit; IdFrontendQuit; IdTorrentStates; IdDeleteTorrent; IdInit] ≫= fun e => Some e.2.

Section codec.
Context `{Build, B : BytesApi, MA : MagnetApi}.
Context `{R1 : !RkyvApi TorrentState, R2 : !RkyvApi (list TorrentState)}.

(** [enum Message] *)
Inductive Message :=
  | DmInit (b : bool)
  | DmQuit
  | DmFrontendQuit
  | DmNewTorrent (m : Magnet)
  | DmTorrentState (s : TorrentState)
  | DmTorrentStates (l : list TorrentState)
  | DmTogglePause (h : InfoHash)
  | DmDeleteTorrent (h : InfoHash) (also_from_disk : bool)
  | DmGetTorrentState (h : InfoHash)
  | DmPrintTorrentStatus.

Definition as_flag (b : bool) : N := if b then 1%N else 0%N.

(** A length prefix, an id and a payload *)
Definition put_message (n : N) (id : MessageId) (payload : list N) : action bytes_mut Error unit :=
  modifyS (fun buf => extend_from_slice (put_u8 (put_u32 buf n) (MessageId_as_u8 id)) payload).

(** [DaemonCodec::encode] *)
Definition DaemonCodec_encode (item : Message) : action bytes_mut Error unit :=
  match item with
  | DmInit b => modifyS (fun buf => put_u8 (put_u32 buf 1) (as_flag b))
  | DmNewTorrent m =>
      let magnet := Magnet_to_string m in
      lift (u32add 1 (as_u32 (len magnet))) ≫= fun n => put_message n IdNewTorrent magnet
  | DmTorrentState s =>
      lift (ok_or Rkyv (rk_to s)) ≫= fun bytes =>
      lift (u32add 1 (as_u32 (len bytes))) ≫= fun n => put_message n IdTorrentState bytes
  | DmTorrentStates l =>
      lift (ok_or Rkyv (rk_to l)) ≫= fun bytes =>
      lift (u32add 1 (as_u32 (len bytes))) ≫= fun n => put_message n IdTorrentStates bytes
  | DmGetTorrentState h =>
      lift (u32add 1 (as_u32 (len h))) ≫= fun n => put_message n IdGetTorrentState h
  | DmTogglePause h =>
      lift (u32add 1 (as_u32 (len h))) ≫= fun n => put_message n IdTogglePause h
  | DmDeleteTorrent h also =>
      lift (u32add 1 (as_u32 (len h))) ≫= fun n =>
      lift (u32add n 1) ≫= fun n => put_message n IdDeleteTorrent (h ++ [as_flag also])
  | DmPrintTorrentStatus => put_message 1 IdPrintTorrentStatus []
  | DmFrontendQuit => put_message 1 IdFrontendQuit []
  | DmQuit => put_message 1 IdQuit []
  end.

(** [vec![0; buf.remaining()]] filled: everything the buffer holds *)
Definition take_all : action bytes_mut Error (list N) :=
  getS ≫= fun buf => take_bytes (remaining buf).

Definition decode_message (id : MessageId) : action bytes_mut Error Message :=
  match id with
  | IdInit => take_u8 ≫= fun b => mret (DmInit (b =? 1)%N)
  | IdNewTorrent =>
      take_all ≫= fun payload =>
      (if utf8_valid payload then mret tt else lift (Err Utf8Error)) ≫= fun _ =>
      lift (ok_or MagnetError (Magnet_new payload)) ≫= fun magnet => mret (DmNewTorrent magnet)
  | IdTorrentState =>
      take_all ≫= fun payload =>
      lift (ok_or Rkyv (rk_from payload)) ≫= fun info => mret (DmTorrentState info)
  | IdTorrentStates =>
      take_all ≫= fun payload =>
      lift (ok_or Rkyv (rk_from payload)) ≫= fun states => mret (DmTorrentStates states)
  | IdTogglePause => take_bytes 20 ≫= fun payload => mret (DmTogglePause payload)
  | IdDeleteTorrent =>
      take_bytes 20 ≫= fun payload =>
      take_u8 ≫= fun b => mret (DmDeleteTorrent payload (b =? 1)%N)
  | IdPrintTorrentStatus => mret DmPrintTorrentStatus
  | IdQuit => mret DmQuit
  | IdFrontendQuit => mret DmFrontendQuit
  | IdGetTorrentState => take_bytes 20 ≫= fun payload => mret (DmGetTorrentState payload)
  end.

(** [size.saturating_add(4).wrapping_sub(buf.capacity())] *)
Definition missing (size cap : N) : N := ((size + 4 + (usize_max + 1) - cap) mod (usize_max + 1))%N.

(** [DaemonCodec::decode] *)
Definition DaemonCodec_decode : action bytes_mut Error (option Message) :=
  getS ≫= fun buf =>
  if (remaining buf <? 4)%N then mret None
  else
    lift (peek_u32 buf) ≫= fun size =>
    if (size =? 0)%N then mret (Some DmQuit)
    else if (remaining buf <? 4 + size)%N then
      (if (capacity buf <? size)%N
       then modifyS (fun b => reserve b (missing size (capacity buf))) else mret tt) ≫= fun _ =>
      mret None
    else
      skip_bytes 4 ≫= fun _ =>
      take_u8 ≫= fun n =>
      match MessageId_try_from n with
      | None => modifyS clear ≫= fun _ => mret None
      | Some id => decode_message id ≫= fun m => mret (Some m)
      end.

(** A framed reader: it decodes until a message is incomplete; [fuel] is the
    number of calls it may make, and the flag says that it did stop. *)
Fixpoint read_messages (fuel : nat) : action bytes_mut Error (list Message * bool) :=
  match fuel with
  | O => mret ([], false)
  | S fuel =>
      DaemonCodec_decode ≫= fun o =>
      match o with
      | None => mret ([], true)
      | Some m => read_messages fuel ≫= fun r => mret (m :: r.1, r.2)
      end
  end.
End codec.
#[global] Arguments Message {_}.
