(* ===== verification/DaemonWireFacts.v ===== *)
(** The daemon's messages: which of them survive the wire and when, what the
    decoder does to the messages after them, and when a reader stops. *)
From S2P Require Import Prelude Buffers Errors Core CoreFacts Metainfo Floats Torrent DaemonWire.

Section codec.
Context `{Build, B : BytesApi, MA : MagnetApi}.
Context `{R1 : !RkyvApi TorrentState, R2 : !RkyvApi (list TorrentState)}.
Implicit Types (m : Message) (b buf : bytes_mut) (p rest : list N).

(** The bytes of a message with an id *)
Definition dm_frame (id : MessageId) p : list N :=
  be_bytes 4 (1 + len p) ++ MessageId_as_u8 id :: p.

(** The id and the payload of a message; [Init] has none, and a state that is
    not serialised neither. *)
Definition dm_body m : option (MessageId * list N) :=
  match m with
  | DmInit _ => None
  | DmQuit => Some (IdQuit, [])
  | DmFrontendQuit => Some (IdFrontendQuit, [])
  | DmPrintTorrentStatus => Some (IdPrintTorrentStatus, [])
  | DmNewTorrent x => Some (IdNewTorrent, Magnet_to_string x)
  | DmTorrentState s => pair IdTorrentState <$> rk_to s
  | DmTorrentStates l => pair IdTorrentStates <$> rk_to l
  | DmTogglePause h => Some (IdTogglePause, h)
  | DmGetTorrentState h => Some (IdGetTorrentState, h)
  | DmDeleteTorrent h also => Some (IdDeleteTorrent, h ++ [as_flag also])
  end.

(** The values a message can have: info hashes of 20 bytes, magnet links that
    the parser takes back. *)
Definition dm_wf m : Prop :=
  match m with
  | DmNewTorrent x => Magnet_new (Magnet_to_string x) = Some x
  | DmTogglePause h | DmGetTorrentState h | DmDeleteTorrent h _ => len h = 20%N
  | _ => True
  end.

(** The messages whose decoder reads the whole buffer *)
Definition dm_greedy (id : MessageId) : bool :=
  match id with IdNewTorrent | IdTorrentState | IdTorrentStates => true | _ => false end.

Lemma MessageId_back id : MessageId_try_from (MessageId_as_u8 id) = Some id.
Proof. by destruct id. Qed.
Lemma MessageId_le id : (MessageId_as_u8 id <= u8_max)%N.
Proof. by destruct id. Qed.

Lemma put_message_frame id p buf :
  (1 + len p <= u32_max)%N →
  ∃ buf', put_message (1 + len p) id p buf = (Ok tt, buf') ∧ view buf' = view buf ++ dm_frame id p.
Proof.
  intros Hl. eexists. split; [reflexivity|]. rewrite view_extend, view_put_u8 by apply MessageId_le.
  rewrite view_put_u32 by done. unfold dm_frame. by rewrite <- !app_assoc.
Qed.

Lemma as_u32_small n : (1 + n <= u32_max)%N → as_u32 n = n.
Proof. intros. unfold as_u32, u32_max in *. rewrite N.mod_small; lia. Qed.

(** A message whose length goes in its prefix *)
Lemma encode_sized id p buf :
  (1 + len p <= u32_max)%N →
  ∃ buf', (lift (u32add 1 (as_u32 (len p))) ≫= fun n => put_message n id p) buf = (Ok tt, buf') ∧
    view buf' = view buf ++ dm_frame id p.
Proof.
  intros Hl. rewrite bind_action, as_u32_small, u32add_ok by done. by apply put_message_frame.
Qed.

Lemma encode_frame m id p buf :
  dm_body m = Some (id, p) → dm_wf m → (1 + len p <= u32_max)%N →
  ∃ buf', DaemonCodec_encode m buf = (Ok tt, buf') ∧ view buf' = view buf ++ dm_frame id p.
Proof.
  intros Hb Hw Hl. destruct m; cbn [dm_body dm_wf] in *; simplify_eq.
  1-2: by apply (put_message_frame _ [] buf).
  - by apply encode_sized.
  - destruct (rk_to s) as [bytes|] eqn:Hs; simplify_eq/=. rewrite bind_action, Hs. by apply encode_sized.
  - destruct (rk_to l) as [bytes|] eqn:Hs; simplify_eq/=. rewrite bind_action, Hs. by apply encode_sized.
  - by apply encode_sized.
  - rewrite len_app in Hl. change (len [as_flag also_from_disk]) with 1%N in Hl.
    cbn [DaemonCodec_encode]. rewrite bind_action, as_u32_small, u32add_ok by lia. cbn [lift].
    rewrite bind_action, u32add_ok by lia. cbn [lift].
    replace (1 + len h + 1)%N with (1 + len (h ++ [as_flag also_from_disk]))%N
      by (rewrite len_app; change (len [as_flag also_from_disk]) with 1%N; lia).
    apply put_message_frame. rewrite len_app. change (len [as_flag also_from_disk]) with 1%N. lia.
  - by apply encode_sized.
  - by apply (put_message_frame _ [] buf).
Qed.

(** Reading a frame that has arrived in full comes down to decoding the
    message. *)
Lemma dm_decode_head id p rest b :
  (1 + len p <= u32_max)%N → view b = dm_frame id p ++ rest →
  ∃ b1, view b1 = p ++ rest ∧
    DaemonCodec_decode b = (decode_message id ≫= fun m => mret (Some m)) b1.
Proof.
  intros Hl Hv. unfold dm_frame in Hv. rewrite <- app_assoc in Hv. cbn [app] in Hv.
  assert (Hlb : len (view b) = (5 + len p + len rest)%N).
  { rewrite Hv, len_app, len_be4, len_cons, len_app. lia. }
  unfold DaemonCodec_decode. rewrite bind_action. cbn [getS]. unfold remaining.
  destruct (N.ltb_spec (len (view b)) 4); [lia|].
  rewrite bind_action, (peek_u32_frame _ _ _ Hl Hv). cbn [lift].
  destruct (N.eqb_spec (1 + len p) 0); [lia|].
  destruct (N.ltb_spec (len (view b)) (4 + (1 + len p))); [lia|].
  destruct (skip_bytes_app (E:=Error) b _ _ 4 Hv (len_be4 _)) as (b0 & Hs & Hv0).
  destruct (take_u8_cons (E:=Error) _ _ _ Hv0) as (b1 & Ht & Hv1).
  exists b1. split; [done|]. rewrite bind_action, Hs, bind_action, Ht, MessageId_back. done.
Qed.

Lemma take_all_view b : ∃ b', take_all b = (Ok (view b), b') ∧ view b' = [].
Proof.
  unfold take_all. rewrite bind_action. cbn [getS].
  apply take_bytes_app; [by rewrite app_nil_r|done].
Qed.

(** A message that does not read the whole buffer leaves what follows it. *)
Lemma decode_message_sized m id p rest b :
  dm_body m = Some (id, p) → dm_wf m → dm_greedy id = false → view b = p ++ rest →
  ∃ b', decode_message id b = (Ok m, b') ∧ view b' = rest.
Proof.
  intros Hb Hw Hg Hv. destruct m; cbn [dm_body dm_wf] in *; simplify_eq/=;
    try (by exists b).
  - by destruct (rk_to s); simplify_eq/=.
  - by destruct (rk_to l); simplify_eq/=.
  - destruct (take_bytes_app (E:=Error) b _ _ 20 Hv Hw) as (b' & Ht & Hv').
    exists b'. rewrite bind_action, Ht. done.
  - rewrite <- app_assoc in Hv.
    destruct (take_bytes_app (E:=Error) b _ _ 20 Hv Hw) as (b1 & Ht & Hv1).
    destruct (take_u8_cons (E:=Error) _ _ _ Hv1) as (b' & Ht' & Hv').
    exists b'. rewrite bind_action, Ht, bind_action, Ht'. by destruct also_from_disk.
  - destruct (take_bytes_app (E:=Error) b _ _ 20 Hv Hw) as (b' & Ht & Hv').
    exists b'. rewrite bind_action, Ht. done.
Qed.

(** A greedy one reads its payload and everything after it. *)
Lemma decode_message_greedy m id p b :
  dm_body m = Some (id, p) → dm_wf m → dm_greedy id = true → view b = p →
  ∃ b', decode_message id b = (Ok m, b') ∧ view b' = [].
Proof.
  intros Hb Hw Hg Hv. destruct (take_all_view b) as (b' & Ht & Hv').
  exists b'. split; [|done].
  destruct m; cbn [dm_body dm_wf] in *; try (by simplify_eq).
  - injection Hb as <- <-. cbn [decode_message].
    rewrite bind_action, Ht, Hv, Magnet_utf8, bind_action. cbn [mret action_ret].
    by rewrite bind_action, Hw.
  - destruct (rk_to s) as [bytes|] eqn:Hs; [|done]. injection Hb as <- <-. cbn [decode_message].
    by rewrite bind_action, Ht, Hv, bind_action, (rk_back _ _ Hs).
  - destruct (rk_to l) as [bytes|] eqn:Hs; [|done]. injection Hb as <- <-. cbn [decode_message].
    by rewrite bind_action, Ht, Hv, bind_action, (rk_back _ _ Hs).
Qed.

Lemma decode_greedy_empties id b :
  dm_greedy id = true → ∃ r b', decode_message id b = (r, b') ∧ view b' = [].
Proof.
  intros Hg. destruct (take_all_view b) as (b' & Ht & Hv').
  destruct id; try done; cbn [decode_message]; rewrite bind_action, Ht.
  - destruct (utf8_valid (view b)); [|by eexists _, b'].
    rewrite bind_action. cbn [mret action_ret]. rewrite bind_action.
    destruct (Magnet_new (view b)); by eexists _, b'.
  - rewrite bind_action. destruct (rk_from (view b)); by eexists _, b'.
  - rewrite bind_action. destruct (rk_from (view b)); by eexists _, b'.
Qed.

(** An unknown id empties the buffer. *)
Lemma decode_none b rest :
  view b = be_bytes 4 1 ++ [0%N] ++ rest →
  ∃ b', DaemonCodec_decode b = (Ok None, b') ∧ view b' = [].
Proof.
  intros Hv.
  assert (Hlb : len (view b) = (5 + len rest)%N).
  { rewrite Hv, !len_app, len_be4. change (len [0%N]) with 1%N. lia. }
  unfold DaemonCodec_decode. rewrite bind_action. cbn [getS]. unfold remaining.
  destruct (N.ltb_spec (len (view b)) 4); [lia|].
  rewrite bind_action, (peek_u32_frame _ 1 _ ltac:(done) Hv). cbn [lift N.eqb].
  destruct (N.ltb_spec (len (view b)) (4 + 1)); [lia|].
  destruct (skip_bytes_app (E:=Error) b _ _ 4 Hv (len_be4 _)) as (b0 & Hs & Hv0).
  destruct (take_u8_cons (E:=Error) b0 0%N rest Hv0) as (b1 & Ht & _).
  exists (clear b1). rewrite bind_action, Hs, bind_action, Ht. split; [done|]. apply view_clear.
Qed.

(** ** How much a call consumes *)

Definition shrinks : relation bytes_mut := fun b b' => (len (view b') <= len (view b))%N.
#[local] Instance shrinks_preorder : PreOrder shrinks.
Proof. split; [intros b; unfold shrinks; lia|intros b1 b2 b3; unfold shrinks; lia]. Qed.

Lemma keeps_take_bytes n : keeps shrinks (take_bytes (E:=Error) n).
Proof.
  intros b r b' Ht _. unfold take_bytes, shrinks in *.
  pose proof (view_copy_to_bytes b n) as Hv. destruct (copy_to_bytes b n) as [[l b1]|];
    injection Ht as <- <-; [|done]. case_decide; [|done]. injection Hv as _ ->.
  unfold len. rewrite length_drop. lia.
Qed.
Lemma keeps_take_u8 : keeps shrinks (take_u8 (E:=Error)).
Proof.
  intros b r b' Ht _. unfold take_u8, shrinks in *.
  pose proof (view_get_u8 b) as Hv. destruct (get_u8 b) as [[x b1]|];
    injection Ht as <- <-; [|done]. destruct (view b); [done|]. injection Hv as _ ->.
  rewrite len_cons. lia.
Qed.
#[local] Hint Resolve keeps_take_bytes keeps_take_u8 : keeps.

Lemma keeps_decode_message id : keeps shrinks (decode_message id).
Proof. destruct id; unfold decode_message, take_all; keep idtac. Qed.

Lemma be_val_zero l : be_val l = 0%N ↔ Forall (eq 0%N) l.
Proof.
  induction l as [|x l IH]; [done|]. rewrite be_val_cons, Forall_cons, <- IH.
  assert (0 < 256 ^ len l)%N by (apply N.neq_0_lt_0, N.pow_nonzero; done). split.
  - intros Hz. destruct (N.eq_dec x 0%N) as [->|]; [split; [done|lia]|nia].
  - intros [<- ->]. lia.
Qed.

Lemma take4_zero l : (4 <= len l)%N → be_val (take 4 l) = 0%N ↔ take 4 l = [0; 0; 0; 0]%N.
Proof.
  intros Hl. rewrite be_val_zero. unfold len in Hl.
  destruct l as [|x0 [|x1 [|x2 [|x3 l]]]]; cbn [length] in Hl; try lia. cbn [take].
  rewrite !Forall_cons. split; [intros (<- & <- & <- & <- & _)|intros [= -> -> -> ->]]; done.
Qed.

Lemma decode_zeros b : take 4 (view b) = [0; 0; 0; 0]%N → DaemonCodec_decode b = (Ok (Some DmQuit), b).
Proof.
  intros Hz. assert (Hl : (4 <= len (view b))%N).
  { apply (f_equal length) in Hz. rewrite length_take in Hz. unfold len. cbn [length] in Hz. lia. }
  unfold DaemonCodec_decode. rewrite bind_action. cbn [getS]. unfold remaining.
  destruct (N.ltb_spec (len (view b)) 4); [lia|].
  rewrite bind_action, peek_u32_spec by done. cbn [lift].
  by rewrite (proj2 (take4_zero _ Hl) Hz).
Qed.

Lemma read_zeros fuel b :
  take 4 (view b) = [0; 0; 0; 0]%N →
  read_messages fuel b = (Ok (replicate fuel DmQuit, false), b).
Proof.
  intros Hz. induction fuel as [|fuel IH]; [done|]. cbn [read_messages].
  by rewrite bind_action, decode_zeros, bind_action, IH.
Qed.

(** A message takes five bytes at least, or is the [Quit] of four zeros. *)
Lemma decode_consumes b m b' :
  DaemonCodec_decode b = (Ok (Some m), b') →
  take 4 (view b) = [0; 0; 0; 0]%N ∧ b' = b ∨ (len (view b') + 5 <= len (view b))%N.
Proof.
  unfold DaemonCodec_decode. rewrite bind_action. cbn [getS]. unfold remaining.
  destruct (N.ltb_spec (len (view b)) 4) as [|Hl]; [done|].
  rewrite bind_action, peek_u32_spec by done. cbn [lift].
  destruct (N.eqb_spec (be_val (take 4 (view b))) 0) as [Hz|Hz].
  { intros [= _ <-]. left. split; [by apply take4_zero|done]. }
  destruct (N.ltb_spec (len (view b)) (4 + be_val (take 4 (view b)))) as [|Hs].
  { destruct (capacity b <? _)%N; done. }
  rewrite bind_action. unfold skip_bytes.
  destruct (advance_some b 4 Hl) as (b1 & -> & Hv1). rewrite bind_action.
  destruct (view b1) as [|x l] eqn:Hvb1.
  { apply (f_equal length) in Hv1. rewrite length_drop in Hv1. unfold len in *. cbn [length] in Hv1. lia. }
  destruct (take_u8_cons (E:=Error) b1 x l Hvb1) as (b2 & -> & Hv2).
  assert (Hl2 : (len (view b2) + 5 = len (view b))%N).
  { apply (f_equal length) in Hv1. rewrite length_drop in Hv1. rewrite Hv2. unfold len in *. cbn [length] in Hv1. lia. }
  destruct (MessageId_try_from x) as [id|]; [|done]. rewrite bind_action.
  destruct (decode_message id b2) as [[m'|e|] b3] eqn:Hd; try done.
  intros [= <- <-]. right. pose proof (keeps_decode_message id _ _ _ Hd ltac:(done)) as Hk.
  unfold shrinks in Hk. lia.
Qed.

(** C20. Every message but [Init] comes back from its bytes when they are the
    last in the buffer, and those of a fixed size whatever follows them, which
    stays in the buffer. *)
Theorem daemon_codec_roundtrip m id p buf :
  dm_body m = Some (id, p) → dm_wf m → (1 + len p <= u32_max)%N →
  ∃ buf' wire, DaemonCodec_encode m buf = (Ok tt, buf') ∧ view buf' = view buf ++ wire ∧
    ∀ b rest, view b = wire ++ rest → dm_greedy id = false ∨ rest = [] →
      ∃ b', DaemonCodec_decode b = (Ok (Some m), b') ∧ view b' = rest.
Proof.
  intros Hb Hw Hl. destruct (encode_frame m id p buf Hb Hw Hl) as (buf' & He & Hv).
  exists buf', (dm_frame id p). split; [done|]. split; [done|]. intros b rest Hvb Hr.
  destruct (dm_decode_head id p rest b Hl Hvb) as (b1 & Hv1 & ->).
  assert (Hd : ∃ b', decode_message id b1 = (Ok m, b') ∧ view b' = rest).
  { destruct (dm_greedy id) eqn:Hg; [|by eapply decode_message_sized].
    destruct Hr as [| ->]; [done|]. rewrite app_nil_r in Hv1. by eapply decode_message_greedy. }
  destruct Hd as (b' & Hd & Hv'). exists b'. by rewrite bind_action, Hd.
Qed.

(** What the codec loses.  A magnet link or a torrent state is read to the
    end of the buffer, so whatever other messages arrived with it are gone; and
    [Init], which is written without an id, comes back as another message or as
    none, and empties the buffer too. *)
Theorem daemon_codec_loses :
  (∀ id p rest b, dm_greedy id = true → (1 + len p <= u32_max)%N → view b = dm_frame id p ++ rest →
    ∃ r b', DaemonCodec_decode b = (r, b') ∧ view b' = []) ∧
  (∀ c buf, ∃ buf' wire, DaemonCodec_encode (DmInit c) buf = (Ok tt, buf') ∧
    view buf' = view buf ++ wire ∧
    ∀ b rest, view b = wire ++ rest →
      ∃ r b', DaemonCodec_decode b = (r, b') ∧ view b' = [] ∧ ∀ c', r ≠ Ok (Some (DmInit c'))).
Proof.
  split.
  - intros id p rest b Hg Hl Hv. destruct (dm_decode_head id p rest b Hl Hv) as (b1 & _ & ->).
    destruct (decode_greedy_empties id b1 Hg) as (r & b' & Hd & Hv').
    rewrite bind_action, Hd. destruct r; by eexists _, b'.
  - intros c buf. exists (put_u8 (put_u32 buf 1) (as_flag c)), (be_bytes 4 1 ++ [as_flag c]).
    split; [done|]. split.
    { rewrite view_put_u8, view_put_u32 by (by destruct c). by rewrite <- app_assoc. }
    intros b rest Hv. rewrite <- app_assoc in Hv. destruct c; cbn [as_flag] in Hv.
    + destruct (dm_decode_head IdNewTorrent [] rest b) as (b1 & _ & ->); [done|exact Hv|].
      cbn [decode_message]. destruct (take_all_view b1) as (b' & Ht & Hv').
      rewrite bind_action, bind_action, Ht.
      destruct (utf8_valid (view b1)); [|by eexists _, b'].
      rewrite bind_action. cbn [mret action_ret]. rewrite bind_action.
      destruct (Magnet_new (view b1)); by eexists _, b'.
    + destruct (decode_none b _ Hv) as (b' & Hd & Hv'). by eexists _, b'.
Qed.

(** C21. A reader stops after at most one message per five bytes, unless it
    meets four zero bytes, and then it never does: they are a [Quit] that stays
    in the buffer, for every number of calls. *)
Theorem daemon_reader_stops b :
  (∀ fuel, (len (view b) < 5 * N.of_nat fuel)%N →
    match read_messages fuel b with
    | (Ok (l, false), b') => take 4 (view b') = [0; 0; 0; 0]%N
    | _ => True
    end) ∧
  (take 4 (view b) = [0; 0; 0; 0]%N →
    ∀ fuel, read_messages fuel b = (Ok (replicate fuel DmQuit, false), b)).
Proof.
  split.
  - intros fuel. revert b. induction fuel as [|fuel IH]; intros b Hl; [lia|].
    cbn [read_messages]. rewrite bind_action.
    destruct (DaemonCodec_decode b) as [[[m|]|e|] b1] eqn:Hd; try done.
    rewrite bind_action. destruct (decode_consumes b m b1 Hd) as [[Hz ->]|Hc].
    + by rewrite (read_zeros fuel b Hz).
    + specialize (IH b1 ltac:(lia)). by destruct (read_messages fuel b1) as [[[l []]|e|] b2].
  - intros Hz fuel. by apply read_zeros.
Qed.
End codec.

(** ** At concrete inputs *)
Section witnesses.
#[local] Existing Instances dev list_bytes.

(** Stand-ins: one magnet link, and a serialiser of the empty list of states
    that refuses others. *)
Definition ex_link : list N := [109; 97; 103; 110; 101; 116; 58; 63]%N.
#[refine] Definition ex_magnet : MagnetApi := {|
  Magnet := unit; Magnet_to_string _ := ex_link;
  Magnet_new l := if decide (l = ex_link) then Some tt else None |}.
Proof. done. Defined.
#[refine] Definition ex_states : RkyvApi (list TorrentState) := {|
  rk_to l := match l with [] => Some [0; 0]%N | _ => None end;
  rk_from b := if decide (b = [0; 0]%N) then Some [] else None |}.
Proof. intros [|s l] b [= <-]; done. Defined.
#[refine] Definition ex_state : RkyvApi TorrentState := {| rk_to _ := None; rk_from _ := None |}.
Proof. done. Defined.
#[local] Existing Instances ex_magnet ex_states ex_state.

Definition dm_bytes (l : list N) : bytes_mut := l.

Lemma daemon_codec_roundtrip_witness :
  (∃ b', DaemonCodec_decode (dm_bytes [0; 0; 0; 3; 8; 0; 0]%N) = (Ok (Some (DmTorrentStates [])), b') ∧ b' = []) ∧
  (∃ b', DaemonCodec_decode (dm_bytes [0; 0; 0; 1; 5; 0; 0; 0; 1; 6]%N) =
    (Ok (Some DmPrintTorrentStatus), b') ∧ b' = [0; 0; 0; 1; 6]%N).
Proof.
  split.
  - destruct (daemon_codec_roundtrip (DmTorrentStates []) IdTorrentStates [0; 0]%N (dm_bytes []))
      as (b1 & w & He & Hw & Hd); [done..|].
    assert (w = [0; 0; 0; 3; 8; 0; 0]%N) as -> by (vm_compute in He; injection He as <-; symmetry; exact Hw).
    apply (Hd (dm_bytes [0; 0; 0; 3; 8; 0; 0]%N) []); [done|by right].
  - destruct (daemon_codec_roundtrip DmPrintTorrentStatus IdPrintTorrentStatus [] (dm_bytes []))
      as (b1 & w & He & Hw & Hd); [done..|].
    assert (w = [0; 0; 0; 1; 5]%N) as -> by (vm_compute in He; injection He as <-; symmetry; exact Hw).
    apply (Hd (dm_bytes [0; 0; 0; 1; 5; 0; 0; 0; 1; 6]%N) [0; 0; 0; 1; 6]%N); [done|by left].
Defined.

(** A [Quit] that follows a list of states is lost; so is an [Init]. *)
Lemma daemon_codec_loses_witness :
  (∃ r b', DaemonCodec_decode (dm_bytes [0; 0; 0; 3; 8; 0; 0; 0; 0; 0; 1; 6]%N) = (r, b') ∧ b' = []) ∧
  (∃ r b', DaemonCodec_decode (dm_bytes [0; 0; 0; 1; 0]%N) = (r, b') ∧ r ≠ Ok (Some (DmInit false))).
Proof.
  split.
  - destruct (proj1 daemon_codec_loses IdTorrentStates [0; 0]%N [0; 0; 0; 1; 6]%N
      (dm_bytes [0; 0; 0; 3; 8; 0; 0; 0; 0; 0; 1; 6]%N)) as (r & b' & Hd); [done..|].
    exists r, b'. exact Hd.
  - destruct (proj2 daemon_codec_loses false (dm_bytes [])) as (b1 & w & He & Hw & Hd).
    assert (w = [0; 0; 0; 1; 0]%N) as -> by (vm_compute in He; injection He as <-; symmetry; exact Hw).
    destruct (Hd (dm_bytes [0; 0; 0; 1; 0]%N) []) as (r & b' & H1 & _ & H2); [done|].
    exists r, b'. split; [exact H1|apply H2].
Defined.

Lemma daemon_reader_stops_witness :
  (read_messages 2 (dm_bytes [0; 0; 0; 1; 5]%N)).1 = Ok ([DmPrintTorrentStatus], true) ∧
  (read_messages 3 (dm_bytes [0; 0; 0; 0]%N)).1 = Ok ([DmQuit; DmQuit; DmQuit], false) ∧
  match read_messages 2 (dm_bytes [0; 0; 0; 1; 5]%N) with (Ok (_, false), _) => False | _ => True end.
Proof.
  split; [done|]. split.
  - by rewrite (proj2 (daemon_reader_stops (dm_bytes [0; 0; 0; 0]%N)) eq_refl 3).
  - pose proof (proj1 (daemon_reader_stops (dm_bytes [0; 0; 0; 1; 5]%N)) 2 ltac:(done)) as H. done.
Defined.
End witnesses.
