(* ===== verification/Tracker.v ===== *)
(** [tracker/mod.rs], [connect.rs], [announce.rs], [action.rs], [event.rs]: the
    exchanges with a UDP tracker, with their retransmissions, and the task that
    announces.  The memory layout of the messages is [rkyv]'s, an interface; what
    the socket and the clock do are arguments. *)
From S2P Require Import Prelude Errors Metainfo Floats Counter Torrent.

(** ** Messages *)

Inductive Action := AConnect | AAnnounce | AScrape.
#[global] Instance Action_eq_dec : EqDecision Action.
Proof. solve_decision. Defined.
Definition Action_as_u32 (a : Action) : N :=
  match a with AConnect => 0 | AAnnounce => 1 | AScrape => 2 end.
Definition Action_try_from (value : N) : option Action :=
  match value with 0%N => Some AConnect | 1%N => Some AAnnounce | 2%N => Some AScrape | _ => None end.

#[global] Instance Event_eq_dec : EqDecision Event.
Proof. solve_decision. Defined.
Definition Event_as_u32 (e : Event) : N :=
  match e with EvNone => 0 | Completed => 1 | Started => 2 | Stopped => 3 end.
Definition Event_try_to_native (value : N) : option Event :=
  match value with
  | 0%N => Some EvNone | 1%N => Some Completed | 2%N => Some Started | 3%N => Some Stopped
  | _ => None
  end.

(** The archived forms: actions and events are the integers they are stored as. *)
Module Connect.
Record Request := { protocol_id : N; rq_action : N; rq_transaction_id : N }.
Record Response := { rs_action : N; rs_transaction_id : N; rs_connection_id : N }.
Definition LEN : N := 16.
Definition MAGIC : N := 0x41727101980.
Definition new (rnd : N) : Request :=
  {| protocol_id := MAGIC; rq_action := Action_as_u32 AConnect; rq_transaction_id := rnd |}.
End Connect.

Module Announce.
Record Request := {
  connection_id : N; action : N; transaction_id : N; info_hash : InfoHash; peer_id : PeerId;
  downloaded : N; left : N; uploaded : N; event : N; ip_address : N; key : N; num_want : N;
  port : N; compact : N }.
Record Response := {
  rs_action : N; rs_transaction_id : N; rs_interval : N; rs_leechers : N; rs_seeders : N }.
Definition LEN : N := 99.
Definition MIN_LEN : N := 20.
End Announce.

(** The fields of a struct of integers and byte arrays, in their order, each
    as big-endian bytes without padding: what [rkyv] documents for
    [#[derive(Archive)]] under the features [big_endian] and [unaligned]. *)
Definition connect_request_bytes (r : Connect.Request) : list N :=
  be_bytes 8 (Connect.protocol_id r) ++ be_bytes 4 (Connect.rq_action r) ++
  be_bytes 4 (Connect.rq_transaction_id r).
Definition announce_request_bytes (r : Announce.Request) : list N :=
  be_bytes 8 (Announce.connection_id r) ++ be_bytes 4 (Announce.action r) ++
  be_bytes 4 (Announce.transaction_id r) ++ Announce.info_hash r ++ Announce.peer_id r ++
  be_bytes 8 (Announce.downloaded r) ++ be_bytes 8 (Announce.left r) ++
  be_bytes 8 (Announce.uploaded r) ++ be_bytes 4 (Announce.event r) ++
  be_bytes 4 (Announce.ip_address r) ++ be_bytes 4 (Announce.key r) ++
  be_bytes 4 (Announce.num_want r) ++ be_bytes 2 (Announce.port r) ++ be_bytes 1 (Announce.compact r).
Definition connect_request_of (bytes : list N) : Connect.Request := {|
  Connect.protocol_id := be_val (window 0 8 bytes); Connect.rq_action := be_val (window 8 4 bytes);
  Connect.rq_transaction_id := be_val (window 12 4 bytes) |}.
Definition connect_response_of (bytes : list N) : Connect.Response := {|
  Connect.rs_action := be_val (window 0 4 bytes); Connect.rs_transaction_id := be_val (window 4 4 bytes);
  Connect.rs_connection_id := be_val (window 8 8 bytes) |}.
Definition announce_response_of (bytes : list N) : Announce.Response := {|
  Announce.rs_action := be_val (window 0 4 bytes); Announce.rs_transaction_id := be_val (window 4 4 bytes);
  Announce.rs_interval := be_val (window 8 4 bytes); Announce.rs_leechers := be_val (window 12 4 bytes);
  Announce.rs_seeders := be_val (window 16 4 bytes) |}.

(** [serialize] and [access_unchecked] of the messages *)
Class TrackerLayout := {
  to_connect_request : Connect.Request → list N;
  access_connect_request : list N → Connect.Request;
  access_connect_response : list N → Connect.Response;
  to_announce_request : Announce.Request → list N;
  access_announce_response : list N → Announce.Response;
  connect_request_layout r : to_connect_request r = connect_request_bytes r;
  connect_request_access bytes : len bytes = Connect.LEN →
    access_connect_request bytes = connect_request_of bytes;
  connect_response_access bytes : len bytes = Connect.LEN →
    access_connect_response bytes = connect_response_of bytes;
  announce_request_layout r : to_announce_request r = announce_request_bytes r;
  announce_response_access bytes : len bytes = Announce.MIN_LEN →
    access_announce_response bytes = announce_response_of bytes;
}.

(** ** The exchange *)

(** What one [timeout(.., socket.recv(..))] answers *)
Inductive recv_answer := Received (datagram : list N) | RecvError | Elapsed.
(** What the exchange has done *)
Inductive net := Sent (request : list N) | Waited (secs : N).

Section tracker.
Context `{Build, TL : TrackerLayout}.

Definition send (ok : bool) (request : list N) : action (list net) Error unit :=
  if ok then modifyS (fun t => t ++ [Sent request]) else lift (Err (IO OtherKind)).

(** [for i in 0..7 { .. }] from [i] on, [n] iterations being left: the datagram
    received; [answers i] and [sends (i + 1)] are the socket's answers in the
    iteration [i] *)
Fixpoint receive_loop (n : nat) (i : N) (retransmit : N) (request : list N)
    (answers : N → recv_answer) (sends : N → bool) : action (list net) Error (option (list N)) :=
  match n with
  | O => mret None
  | S n =>
      match answers i with
      | Received datagram => mret (Some datagram)
      | RecvError => lift (Err TrackerResponse)
      | Elapsed =>
          modifyS (fun t => t ++ [Waited retransmit]) ≫= fun _ =>
          let retransmit := (15 * 2 ^ i)%N in
          send (sends (i + 1)%N) request ≫= fun _ =>
          receive_loop n (i + 1) retransmit request answers sends
      end
  end.

(** The request is sent, and an answer awaited. *)
Definition exchange (request : list N) (answers : N → recv_answer) (sends : N → bool)
    : action (list net) Error (option (list N)) :=
  send (sends 0%N) request ≫= fun _ => receive_loop 7 0 15 request answers sends.

(** A datagram read into a zeroed buffer of [size] bytes: the buffer, and the
    length [recv] returns *)
Definition recv_into (size : N) (datagram : list N) : list N * N :=
  (take (N.to_nat size) (datagram ++ replicate (N.to_nat size) 0%N), N.min size (len datagram)).
Definition received (size : N) (o : option (list N)) : list N * N :=
  recv_into size (default [] o).

(** [connect::Response::deserialize] *)
Definition connect_response (bytes : list N) : outcome Error Connect.Response :=
  if (len bytes =? Connect.LEN)%N then Ok (access_connect_response bytes) else Err ResponseLen.

(** [connect::Request::deserialize] *)
Definition connect_request (bytes : list N) : outcome Error Connect.Request :=
  if negb (len bytes =? Connect.LEN)%N then Err ResponseLen
  else
    magic ← slice bytes 0 8;
    if negb (bool_decide (magic = be_bytes 8 Connect.MAGIC)) then Err ResponseLen
    else Ok (access_connect_request bytes).

(** [announce::Response::deserialize] *)
Definition announce_response (bytes : list N) : outcome Error (Announce.Response * list N) :=
  if (len bytes <? Announce.MIN_LEN)%N then Err ResponseLen
  else
    head ← slice bytes 0 Announce.MIN_LEN;
    rest ← slice bytes Announce.MIN_LEN (len bytes);
    Ok (access_announce_response head, rest).

(** [parse_compact_peer_list]; an address is its octets and its port. *)
Fixpoint parse_chunks (n : nat) (stride : N) (buf : list N) : outcome Error (list (list N * N)) :=
  match n with
  | O => Ok []
  | S n =>
      let ip := window 0 (stride - 2) buf in
      let port := window (stride - 2) 2 buf in
      rest ← parse_chunks n stride (drop (N.to_nat stride) buf);
      Ok ((ip, be_val port) :: rest)
  end.
Definition parse_compact_peer_list (is_ipv6 : bool) (buf : list N) : outcome Error (list (list N * N)) :=
  let stride := if is_ipv6 then 18%N else 6%N in
  if negb (len buf mod stride =? 0)%N then Err CompactPeerListRemainder
  else parse_chunks (N.to_nat (len buf / stride)) stride buf.

(** ** The tracker *)

(** [Tracker<Udp>], with what it reads of the torrent and the configuration *)
Record Tracker := {
  is_ipv6 : bool; tr_disk_size : N; tr_info_hash : InfoHash; tr_counter : Counter;
  tr_local_peer_id : PeerId; tr_connection_id : N; tr_interval : N;
  tr_key : N; tr_max_torrent_peers : N; tr_port : N;
  tr_net : list net;
  (** the peers sent to the torrent with [AddIdlePeers] *)
  tr_out : list (list (list N * N));
}.
Definition with_connection (c i : N) (t : Tracker) : Tracker := {|
  is_ipv6 := is_ipv6 t; tr_disk_size := tr_disk_size t; tr_info_hash := tr_info_hash t;
  tr_counter := tr_counter t; tr_local_peer_id := tr_local_peer_id t; tr_connection_id := c;
  tr_interval := i; tr_key := tr_key t; tr_max_torrent_peers := tr_max_torrent_peers t;
  tr_port := tr_port t; tr_net := tr_net t; tr_out := tr_out t |}.
Definition with_net (n : list net) (out : list (list (list N * N))) (t : Tracker) : Tracker := {|
  is_ipv6 := is_ipv6 t; tr_disk_size := tr_disk_size t; tr_info_hash := tr_info_hash t;
  tr_counter := tr_counter t; tr_local_peer_id := tr_local_peer_id t;
  tr_connection_id := tr_connection_id t; tr_interval := tr_interval t; tr_key := tr_key t;
  tr_max_torrent_peers := tr_max_torrent_peers t; tr_port := tr_port t; tr_net := n; tr_out := out |}.

Definition on_net {A} (m : action (list net) Error A) : action Tracker Error A := fun t =>
  let '(r, n) := m (tr_net t) in (r, with_net n (tr_out t) t).

(** [Tracker::connect], with the transaction id [rnd] *)
Definition connect (rnd : N) (answers : N → recv_answer) (sends : N → bool) : action Tracker Error unit :=
  let req := Connect.new rnd in
  on_net (exchange (to_connect_request req) answers sends) ≫= fun o =>
  let '(buf, n) := received Connect.LEN o in
  if (n =? 0)%N then lift (Err ResponseLen)
  else
    lift (connect_response buf) ≫= fun res =>
    if negb (Connect.rs_transaction_id res =? Connect.rq_transaction_id req)%N ||
       negb (Connect.rs_action res =? Connect.rq_action req)%N
    then lift (Err TrackerResponse)
    else modifyS (fun t => with_connection (Connect.rs_connection_id res) (tr_interval t) t).

Definition ANNOUNCE_RES_BUF_LEN : N := 2 ^ 11.

(** The request of [Tracker::announce] *)
Definition announce_of (ev : Event) (rnd : N) (t : Tracker) : Announce.Request :=
  let downloaded := total_downloaded (tr_counter t) in {|
  Announce.connection_id := tr_connection_id t; Announce.action := Action_as_u32 AAnnounce;
  Announce.transaction_id := rnd; Announce.info_hash := tr_info_hash t;
  Announce.peer_id := tr_local_peer_id t; Announce.downloaded := downloaded;
  Announce.left := tr_disk_size t - downloaded; Announce.uploaded := total_uploaded (tr_counter t);
  Announce.event := Event_as_u32 ev; Announce.ip_address := 0; Announce.key := tr_key t;
  Announce.num_want := as_u32 (tr_max_torrent_peers t); Announce.port := tr_port t;
  Announce.compact := 1 |}.

(** [Tracker::announce] *)
Definition announce (ev : Event) (rnd : N) (answers : N → recv_answer) (sends : N → bool)
    : action Tracker Error (Stats * list (list N * N)) :=
  getS ≫= fun t =>
  let req := announce_of ev rnd t in
  on_net (exchange (to_announce_request req) answers sends) ≫= fun o =>
  let '(buf, n) := received ANNOUNCE_RES_BUF_LEN o in
  lift (slice buf 0 n) ≫= fun bytes =>
  lift (announce_response bytes) ≫= fun '(res, payload) =>
  if negb (Announce.rs_transaction_id res =? Announce.transaction_id req)%N ||
     negb (Announce.rs_action res =? Announce.action req)%N
  then lift (Err TrackerResponse)
  else
    modifyS (fun t => with_connection (tr_connection_id t) (Announce.rs_interval res) t) ≫= fun _ =>
    lift (parse_compact_peer_list (is_ipv6 t) payload) ≫= fun peers =>
    mret ({| interval := Announce.rs_interval res; leechers := Announce.rs_leechers res;
             seeders := Announce.rs_seeders res |}, peers).

(** What wakes [run]: the interval, or a message to announce an event; with the
    random number and the socket's answers of the announce *)
Record wake := {
  wk_event : option Event; wk_rnd : N; wk_answers : N → recv_answer; wk_sends : N → bool }.

Definition add_idle (peers : list (list N * N)) : action Tracker Error unit :=
  modifyS (fun t => with_net (tr_net t) (tr_out t ++ [peers]) t).

(** The loop of [Tracker::run]; it returns whether it was told to stop. *)
Fixpoint run_loop (wakes : list wake) : action Tracker Error bool :=
  match wakes with
  | [] => mret false
  | w :: wakes =>
      let ev := default EvNone (wk_event w) in
      announce ev (wk_rnd w) (wk_answers w) (wk_sends w) ≫= fun '(_, peers) =>
      match wk_event w with
      | None => add_idle peers ≫= fun _ => run_loop wakes
      | Some ev =>
          if decide (ev = Stopped) then mret true
          else add_idle peers ≫= fun _ => run_loop wakes
      end
  end.

(** [Tracker::run]: [interval_at] panics for a period of zero. *)
Definition run (wakes : list wake) : action Tracker Error bool :=
  getS ≫= fun t =>
  if (tr_interval t =? 0)%N then lift Panic else run_loop wakes.
End tracker.
