(* ===== verification/TrackerFacts.v ===== *)
(** The tracker: every exchange ends within a fixed schedule, what a reply
    makes of the tracker, and which peers an announce returns. *)
From S2P Require Import Prelude Errors Metainfo Floats Counter Torrent Tracker.

(** ** The exchange *)
Section exchange.
Context (request : list N) (answers : N → recv_answer) (sends : N → bool).

(** What is done after [i] requests were lost, [n] waits being left. *)
Fixpoint schedule_from (n : nat) (i retransmit : N) : list net :=
  match n with
  | O => []
  | S n => Waited retransmit :: Sent request :: schedule_from n (i + 1) (15 * 2 ^ i)
  end.
(** The whole schedule of an exchange whose requests are all lost *)
Definition schedule : list net := Sent request :: schedule_from 7 0 15.

Lemma receive_loop_spec n i retransmit (t : list net) :
  match receive_loop n i retransmit request answers sends t with
  | (Ok (Some d), t') => ∃ k, (k < n)%nat ∧ answers (i + N.of_nat k)%N = Received d ∧
      (∀ j, (j < k)%nat → answers (i + N.of_nat j)%N = Elapsed) ∧
      t' = t ++ take (2 * k) (schedule_from n i retransmit)
  | (Ok None, t') => (∀ j, (j < n)%nat → answers (i + N.of_nat j)%N = Elapsed) ∧
      t' = t ++ schedule_from n i retransmit
  | (Err _, t') => ∃ k, t' = t ++ take k (schedule_from n i retransmit)
  | (Panic, _) => False
  end.
Proof.
  revert i retransmit t. induction n as [|n IH]; intros i retransmit t; cbn [receive_loop].
  { cbn [schedule_from]. rewrite app_nil_r. split; [intros; lia|done]. }
  destruct (answers i) as [d| |] eqn:Hi.
  - exists 0%nat. rewrite N.add_0_r, app_nil_r. split; [lia|]. split; [done|]. split; [intros; lia|done].
  - exists 0%nat. by rewrite app_nil_r.
  - rewrite bind_action. unfold modifyS at 1. rewrite bind_action. unfold send.
    destruct (sends (i + 1)%N); [|by exists 1%nat].
    unfold modifyS. specialize (IH (i + 1)%N (15 * 2 ^ i)%N ((t ++ [Waited retransmit]) ++ [Sent request])).
    rewrite <- !app_assoc in IH. cbn [app] in IH.
    rewrite <- !app_assoc. cbn [app].
    destruct (receive_loop n _ _ _ _ _ _) as [[[d|]|e|] t'].
    + destruct IH as (k & Hk & Ha & Hl & ->). exists (S k).
      split; [lia|]. replace (i + N.of_nat (S k))%N with (i + 1 + N.of_nat k)%N by lia.
      split; [done|]. split.
      * intros [|j] Hj; [by rewrite N.add_0_r|].
        replace (i + N.of_nat (S j))%N with (i + 1 + N.of_nat j)%N by lia. apply Hl. lia.
      * replace (2 * S k)%nat with (S (S (2 * k))) by lia. by rewrite <- app_assoc.
    + destruct IH as (Hl & ->). split; [|by rewrite <- ?app_assoc].
      intros [|j] Hj; [by rewrite N.add_0_r|].
      replace (i + N.of_nat (S j))%N with (i + 1 + N.of_nat j)%N by lia. apply Hl. lia.
    + destruct IH as (k & ->). exists (S (S k)). by rewrite <- ?app_assoc.
    + done.
Qed.

(** C22. An exchange with a tracker ends, whatever the network does: what is sent
    and waited for is a prefix of one schedule (eight requests, and waits of 15,
    15, 30, 60, 120, 240 and 480 seconds); the answer is the first datagram,
    and there is none only when all seven waits elapse. *)
Theorem tracker_exchange_ends :
  match exchange request answers sends [] with
  | (Ok (Some d), t) => ∃ k, (k < 7)%nat ∧ answers (N.of_nat k) = Received d ∧
      (∀ j, (j < k)%nat → answers (N.of_nat j) = Elapsed) ∧ t = take (1 + 2 * k) schedule
  | (Ok None, t) => (∀ j, (j < 7)%nat → answers (N.of_nat j) = Elapsed) ∧ t = schedule
  | (Err _, t) => t `prefix_of` schedule
  | (Panic, _) => False
  end ∧
  schedule = [Sent request; Waited 15; Sent request; Waited 15; Sent request; Waited 30; Sent request;
    Waited 60; Sent request; Waited 120; Sent request; Waited 240; Sent request; Waited 480; Sent request].
Proof.
  split; [|done]. unfold exchange. rewrite bind_action. unfold send.
  destruct (sends 0%N); [|by apply prefix_nil]. unfold modifyS.
  pose proof (receive_loop_spec 7 0 15 [Sent request]) as Hs. cbn [app] in *.
  destruct (receive_loop 7 0 15 request answers sends _) as [[[d|]|e|] t]; try done.
  destruct Hs as (k & ->). exists (drop k (schedule_from 7 0 15)).
  cbn [app]. by rewrite take_drop.
Qed.
End exchange.

(** The first datagram that arrives, within the seven waits *)
Definition reply (answers : N → recv_answer) (d : list N) : Prop :=
  ∃ k, (k < 7)%nat ∧ answers (N.of_nat k) = Received d ∧
    ∀ j, (j < k)%nat → answers (N.of_nat j) = Elapsed.

Lemma receive_loop_reply n k i retransmit request answers sends d t :
  (∀ j, sends j = true) → (k < n)%nat → answers (i + N.of_nat k)%N = Received d →
  (∀ j, (j < k)%nat → answers (i + N.of_nat j)%N = Elapsed) →
  ∃ t', receive_loop n i retransmit request answers sends t = (Ok (Some d), t').
Proof.
  intros Hs. revert n i retransmit t. induction k as [|k IH]; intros n i retransmit t Hn Hd He;
    (destruct n as [|n]; [lia|]); cbn [receive_loop].
  - rewrite N.add_0_r in Hd. rewrite Hd. by eexists.
  - specialize (He 0%nat ltac:(lia)) as H0. rewrite N.add_0_r in H0. rewrite H0.
    rewrite bind_action. unfold modifyS at 1. rewrite bind_action. unfold send. rewrite Hs.
    unfold modifyS. apply IH; [lia| |].
    + by replace (i + 1 + N.of_nat k)%N with (i + N.of_nat (S k))%N by lia.
    + intros j Hj. replace (i + 1 + N.of_nat j)%N with (i + N.of_nat (S j))%N by lia. apply He. lia.
Qed.

Lemma exchange_reply request answers sends d t :
  (∀ j, sends j = true) → reply answers d →
  ∃ t', exchange request answers sends t = (Ok (Some d), t').
Proof.
  intros Hs (k & Hk & Hd & He). unfold exchange. rewrite bind_action. unfold send. rewrite Hs.
  unfold modifyS. by eapply (receive_loop_reply 7 k).
Qed.

Lemma be_val_eq n l v :
  bytes_ok l → length l = n → (v < 256 ^ N.of_nat n)%N → be_val l = v ↔ l = be_bytes n v.
Proof.
  intros Hb <- Hv. split; [intros <-|intros ->]; [by rewrite be_bytes_be_val|by apply be_val_be_bytes].
Qed.

(** An action and a transaction id at the front *)
Lemma head_matches l a v :
  bytes_ok l → (8 <= length l)%nat → (a < 2 ^ 32)%N → (v < 2 ^ 32)%N →
  (be_val (window 4 4 l) =? v)%N && (be_val (window 0 4 l) =? a)%N =
  bool_decide (take 8 l = be_bytes 4 a ++ be_bytes 4 v).
Proof.
  intros Hb Hl Ha Hv. apply eq_bool_prop_intro. rewrite bool_decide_spec, andb_True, !Is_true_true.
  rewrite !N.eqb_eq.
  assert (Hw : take 8 l = window 0 4 l ++ window 4 4 l) by apply (window_split 0 4 4).
  rewrite (be_val_eq 4), (be_val_eq 4), Hw; try done.
  - split; [by intros [-> ->]|]. intros He. apply app_inj_1 in He as [-> ->]; [done|].
    rewrite length_be_bytes. unfold window. rewrite length_take, length_drop. lia.
  - by apply Forall_take, Forall_drop.
  - unfold window. rewrite length_take, length_drop. lia.
  - by apply Forall_take, Forall_drop.
  - unfold window. rewrite length_take, length_drop. lia.
Qed.

Section tracker.
Context `{TL : TrackerLayout}.
Implicit Types (t : Tracker) (d : list N).

Lemma on_net_reply request answers sends d t :
  (∀ j, sends j = true) → reply answers d →
  ∃ n, on_net (exchange request answers sends) t = (Ok (Some d), with_net n (tr_out t) t).
Proof.
  intros Hs Hr. destruct (exchange_reply request answers sends d (tr_net t) Hs Hr) as (n & He).
  exists n. unfold on_net. by rewrite He.
Qed.

(** Connecting, when a datagram arrives: an empty one is an error, and any
    other is read after being filled up with zeros to sixteen bytes. It must
    begin with the action 0 and the transaction id of the request; what follows
    is the connection id, so a reply cut anywhere behind its first eight bytes
    is accepted. *)
Theorem tracker_connect rnd answers sends t d :
  (rnd < 2 ^ 32)%N → bytes_ok d → (∀ j, sends j = true) → reply answers d →
  let head := take 16 (d ++ replicate 16 0%N) in
  ∃ r t', connect rnd answers sends t = (r, t') ∧
    r = (if decide (d = []) then Err ResponseLen
         else if decide (take 8 head = replicate 4 0%N ++ be_bytes 4 rnd) then Ok tt
         else Err TrackerResponse) ∧
    (tr_connection_id t', tr_interval t') =
      (if decide (r = Ok tt) then be_val (drop 8 head) else tr_connection_id t, tr_interval t).
Proof.
  intros Hrnd Hb Hs Hr head.
  destruct (on_net_reply (to_connect_request (Connect.new rnd)) answers sends d t Hs Hr) as (n & He).
  unfold connect. rewrite bind_action, He. unfold received, recv_into. cbn [default from_option id].
  change (N.to_nat Connect.LEN) with 16%nat. fold head.
  destruct (decide (d = [])) as [->|Hd].
  { eexists _, _. split; [reflexivity|]. split; [done|]. by rewrite decide_False. }
  assert (Hn : N.min Connect.LEN (len d) ≠ 0%N).
  { unfold Connect.LEN, len. destruct d; [done|]. cbn [length]. lia. }
  destruct (N.eqb_spec (N.min Connect.LEN (len d)) 0) as [|_]; [done|].
  assert (Hlh : length head = 16%nat)
    by (unfold head; rewrite length_take, length_app, length_replicate; lia).
  unfold connect_response. unfold len at 1. rewrite Hlh.
  rewrite bind_action. cbn [lift]. rewrite connect_response_access by (unfold len; by rewrite Hlh).
  change (N.of_nat 16 =? Connect.LEN)%N with true. cbv beta iota.
  cbn [Connect.rs_transaction_id Connect.rs_action connect_response_of Connect.new
    Connect.rq_transaction_id Connect.rq_action].
  assert (Hbh : bytes_ok head).
  { apply Forall_take, Forall_app. split; [done|]. by apply Forall_replicate. }
  rewrite <- negb_andb, (head_matches head (Action_as_u32 AConnect) rnd) by (done || lia).
  change (be_bytes 4 (Action_as_u32 AConnect)) with (replicate 4 0%N).
  destruct (decide (take 8 head = _)) as [Hm|Hm].
  - rewrite bool_decide_true by done. cbn [negb]. eexists _, _. split; [reflexivity|]. split; [done|].
    rewrite decide_True by done. cbn [with_connection tr_connection_id tr_interval with_net
      Connect.rs_connection_id connect_response_of]. do 3 f_equal.
    unfold window. apply take_ge. rewrite length_drop, Hlh. done.
  - rewrite bool_decide_false by done. cbn [negb]. eexists _, _. split; [reflexivity|]. split; [done|].
    by rewrite decide_False.
Qed.

(** ** Announcing *)

(** The bytes of an address, and of a reply with its peers *)
Definition peer_bytes (p : list N * N) : list N := p.1 ++ be_bytes 2 p.2.
Definition stride (v6 : bool) : nat := if v6 then 18 else 6.
Definition addr_ok (v6 : bool) (p : list N * N) : Prop :=
  length p.1 = (stride v6 - 2)%nat ∧ (p.2 < 2 ^ 16)%N.
Definition reply_head (rnd i l s : N) : list N :=
  be_bytes 4 1 ++ be_bytes 4 rnd ++ be_bytes 4 i ++ be_bytes 4 l ++ be_bytes 4 s.
Definition announce_reply (rnd i l s : N) (ps : list (list N * N)) : list N :=
  reply_head rnd i l s ++ (ps ≫= peer_bytes).

Lemma length_reply_head rnd i l s : length (reply_head rnd i l s) = 20%nat.
Proof. unfold reply_head. by rewrite !length_app, !length_be_bytes. Qed.

Lemma length_peers v6 ps :
  Forall (addr_ok v6) ps → length (ps ≫= peer_bytes) = (stride v6 * length ps)%nat.
Proof.
  induction 1 as [|p ps [Hp _] _ IH]; [cbn; lia|]. rewrite bind_cons, length_app, IH.
  unfold peer_bytes. rewrite length_app, length_be_bytes, Hp. cbn [length].
  assert (2 <= stride v6)%nat by (destruct v6; simpl; lia). nia.

Qed.

(** Cutting at a multiple of the stride cuts between addresses. *)
Lemma take_peers v6 k ps :
  Forall (addr_ok v6) ps → take (stride v6 * k) (ps ≫= peer_bytes) = take k ps ≫= peer_bytes.
Proof.
  intros Hp. destruct (decide (length ps <= k)%nat) as [Hle|Hgt].
  { rewrite (take_ge ps) by done. apply take_ge. rewrite (length_peers v6) by done. nia. }
  rewrite <- (take_drop k ps) at 1. rewrite bind_app, take_app_length'; [done|].
  rewrite (length_peers v6) by (by apply Forall_take). rewrite length_take. lia.
Qed.

Lemma parse_chunks_peers v6 ps :
  Forall (addr_ok v6) ps →
  parse_chunks (length ps) (N.of_nat (stride v6)) (ps ≫= peer_bytes) = Ok ps.
Proof.
  induction 1 as [|[ip port] ps [Hip Hport] _ IH]; [done|]. cbn [fst snd] in *.
  cbn [length parse_chunks]. rewrite bind_cons.
  replace (peer_bytes (ip, port) ++ (ps ≫= peer_bytes)) with (ip ++ be_bytes 2 port ++ (ps ≫= peer_bytes))
    by (unfold peer_bytes at 2; cbn [fst snd]; by rewrite <- app_assoc).
  assert (Hs : (2 <= stride v6)%nat) by (destruct v6; simpl; lia).
  assert (H1 : ∀ k : list N, window 0 (N.of_nat (stride v6) - 2) (ip ++ k) = ip).
  { intros k. unfold window. rewrite drop_0, take_app_length' by lia. done. }
  assert (H2 : ∀ k : list N, window (N.of_nat (stride v6) - 2) 2 (ip ++ be_bytes 2 port ++ k) = be_bytes 2 port).
  { intros k. unfold window. rewrite drop_app_length' by lia. by rewrite take_app_length' by (by rewrite length_be_bytes). }
  assert (H3 : ∀ k : list N, drop (N.to_nat (N.of_nat (stride v6))) (ip ++ be_bytes 2 port ++ k) = k).
  { intros k. rewrite app_assoc, drop_app_length'; [done|]. rewrite length_app, length_be_bytes. lia. }
  rewrite H1, H2, H3, IH. cbn [mbind outcome_bind].
  by rewrite be_val_be_bytes by (change (256 ^ N.of_nat 2)%N with 65536%N; lia).
Qed.

Lemma parse_peers v6 ps :
  Forall (addr_ok v6) ps → parse_compact_peer_list v6 (ps ≫= peer_bytes) = Ok ps.
Proof.
  intros Hp. unfold parse_compact_peer_list.
  assert (Hst : (if v6 then 18 else 6)%N = N.of_nat (stride v6)) by (by destruct v6). rewrite Hst.
  assert (Hl : len (ps ≫= peer_bytes) = (N.of_nat (length ps) * N.of_nat (stride v6))%N).
  { unfold len. rewrite (length_peers v6) by done. lia. }
  assert (Hnz : N.of_nat (stride v6) ≠ 0%N) by (destruct v6; done).
  rewrite Hl, N.Div0.mod_mul, N.div_mul by done. cbn [N.eqb negb]. rewrite Nat2N.id.
  by apply parse_chunks_peers.
Qed.

#[local] Transparent be_bytes.
Lemma announce_response_head rnd i l s payload :
  (rnd < 2 ^ 32)%N → (i < 2 ^ 32)%N → (l < 2 ^ 32)%N → (s < 2 ^ 32)%N →
  announce_response (reply_head rnd i l s ++ payload) = Ok ({| Announce.rs_action := 1;
    Announce.rs_transaction_id := rnd; Announce.rs_interval := i; Announce.rs_leechers := l;
    Announce.rs_seeders := s |}, payload).
Proof.
  intros Hr Hi Hl Hs. pose proof (length_reply_head rnd i l s) as Hh.
  assert (Hlen : len (reply_head rnd i l s ++ payload) = (20 + len payload)%N)
    by (rewrite len_app; unfold len at 1; by rewrite Hh).
  unfold announce_response. rewrite Hlen. unfold Announce.MIN_LEN.
  destruct (N.ltb_spec (20 + len payload) 20); [lia|].
  rewrite slice_ok by lia. cbn [mbind outcome_bind]. rewrite slice_ok by lia. cbn [mbind outcome_bind].
  assert (Hw : window 0 (20 - 0) (reply_head rnd i l s ++ payload) = reply_head rnd i l s).
  { unfold window. rewrite drop_0. by rewrite take_app_length' by (by rewrite Hh). }
  rewrite Hw, announce_response_access by (unfold len; by rewrite Hh).
  change (announce_response_of (reply_head rnd i l s)) with {|
    Announce.rs_action := be_val (be_bytes 4 1); Announce.rs_transaction_id := be_val (be_bytes 4 rnd);
    Announce.rs_interval := be_val (be_bytes 4 i); Announce.rs_leechers := be_val (be_bytes 4 l);
    Announce.rs_seeders := be_val (be_bytes 4 s) |}.
  rewrite !be_val_be_bytes by done. do 2 f_equal.
  rewrite window_app_r by (unfold len; rewrite Hh; done). unfold len at 1. rewrite Hh.
  apply window_all. lia.
Qed.

#[local] Opaque be_bytes.
(** What is read of a datagram is cut at the size of the buffer. *)
Lemma recv_slice {E} size d :
  @slice E N (recv_into size d).1 0 (recv_into size d).2 = Ok (take (N.to_nat size) d).
Proof.
  cbn [recv_into fst snd]. rewrite slice_ok; [|lia|].
  - f_equal. unfold window. rewrite drop_0, take_take. unfold len.
    rewrite take_app_le by lia. destruct (decide (N.to_nat size <= length d)%nat); [f_equal; lia|by rewrite !take_ge by lia].
  - unfold len. rewrite length_take, length_app, length_replicate. lia.
Qed.

(** The peers that fit *)
Lemma parse_cut v6 ps :
  Forall (addr_ok v6) ps →
  parse_compact_peer_list v6 (take 2028 (ps ≫= peer_bytes)) =
    if v6 && (112 <? len ps)%N then Err CompactPeerListRemainder else Ok (take 338 ps).
Proof.
  intros Hp. pose proof (length_peers v6 ps Hp) as Hl. destruct v6; cbn [stride andb] in *.
  - destruct (N.ltb_spec 112 (len ps)) as [Hn|Hn]; unfold len in Hn.
    + unfold parse_compact_peer_list. unfold len. rewrite length_take, Hl.
      by replace (2028 `min` (18 * length ps))%nat with 2028%nat by lia.
    + rewrite !take_ge by lia. by apply parse_peers.
  - change 2028%nat with (stride false * 338)%nat. rewrite (take_peers false) by done.
    by apply parse_peers, Forall_take.
Qed.

(** An announce that is answered returns the interval and the counts of the
    reply, takes over the interval, keeps the connection, and returns the peers
    of the reply as far as the buffer of 2048 bytes holds them: all of up to 338
    IPv4 addresses, and all of up to 112 IPv6 addresses, while more IPv6
    addresses make the whole announce an error (the interval is taken over all
    the same). *)
Theorem tracker_announce ev rnd answers sends t i l s ps :
  (rnd < 2 ^ 32)%N → (i < 2 ^ 32)%N → (l < 2 ^ 32)%N → (s < 2 ^ 32)%N →
  Forall (addr_ok (is_ipv6 t)) ps → (∀ j, sends j = true) →
  reply answers (announce_reply rnd i l s ps) →
  ∃ t', announce ev rnd answers sends t =
    (if is_ipv6 t && (112 <? len ps)%N then Err CompactPeerListRemainder
     else Ok ({| interval := i; leechers := l; seeders := s |}, take 338 ps), t') ∧
    tr_interval t' = i ∧ tr_connection_id t' = tr_connection_id t.
Proof.
  intros Hrnd Hi Hl Hs Hp Hsend Hr. unfold announce. rewrite bind_action. cbn [getS].
  set (req := announce_of ev rnd t).
  destruct (on_net_reply (to_announce_request req) answers sends _ t Hsend Hr) as (n & He).
  rewrite bind_action, He. cbn [received default from_option id].
  pose proof (recv_slice (E:=Error) ANNOUNCE_RES_BUF_LEN (announce_reply rnd i l s ps)) as Hsl.
  unfold received. cbn [default from_option id]. destruct (recv_into _ _) as [buf m].
  cbn [fst snd] in Hsl. rewrite bind_action, Hsl. cbn [lift].
  assert (Hcut : take (N.to_nat ANNOUNCE_RES_BUF_LEN) (announce_reply rnd i l s ps) =
    reply_head rnd i l s ++ take 2028 (ps ≫= peer_bytes)).
  { replace (N.to_nat ANNOUNCE_RES_BUF_LEN) with (length (reply_head rnd i l s) + 2028)%nat
      by (by rewrite length_reply_head). apply take_app_add. }
  rewrite bind_action, Hcut, announce_response_head by done. cbn [lift].
  cbn [Announce.rs_transaction_id Announce.rs_action Announce.transaction_id Announce.action req announce_of].
  rewrite N.eqb_refl. change (1 =? Action_as_u32 AAnnounce)%N with true. cbn [negb orb].
  rewrite bind_action. unfold modifyS at 1. rewrite bind_action, parse_cut by done. cbn [lift].
  destruct (is_ipv6 t && (112 <? len ps)%N); by eexists.
Qed.
End tracker.

(** ** At concrete inputs *)
Section witnesses.

(** The layout written out *)
#[refine] Definition plain_layout : TrackerLayout := {|
  to_connect_request := connect_request_bytes; access_connect_request := connect_request_of;
  access_connect_response := connect_response_of; to_announce_request := announce_request_bytes;
  access_announce_response := announce_response_of |}.
Proof. all: done. Defined.
#[local] Existing Instance plain_layout.

Definition ex_tracker (v6 : bool) : Tracker := {|
  is_ipv6 := v6; tr_disk_size := 1000; tr_info_hash := replicate 20 7%N; tr_counter := from_total_download 0 10;
  tr_local_peer_id := replicate 20 9%N; tr_connection_id := 5; tr_interval := 0; tr_key := 1;
  tr_max_torrent_peers := 50; tr_port := 51413; tr_net := []; tr_out := [] |}.

(** The first wait elapses, then the datagram arrives. *)
Definition second (d : list N) : N → recv_answer := fun i => if (i =? 0)%N then Elapsed else Received d.
Lemma second_reply d : reply (second d) d.
Proof. exists 1%nat. split; [lia|]. split; [done|]. intros [|j] Hj; [done|lia]. Qed.

(** The request has the length of the struct. *)
Example announce_request_len :
  len (to_announce_request (announce_of Started 3 (ex_tracker false))) = Announce.LEN.
Proof. vm_compute. reflexivity. Qed.

(** A reply of eight bytes connects, to the connection 0. *)
Lemma tracker_connect_witness :
  ∃ t', connect 258 (second [0; 0; 0; 0; 0; 0; 1; 2]%N) (fun _ => true) (ex_tracker false) = (Ok tt, t') ∧
    tr_connection_id t' = 0%N.
Proof.
  destruct (tracker_connect 258 (second [0; 0; 0; 0; 0; 0; 1; 2]%N) (fun _ => true) (ex_tracker false)
    [0; 0; 0; 0; 0; 0; 1; 2]%N) as (r & t' & Hc & Hr & Ht); [done|by repeat constructor|done|apply second_reply|].
  assert (r = Ok tt) as -> by (rewrite Hr; vm_compute; reflexivity).
  rewrite decide_True in Ht by done. exists t'. split; [exact Hc|].
  injection Ht as -> _. vm_compute. reflexivity.
Defined.

Lemma tracker_announce_witness :
  (∃ t', announce EvNone 3 (second (announce_reply 3 1800 2 1 [([10; 0; 0; 1], 6881)]%N)) (fun _ => true)
    (ex_tracker false) =
    (Ok ({| interval := 1800; leechers := 2; seeders := 1 |}, [([10; 0; 0; 1], 6881)]%N), t')) ∧
  (∃ t', announce EvNone 3 (second (announce_reply 3 1800 2 1 (replicate 113 (replicate 16 1, 6881))%N))
    (fun _ => true) (ex_tracker true) = (Err CompactPeerListRemainder, t')).
Proof.
  split.
  - destruct (tracker_announce EvNone 3 (second (announce_reply 3 1800 2 1 [([10; 0; 0; 1], 6881)]%N))
      (fun _ => true) (ex_tracker false) 1800 2 1 [([10; 0; 0; 1], 6881)]%N) as (t' & Ha & _);
      [done..|repeat constructor; done|done|apply second_reply|].
    exists t'. exact Ha.
  - destruct (tracker_announce EvNone 3 (second (announce_reply 3 1800 2 1 (replicate 113 (replicate 16 1, 6881))%N))
      (fun _ => true) (ex_tracker true) 1800 2 1 (replicate 113 (replicate 16 1, 6881))%N) as (t' & Ha & _);
      [done..|apply Forall_replicate; split; [reflexivity|vm_compute; reflexivity]|done|apply second_reply|].
    exists t'. exact Ha.
Defined.
End witnesses.
