(* ===== verification/TrackerMessages.v ===== *)
(** The other side of the messages with a tracker, and how its socket is opened:
    the archived forms of [action.rs] and [event.rs], a request read and a
    response written ([connect.rs], [announce.rs]), and
    [Tracker::connect_to_tracker] ([tracker/mod.rs]). *)
From S2P Require Import Prelude Errors Metainfo Floats Counter Torrent Tracker.

(** ** Archived actions and events *)

(** An archived enum is the integer it is stored as; [to_native] is undefined
    behaviour ([None]) on an integer that stands for nothing. *)
Section archived.
Context {E : Type} (as_u32 : E → N) (native : N → option E).
Definition try_to_native (v : N) : option E := native v.
Definition to_native (v : N) : option E := try_to_native v.
Definition archived_verify (v : N) : outcome Error unit := match try_to_native v with Some _ => Ok tt | None => Err Rkyv end.
Definition archived_eq (v : N) (e : E) : bool := (v =? as_u32 e)%N.
Definition archived_resolve (e : E) : N := as_u32 e.
Definition archived_deserialize (v : N) : option E := to_native v.
End archived.
Definition Action_to_native : N → option Action := to_native Action_try_from.
Definition Event_to_native : N → option Event := to_native Event_try_to_native.

(** ** Requests read, responses written *)

Definition announce_request_of (bytes : list N) : Announce.Request := {|
  Announce.connection_id := be_val (window 0 8 bytes); Announce.action := be_val (window 8 4 bytes);
  Announce.transaction_id := be_val (window 12 4 bytes); Announce.info_hash := window 16 20 bytes;
  Announce.peer_id := window 36 20 bytes; Announce.downloaded := be_val (window 56 8 bytes);
  Announce.left := be_val (window 64 8 bytes); Announce.uploaded := be_val (window 72 8 bytes);
  Announce.event := be_val (window 80 4 bytes); Announce.ip_address := be_val (window 84 4 bytes);
  Announce.key := be_val (window 88 4 bytes); Announce.num_want := be_val (window 92 4 bytes);
  Announce.port := be_val (window 96 2 bytes); Announce.compact := be_val (window 98 1 bytes) |}.
Definition announce_response_bytes (r : Announce.Response) : list N :=
  be_bytes 4 (Announce.rs_action r) ++ be_bytes 4 (Announce.rs_transaction_id r) ++
  be_bytes 4 (Announce.rs_interval r) ++ be_bytes 4 (Announce.rs_leechers r) ++ be_bytes 4 (Announce.rs_seeders r).
Definition connect_response_bytes (r : Connect.Response) : list N :=
  be_bytes 4 (Connect.rs_action r) ++ be_bytes 4 (Connect.rs_transaction_id r) ++ be_bytes 8 (Connect.rs_connection_id r).
(** [announce::Request::deserialize], with [access_unchecked] *)
Definition announce_request (access : list N → Announce.Request) (bytes : list N) : outcome Error Announce.Request :=
  if negb (len bytes =? Announce.LEN)%N then Err ResponseLen else Ok (access bytes).
(** [From<Response> for Stats] *)
Definition stats_of (value : Announce.Response) : Stats := {|
  interval := Announce.rs_interval value; leechers := Announce.rs_leechers value; seeders := Announce.rs_seeders value |}.

(** ** The socket *)

Section socket.
Context `{TL : TrackerLayout}.
(** An address is its octets and its port. *)
Abbreviation Addr := (list N * N)%type.

(** [Tracker::new_udp_socket]: whether a socket can be bound, what the host
    resolves to, and to which of the addresses it connects; the first one is
    taken. *)
Definition new_udp_socket (bound : bool) (resolved : list Addr) (connects : Addr → bool) : outcome Error Addr :=
  if bound then
    match list_find (fun a => Is_true (connects a)) resolved with
    | Some (_, a) => Ok a
    | None => Err TrackerSocketConnect
    end
  else Err TrackerSocketAddr.
(** [Tracker::connect_to_tracker]; [fresh] is the tracker of the given torrent and
    configuration *)
Definition connect_to_tracker (bound : bool) (resolved : list Addr) (connects : Addr → bool)
    (fresh : Tracker) (rnd : N) (answers : N → recv_answer) (sends : N → bool) : outcome Error Tracker :=
  match new_udp_socket bound resolved connects with
  | Ok addr =>
      let t := {|
        is_ipv6 := (len addr.1 =? 16)%N; tr_disk_size := tr_disk_size fresh; tr_info_hash := tr_info_hash fresh;
        tr_counter := tr_counter fresh; tr_local_peer_id := tr_local_peer_id fresh; tr_connection_id := 0;
        tr_interval := 0; tr_key := tr_key fresh; tr_max_torrent_peers := tr_max_torrent_peers fresh;
        tr_port := tr_port fresh; tr_net := []; tr_out := [] |} in
      match connect rnd answers sends t with
      | (Ok _, t) => Ok t
      | (Err _, _) => Err TrackerNoHosts
      | (Panic, _) => Panic
      end
  | Err _ => Err TrackerResponse
  | Panic => Panic
  end.

(** ** Facts *)

(** A socket bound to an address of IPv4 connects to those only: a tracker that is
    connected to is one of them, and peers are never read as IPv6. *)
Lemma connected_addr bound resolved connects fresh rnd answers sends t :
  connect_to_tracker bound resolved connects fresh rnd answers sends = Ok t →
  ∃ a, a ∈ resolved ∧ connects a = true ∧ is_ipv6 t = (len a.1 =? 16)%N.
Proof.
  unfold connect_to_tracker, new_udp_socket. destruct bound; [|done].
  destruct (list_find _ resolved) as [[k a]|] eqn:Hfind; [|done]. apply list_find_Some in Hfind as (Ha & Hc & _).
  exists a. split_and!; [by eapply list_elem_of_lookup_2|by apply Is_true_true|].
  revert H. unfold connect. rewrite bind_action. destruct (on_net _ _) as [[o| |] t1] eqn:Hnet; [|done|done].
  assert (is_ipv6 t1 = (len a.1 =? 16)%N) as Hv6.
  { revert Hnet. unfold on_net. destruct (exchange _ _ _ _). intros [= _ <-]. done. }
  destruct (received _ _) as [buf n]. destruct (n =? 0)%N; [done|]. rewrite bind_action.
  destruct (connect_response buf) as [res| |]; cbn [lift]; [|done|done].
  destruct (_ || _); [done|]. by intros [= <-].
Qed.
Theorem tracker_only_ipv4 bound resolved connects fresh rnd answers sends t :
  (∀ a, connects a = true → len a.1 = 4%N) →
  connect_to_tracker bound resolved connects fresh rnd answers sends = Ok t → is_ipv6 t = false.
Proof.
  intros Hv4 Ht. apply connected_addr in Ht as (a & _ & Hc & ->). by rewrite (Hv4 a Hc).
Qed.
End socket.

(** An archived enum passes its check exactly when it stands for a value, the one
    that [to_native] gives; other integers are undefined behaviour there. *)
Section archived_facts.
Context {E : Type} (as_u32 : E → N) (native : N → option E).
Hypothesis native_iff : ∀ v e, native v = Some e ↔ v = as_u32 e.
Lemma archived_sound v :
  (archived_verify native v = Ok tt ↔ ∃ e, v = as_u32 e ∧ to_native native v = Some e) ∧
  (∀ e, archived_eq as_u32 v e = true ↔ try_to_native native v = Some e) ∧
  (∀ e, archived_deserialize native (archived_resolve as_u32 e) = Some e).
Proof.
  unfold archived_verify, archived_eq, archived_deserialize, to_native, try_to_native, archived_resolve. split_and!.
  - destruct (native v) as [e|] eqn:Hv; split; [|done|done|].
    + intros _. exists e. by rewrite <- native_iff.
    + by intros (e & _ & ?).
  - intros e. by rewrite native_iff, N.eqb_eq.
  - intros e. by rewrite native_iff.
Qed.
End archived_facts.
Lemma Action_native_iff v a : Action_try_from v = Some a ↔ v = Action_as_u32 a.
Proof. split; [|intros ->; by destruct a]. destruct v as [|[[]|[]|]], a; simpl; congruence. Qed.
Lemma Event_native_iff v e : Event_try_to_native v = Some e ↔ v = Event_as_u32 e.
Proof. split; [|intros ->; by destruct e]. destruct v as [|[[]|[]|]], e; simpl; congruence. Qed.

(** The fields of a request, at their sizes *)
Definition request_ok (r : Announce.Request) : Prop :=
  (Announce.connection_id r < 2 ^ 64 ∧ Announce.action r < 2 ^ 32 ∧ Announce.transaction_id r < 2 ^ 32 ∧
   Announce.downloaded r < 2 ^ 64 ∧ Announce.left r < 2 ^ 64 ∧ Announce.uploaded r < 2 ^ 64 ∧
   Announce.event r < 2 ^ 32 ∧ Announce.ip_address r < 2 ^ 32 ∧ Announce.key r < 2 ^ 32 ∧
   Announce.num_want r < 2 ^ 32 ∧ Announce.port r < 2 ^ 16 ∧ Announce.compact r < 2 ^ 8)%N ∧
  len (Announce.info_hash r) = 20%N ∧ len (Announce.peer_id r) = 20%N.
Lemma len_be_bytes n v : len (be_bytes n v) = N.of_nat n.
Proof. unfold len. by rewrite length_be_bytes. Qed.
Lemma window_whole {A} a n (l : list A) : a = 0%N → (len l <= n)%N → window a n l = l.
Proof. intros ->. apply window_all. Qed.
#[local] Ltac lens := rewrite ?len_be_bytes; lia.
#[local] Ltac at_field :=
  repeat (rewrite window_app_r by lens); try (rewrite window_app_l by lens); rewrite window_whole by lens;
  rewrite ?be_val_be_bytes by done; reflexivity.
Lemma announce_request_of_bytes r : request_ok r → announce_request_of (announce_request_bytes r) = r.
Proof.
  destruct r. intros [(?&?&?&?&?&?&?&?&?&?&?&?) [??]]. simpl in *. unfold announce_request_of, announce_request_bytes.
  simpl Announce.connection_id. simpl. f_equal; at_field.
Qed.
Lemma len_announce_request r : request_ok r → len (announce_request_bytes r) = Announce.LEN.
Proof.
  intros [_ [Hh Hp]]. unfold announce_request_bytes. rewrite !len_app, !len_be_bytes, Hh, Hp. done.
Qed.
(** A request that is announced is read back by its fields; every datagram of its
    size is taken as one, and its event may be none. *)
Theorem announce_request_back access :
  (∀ bytes, len bytes = Announce.LEN → access bytes = announce_request_of bytes) →
  (∀ r, request_ok r → announce_request access (announce_request_bytes r) = Ok r) ∧
  (∀ bytes, announce_request access bytes =
    if decide (len bytes = Announce.LEN) then Ok (announce_request_of bytes) else Err ResponseLen) ∧
  (∃ bytes r, announce_request access bytes = Ok r ∧ Event_to_native (Announce.event r) = None).
Proof.
  intros Ha. assert (∀ bytes, announce_request access bytes =
    if decide (len bytes = Announce.LEN) then Ok (announce_request_of bytes) else Err ResponseLen) as Hr.
  { intros bytes. unfold announce_request. case_decide as Hl.
    - by rewrite Hl, N.eqb_refl, Ha.
    - by rewrite (proj2 (N.eqb_neq _ _)). }
  split_and!; [|done|].
  - intros r Hok. rewrite Hr, decide_True by by apply len_announce_request. by rewrite announce_request_of_bytes.
  - exists (replicate 99 255%N). rewrite Hr. eexists. split; reflexivity.
Qed.
(** The responses are read back; the peers are what follows. *)
Theorem responses_back `{TL : TrackerLayout} :
  (∀ r, (Connect.rs_action r < 2 ^ 32 ∧ Connect.rs_transaction_id r < 2 ^ 32 ∧ Connect.rs_connection_id r < 2 ^ 64)%N →
    connect_response (connect_response_bytes r) = Ok r) ∧
  (∀ r rest, (Announce.rs_action r < 2 ^ 32 ∧ Announce.rs_transaction_id r < 2 ^ 32 ∧ Announce.rs_interval r < 2 ^ 32 ∧
     Announce.rs_leechers r < 2 ^ 32 ∧ Announce.rs_seeders r < 2 ^ 32)%N →
    announce_response (announce_response_bytes r ++ rest) = Ok (r, rest)).
Proof.
  split.
  - intros [] (?&?&?). simpl in *. unfold connect_response, connect_response_bytes. simpl.
    rewrite !len_app, !len_be_bytes. simpl. rewrite connect_response_access by (rewrite !len_app, !len_be_bytes; done).
    unfold connect_response_of. do 2 f_equal; at_field.
  - intros [] rest (?&?&?&?&?). simpl in *. unfold announce_response.
    set (r := announce_response_bytes _). assert (len r = 20%N) as Hr by (unfold r, announce_response_bytes; simpl; rewrite !len_app, !len_be_bytes; done).
    rewrite (proj2 (N.ltb_ge _ _)) by (rewrite len_app, Hr; unfold Announce.MIN_LEN; lia).
    unfold Announce.MIN_LEN. rewrite len_app, Hr, slice_ok by (rewrite ?len_app; lia). cbn [mbind outcome_bind].
    rewrite slice_ok by (rewrite ?len_app; lia). cbn [mbind outcome_bind].
    rewrite window_app_l by lia. rewrite (window_whole _ _ r) by lia. rewrite announce_response_access by done.
    rewrite window_app_r by lia. rewrite (window_whole _ _ rest) by lia.
    do 2 f_equal. unfold r, announce_response_bytes, announce_response_of. simpl. f_equal; at_field.
Qed.
