(* ===== verification/MetadataMsg.v ===== *)
(** [extensions/metadata/mod.rs]: the messages that exchange the metadata of a
    torrent, and their form on the wire: a bencoded dictionary with the bytes of
    the piece right behind it. *)
From S2P Require Import Prelude Errors Bencode Core Metainfo BencodeText Handshake.

Inductive MetadataMsgType := MdRequest | MdResponse | MdReject.
Definition MetadataMsgType_as_u8 (t : MetadataMsgType) : N :=
  match t with MdRequest => 0 | MdResponse => 1 | MdReject => 2 end.
Definition MetadataMsgType_try_from (n : N) : option MetadataMsgType :=
  match n with 0%N => Some MdRequest | 1%N => Some MdResponse | 2%N => Some MdReject | _ => None end.

Record Metadata := {
  msg_type : MetadataMsgType; md_piece : N; total_size : option N; md_payload : list N }.

(** [Metadata::request], [data], [reject] *)
Definition Metadata_request (piece : N) : Metadata :=
  {| msg_type := MdRequest; md_piece := piece; total_size := None; md_payload := [] |}.
Definition Metadata_data (piece : N) (info : list N) : Metadata :=
  {| msg_type := MdResponse; md_piece := piece; total_size := Some (len info); md_payload := info |}.
Definition Metadata_reject (piece : N) : Metadata :=
  {| msg_type := MdReject; md_piece := piece; total_size := None; md_payload := [] |}.

(** What follows the first two bytes [ee]: [bytes.windows(2)] *)
Fixpoint after_ee (bytes : list N) : list N :=
  match bytes with
  | a :: rest =>
      match rest with
      | b :: rest' => if (a =? 101)%N && (b =? 101)%N then rest' else after_ee rest
      | [] => []
      end
  | [] => []
  end.

Section messages.
Context `{BendyApi}.

(** One pair of the dictionary *)
Definition Metadata_pair (key : list N) (value : bval) (s : N * N * option N)
    : outcome Error (N * N * option N) :=
  let '(msg_type, piece, total_size) := s in
  if decide (key = ascii "msg_type") then n ← decode_uint u8_max value; Ok (n, piece, total_size)
  else if decide (key = ascii "piece") then n ← decode_uint u64_max value; Ok (msg_type, n, total_size)
  else if decide (key = ascii "total_size") then
    n ← decode_uint usize_max value; Ok (msg_type, piece, Some n)
  else Ok s.

(** [Metadata::from_bencode]: without any byte [next_object] has no object to
    unwrap. *)
Definition Metadata_from_bencode (bytes : list N) : outcome Error Metadata :=
  let payload := after_ee bytes in
  if decide (bytes = []) then Panic
  else
    '(value, _) ← ok_or BencodeError (parse bytes);
    dict ← try_into_dictionary value;
    '(t, piece, total) ← fold_pairs Metadata_pair dict (0%N, 0%N, None);
    t ← ok_or BencodeError (MetadataMsgType_try_from t);
    Ok {| msg_type := t; md_piece := piece; total_size := total; md_payload := payload |}.

(** The dictionary of [Metadata::to_bencode] *)
Definition Metadata_dict (m : Metadata) : list (list N * bval) :=
  [(ascii "msg_type", nat_value (MetadataMsgType_as_u8 (msg_type m)));
   (ascii "piece", nat_value (md_piece m))] ++
  opt_pair (ascii "total_size") nat_value (total_size m).

(** [Metadata::to_bencode] *)
Definition Metadata_to_bencode (m : Metadata) : outcome Error (list N) :=
  value ← emit_dict (Metadata_dict m);
  Ok (raw value ++ md_payload m).

(** [TryFrom<ExtendedMessage>], derived by [vcz_macros::Extension] *)
Definition Metadata_try_from (value : ExtendedMessage) : outcome Error Metadata :=
  if negb (ext_id value =? Metadata_ID)%N then Err (WrongExtensionId Metadata_ID (ext_id value))
  else Metadata_from_bencode (ext_payload value).
Definition Extension_try_from (value : ExtendedMessage) : outcome Error Extension :=
  if negb (ext_id value =? Extension_ID)%N then Err (WrongExtensionId Extension_ID (ext_id value))
  else Extension_from_bencode (ext_payload value).
End messages.

(** ** The first [ee] is the end of the dictionary *)
Section format.
#[local] Existing Instance text_bendy.

(** A text in which [ee] does not occur, nor with an [e] put behind it *)
Fixpoint no_ee (l : list N) : Prop :=
  match l with
  | a :: rest => (a = 101%N → hd_error rest ≠ Some 101%N ∧ rest ≠ []) ∧ no_ee rest
  | [] => True
  end.

Lemma no_ee_app l k : no_ee l → no_ee k → no_ee (l ++ k).
Proof.
  induction l as [|a l IH]; intros Hl Hk; [done|]. destruct Hl as [Ha Hl].
  cbn [app no_ee]. split; [|by apply IH]. intros He. destruct (Ha He) as [H1 H2].
  by destruct l.
Qed.
Lemma no_ee_digits l : Forall is_digit l → no_ee l.
Proof.
  induction 1 as [|a l Ha _ IH]; [done|]. split; [|done]. intros ->. by vm_compute in Ha.
Qed.

Lemma after_ee_found l rest : no_ee l → after_ee (l ++ 101%N :: 101%N :: rest) = rest.
Proof.
  induction l as [|a l IH]; intros Hl; [done|]. destruct Hl as [Ha Hl]. cbn [app].
  destruct l as [|b l].
  - cbn [app after_ee]. destruct (N.eqb_spec a 101) as [->|_]; [|done]. by destruct (Ha eq_refl).
  - cbn [app after_ee] in *. destruct (N.eqb_spec a 101) as [->|_]; [|by apply IH].
    destruct (N.eqb_spec b 101) as [->|_]; [|by apply IH]. by destruct (Ha eq_refl).
Qed.

(** The printed dictionary up to its last two bytes *)
Definition dict_text (m : Metadata) : list N :=
  ascii "d8:msg_typei" ++ decimal (MetadataMsgType_as_u8 (msg_type m)) ++
  ascii "e5:piecei" ++ decimal (md_piece m) ++
  match total_size m with Some n => ascii "e10:total_sizei" ++ decimal n | None => [] end.

Lemma print_nat n : print (nat_value n) = 105%N :: decimal n ++ [101%N].
Proof.
  unfold nat_value. cbn [print]. destruct (Z.ltb_spec (Z.of_N n) 0); [lia|].
  cbn [app]. by rewrite N2Z.inj_abs_N || by rewrite Zabs2N.id.
Qed.

Lemma raw_dict m : raw (BDict (Metadata_dict m)) = dict_text m ++ [101; 101]%N.
Proof.
  change (raw (BDict (Metadata_dict m))) with (print (BDict (Metadata_dict m))).
  unfold Metadata_dict, dict_text. destruct (total_size m) as [n|];
    cbn [opt_pair app print List.flat_map fst snd]; rewrite !print_nat.
  - change (print_str (ascii "msg_type")) with (ascii "8:msg_type").
    change (print_str (ascii "piece")) with (ascii "5:piece").
    change (print_str (ascii "total_size")) with (ascii "10:total_size").
    rewrite <- !app_assoc. cbn [app]. rewrite <- !app_assoc. reflexivity.
  - change (print_str (ascii "msg_type")) with (ascii "8:msg_type").
    change (print_str (ascii "piece")) with (ascii "5:piece").
    rewrite <- !app_assoc. cbn [app]. rewrite <- !app_assoc. reflexivity.
Qed.

Lemma no_ee_text m : no_ee (dict_text m).
Proof.
  unfold dict_text.
  assert (Hd : ∀ n, no_ee (decimal n)) by (intros n; apply no_ee_digits; by destruct (decimal_spec n)).
  repeat apply no_ee_app; try apply Hd; [vm_compute; intuition congruence..|].
  destruct (total_size m); [|done]. apply no_ee_app; [vm_compute; intuition congruence|apply Hd].
Qed.

Definition metadata_wf (m : Metadata) : Prop :=
  (md_piece m <= u64_max)%N ∧ (default 0 (total_size m) <= usize_max)%N.

Lemma dict_sorted m : keys_sorted (Metadata_dict m) = true.
Proof. by destruct m as [t n [s|] p]. Qed.

Lemma dict_ok m : bval_ok MAX_DEPTH (BDict (Metadata_dict m)) = true.
Proof.
  assert (Hd : ∀ d, bval_ok (S d) (BDict (Metadata_dict m)) = true).
  { intros d. change (bval_ok (S d) (BDict (Metadata_dict m))) with
      (keys_sorted (Metadata_dict m) && forallb (fun kv => bval_ok d kv.2) (Metadata_dict m)).
    rewrite dict_sorted. by destruct m as [t n [s|] p], d. }
  exact (Hd 2047%nat).
Qed.

Lemma fold_dict m : metadata_wf m →
  fold_pairs Metadata_pair (Metadata_dict m) (0%N, 0%N, None) =
    Ok (MetadataMsgType_as_u8 (msg_type m), md_piece m, total_size m).
Proof.
  intros [Hp Ht]. assert (Hm : (MetadataMsgType_as_u8 (msg_type m) <= u8_max)%N) by (by destruct (msg_type m)).
  unfold Metadata_dict, nat_value. destruct (total_size m) as [n|]; cbn [default from_option id] in Ht;
    cbn [opt_pair app fold_pairs]; unfold Metadata_pair; keys;
    rewrite (decode_uint_ok u8_max _ Hm), (decode_uint_ok u64_max _ Hp);
    cbn [mbind outcome_bind]; keys; [|done].
  by rewrite (decode_uint_ok usize_max _ Ht).
Qed.

Lemma metadata_decodes m : metadata_wf m →
  Metadata_to_bencode m = Ok (raw (BDict (Metadata_dict m)) ++ md_payload m) ∧
  Metadata_try_from {| ext_id := Metadata_ID;
    ext_payload := raw (BDict (Metadata_dict m)) ++ md_payload m |} = Ok m.
Proof.
  intros Hw. split.
  { unfold Metadata_to_bencode, emit_dict. by rewrite dict_sorted. }
  unfold Metadata_try_from. cbn [ext_id ext_payload]. rewrite N.eqb_refl. cbn [negb].
  unfold Metadata_from_bencode. rewrite decide_False by (rewrite raw_dict; by destruct (dict_text m)).
  rewrite parse_raw by apply dict_ok. cbn [ok_or mbind outcome_bind try_into_dictionary].
  rewrite fold_dict by done. cbn [mbind outcome_bind].
  rewrite raw_dict, <- app_assoc. cbn [app]. rewrite after_ee_found by apply no_ee_text.
  by destruct m as [[] n s p].
Qed.

(** A message of the metadata exchange is decoded from its bytes with its
    payload, where the two bytes that end the dictionary are the first of their
    kind; no payload at all panics the decoder. *)
Theorem metadata_message_roundtrip m :
  metadata_wf m →
  (∃ bytes, Metadata_to_bencode m = Ok bytes ∧
    Metadata_try_from {| ext_id := Metadata_ID; ext_payload := bytes |} = Ok m) ∧
  Metadata_try_from {| ext_id := Metadata_ID; ext_payload := [] |} = Panic.
Proof. intros Hw. split; [|done]. eexists. by apply metadata_decodes. Qed.

Lemma metadata_message_roundtrip_witness :
  ∃ bytes, Metadata_to_bencode (Metadata_data 2 [101; 101; 5]%N) = Ok bytes ∧
    Metadata_try_from {| ext_id := Metadata_ID; ext_payload := bytes |} =
      Ok (Metadata_data 2 [101; 101; 5]%N).
Proof. apply metadata_message_roundtrip. split; vm_compute; discriminate. Defined.

(** The bytes of the unit tests *)
Example metadata_request_bytes :
  Metadata_to_bencode (Metadata_request 0) = Ok (ascii "d8:msg_typei0e5:piecei0ee").
Proof. vm_compute. reflexivity. Qed.
Example metadata_reject_bytes :
  Metadata_to_bencode (Metadata_reject 0) = Ok (ascii "d8:msg_typei2e5:piecei0ee").
Proof. vm_compute. reflexivity. Qed.
End format.
