(* ===== verification/Peer.v ===== *)
(** [peer/mod.rs], [peer/types.rs] and the handlers of the peer wire messages
    ([extensions/core/codec.rs], [extensions/metadata/codec.rs],
    [extensions/extended/codec.rs]): a connected peer, its event loop and its
    handshakes.  What the clock, the socket and the other tasks answer is an
    argument of each step. *)
From S2P Require Import Prelude Buffers Errors Bits Core Bencode Metainfo Disk Floats Counter RequestManager Torrent Handshake MetadataMsg.

Section Peer.
Context `{Build, BV : BitVecApi, BendyApi}.

(** What a peer does to the outside, in order: messages put into the sink and
    flushes of it, messages to the torrent, the disk, the channel of blocks
    given back, its own mailbox, and an answer to [PeerMsg::Clone].  Messages
    of spawned tasks are listed where the task is spawned. *)
Inductive Effect :=
  | Sink (m : Core)
  | Flush
  | ToTorrent (m : TorrentMsg)
  | ToDisk (m : DiskMsg)
  | ToFree (m : ReturnToDisk)
  | ToMailbox (m : PeerMsg)
  | ToCloner (l : list BlockInfo).

(** [Peer<Connected>] with its context; [state_log], which is only logged, is
    left out. *)
Record Peer := {
  ctx : PeerCtx;
  shared : PeerShared;
  outbound : bool;
  p_info_hash : InfoHash;
  (** [torrent_ctx.metadata_size] *)
  p_metadata_size : N;
  extension : option Extension;
  req_man_block : RequestManager BlockInfo;
  req_man_meta : RequestManager MetadataPiece;
  endgame_queue : list BlockInfo;
  have_info : bool; in_endgame : bool; seed_only : bool; is_paused : bool; is_snubbed : bool;
  effects : list Effect;
}.
Abbreviation pact := (action Peer Error).

(** ** Updates *)

Definition with_shared (f : PeerShared → PeerShared) (p : Peer) : Peer := {|
  ctx := ctx p; shared := f (shared p); outbound := outbound p; p_info_hash := p_info_hash p;
  p_metadata_size := p_metadata_size p; extension := extension p; req_man_block := req_man_block p;
  req_man_meta := req_man_meta p; endgame_queue := endgame_queue p; have_info := have_info p;
  in_endgame := in_endgame p; seed_only := seed_only p; is_paused := is_paused p;
  is_snubbed := is_snubbed p; effects := effects p |}.
Definition with_managers (b : RequestManager BlockInfo) (m : RequestManager MetadataPiece)
    (q : list BlockInfo) (p : Peer) : Peer := {|
  ctx := ctx p; shared := shared p; outbound := outbound p; p_info_hash := p_info_hash p;
  p_metadata_size := p_metadata_size p; extension := extension p; req_man_block := b;
  req_man_meta := m; endgame_queue := q; have_info := have_info p;
  in_endgame := in_endgame p; seed_only := seed_only p; is_paused := is_paused p;
  is_snubbed := is_snubbed p; effects := effects p |}.
Definition with_extension (e : option Extension) (p : Peer) : Peer := {|
  ctx := ctx p; shared := shared p; outbound := outbound p; p_info_hash := p_info_hash p;
  p_metadata_size := p_metadata_size p; extension := e; req_man_block := req_man_block p;
  req_man_meta := req_man_meta p; endgame_queue := endgame_queue p; have_info := have_info p;
  in_endgame := in_endgame p; seed_only := seed_only p; is_paused := is_paused p;
  is_snubbed := is_snubbed p; effects := effects p |}.
Definition with_flags (info endgame seed paused snubbed : bool) (p : Peer) : Peer := {|
  ctx := ctx p; shared := shared p; outbound := outbound p; p_info_hash := p_info_hash p;
  p_metadata_size := p_metadata_size p; extension := extension p; req_man_block := req_man_block p;
  req_man_meta := req_man_meta p; endgame_queue := endgame_queue p; have_info := info;
  in_endgame := endgame; seed_only := seed; is_paused := paused;
  is_snubbed := snubbed; effects := effects p |}.
Definition with_effect (e : Effect) (p : Peer) : Peer := {|
  ctx := ctx p; shared := shared p; outbound := outbound p; p_info_hash := p_info_hash p;
  p_metadata_size := p_metadata_size p; extension := extension p; req_man_block := req_man_block p;
  req_man_meta := req_man_meta p; endgame_queue := endgame_queue p; have_info := have_info p;
  in_endgame := in_endgame p; seed_only := seed_only p; is_paused := is_paused p;
  is_snubbed := is_snubbed p; effects := effects p ++ [e] |}.

Definition with_block_man (b : RequestManager BlockInfo) (p : Peer) : Peer :=
  with_managers b (req_man_meta p) (endgame_queue p) p.
Definition with_meta_man (m : RequestManager MetadataPiece) (p : Peer) : Peer :=
  with_managers (req_man_block p) m (endgame_queue p) p.
Definition with_endgame_queue (q : list BlockInfo) (p : Peer) : Peer :=
  with_managers (req_man_block p) (req_man_meta p) q p.
Definition set_have_info (p : Peer) := with_flags true (in_endgame p) (seed_only p) (is_paused p) (is_snubbed p) p.
Definition set_endgame (p : Peer) := with_flags (have_info p) true (seed_only p) (is_paused p) (is_snubbed p) p.
Definition set_seed_only (p : Peer) := with_flags (have_info p) (in_endgame p) true (is_paused p) (is_snubbed p) p.
Definition set_paused (b : bool) (p : Peer) := with_flags (have_info p) (in_endgame p) (seed_only p) b (is_snubbed p) p.
Definition set_snubbed (b : bool) (p : Peer) := with_flags (have_info p) (in_endgame p) (seed_only p) (is_paused p) b p.

Definition set_am_choking (b : bool) (s : PeerShared) : PeerShared := {|
  am_choking := b; am_interested := am_interested s; peer_choking := peer_choking s;
  peer_interested := peer_interested s; pc_counter := pc_counter s; block_infos_len := block_infos_len s |}.
Definition set_am_interested (b : bool) (s : PeerShared) : PeerShared := {|
  am_choking := am_choking s; am_interested := b; peer_choking := peer_choking s;
  peer_interested := peer_interested s; pc_counter := pc_counter s; block_infos_len := block_infos_len s |}.
Definition set_peer_choking (b : bool) (s : PeerShared) : PeerShared := {|
  am_choking := am_choking s; am_interested := am_interested s; peer_choking := b;
  peer_interested := peer_interested s; pc_counter := pc_counter s; block_infos_len := block_infos_len s |}.
Definition set_peer_interested (b : bool) (s : PeerShared) : PeerShared := {|
  am_choking := am_choking s; am_interested := am_interested s; peer_choking := peer_choking s;
  peer_interested := b; pc_counter := pc_counter s; block_infos_len := block_infos_len s |}.
Definition on_counter (f : Counter → Counter) (s : PeerShared) : PeerShared := {|
  am_choking := am_choking s; am_interested := am_interested s; peer_choking := peer_choking s;
  peer_interested := peer_interested s; pc_counter := f (pc_counter s); block_infos_len := block_infos_len s |}.
Definition set_block_infos_len (n : N) (s : PeerShared) : PeerShared := {|
  am_choking := am_choking s; am_interested := am_interested s; peer_choking := peer_choking s;
  peer_interested := peer_interested s; pc_counter := pc_counter s; block_infos_len := n |}.

(** What one step meets: the clock, whether the sink and the channels still
    take messages, and the answers of the torrent and the disk. [None] is an
    answer that never comes (the other side is gone). *)
Record Env := {
  now : N; now' : N;
  sink_ok : bool; torrent_ok : bool; disk_ok : bool; mailbox_ok : bool;
  request_answer : option (outcome Error (list BlockInfo));
  meta_answer : option (list MetadataPiece);
  piece_answer : option (option N);
  info_answer : option (option (list N));
  block_answer : option (outcome Error (list N));
}.

Definition perform (e : Effect) : pact unit := modifyS (with_effect e).
Definition tell_if (ok : bool) (err : Error) (e : Effect) : pact unit :=
  if ok then perform e else lift (Err err).
Definition tell_torrent (env : Env) (m : TorrentMsg) : pact unit :=
  tell_if (torrent_ok env) SendErrorTorrent (ToTorrent m).
Definition tell_disk (env : Env) (m : DiskMsg) : pact unit :=
  tell_if (disk_ok env) SendErrorDisk (ToDisk m).
Definition tell_mailbox (env : Env) (m : PeerMsg) : pact unit :=
  tell_if (mailbox_ok env) SendErrorPeer (ToMailbox m).
(** [self.state.sink.feed(..)], [self.state.sink.send(..)] *)
Definition sink_feed (env : Env) (m : Core) : pact unit :=
  tell_if (sink_ok env) (IO OtherKind) (Sink m).
Definition sink_send (env : Env) (m : Core) : pact unit :=
  sink_feed env m ≫= fun _ => perform Flush.
Definition await {A} (o : option A) : pact A := lift (ok_or ReceiveErrorOneshot o).
Definition update_shared (f : PeerShared → PeerShared) : pact unit := modifyS (with_shared f).

(** A method of [req_man_block], of [req_man_meta] *)
Definition on_blocks {A} (f : RequestManager BlockInfo → outcome Error (A * RequestManager BlockInfo))
    : pact A :=
  getS ≫= fun p =>
  lift (f (req_man_block p)) ≫= fun '(a, m) =>
  modifyS (with_block_man m) ≫= fun _ => mret a.
Definition on_metas {A} (f : RequestManager MetadataPiece → outcome Error (A * RequestManager MetadataPiece))
    : pact A :=
  getS ≫= fun p =>
  lift (f (req_man_meta p)) ≫= fun '(a, m) =>
  modifyS (with_meta_man m) ≫= fun _ => mret a.

(** ** Operations *)

(** [Peer::feed], [Peer::send] *)
Definition feed (env : Env) (core : Core) : pact unit :=
  lift (Core_len core) ≫= fun len =>
  sink_feed env core ≫= fun _ =>
  update_shared (on_counter (record_upload (4 + len))).
Definition send (env : Env) (core : Core) : pact unit :=
  lift (Core_len core) ≫= fun len =>
  sink_send env core ≫= fun _ =>
  update_shared (on_counter (record_upload (4 + len))).

(** [block_infos_len.store(req_man_block.len_with_queue())] *)
Definition store_len : pact unit :=
  modifyS (fun p => with_shared (set_block_infos_len (len_with_queue (req_man_block p))) p).

(** [Peer::can_request] *)
Definition can_request (p : Peer) : bool :=
  am_interested (shared p) && negb (peer_choking (shared p)) && have_info p &&
  (0 <? get_available_request_len (req_man_block p))%N && negb (seed_only p) &&
  negb (is_paused p) && negb (is_snubbed p).

(** [for block in blocks { if add_request(block) { feed(Request(block)) } }] *)
Definition request_block (env : Env) (block : BlockInfo) : pact unit :=
  on_blocks (fun r => add_request (now env) (now' env) r block) ≫= fun added =>
  if (added : bool) then feed env (Request block) else mret tt.

(** [Peer::request_block_infos]; the answer of the torrent is awaited for three
    seconds at most *)
Definition request_block_infos (env : Env) : pact unit :=
  getS ≫= fun p =>
  tell_torrent env (MRequest (ctx p) (get_available_request_len (req_man_block p))) ≫= fun _ =>
  let answered := match request_answer env with Some (Ok blocks) => blocks | _ => [] end in
  forM (request_block env) answered ≫= fun _ =>
  getS ≫= fun p =>
  let qnt := get_available_request_len (req_man_block p) in
  on_blocks (fun r => Ok (drain_qnt_queue r qnt)) ≫= fun blocks =>
  let n := N.to_nat (N.min qnt (len (endgame_queue p))) in
  let from_endgame := bool_decide (blocks = []) in
  let blocks := if from_endgame then take n (endgame_queue p) else blocks in
  modifyS (with_endgame_queue (if from_endgame then drop n (endgame_queue p) else endgame_queue p)) ≫= fun _ =>
  forM (request_block env) blocks ≫= fun _ =>
  if bool_decide (answered ≠ []) || bool_decide (blocks ≠ []) then
    store_len ≫= fun _ => perform Flush
  else mret tt.

(** [Peer::request_metadata] *)
Definition request_metadata_piece (env : Env) (ut_metadata : N) (piece : MetadataPiece) : pact unit :=
  on_metas (fun r => add_request (now env) (now' env) r piece) ≫= fun added =>
  if (added : bool) then
    lift (Metadata_to_bencode (Metadata_request piece)) ≫= fun buf =>
    feed env (Extended {| ext_id := ut_metadata; ext_payload := buf |})
  else mret tt.
Definition request_metadata (env : Env) : pact unit :=
  getS ≫= fun p =>
  match extension p ≫= fun e => ut_metadata (e_m e) with
  | None => mret tt
  | Some id =>
      let qnt := get_available_request_len (req_man_meta p) in
      if (qnt =? 0)%N then mret tt
      else
        tell_disk env (RequestMetadata (p_info_hash p)
          (default 0%N (extension p ≫= e_metadata_size)) qnt) ≫= fun _ =>
        await (meta_answer env) ≫= fun pieces =>
        forM (request_metadata_piece env id) pieces ≫= fun _ =>
        if bool_decide (pieces = []) then mret tt else tell_if (sink_ok env) (IO OtherKind) Flush
  end.

(** [Peer::interested] *)
Definition interested (env : Env) : pact (option N) :=
  getS ≫= fun p =>
  tell_torrent env (MPeerHasPieceNotInLocal (pc_id (ctx p))) ≫= fun _ =>
  await (piece_answer env) ≫= fun should =>
  (if bool_decide (is_Some should) && negb (am_interested (shared p)) then
    update_shared (set_am_interested true) ≫= fun _ => send env Interested
  else mret tt) ≫= fun _ =>
  (if bool_decide (should = None) && am_interested (shared p) then
    update_shared (set_am_interested false) ≫= fun _ => sink_send env NotInterested
  else mret tt) ≫= fun _ =>
  mret should.

(** [Peer::seed_only] *)
Definition enter_seed_only (env : Env) : pact unit :=
  modifyS set_seed_only ≫= fun _ =>
  getS ≫= fun p =>
  (if am_interested (shared p) then tell_mailbox env PmNotInterested else mret tt) ≫= fun _ =>
  modifyS (fun p => with_managers (rm_clear (req_man_block p)) (rm_clear (req_man_meta p)) [] p).

(** [Peer::handle_block] *)
Definition handle_block (env : Env) (block : Block) : pact unit :=
  modifyS (set_snubbed false) ≫= fun _ =>
  let block_info := BlockInfo_from block in
  getS ≫= fun p =>
  if was_fulfilled (req_man_block p) block_info then mret tt
  else
    on_blocks (fun r => fulfill_request (now env) r block_info) ≫= fun _ =>
    update_shared (on_counter (record_download (bi_len block_info))) ≫= fun _ =>
    store_len ≫= fun _ =>
    (if in_endgame p && torrent_ok env then perform (ToTorrent (MCancel (ctx p) block_info)) else mret tt) ≫= fun _ =>
    (if disk_ok env then perform (ToDisk (WriteBlock (p_info_hash p) block)) else mret tt).

(** [Peer::free_pending_blocks] *)
Definition free_pending_blocks : pact unit :=
  getS ≫= fun p =>
  on_blocks (fun r => Ok (drain r)) ≫= fun infos =>
  (if bool_decide (infos = []) then mret tt else perform (ToFree (ReturnBlock (p_info_hash p) infos))) ≫= fun _ =>
  on_metas (fun r => Ok (drain r)) ≫= fun metas =>
  (if bool_decide (metas = []) then mret tt else perform (ToFree (ReturnMetadata (p_info_hash p) metas))).

(** [Peer::handle_ext] *)
Definition handle_ext (e : Extension) : pact unit :=
  let n := default DEFAULT_REQUEST_QUEUE_LEN (e_reqq e) in
  modifyS (fun p => with_extension (Some e)
    (with_managers (set_limit (req_man_block p) n) (set_limit (req_man_meta p) n) (endgame_queue p) p)).

(** [Peer::anti_snubbing] *)
Definition anti_snubbing (env : Env) : pact unit :=
  getS ≫= fun p =>
  match get_last_timestamp (req_man_block p) with
  | None => mret tt
  | Some last =>
      if (from_secs 30 <? now env - last)%N && am_interested (shared p) &&
         negb (peer_choking (shared p)) && negb (is_snubbed p)
      then
        modifyS (set_snubbed true) ≫= fun _ =>
        (if in_endgame p then mret tt else free_pending_blocks) ≫= fun _ =>
        if am_choking (shared p) then mret tt else sink_send env Choke
      else mret tt
  end.

(** ** Messages of the remote peer *)

(** [ExtMsgHandler<Core>::handle_msg] *)
Definition handle_core (env : Env) (msg : Core) : pact unit :=
  getS ≫= fun p =>
  match msg with
  | Extended _ | KeepAlive | Cancel _ => mret tt
  | Bitfield b => tell_torrent env (MSetPeerBitfield (pc_id (ctx p)) b)
  | Unchoke => update_shared (set_peer_choking false)
  | Choke => update_shared (set_peer_choking true) ≫= fun _ => free_pending_blocks
  | Interested => update_shared (set_peer_interested true)
  | NotInterested => update_shared (set_peer_interested false)
  | Have piece => tell_torrent env (MPeerHave (pc_id (ctx p)) piece)
  | Piece block => if seed_only p then mret tt else handle_block env block
  | Request b =>
      if negb (peer_interested (shared p)) then mret tt
      else if negb (BlockInfo_is_valid b) then mret tt
      else
        tell_disk env (ReadBlock (p_info_hash p) b) ≫= fun _ =>
        await (block_answer env) ≫= fun r =>
        lift r ≫= fun bytes =>
        send env (Piece {| bl_index := bi_index b; bl_begin := bi_begin b; bl_block := bytes |})
  end.

(** [ExtMsgHandler<Metadata>::handle_msg] *)
Definition handle_metadata (env : Env) (msg : Metadata) : pact unit :=
  getS ≫= fun p =>
  match extension p ≫= fun e => ut_metadata (e_m e) with
  | None => mret tt
  | Some remote_ext_id =>
      let reply (m : Metadata) : pact unit :=
        lift (Metadata_to_bencode m) ≫= fun buf =>
        sink_send env (Extended {| ext_id := remote_ext_id; ext_payload := buf |}) in
      match msg_type msg with
      | MdResponse =>
          on_metas (fun r => fulfill_request (now env) r (md_piece msg)) ≫= fun _ =>
          lift (ok_or MessageResponse (total_size msg)) ≫= fun total =>
          tell_torrent env (MDownloadedInfoPiece total (md_piece msg) (md_payload msg))
      | MdRequest =>
          tell_torrent env (MRequestInfoPiece (md_piece msg)) ≫= fun _ =>
          await (info_answer env) ≫= fun o =>
          match o with
          | Some info_slice => reply (Metadata_data (md_piece msg) info_slice)
          | None => reply (Metadata_reject (md_piece msg))
          end
      | MdReject => mret tt
      end
  end.

(** [metadata_size], as the handshakes send it: 0 is unknown *)
Definition known_size (n : N) : option N := if (n =? 0)%N then None else Some n.

(** [ExtMsgHandler<Extension>::handle_msg] *)
Definition handle_extension (env : Env) (msg : Extension) : pact unit :=
  getS ≫= fun p =>
  (if outbound p then
    lift (Extension_encode (supported (known_size (p_metadata_size p)))) ≫= fun value =>
    feed env (Extended {| ext_id := Extension_ID; ext_payload := raw value |})
  else mret tt) ≫= fun _ =>
  handle_ext msg.

(** [Core::ID], the id of no message *)
Definition Core_ID : N := 255.

(** [handle_message], generated by [vcz_macros::Peer] for [Core], [Metadata] and
    [Extension] *)
Definition handle_message (env : Env) (msg : Core) : pact unit :=
  match msg with
  | Extended m =>
      if (ext_id m =? Core_ID)%N then handle_core env (Extended m)
      else if (ext_id m =? Metadata_ID)%N then
        lift (Metadata_try_from m) ≫= fun m => handle_metadata env m
      else if (ext_id m =? Extension_ID)%N then
        lift (Extension_try_from m) ≫= fun m => handle_extension env m
      else mret tt
  | _ => handle_core env msg
  end.

(** ** The event loop *)

(** What [Peer::run] selects on *)
Inductive PeerEvent :=
  | EvMessage (m : Core)
  | EvMetadata | EvHelp | EvBlocks | EvInterested | EvKeepAlive
  | EvBroadcast (m : PeerBrMsg)
  | EvMail (m : PeerMsg).

(** The guards of the branches *)
Definition enabled (p : Peer) (ev : PeerEvent) : bool :=
  match ev with
  | EvMetadata => negb (have_info p)
  | EvBlocks => can_request p
  | EvInterested => negb (seed_only p) && negb (is_paused p)
  | _ => true
  end.

(** Whether the loop goes on *)
Definition go_on (m : pact unit) : pact bool := m ≫= fun _ => mret true.

(** A message of the torrent to all peers *)
Definition handle_broadcast (env : Env) (m : PeerBrMsg) : pact bool :=
  match m with
  | HavePiece piece => go_on (send env (Have piece))
  | Pause =>
      go_on (modifyS (set_paused true) ≫= fun _ =>
             tell_mailbox env PmChoke ≫= fun _ => tell_mailbox env PmNotInterested)
  | Resume => go_on (modifyS (set_paused false))
  | Seedonly => go_on (enter_seed_only env)
  | Quit => mret false
  | HaveInfo =>
      go_on (modifyS set_have_info ≫= fun _ =>
             modifyS (fun p => with_meta_man (rm_clear (req_man_meta p)) p))
  end.

(** A message to this peer; [blocks] are shuffled by the caller of the model *)
Definition handle_mail (env : Env) (m : PeerMsg) : pact unit :=
  getS ≫= fun p =>
  match m with
  | PmCorruptedPiece piece torrent_length piece_length =>
      lift (get_block_infos_of_piece torrent_length piece_length piece) ≫= fun blocks =>
      forM (fun b => modifyS (fun p => with_block_man (unfulfill (req_man_block p) b) p)) blocks
  | PmEndgame =>
      modifyS set_endgame ≫= fun _ =>
      if torrent_ok env
      then perform (ToTorrent (MBroadcastBlockInfos (ctx p) (clone_requests (req_man_block p))))
      else mret tt
  | PmBlocks blocks =>
      modifyS (fun p => with_endgame_queue (endgame_queue p ++ blocks) p) ≫= fun _ => store_len
  | PmCancel block_info =>
      lift (match position block_info (endgame_queue p) with
            | Some pos => vec_swap_remove (endgame_queue p) pos
            | None => Ok (endgame_queue p)
            end) ≫= fun q =>
      modifyS (with_endgame_queue q) ≫= fun _ =>
      on_blocks (fun r => fulfill_request (now env) r block_info) ≫= fun _ => store_len
  | PmInterestedAlgorithm => interested env ≫= fun _ => mret tt
  | PmRequestAlgorithm => request_block_infos env
  | PmClone qnt =>
      store_len ≫= fun _ =>
      perform (ToCloner (clone_qnt (req_man_block p) (N.min qnt (len_with_queue (req_man_block p)))))
  | PmNotInterested => update_shared (set_am_interested false) ≫= fun _ => send env NotInterested
  | PmInterested => update_shared (set_am_interested true) ≫= fun _ => send env Interested
  | PmChoke => update_shared (set_am_choking true) ≫= fun _ => send env Choke
  | PmUnchoke => update_shared (set_am_choking false) ≫= fun _ => send env Unchoke
  end.

(** One turn of the loop: whether it goes on. The error of a message of the
    remote peer is dropped ([let _ = ..]), any other ends [run]. *)
Definition peer_step (env : Env) (ev : PeerEvent) : pact bool :=
  match ev with
  | EvMessage m => go_on (catch tt (handle_message env m))
  | EvMetadata => go_on (request_metadata env)
  | EvHelp => go_on (anti_snubbing env)
  | EvBlocks => go_on (request_block_infos env)
  | EvInterested => go_on (interested env ≫= fun _ => mret tt)
  | EvKeepAlive => go_on (send env KeepAlive)
  | EvBroadcast m => handle_broadcast env m
  | EvMail m => go_on (handle_mail env m)
  end.

(** The start of [Peer::run]: the torrent is told. *)
Definition peer_start (env : Env) : pact unit :=
  getS ≫= fun p => tell_torrent env (MPeerConnected (ctx p)).

(** The states the loop goes through, when all events are [allowed] *)
Inductive peer_reaches (allowed : PeerEvent → Prop) (p0 : Peer) : Peer → Prop :=
  | reach_start env p : peer_start env p0 = (Ok tt, p) → peer_reaches allowed p0 p
  | reach_step env ev p p' :
      peer_reaches allowed p0 p → allowed ev → enabled p ev = true →
      peer_step env ev p = (Ok true, p') → peer_reaches allowed p0 p'.

(** ** Handshakes *)

(** What a socket yields in place of the remote handshake *)
Inductive hs_answer := HsGot (h : Handshake) | HsError | HsClosed | HsTimeout.

(** Our handshake, with the size of the metadata when it is known *)
Definition our_handshake (info_hash : InfoHash) (peer_id : PeerId) (metadata_size : N) : Handshake :=
  let h := Handshake_new info_hash peer_id in
  {| pstr_len := pstr_len h; pstr := pstr h; reserved := reserved h; hs_info_hash := hs_info_hash h;
     hs_peer_id := hs_peer_id h;
     ext := (fun e => {| e_m := e_m e; e_metadata_size := known_size metadata_size; e_p := e_p e;
                         e_reqq := e_reqq e; e_v := e_v e |}) <$> ext h |}.

(** A peer fresh from a handshake *)
Definition new_peer (c : PeerCtx) (out : bool) (info_hash : InfoHash) (metadata_size t : N) : Peer := {|
  ctx := c; outbound := out; p_info_hash := info_hash; p_metadata_size := metadata_size;
  shared := {| am_choking := true; am_interested := false; peer_choking := true;
               peer_interested := false; pc_counter := from_total_download t 0; block_infos_len := 0 |};
  extension := None; req_man_block := rm_new; req_man_meta := rm_new; endgame_queue := [];
  have_info := false; in_endgame := false; seed_only := false; is_paused := false;
  is_snubbed := false; effects := [] |}.

(** The bitfield is asked for and sent. *)
Definition send_bitfield (env : Env) (bitfield : option bitvec) : pact unit :=
  tell_torrent env MReadBitfield ≫= fun _ =>
  await bitfield ≫= fun b => sink_send env (Bitfield b).

(** The remote handshake, or the error that stands for what came instead *)
Definition remote_handshake (a : hs_answer) : outcome Error Handshake :=
  match a with
  | HsGot h => Ok h
  | HsError => Err HandshakeInvalid
  | HsClosed => Err PeerClosedSocket
  | HsTimeout => Err HandshakeTimeout
  end.

(** [Peer<Idle>::outbound_handshake], once our handshake is sent *)
Definition outbound_handshake (env : Env) (c : PeerCtx) (info_hash : InfoHash) (local_id : PeerId)
    (metadata_size : N) (a : hs_answer) (bitfield : option bitvec) : outcome Error Peer :=
  h ← remote_handshake a;
  if negb (validate h (our_handshake info_hash local_id metadata_size)) then Err HandshakeInvalid
  else
    let p := new_peer {| pc_ref := pc_ref c; pc_id := hs_peer_id h; pc_addr := pc_addr c |}
      true info_hash metadata_size (now env) in
    match ((match ext h with Some e => handle_ext e | None => mret tt end) ≫= fun _ =>
           send_bitfield env bitfield) p with
    | (Ok _, p) => Ok p
    | (Err e, _) => Err e
    | (Panic, _) => Panic
    end.

(** [Peer<Idle>::inbound_handshake]; [torrents] are the sizes of the metadata of
    the torrents of the daemon.  The torrent is unwrapped before the check that
    it exists. *)
Definition inbound_handshake (env : Env) (c : PeerCtx) (torrents : gmap InfoHash N) (local_id : PeerId)
    (a : hs_answer) (info : option bool) (status : option TorrentStatus) (bitfield : option bitvec)
    : outcome Error Peer :=
  h ← remote_handshake a;
  metadata_size ← or_panic (torrents !! hs_info_hash h);
  let ours := our_handshake (hs_info_hash h) local_id metadata_size in
  if negb (validate h ours) then Err HandshakeInvalid
  else if negb (sink_ok env) then Err (IO OtherKind)
  else
    let p := new_peer {| pc_ref := pc_ref c; pc_id := hs_peer_id h; pc_addr := pc_addr c |}
      false (hs_info_hash h) metadata_size (now env) in
    match ((match ext h with Some e => handle_ext e | None => mret tt end) ≫= fun _ =>
           tell_torrent env MHaveInfo ≫= fun _ => await info ≫= fun b =>
           modifyS (fun p => with_flags b (in_endgame p) (seed_only p) (is_paused p) (is_snubbed p) p) ≫= fun _ =>
           tell_torrent env MGetTorrentStatus ≫= fun _ => await status ≫= fun s =>
           modifyS (fun p => with_flags (have_info p) (in_endgame p) (bool_decide (s = Seeding))
             (is_paused p) (is_snubbed p) p) ≫= fun _ =>
           send_bitfield env bitfield) p with
    | (Ok _, p) => Ok p
    | (Err e, _) => Err e
    | (Panic, _) => Panic
    end.
End Peer.

(** [PeerId::generate], with ten random letters and digits: the last of the
    twenty bytes stays 0 *)
Definition generate (rnd : list N) : PeerId :=
  ascii "vcz-0001-" ++ take 10 rnd ++ [0%N].
