(* ===== verification/PeerFacts.v ===== *)
(** A connected peer: what it told the remote peer about interest and choking,
    which blocks it writes, and what a metadata piece becomes on its way. *)
From S2P Require Import Prelude Buffers Errors Bits Core Bencode BencodeText Metainfo Disk Floats Counter RequestManager RequestManagerFacts Torrent Handshake MetadataMsg Peer.

Section Peer.
Context `{Build, BV : BitVecApi, BendyApi}.
Implicit Types (p : Peer) (env : Env).

(** ** Interest and choking as the remote peer knows them *)

Definition choke_event (b : bool) (e : Effect) : bool :=
  match e with Sink Choke => true | Sink Unchoke => false | _ => b end.
Definition interest_event (b : bool) (e : Effect) : bool :=
  match e with Sink Interested => true | Sink NotInterested => false | _ => b end.
(** What was said last; a peer starts choked and of no interest *)
Definition choke_told (l : list Effect) : bool := foldl choke_event true l.
Definition interest_told (l : list Effect) : bool := foldl interest_event false l.

(** Nothing is said or changed about either. *)
Definition quiet : relation Peer := fun p p' =>
  choke_told (effects p') = choke_told (effects p) ∧
  interest_told (effects p') = interest_told (effects p) ∧
  am_choking (shared p') = am_choking (shared p) ∧
  am_interested (shared p') = am_interested (shared p).
#[local] Instance quiet_preorder : PreOrder quiet.
Proof. split; [done|]. intros p1 p2 p3 (?&?&?&?) (?&?&?&?). unfold quiet. split_and!; congruence. Qed.

(** ** The blocks it hands to the disk *)

Definition write_of (e : Effect) : option BlockInfo :=
  match e with ToDisk (WriteBlock _ b) => Some (BlockInfo_from b) | _ => None end.
Definition written (l : list Effect) : list BlockInfo := omap write_of l.

(** None is written, and none fulfilled is forgotten. *)
Definition calm : relation Peer := fun p p' =>
  written (effects p') = written (effects p) ∧ seed_only p' = seed_only p ∧
  fulfilled_index (req_man_block p) ⊆ fulfilled_index (req_man_block p').
#[local] Instance calm_preorder : PreOrder calm.
Proof.
  split; [done|]. intros p1 p2 p3 (?&?&?) (?&?&?). unfold calm. split_and!; [congruence..|set_solver].
Qed.

(** What most operations are *)
Definition plain : relation Peer := fun p p' => quiet p p' ∧ calm p p'.
#[local] Instance plain_preorder : PreOrder plain.
Proof. split; [done|]. intros p1 p2 p3 [??] [??]. split; by etrans. Qed.
Lemma keeps_quiet {A} (m : action Peer Error A) : keeps plain m → keeps quiet m.
Proof. apply keeps_impl. by intros ?? []. Qed.
Lemma keeps_calm {A} (m : action Peer Error A) : keeps plain m → keeps calm m.
Proof. apply keeps_impl. by intros ?? []. Qed.

(** An effect that says nothing of them *)
Definition silent (e : Effect) : Prop :=
  (∀ b, choke_event b e = b) ∧ (∀ b, interest_event b e = b) ∧ write_of e = None.

Lemma keeps_perform e : silent e → keeps plain (perform e).
Proof.
  intros (H1 & H2 & H3). apply keeps_modifyS. intros p.
  unfold plain, quiet, calm, with_effect, choke_told, interest_told, written.
  cbn [effects shared seed_only req_man_block]. rewrite !foldl_app, omap_app. cbn [foldl omap list_omap].
  by rewrite H1, H2, H3, app_nil_r.
Qed.
Lemma keeps_tell_if ok err e : silent e → keeps plain (tell_if ok err e).
Proof. intros He. unfold tell_if. destruct ok; [by apply keeps_perform|apply keeps_lift; apply _]. Qed.
Lemma keeps_sink_feed env m : silent (Sink m) → keeps plain (sink_feed env m).
Proof. apply keeps_tell_if. Qed.
Lemma keeps_sink_send env m : silent (Sink m) → keeps plain (sink_send env m).
Proof.
  intros Hm. apply keeps_bind; [apply _|by apply keeps_sink_feed|]. intros _. by apply keeps_perform.
Qed.
Lemma keeps_update_shared f :
  (∀ s, am_choking (f s) = am_choking s ∧ am_interested (f s) = am_interested s) →
  keeps plain (update_shared f).
Proof. intros Hf. apply keeps_modifyS. intros p. by destruct (Hf (shared p)). Qed.
Lemma keeps_await {A} (o : option A) : keeps plain (await o).
Proof. apply keeps_lift, _. Qed.
Lemma keeps_store_len : keeps plain store_len.
Proof. by apply keeps_modifyS. Qed.
Lemma keeps_on_blocks {A} (f : _ → outcome Error (A * _)) :
  (∀ r a m, f r = Ok (a, m) → fulfilled_index r ⊆ fulfilled_index m) → keeps plain (on_blocks f).
Proof.
  intros Hf p r p' Ho Hr. unfold on_blocks in Ho. rewrite bind_action in Ho. cbn [getS] in Ho.
  rewrite bind_action in Ho. cbn [lift] in Ho. destruct (f (req_man_block p)) as [[a m]|e|] eqn:Hm.
  - injection Ho as <- <-. by specialize (Hf _ _ _ Hm).
  - by injection Ho as <- <-.
  - by injection Ho as <- <-.
Qed.
Lemma add_grows now now' x r a m :
  @add_request BlockInfo _ _ Error now now' r x = Ok (a, m) → fulfilled_index r ⊆ fulfilled_index m.
Proof.
  unfold add_request. case_match; [intros [= _ <-]; done|]. case_match; [intros [= _ <-]; done|].
  destruct (get_timeout r); [|done..]. cbn [mbind outcome_bind]. intros [= _ <-]. done.
Qed.
Lemma fulfill_grows now x r a m :
  @fulfill_request BlockInfo _ _ Error now r x = Ok (a, m) →
  fulfilled_index m = {[x]} ∪ fulfilled_index r.
Proof.
  unfold fulfill_request. case_match.
  { destruct (vec_swap_remove _ _) as [q|e|]; [|done..]. cbn [mbind outcome_bind]. by intros [= _ <-]. }
  case_match; [|by intros [= _ <-]].
  destruct (vec_remove _ _) as [reqs|e|]; [|done..].
  cbn [mbind outcome_bind].
  assert (Hq : ∀ o : outcome Error (list BlockInfo), ∀ k : list BlockInfo → RequestManager BlockInfo,
    (q ← o; Ok (true, k q)) = Ok (a, m) → ∃ q, m = k q).
  { intros [q|e|] k; [|done..]. intros [= _ <-]. by exists q. }
  intros (q & ->)%Hq. cbn [fulfilled_index].
  match goal with |- context [record_response ?r ?x ?t] =>
    by destruct (record_response_fields r x t) as (_ & _ & _ & _ & -> & _) end.
Qed.
Lemma keeps_on_metas {A} (f : _ → outcome Error (A * _)) : keeps plain (on_metas f).
Proof. unfold on_metas. keep ltac:(done). Qed.
#[local] Hint Resolve keeps_on_blocks keeps_on_metas keeps_perform keeps_tell_if keeps_sink_feed keeps_sink_send keeps_update_shared
  keeps_await keeps_store_len : keeps.
#[local] Hint Extern 1 (∀ r a m, _ = Ok (a, m) → _ ⊆ _) =>
  (first [apply add_grows | intros ??? Hg; rewrite (fulfill_grows _ _ _ _ _ Hg); set_solver
         | intros ??? [= _ <-]; done]) : keeps.
#[local] Hint Extern 1 (silent _) => (by split) : keeps.
#[local] Hint Extern 1 (∀ s : PeerShared, _ ∧ _) => (by intros) : keeps.

Lemma keeps_feed env m : silent (Sink m) → keeps plain (feed env m).
Proof. intros Hm. unfold feed. keep idtac. Qed.
Lemma keeps_send env m : silent (Sink m) → keeps plain (send env m).
Proof. intros Hm. unfold send. keep idtac. Qed.
#[local] Hint Resolve keeps_feed keeps_send : keeps.

Lemma keeps_request_block env b : keeps plain (request_block env b).
Proof. unfold request_block. keep ltac:(done). Qed.
Lemma keeps_request_metadata_piece env i b : keeps plain (request_metadata_piece env i b).
Proof. unfold request_metadata_piece. keep ltac:(done). Qed.
#[local] Hint Resolve keeps_request_block keeps_request_metadata_piece : keeps.

Lemma keeps_tell_torrent env m : keeps plain (tell_torrent env m).
Proof. apply keeps_tell_if. by split. Qed.
Lemma keeps_tell_disk env m : write_of (ToDisk m) = None → keeps plain (tell_disk env m).
Proof. intros Hm. by apply keeps_tell_if. Qed.
#[local] Hint Extern 1 (write_of _ = None) => reflexivity : keeps.
Lemma keeps_tell_mailbox env m : keeps plain (tell_mailbox env m).
Proof. apply keeps_tell_if. by split. Qed.
#[local] Hint Resolve keeps_tell_torrent keeps_tell_disk keeps_tell_mailbox : keeps.

Lemma keeps_request_block_infos env : keeps plain (request_block_infos env).
Proof. unfold request_block_infos. keep ltac:(done). Qed.
Lemma keeps_request_metadata env : keeps plain (request_metadata env).
Proof. unfold request_metadata. keep ltac:(done). Qed.
Lemma keeps_free_pending_blocks : keeps plain free_pending_blocks.
Proof. unfold free_pending_blocks. keep ltac:(done). Qed.
Lemma keeps_handle_ext e : keeps plain (handle_ext e).
Proof. by apply keeps_modifyS. Qed.
#[local] Hint Resolve keeps_request_block_infos keeps_request_metadata
  keeps_free_pending_blocks keeps_handle_ext : keeps.

Lemma keeps_handle_core env m :
  match m with Piece _ => True | _ => keeps plain (handle_core env m) end.
Proof. destruct m; try done; unfold handle_core; keep ltac:(done). Qed.
Lemma keeps_handle_metadata env m : keeps plain (handle_metadata env m).
Proof. unfold handle_metadata. keep ltac:(done). Qed.
Lemma keeps_handle_extension env m : keeps plain (handle_extension env m).
Proof. unfold handle_extension. keep ltac:(done). Qed.
#[local] Hint Resolve keeps_handle_metadata keeps_handle_extension : keeps.
Lemma keeps_handle_message env m :
  match m with Piece _ => True | _ => keeps plain (handle_message env m) end.
Proof.
  destruct m; try done; unfold handle_message;
    try (match goal with |- keeps _ (handle_core _ ?m) => exact (keeps_handle_core env m) end).
  keep ltac:(done); exact (keeps_handle_core env (Extended m)).
Qed.

#[local] Hint Resolve keeps_quiet : keeps.
Lemma quiet_write m : keeps quiet (perform (ToDisk m)).
Proof.
  apply keeps_modifyS. intros p. unfold quiet, with_effect, choke_told, interest_told.
  cbn [effects shared]. by rewrite !foldl_app.
Qed.
Lemma quiet_handle_block env b : keeps quiet (handle_block env b).
Proof. unfold handle_block. keep ltac:(done); apply quiet_write. Qed.
Lemma quiet_enter_seed_only env : keeps quiet (enter_seed_only env).
Proof. unfold enter_seed_only. keep ltac:(done). Qed.
#[local] Hint Resolve quiet_handle_block quiet_enter_seed_only : keeps.
Lemma quiet_handle_message env m : keeps quiet (handle_message env m).
Proof.
  pose proof (keeps_handle_message env m) as Hm. destruct m; try by apply keeps_quiet.
  unfold handle_message, handle_core. keep ltac:(done).
Qed.
#[local] Hint Resolve quiet_handle_message : keeps.

(** The flags agree with what was said: interest exactly, and a peer marked as
    choked has been told so. *)
Definition told p : Prop :=
  interest_told (effects p) = am_interested (shared p) ∧
  (am_choking (shared p) = true → choke_told (effects p) = true).

(** Actions that keep it when they succeed *)
Definition safe {A} (m : action Peer Error A) : Prop :=
  ∀ p a p', m p = (Ok a, p') → told p → told p'.
Lemma safe_quiet {A} (m : action Peer Error A) : keeps quiet m → safe m.
Proof.
  intros Hm p a p' Hp [H1 H2]. destruct (Hm _ _ _ Hp ltac:(done)) as (Hc & Hi & Hac & Hai).
  split; [congruence|]. rewrite Hac, Hc. done.
Qed.
Ltac quietly := apply safe_quiet; solve [keep ltac:(done)].
Lemma safe_bind {A B} (m : action Peer Error A) (f : A → action Peer Error B) :
  safe m → (∀ a, safe (f a)) → safe (m ≫= f).
Proof.
  intros Hm Hf p b p' Hb Hp. rewrite bind_action in Hb.
  destruct (m p) as [[a|e|] p1] eqn:Hmp; try done. by eapply Hf, Hm.
Qed.

(** A message that is sent, and nothing else of note *)
Definition says (m : Core) (a : action Peer Error unit) : Prop :=
  ∀ p p', a p = (Ok tt, p') →
    effects p' = effects p ++ [Sink m; Flush] ∧
    am_choking (shared p') = am_choking (shared p) ∧
    am_interested (shared p') = am_interested (shared p).
Lemma says_sink_send env m : says m (sink_send env m).
Proof.
  intros p p'. unfold sink_send, sink_feed, tell_if. destruct (sink_ok env); [|done].
  rewrite bind_action. unfold perform, modifyS. intros [= <-].
  cbn [with_effect effects shared]. by rewrite <- app_assoc.
Qed.
Lemma says_send env m : says m (send env m).
Proof.
  intros p p'. unfold send. rewrite bind_action. destruct (lift (Core_len m) p) as [[n|e|] p0] eqn:Hl; try done.
  injection Hl as _ <-. rewrite bind_action.
  destruct (sink_send env m p) as [[[]|e|] p1] eqn:Hs; try done. intros [= <-].
  cbn [with_shared effects shared on_counter am_choking am_interested].
  exact (says_sink_send env m p p1 Hs).
Qed.

Lemma told_says p p' (l : list Effect) :
  effects p' = effects p ++ l → choke_told (effects p') = foldl choke_event (choke_told (effects p)) l ∧
  interest_told (effects p') = foldl interest_event (interest_told (effects p)) l.
Proof. intros ->. unfold choke_told, interest_told. by rewrite !foldl_app. Qed.

Lemma safe_interest b env a :
  says (if b : bool then Interested else NotInterested) a →
  safe (update_shared (set_am_interested b) ≫= fun _ => a).
Proof.
  intros Ha p [] p' Hb [H1 H2]. rewrite bind_action in Hb. unfold update_shared, modifyS in Hb.
  destruct (Ha _ _ Hb) as (He & Hc & Hi). destruct (told_says _ _ _ He) as [Hct Hit].
  unfold told. rewrite Hct, Hit, Hi, Hc. cbn [with_shared shared effects set_am_interested am_interested
    am_choking]. by destruct b.
Qed.
Lemma safe_choke b env a :
  says (if b : bool then Choke else Unchoke) a →
  safe (update_shared (set_am_choking b) ≫= fun _ => a).
Proof.
  intros Ha p [] p' Hb [H1 H2]. rewrite bind_action in Hb. unfold update_shared, modifyS in Hb.
  destruct (Ha _ _ Hb) as (He & Hc & Hi). destruct (told_says _ _ _ He) as [Hct Hit].
  unfold told. rewrite Hct, Hit, Hi, Hc. cbn [with_shared shared effects set_am_choking am_interested
    am_choking]. by destruct b.
Qed.
Lemma safe_snub env : safe (sink_send env Choke).
Proof.
  intros p [] p' Hs [H1 H2]. destruct (says_sink_send env Choke p p' Hs) as (He & Hc & Hi).
  destruct (told_says _ _ _ He) as [Hct Hit]. unfold told. by rewrite Hct, Hit, Hi.
Qed.

Lemma safe_interested env : safe (interested env).
Proof.
  unfold interested. repeat (apply safe_bind; [|intros]);
    try (quietly).
  - match goal with |- safe (if ?b then _ else _) => destruct b end; [|quietly].
    apply (safe_interest true env), says_send.
  - match goal with |- safe (if ?b then _ else _) => destruct b end; [|quietly].
    apply (safe_interest false env), says_sink_send.
Qed.
Lemma safe_anti_snubbing env : safe (anti_snubbing env).
Proof.
  unfold anti_snubbing. apply safe_bind; [quietly|]. intros p.
  destruct (get_last_timestamp _) as [last|]; [|quietly].
  destruct (_ && _); [|quietly].
  apply safe_bind; [by apply safe_quiet, keeps_modifyS|]. intros [].
  apply safe_bind; [destruct (in_endgame p); quietly|]. intros [].
  destruct (am_choking (shared p)); [quietly|apply safe_snub].
Qed.

Lemma safe_handle_mail env m : safe (handle_mail env m).
Proof.
  unfold handle_mail. apply safe_bind; [quietly|]. intros p.
  destruct m; try (quietly).
  - apply (safe_choke true env), says_send.
  - apply (safe_choke false env), says_send.
  - apply (safe_interest true env), says_send.
  - apply (safe_interest false env), says_send.
  - apply safe_bind; [apply safe_interested|]. intros. quietly.
Qed.

Lemma safe_step env ev : safe (peer_step env ev).
Proof.
  assert (Hgo : ∀ m : action Peer Error unit, safe m → safe (go_on m)).
  { intros m Hm. apply safe_bind; [done|]. intros. quietly. }
  destruct ev as [m| | | | | |m|m]; cbn [peer_step]; try apply Hgo.
  - quietly.
  - quietly.
  - apply safe_anti_snubbing.
  - quietly.
  - apply safe_bind; [apply safe_interested|]. intros. quietly.
  - quietly.
  - apply safe_quiet. destruct m; unfold handle_broadcast, go_on; keep ltac:(done).
  - apply safe_handle_mail.
Qed.

Lemma on_blocks_ok {A} (f : _ → outcome Error (A * _)) p a m :
  f (req_man_block p) = Ok (a, m) → on_blocks f p = (Ok a, with_block_man m p).
Proof. intros Hf. unfold on_blocks. rewrite bind_action. cbn [getS]. by rewrite bind_action, Hf. Qed.
Lemma on_metas_ok {A} (f : _ → outcome Error (A * _)) p a m :
  f (req_man_meta p) = Ok (a, m) → on_metas f p = (Ok a, with_meta_man m p).
Proof. intros Hf. unfold on_metas. rewrite bind_action. cbn [getS]. by rewrite bind_action, Hf. Qed.

(** A quiet action that always succeeds *)
Lemma quiet_ok (m : action Peer Error unit) p :
  (m p).1 = Ok tt → keeps quiet m → ∃ p', m p = (Ok tt, p') ∧ quiet p p'.
Proof.
  intros Hm Hq. destruct (m p) as [r p'] eqn:Hmp. cbn [fst] in Hm. subst r. exists p'.
  split; [done|]. by eapply Hq.
Qed.
Lemma free_pending_ok p : (free_pending_blocks p).1 = Ok tt.
Proof.
  unfold free_pending_blocks. rewrite bind_action. cbn [getS]. rewrite bind_action.
  rewrite (on_blocks_ok _ _ _ _ eq_refl), bind_action.
  destruct (bool_decide _); cbn [mret action_ret];
    [|unfold perform, modifyS]; rewrite bind_action, (on_metas_ok _ _ _ _ eq_refl);
    by destruct (bool_decide _).
Qed.

(** C23. In every run of a connected peer, whatever the remote peer, the torrent
    and the socket do, [am_interested] is what the remote peer was last told,
    and a peer marked as choked was told so.  The converse fails for a peer that
    is snubbed: it is told that it is choked and stays marked as unchoked. *)
Theorem peer_flags_told allowed p0 p :
  told p0 → peer_reaches allowed p0 p →
  told p ∧
  ∀ env last, get_last_timestamp (req_man_block p) = Some last → (from_secs 30 < now env - last)%N →
    am_interested (shared p) = true → peer_choking (shared p) = false → is_snubbed p = false →
    am_choking (shared p) = false → sink_ok env = true →
    ∃ p', peer_step env EvHelp p = (Ok true, p') ∧
      choke_told (effects p') = true ∧ am_choking (shared p') = false.
Proof.
  intros Hp0 Hr. split.
  - induction Hr as [env p Hs|env ev p p' _ IH _ _ Hs].
    + refine (safe_quiet _ _ _ _ _ Hs Hp0). unfold peer_start. keep ltac:(done).
    + by eapply safe_step.
  - intros env last Hl Ht Hi Hpc Hsn Hac Hok. cbn [peer_step]. unfold go_on, anti_snubbing.
    rewrite bind_action, bind_action. cbn [getS]. rewrite Hl, Hi, Hpc, Hsn, Hac.
    destruct (N.ltb_spec (from_secs 30) (now env - last)); [|lia]. cbn [negb andb].
    rewrite bind_action. unfold modifyS at 1. rewrite bind_action.
    destruct (quiet_ok (if in_endgame p then mret tt else free_pending_blocks) (set_snubbed true p))
      as (p1 & Hq & _ & _ & Hc1 & _); [destruct (in_endgame p); [done|apply free_pending_ok]|destruct (in_endgame p); keep ltac:(done)|].
    rewrite Hq. destruct (sink_send env Choke p1) as [[[]|e|] p2] eqn:Hs.
    + destruct (says_sink_send env Choke p1 p2 Hs) as (He & Hc & _). destruct (told_says _ _ _ He) as [Hct _].
      exists p2. split; [done|]. by rewrite Hct, Hc, Hc1.
    + unfold sink_send, sink_feed, tell_if in Hs. by rewrite Hok in Hs.
    + unfold sink_send, sink_feed, tell_if in Hs. by rewrite Hok in Hs.
Qed.

(** ** Blocks are written once *)

#[local] Hint Resolve keeps_calm : keeps.
Lemma calm_perform e : write_of e = None → keeps calm (perform e).
Proof.
  intros He. apply keeps_modifyS. intros p. unfold calm, with_effect, written.
  cbn [effects seed_only req_man_block]. rewrite omap_app. cbn [omap list_omap].
  by rewrite He, app_nil_r.
Qed.
Lemma calm_update_shared f : keeps calm (update_shared f).
Proof. by apply keeps_modifyS. Qed.
Lemma calm_sink_send env m : keeps calm (sink_send env m).
Proof.
  unfold sink_send, sink_feed, tell_if. destruct (sink_ok env); keep ltac:(done); by apply calm_perform.
Qed.
#[local] Hint Resolve calm_perform calm_update_shared calm_sink_send : keeps.
Lemma calm_send env m : keeps calm (send env m).
Proof. unfold send. keep ltac:(done). Qed.
#[local] Hint Resolve calm_send : keeps.
Lemma calm_interested env : keeps calm (interested env).
Proof. unfold interested. keep ltac:(done). Qed.
Lemma calm_anti_snubbing env : keeps calm (anti_snubbing env).
Proof. unfold anti_snubbing. keep ltac:(done). Qed.
#[local] Hint Resolve calm_interested calm_anti_snubbing : keeps.
Lemma calm_mail env m :
  match m with PmCorruptedPiece _ _ _ => True | _ => keeps calm (handle_mail env m) end.
Proof. destruct m; try done; unfold handle_mail; keep ltac:(done). Qed.
Lemma calm_broadcast env m :
  match m with Seedonly => True | _ => keeps calm (handle_broadcast env m) end.
Proof. destruct m; try done; unfold handle_broadcast, go_on; keep ltac:(done). Qed.

(** The books: no block was written twice, and those written count as
    fulfilled until the peer only seeds. *)
Definition books p : Prop :=
  NoDup (written (effects p)) ∧
  (seed_only p = false → ∀ b, b ∈ written (effects p) → b ∈ fulfilled_index (req_man_block p)).
Lemma books_calm p p' : calm p p' → books p → books p'.
Proof. intros (Hw & Hs & Hf) [Hn Hb]. split; [by rewrite Hw|]. rewrite Hw, Hs. intros ? b ?. apply Hf. eauto. Qed.
Lemma books_keeps {A} (m : action Peer Error A) p r p' :
  keeps calm m → m p = (r, p') → r ≠ Panic → books p → books p'.
Proof. intros Hm Hp Hr. apply books_calm. by eapply Hm. Qed.

(** What a block that was not fulfilled does *)
Lemma handle_block_new env p block a m :
  was_fulfilled (req_man_block p) (BlockInfo_from block) = false →
  @fulfill_request _ _ _ Error (now env) (req_man_block p) (BlockInfo_from block) = Ok (a, m) →
  ∃ p', handle_block env block p = (Ok tt, p') ∧ seed_only p' = seed_only p ∧ req_man_block p' = m ∧
    written (effects p') = written (effects p) ++ (if disk_ok env then [BlockInfo_from block] else []).
Proof.
  intros Hw Hf. unfold handle_block. rewrite bind_action. unfold modifyS at 1. rewrite bind_action.
  cbn [getS]. change (req_man_block (set_snubbed false p)) with (req_man_block p). rewrite Hw.
  rewrite bind_action, (on_blocks_ok (fun r => fulfill_request (now env) r (BlockInfo_from block))
    (set_snubbed false p) a m Hf).
  change (in_endgame (set_snubbed false p)) with (in_endgame p).
  destruct (in_endgame p && torrent_ok env), (disk_ok env); (eexists; split; [reflexivity|]);
    (split; [reflexivity|]); (split; [reflexivity|]); unfold written;
    cbn [effects with_effect with_shared with_block_man with_managers set_snubbed with_flags];
    rewrite ?omap_app; cbn [omap list_omap write_of]; by rewrite ?app_nil_r.
Qed.

(** When the request manager fails, nothing else happens. *)
Lemma handle_block_fails env p block (o : outcome Error (bool * _)) :
  was_fulfilled (req_man_block p) (BlockInfo_from block) = false →
  fulfill_request (now env) (req_man_block p) (BlockInfo_from block) = o →
  match o with Ok _ => False | _ => True end →
  handle_block env block p =
    (match o with Ok _ => Ok tt | Err e => Err e | Panic => Panic end, set_snubbed false p).
Proof.
  intros Hw Hf Ho. unfold handle_block. rewrite bind_action. unfold modifyS at 1. rewrite bind_action.
  cbn [getS]. change (req_man_block (set_snubbed false p)) with (req_man_block p). rewrite Hw.
  rewrite bind_action. unfold on_blocks. rewrite bind_action. cbn [getS]. rewrite bind_action.
  change (req_man_block (set_snubbed false p)) with (req_man_block p). cbn [lift]. rewrite Hf.
  by destruct o.
Qed.

Lemma books_handle_block env p block r p' :
  seed_only p = false → handle_block env block p = (r, p') → r ≠ Panic → books p → books p'.
Proof.
  intros Hs Hh Hr [Hn Hb]. specialize (Hb Hs).
  destruct (was_fulfilled (req_man_block p) (BlockInfo_from block)) eqn:Hw.
  { unfold handle_block in Hh. rewrite bind_action in Hh. unfold modifyS at 1 in Hh.
    rewrite bind_action in Hh. cbn [getS] in Hh.
    change (req_man_block (set_snubbed false p)) with (req_man_block p) in Hh. rewrite Hw in Hh.
    by injection Hh as _ <-. }
  destruct (@fulfill_request _ _ _ Error (now env) (req_man_block p) (BlockInfo_from block)) as [[a m]|e|] eqn:Hf.
  - destruct (handle_block_new env p block a m Hw Hf) as (p1 & Hh1 & Hs1 & Hm1 & Hw1).
    rewrite Hh in Hh1. injection Hh1 as -> ->. apply bool_decide_eq_false in Hw.
    split; rewrite Hw1, ?Hm1, ?(fulfill_grows _ _ _ _ _ Hf).
    + apply NoDup_app. split; [done|]. destruct (disk_ok env); [|split; [set_solver|constructor]].
      split; [|apply NoDup_singleton]. intros x Hx ->%list_elem_of_singleton. by apply Hw, Hb.
    + intros _ x [Hx|Hx]%elem_of_app; [apply Hb in Hx; set_solver|].
      destruct (disk_ok env); [|set_solver]. apply list_elem_of_singleton in Hx. set_solver.
  - rewrite (handle_block_fails env p block _ Hw Hf) in Hh; [|done]. by injection Hh as _ <-.
  - rewrite (handle_block_fails env p block _ Hw Hf) in Hh; [|done]. by injection Hh as <- _.
Qed.

Lemma books_handle_message env m p r p' :
  handle_message env m p = (r, p') → r ≠ Panic → books p → books p'.
Proof.
  intros Hm Hr. pose proof (keeps_handle_message env m) as Hk.
  destruct m; try (by apply (books_keeps _ _ _ _ (keeps_calm _ Hk) Hm Hr)).
  unfold handle_message, handle_core in Hm. rewrite bind_action in Hm. cbn [getS] in Hm.
  destruct (seed_only p) eqn:Hs; [by injection Hm as _ <-|]. by eapply books_handle_block.
Qed.

Lemma books_seed_only env p r p' : enter_seed_only env p = (r, p') → r ≠ Panic → books p → books p'.
Proof.
  intros He Hr [Hn _]. unfold enter_seed_only in He. rewrite bind_action in He.
  unfold modifyS at 1 in He.
  assert (Hk : keeps (fun p p' => written (effects p') = written (effects p) ∧ seed_only p' = seed_only p)
    (getS ≫= fun p => (if am_interested (shared p) then tell_mailbox env PmNotInterested else mret tt) ≫= fun _ =>
     modifyS (fun p => with_managers (rm_clear (req_man_block p)) (rm_clear (req_man_meta p)) [] p))).
  { assert (PreOrder (fun p p' : Peer => written (effects p') = written (effects p) ∧ seed_only p' = seed_only p)).
    { split; [done|]. intros p1 p2 p3 [??] [??]. split; congruence. }
    apply keeps_bind; [apply _|apply keeps_getS, _|]. intros q.
    apply keeps_bind; [apply _| |by intros; apply keeps_modifyS].
    apply (keeps_impl calm); [by intros ?? (?&?&?)|].
    destruct (am_interested (shared q)); keep ltac:(done). }
  destruct (Hk _ _ _ He Hr) as [Hw Hs]. split; [by rewrite Hw|]. by rewrite Hs.
Qed.

(** The events that do not take back a block *)
Definition no_corruption (ev : PeerEvent) : Prop :=
  match ev with EvMail (PmCorruptedPiece _ _ _) => False | _ => True end.

Lemma books_step env ev p p' :
  no_corruption ev → peer_step env ev p = (Ok true, p') → books p → books p'.
Proof.
  intros Hev Hs.
  assert (Hgo : ∀ m : action Peer Error unit, go_on m p = (Ok true, p') → m p = (Ok tt, p')).
  { intros m Hm. unfold go_on in Hm. rewrite bind_action in Hm.
    destruct (m p) as [[[]|e|] p1]; try done. by injection Hm as <-. }
  assert (Hcalm : ∀ m : action Peer Error unit, keeps calm m → m p = (Ok tt, p') → books p → books p').
  { intros m Hm Hp. by eapply books_keeps. }
  destruct ev as [m| | | | | |m|m]; cbn [peer_step] in Hs.
  - apply Hgo in Hs. unfold catch in Hs. destruct (handle_message env m p) as [[[]|e|] p1] eqn:Hm; try done;
      injection Hs as <-; by eapply books_handle_message.
  - apply Hgo in Hs. revert Hs. apply Hcalm. keep ltac:(done).
  - apply Hgo in Hs. revert Hs. apply Hcalm. keep ltac:(done).
  - apply Hgo in Hs. revert Hs. apply Hcalm. keep ltac:(done).
  - apply Hgo in Hs. revert Hs. apply Hcalm. keep ltac:(done).
  - apply Hgo in Hs. revert Hs. apply Hcalm. keep ltac:(done).
  - pose proof (calm_broadcast env m) as Hc.
    destruct m; try exact (books_keeps _ _ _ _ Hc Hs ltac:(done)).
    apply Hgo in Hs. by eapply books_seed_only.
  - apply Hgo in Hs. revert Hs. apply Hcalm. pose proof (calm_mail env m) as Hc. by destruct m.
Qed.

Lemma position_absent (x : BlockInfo) l : x ∉ l → position x l = None.
Proof.
  intros Hx. destruct (position x l) as [i|] eqn:Hi; [|done].
  apply position_Some, list_elem_of_lookup_2 in Hi. done.
Qed.

(** C24. Whatever a remote peer sends, each block reaches the disk from it at most
    once, as long as no corrupted piece is reported; but a block that was never
    asked for is written like any other. *)
Theorem peer_writes_once p0 p :
  books p0 → peer_reaches no_corruption p0 p →
  NoDup (written (effects p)) ∧
  ∀ env block, seed_only p = false → disk_ok env = true →
    let x := BlockInfo_from block in
    x ∉ fulfilled_index (req_man_block p) → x ∉ queue (req_man_block p) →
    rm_index (req_man_block p) !! x = None →
    ∃ p', peer_step env (EvMessage (Piece block)) p = (Ok true, p') ∧
      written (effects p') = written (effects p) ++ [x].
Proof.
  intros Hp0 Hr. split.
  - enough (books p) as [Hn _]; [done|]. induction Hr as [env p Hs|env ev p p' _ IH Hev _ Hs].
    + apply (books_keeps (peer_start env) p0 (Ok tt)); [unfold peer_start; keep ltac:(done)|done..].
    + by eapply books_step.
  - intros env block Hs Hd x Hf Hq Hi.
    assert (Hff : @fulfill_request _ _ _ Error (now env) (req_man_block p) x =
      Ok (false, with_fulfilled (req_man_block p) ({[x]} ∪ fulfilled_index (req_man_block p)) (rm_index (req_man_block p)))).
    { unfold fulfill_request. cbn [queue with_fulfilled rm_index]. rewrite Hi.
      by rewrite position_absent. }
    destruct (handle_block_new env p block _ _ (bool_decide_eq_false_2 _ Hf) Hff) as (p' & Hh & _ & _ & Hw).
    rewrite Hd in Hw. exists p'. split; [|done]. cbn [peer_step]. unfold go_on. rewrite bind_action.
    unfold catch, handle_message, handle_core. rewrite bind_action. cbn [getS]. by rewrite Hs, Hh.
Qed.
End Peer.

(** ** A piece of the metadata on its way *)
Section metadata.
Context `{Build, BV : BitVecApi}.
#[local] Existing Instance text_bendy.

(** The peer that has the metadata, at the request of one that takes the
    messages of the exchange under our id for them *)
Lemma serves_piece env (p : Peer) e piece slice :
  extension p = Some e → ut_metadata (e_m e) = Some Metadata_ID →
  torrent_ok env = true → sink_ok env = true → info_answer env = Some (Some slice) →
  metadata_wf (Metadata_data piece slice) →
  ∃ p', handle_metadata env (Metadata_request piece) p = (Ok tt, p') ∧
    effects p' = effects p ++ [ToTorrent (MRequestInfoPiece piece);
      Sink (Extended {| ext_id := Metadata_ID;
        ext_payload := raw (BDict (Metadata_dict (Metadata_data piece slice))) ++ slice |}); Flush].
Proof.
  intros He Hid Ht Hs Hi [Hm _]%metadata_decodes. unfold handle_metadata. rewrite bind_action. cbn [getS].
  rewrite He. cbn [mbind option_bind]. rewrite Hid. cbn [msg_type Metadata_request md_piece].
  unfold tell_torrent, tell_if, await. rewrite Ht, bind_action, Hi. unfold perform at 1, modifyS at 1.
  rewrite bind_action. cbn [lift ok_or]. rewrite bind_action. unfold lift at 1. rewrite Hm.
  unfold sink_send, sink_feed, tell_if. rewrite Hs. eexists. split; [reflexivity|].
  cbn [with_effect effects md_payload Metadata_data]. by rewrite <- !app_assoc.
Qed.

(** The peer that asked *)
Lemma takes_piece env (p : Peer) e id piece slice a m :
  extension p = Some e → ut_metadata (e_m e) = Some id → torrent_ok env = true →
  @fulfill_request _ _ _ Error (now env) (req_man_meta p) piece = Ok (a, m) →
  ∃ p', handle_metadata env (Metadata_data piece slice) p = (Ok tt, p') ∧
    effects p' = effects p ++ [ToTorrent (MDownloadedInfoPiece (len slice) piece slice)].
Proof.
  intros He Hid Ht Hf. unfold handle_metadata. rewrite bind_action. cbn [getS].
  rewrite He. cbn [mbind option_bind]. rewrite Hid. cbn [msg_type Metadata_data md_piece total_size].
  rewrite bind_action, (on_metas_ok (fun r => fulfill_request (now env) r piece) p a m Hf).
  unfold tell_torrent, tell_if. rewrite Ht, bind_action. by eexists.
Qed.

Lemma handle_message_metadata env bytes :
  handle_message env (Extended {| ext_id := Metadata_ID; ext_payload := bytes |}) =
  (lift (Metadata_try_from {| ext_id := Metadata_ID; ext_payload := bytes |}) ≫= handle_metadata env).
Proof. reflexivity. Qed.

(** C27. Two peers exchange a piece of the metadata: the request is answered with
    the piece, and the answer reaches the torrent of the peer that asked.  But
    the answer gives the length of the piece for that of the metadata, so the
    first piece counts as all of it: unless it decodes on its own, the torrent
    of a magnet link ends. *)
Theorem peer_metadata_exchange env env' (server asker : Peer) es ea id piece slice a m request :
  extension server = Some es → ut_metadata (e_m es) = Some Metadata_ID →
  extension asker = Some ea → ut_metadata (e_m ea) = Some id →
  torrent_ok env = true → sink_ok env = true → info_answer env = Some (Some slice) →
  torrent_ok env' = true →
  @fulfill_request _ _ _ Error (now env') (req_man_meta asker) piece = Ok (a, m) →
  (piece <= u64_max)%N → (len slice <= usize_max)%N →
  Metadata_to_bencode (Metadata_request piece) = Ok request →
  ∃ answer server' asker',
    handle_message env (Extended {| ext_id := Metadata_ID; ext_payload := request |}) server = (Ok tt, server') ∧
    effects server' = effects server ++
      [ToTorrent (MRequestInfoPiece piece); Sink (Extended answer); Flush] ∧
    handle_message env' (Extended answer) asker = (Ok tt, asker') ∧
    effects asker' = effects asker ++ [ToTorrent (MDownloadedInfoPiece (len slice) piece slice)] ∧
    ∀ from_bencode xt trackers err (w : World),
      t_info_pieces (torrent w) = [] → from_bencode slice = Err err →
      (handle_magnet from_bencode xt trackers (MDownloadedInfoPiece (len slice) piece slice) w).1 = Err err.
Proof.
  intros Hes Hids Hea Hida Ht Hs Hi Ht' Hf Hp Hl Hreq.
  destruct (metadata_decodes (Metadata_request piece)) as [Hr Hr']; [by split|].
  apply (f_equal (fun o => match o with Ok b => b | _ => [] end)) in Hr as Hb. rewrite Hreq in Hb.
  cbv beta iota in Hb. rewrite <- Hb in Hr'.
  destruct (metadata_decodes (Metadata_data piece slice)) as [_ Hd]; [by split|].
  change (md_payload (Metadata_data piece slice)) with slice in Hd.
  destruct (serves_piece env server es piece slice) as (server' & Hh & He); [done..|].
  destruct (takes_piece env' asker ea id piece slice a m) as (asker' & Hh' & He'); [done..|].
  do 3 eexists. split; [|split; [exact He|split; [|split; [exact He'|]]]].
  - rewrite handle_message_metadata. by rewrite bind_action; unfold lift; rewrite Hr'.
  - rewrite handle_message_metadata. by rewrite bind_action; unfold lift; rewrite Hd.
  - intros from_bencode xt trackers err w Hw Hfb. unfold handle_magnet, downloaded_info_piece, go.
    do 2 rewrite bind_action. cbn [modifyS]. rewrite bind_action. cbn [getS].
    cbn [with_torrent torrent with_info_pieces t_info_pieces]. rewrite Hw.
    cbn [extend_entry foldl snd fmap list_fmap concat]. rewrite app_nil_r, N.add_0_l, N.ltb_irrefl.
    rewrite bind_action. unfold lift. by rewrite Hfb.
Qed.
End metadata.

(** ** At concrete inputs *)
Section witnesses.
#[local] Existing Instances dev list_bits text_bendy.

Definition ex_pctx : PeerCtx := {| pc_ref := 0; pc_id := [7%N]; pc_addr := 1%N |}.
Definition ex_new : Peer := new_peer ex_pctx true [1%N] 0 0.
Definition ex_env (t : N) : Env := {|
  now := t; now' := t; sink_ok := true; torrent_ok := true; disk_ok := true; mailbox_ok := true;
  request_answer := Some (Ok [{| bi_index := 0; bi_begin := 0; bi_len := 2 |}]);
  meta_answer := None; piece_answer := None; info_answer := Some (Some [7; 8; 9]%N); block_answer := None |}.

(** What the loop does with some events, from its start *)
Definition ex_run (evs : list PeerEvent) : Peer :=
  foldl (fun p ev => (peer_step (ex_env 0) ev p).2) (peer_start (ex_env 0) ex_new).2 evs.
Lemma ex_run_reaches allowed evs :
  Forall allowed evs →
  (∀ n ev, evs !! n = Some ev → enabled (ex_run (take n evs)) ev = true ∧
     (peer_step (ex_env 0) ev (ex_run (take n evs))).1 = Ok true) →
  peer_reaches allowed ex_new (ex_run evs).
Proof.
  induction evs as [|ev evs IH] using rev_ind; intros Ha Hr; [by apply (reach_start _ _ (ex_env 0))|].
  apply Forall_app in Ha as [Ha [Hev _]%Forall_cons].
  destruct (Hr (length evs) ev) as [He Hs]; [by rewrite lookup_app_r, Nat.sub_diag|].
  rewrite take_app_length in He, Hs. unfold ex_run. rewrite foldl_app. cbn [foldl].
  apply (reach_step _ _ (ex_env 0) ev (ex_run evs)); [|done..|rewrite <- Hs; by apply surjective_pairing].
  apply IH; [done|]. intros n x Hx. pose proof (lookup_lt_Some _ _ _ Hx).
  specialize (Hr n x). rewrite take_app_le in Hr by lia. apply Hr. by rewrite lookup_app_l.
Qed.

(** A peer that unchokes us and that we unchoke, of interest, with a request on
    its way *)
Definition ex_events : list PeerEvent :=
  [EvMail PmUnchoke; EvMessage Unchoke; EvMail PmInterested; EvBroadcast HaveInfo; EvBlocks].
Ltac run_events := intros n ev Hn; do 6 (destruct n as [|n]; [first [discriminate Hn | injection Hn as <-; by vm_compute]|]); discriminate Hn.

Lemma peer_flags_told_witness :
  ∃ p p', peer_reaches (fun _ => True) ex_new p ∧ am_interested (shared p) = true ∧
    interest_told (effects p) = true ∧ peer_step (ex_env (from_secs 60)) EvHelp p = (Ok true, p') ∧
    choke_told (effects p') = true ∧ am_choking (shared p') = false.
Proof.
  assert (Hr : peer_reaches (fun _ => True) ex_new (ex_run ex_events)).
  { apply ex_run_reaches; [by apply Forall_true|run_events]. }
  destruct (peer_flags_told (fun _ => True) ex_new (ex_run ex_events)) as [[Hi _] Hs]; [done|exact Hr|].
  assert (Hl : get_last_timestamp (req_man_block (ex_run ex_events)) = Some (from_secs 5))
    by (vm_compute; reflexivity).
  assert (Hai : am_interested (shared (ex_run ex_events)) = true) by (vm_compute; reflexivity).
  destruct (Hs (ex_env (from_secs 60)) (from_secs 5) Hl) as (p' & Hp & Hc & Ha);
    [by vm_compute..|]. exists (ex_run ex_events), p'. by split_and!.
Defined.

Lemma peer_writes_once_witness :
  let block := {| bl_index := 0; bl_begin := 0; bl_block := [5; 6]%N |} in
  let p := ex_run (ex_events ++ [EvMessage (Piece block)]) in
  NoDup (written (effects p)) ∧ written (effects p) = [BlockInfo_from block].
Proof.
  intros block p. split; [|vm_compute; reflexivity].
  apply (peer_writes_once ex_new p); [split; [constructor|by intros _ b Hb%elem_of_nil]|].
  apply ex_run_reaches; [by vm_compute; repeat constructor|run_events].
Defined.

Definition ex_ext : Extension := supported None.
Lemma peer_metadata_exchange_witness :
  ∃ answer server' asker',
    handle_message (ex_env 0) (Extended {| ext_id := Metadata_ID;
      ext_payload := ascii "d8:msg_typei0e5:piecei0ee" |}) (with_extension (Some ex_ext) ex_new) =
      (Ok tt, server') ∧
    handle_message (ex_env 0) (Extended answer) (with_extension (Some ex_ext) ex_new) = (Ok tt, asker') ∧
    effects asker' = [ToTorrent (MDownloadedInfoPiece 3 0 [7; 8; 9]%N)].
Proof.
  destruct (peer_metadata_exchange (ex_env 0) (ex_env 0) (with_extension (Some ex_ext) ex_new)
    (with_extension (Some ex_ext) ex_new) ex_ext ex_ext Metadata_ID 0%N [7; 8; 9]%N false
    (with_fulfilled rm_new {[0%N]} ∅) (ascii "d8:msg_typei0e5:piecei0ee"))
    as (answer & server' & asker' & Hs & _ & Ha & He & _);
    [first [done | vm_compute; (reflexivity || discriminate)]..|].
  by exists answer, server', asker'.
Defined.
End witnesses.
