(* ===== verification/PeerTasks.v ===== *)
(** The tasks peers run in ([Torrent::spawn_outbound_peers] and
    [Daemon::run_local_peer]), from the connection to what they leave behind:
    the blocks they were given come back to the disk, and the torrent forgets
    them. *)
From S2P Require Import Prelude Buffers Errors Bits Core Bencode BencodeText Metainfo Disk Floats Counter RequestManager RequestManagerFacts.
From S2P Require Import Torrent Handshake MetadataMsg Peer PeerFacts.

Section tasks.
Context `{Build, BV : BitVecApi, BendyApi}.
Implicit Types (p : Peer) (env : Env).
Abbreviation pact := (action Peer Error).

(** ** The tasks *)

(** The loop of [Peer::run] on the events that come, those whose branch is
    disabled being left out: whether it still runs *)
Fixpoint peer_loop (es : list (Env * PeerEvent)) : pact bool :=
  match es with
  | [] => mret true
  | (env, ev) :: es =>
      getS ≫= fun p =>
      if enabled p ev then peer_step env ev ≫= fun go : bool => if go then peer_loop es else mret false
      else peer_loop es
  end.
(** [Peer::run] *)
Definition peer_run (env : Env) (es : list (Env * PeerEvent)) : pact bool :=
  peer_start env ≫= fun _ => peer_loop es.

(** What a task leaves: its result, what it told the torrent by itself, and the
    peer if there was one *)
Record TaskEnd := { te_result : outcome Error unit; te_told : list TorrentMsg; te_peer : option Peer }.
(** [tx.send(TorrentMsg::PeerError(addr)).await?], and what the task returns then *)
Definition tell_error (tx_ok : bool) (addr : SocketAddr) (r : outcome Error unit) (p : option Peer) : TaskEnd :=
  if tx_ok then {| te_result := r; te_told := [MPeerError addr]; te_peer := p |}
  else {| te_result := Err SendErrorTorrent; te_told := []; te_peer := p |}.

(** The answer to a connection within five seconds; [outbound_handshake] on the
    socket is given by its result. *)
Inductive Connecting := CnRefused | CnElapsed | CnSocket (handshake : outcome Error Peer).

(** The task of [spawn_outbound_peers]; [tx_ok]: the torrent still reads *)
Definition outbound_task (tx_ok : bool) (addr : SocketAddr) (info is_seed_only : bool) (c : Connecting)
    (env : Env) (es : list (Env * PeerEvent)) : TaskEnd :=
  match c with
  | CnRefused | CnElapsed => tell_error tx_ok addr (Ok tt) None
  | CnSocket (Err _) => tell_error tx_ok addr (Err HandshakeInvalid) None
  | CnSocket Panic => {| te_result := Panic; te_told := []; te_peer := None |}
  | CnSocket (Ok p) =>
      let p := with_flags info (in_endgame p) is_seed_only (is_paused p) (is_snubbed p) p in
      match peer_run env es p with
      | (Ok _, p) => {| te_result := Ok tt; te_told := []; te_peer := Some p |}
      | (Panic, p) => {| te_result := Panic; te_told := []; te_peer := Some p |}
      | (Err r, p) => tell_error tx_ok addr (Err r) (Some (if tx_ok then (free_pending_blocks p).2 else p))
      end
  end.
(** The task of [run_local_peer] for a connection that is accepted *)
Definition inbound_task (tx_ok : bool) (handshake : outcome Error Peer) (env : Env) (es : list (Env * PeerEvent)) : TaskEnd :=
  match handshake with
  | Err e => {| te_result := Err e; te_told := []; te_peer := None |}
  | Panic => {| te_result := Panic; te_told := []; te_peer := None |}
  | Ok p =>
      match peer_run env es p with
      | (Ok _, p) => {| te_result := Ok tt; te_told := []; te_peer := Some p |}
      | (Panic, p) => {| te_result := Panic; te_told := []; te_peer := Some p |}
      | (Err r, p) =>
          let p := (free_pending_blocks p).2 in tell_error tx_ok (pc_addr (ctx p)) (Err r) (Some p)
      end
  end.

(** ** What becomes of the blocks a peer has *)

(** What is given back to the disk, and its blocks *)
Definition frees (l : list Effect) : list ReturnToDisk :=
  omap (fun e => match e with ToFree m => Some m | _ => None end) l.
Definition blocks_of (m : ReturnToDisk) : list BlockInfo := match m with ReturnBlock _ bs => bs | _ => [] end.
Definition back (l : list Effect) : list BlockInfo := concat (blocks_of <$> frees l).
(** It is given back to the torrent of the peer. *)
Definition mine (h : InfoHash) (m : ReturnToDisk) : Prop :=
  match m with ReturnBlock h' _ | ReturnMetadata h' _ => h' = h end.
Lemma frees_app l k : frees (l ++ k) = frees l ++ frees k.
Proof. apply omap_app. Qed.
Lemma back_app l k : back (l ++ k) = back l ++ back k.
Proof. unfold back. by rewrite frees_app, fmap_app, concat_app. Qed.

(** Where a block is *)
Definition held (b : BlockInfo) (p : Peer) : Prop :=
  b ∈ fulfilled_index (req_man_block p) ∨ b ∈ pending (req_man_block p).

(** The effects [l] lead from [p] to [p']: no block is lost. *)
Record accounted (l : list Effect) (p p' : Peer) : Prop := {
  acc_sound : rm_sound (req_man_block p');
  acc_effects : effects p' = effects p ++ l;
  acc_fulfilled : fulfilled_index (req_man_block p) ⊆ fulfilled_index (req_man_block p');
  acc_held b : held b p → held b p' ∨ b ∈ back l;
  acc_hash : p_info_hash p' = p_info_hash p;
  acc_ctx : ctx p' = ctx p;
  acc_mine : Forall (mine (p_info_hash p)) (frees l);
}.
Definition accounts : relation Peer := fun p p' => rm_sound (req_man_block p) → ∃ l, accounted l p p'.

Lemma accounted_trans l k p1 p2 p3 : accounted l p1 p2 → accounted k p2 p3 → accounted (l ++ k) p1 p3.
Proof.
  intros [Hs1 He1 Hf1 Hh1 Hp1 Hc1 Hm1] [Hs2 He2 Hf2 Hh2 Hp2 Hc2 Hm2]. split; try done; try congruence.
  - by rewrite He2, He1, app_assoc.
  - set_solver.
  - intros b Hb. rewrite back_app, elem_of_app. destruct (Hh1 b Hb) as [Hb'|]; [|by auto].
    destruct (Hh2 b Hb'); auto.
  - rewrite frees_app. apply Forall_app. split; [done|]. by rewrite <- Hp1.
Qed.
#[local] Instance accounts_preorder : PreOrder accounts.
Proof.
  split.
  - intros p Hs. exists []. split; try done; [by rewrite app_nil_r|by auto].
  - intros p1 p2 p3 H1 H2 Hs. destruct (H1 Hs) as [l Hl]. destruct (H2 (acc_sound _ _ _ Hl)) as [k Hk].
    exists (l ++ k). by eapply accounted_trans.
Qed.

(** Updates of the rest of a peer *)
Lemma accounts_same p p' :
  req_man_block p' = req_man_block p → effects p' = effects p → p_info_hash p' = p_info_hash p → ctx p' = ctx p → accounts p p'.
Proof.
  intros Hr He Hh Hc Hs. exists []. split; rewrite ?Hr; try done; [by rewrite He, app_nil_r|].
  intros b Hb. left. unfold held in *. by rewrite Hr.
Qed.
Lemma accounts_perform e p : Forall (mine (p_info_hash p)) (frees [e]) → accounts p (with_effect e p).
Proof. intros He Hs. exists [e]. split; try done. by auto. Qed.
Lemma keeps_perform' e : frees [e] = [] → keeps accounts (perform e).
Proof. intros He. apply keeps_modifyS. intros p. apply accounts_perform. rewrite He. constructor. Qed.
Lemma accounts_tell_if ok err e : frees [e] = [] → keeps accounts (tell_if ok err e).
Proof. intros He. unfold tell_if. destruct ok; [by apply keeps_perform'|apply keeps_lift; apply _]. Qed.
Lemma accounts_update_shared f : keeps accounts (update_shared f).
Proof. apply keeps_modifyS. intros p. by apply accounts_same. Qed.
#[local] Hint Extern 1 (frees _ = []) => reflexivity : keeps.
#[local] Hint Resolve keeps_perform' accounts_tell_if accounts_update_shared : keeps.
Ltac keepb := keep ltac:(by apply accounts_same).

Lemma accounts_sink_send env m : keeps accounts (sink_send env m).
Proof. unfold sink_send, sink_feed. keepb. Qed.
#[local] Hint Resolve accounts_sink_send : keeps.
Lemma accounts_feed env m : keeps accounts (feed env m).
Proof. unfold feed, sink_feed. keepb. Qed.
Lemma accounts_send env m : keeps accounts (send env m).
Proof. unfold send. keepb. Qed.
Lemma accounts_await {A} (o : option A) : keeps accounts (await o).
Proof. apply keeps_lift, _. Qed.
Lemma accounts_store_len : keeps accounts store_len.
Proof. apply keeps_modifyS. intros p. by apply accounts_same. Qed.
Lemma accounts_on_metas {A} (f : _ → outcome Error (A * _)) : keeps accounts (on_metas f).
Proof. unfold on_metas. keepb. Qed.
#[local] Hint Resolve accounts_feed accounts_send accounts_await accounts_store_len accounts_on_metas : keeps.

(** An operation of the request manager of blocks *)
Lemma accounts_block_man p m :
  (rm_sound (req_man_block p) → rm_sound m ∧ fulfilled_index (req_man_block p) ⊆ fulfilled_index m ∧
   ∀ b, b ∈ pending (req_man_block p) → b ∈ fulfilled_index m ∨ b ∈ pending m) → accounts p (with_block_man m p).
Proof.
  intros Hm Hs. destruct (Hm Hs) as (Hs' & Hf & Hp). exists []. split; try done; [by rewrite app_nil_r|].
  intros b [Hb|Hb]; left; unfold held; cbn [req_man_block with_block_man with_managers]; [left; by apply Hf|by apply Hp].
Qed.
Lemma accounts_on_blocks {A} (f : _ → outcome Error (A * _)) :
  (∀ r a m, f r = Ok (a, m) → rm_sound r → rm_sound m ∧ fulfilled_index r ⊆ fulfilled_index m ∧
    ∀ b, b ∈ pending r → b ∈ fulfilled_index m ∨ b ∈ pending m) → keeps accounts (on_blocks f).
Proof.
  intros Hf p r p' Ho Hr. unfold on_blocks in Ho. rewrite bind_action in Ho. cbn [getS] in Ho.
  rewrite bind_action in Ho. cbn [lift] in Ho. destruct (f (req_man_block p)) as [[a m]|e|] eqn:Hm; injection Ho as <- <-; try done.
  apply accounts_block_man. by eapply Hf.
Qed.
Lemma add_holds now now' (r : RequestManager BlockInfo) x a m :
  @add_request _ _ _ Error now now' r x = Ok (a, m) → rm_sound r →
  rm_sound m ∧ fulfilled_index r ⊆ fulfilled_index m ∧
  (∀ b, b ∈ pending r → b ∈ fulfilled_index m ∨ b ∈ pending m) ∧ (x ∈ fulfilled_index m ∨ x ∈ pending m).
Proof.
  intros Ha Hs. split; [by eapply add_sound|]. split; [by eapply add_grows|]. unfold add_request in Ha. unfold pending.
  case_match eqn:Hdup.
  - injection Ha as <- <-. split; [by auto|]. apply orb_true_iff in Hdup as [Hi%bool_decide_eq_true|Hi%bool_decide_eq_true]; [|by auto].
    right. destruct Hi as [i Hi]. apply elem_of_app. left. by eapply list_elem_of_lookup_2, Hs.
  - case_match; [injection Ha as <- <-; simpl; set_solver|]. apply bind_ok in Ha as (d & _ & Ha). injection Ha as <- <-. simpl. set_solver.
Qed.
Lemma fulfill_holds now (r : RequestManager BlockInfo) x a m :
  @fulfill_request _ _ _ Error now r x = Ok (a, m) → rm_sound r →
  rm_sound m ∧ fulfilled_index r ⊆ fulfilled_index m ∧ ∀ b, b ∈ pending r → b ∈ fulfilled_index m ∨ b ∈ pending m.
Proof.
  intros Hf Hs. destruct (fulfill_spec (E:=Error) now r x Hs) as (b1 & r1 & Hf1 & Hs1 & Hi & _ & _ & Hc).
  rewrite Hf in Hf1. injection Hf1 as <- <-. split; [done|]. split; [rewrite Hi; set_solver|]. intros b Hb.
  destruct (decide (b = x)) as [->|Hne]; [left; rewrite Hi; set_solver|]. right. unfold pending in *.
  apply elem_of_app in Hb. apply elem_of_app. case_decide.
  - destruct Hc as (Hq & -> & _). rewrite Hq in Hb. set_solver.
  - destruct Hc as [-> Hc]. destruct Hb as [Hb|]; [left|by auto]. destruct (rm_index r !! x) as [pos|] eqn:Hpos.
    + destruct Hc as (-> & _). rewrite <- (take_drop_middle _ _ _ (Hs _ _ Hpos)) in Hb. set_solver.
    + by destruct Hc as (-> & _).
Qed.
Lemma accounts_fulfill env x : keeps accounts (on_blocks (fun r => fulfill_request (now env) r x)).
Proof. apply accounts_on_blocks. intros r a m. apply fulfill_holds. Qed.
#[local] Hint Resolve accounts_fulfill : keeps.

(** Everything pending is given back. *)
Lemma free_gives p :
  ∃ p' l, free_pending_blocks p = (Ok tt, p') ∧ accounted l p p' ∧ back l = pending (req_man_block p) ∧
    pending (req_man_block p') = [] ∧ fulfilled_index (req_man_block p') = fulfilled_index (req_man_block p).
Proof.
  unfold free_pending_blocks. rewrite bind_action. cbn [getS]. rewrite bind_action, (on_blocks_ok _ _ _ _ eq_refl).
  set (p1 := with_block_man (drain (req_man_block p)).2 p). rewrite bind_action.
  assert (∀ l p', effects p' = effects p ++ l → req_man_block p' = (drain (req_man_block p)).2 → p_info_hash p' = p_info_hash p →
    ctx p' = ctx p → back l = pending (req_man_block p) → Forall (mine (p_info_hash p)) (frees l) →
    accounted l p p' ∧ back l = pending (req_man_block p) ∧ pending (req_man_block p') = [] ∧
    fulfilled_index (req_man_block p') = fulfilled_index (req_man_block p)) as Hall.
  { intros l p' He Hr Hh Hc Hb Hm. rewrite Hr. split_and!; try done. split; rewrite ?Hr; try done.
    intros b [Hx|Hx]; [|right; by rewrite Hb]. left. left. by rewrite Hr. }
  fold (pending (req_man_block p)). case_bool_decide as Hn; cbn [mret action_ret];
    [|unfold perform at 1, modifyS at 1]; rewrite bind_action, (on_metas_ok _ _ _ _ eq_refl); case_bool_decide.
  - eexists _, []. split; [done|]. apply Hall; try done. by rewrite app_nil_r.
  - eexists _, [_]. split; [done|]. by apply Hall; try (by repeat constructor).
  - eexists _, [_]. split; [done|]. apply Hall; try done; [apply app_nil_r|by repeat constructor].
  - eexists _, [_; _]. split; [done|].
    apply Hall; [simpl; by rewrite <- app_assoc|done..|apply app_nil_r|by repeat constructor].
Qed.
Lemma accounts_free : keeps accounts free_pending_blocks.
Proof.
  intros p r p' Hp _ _. destruct (free_gives p) as (q & l & Hq & Hl & _). rewrite Hp in Hq. injection Hq as -> ->. by exists l.
Qed.
Lemma accounts_limit e : keeps accounts (handle_ext e).
Proof.
  apply keeps_modifyS. intros p Hs. exists []. split; try done; [by rewrite app_nil_r|]. intros b Hb. by left.
Qed.
#[local] Hint Resolve accounts_free accounts_limit : keeps.
(** ** Requests *)

(** What a request for a block does, by what the request manager says *)
Lemma request_block_by env b p a m :
  @add_request BlockInfo _ _ Error (now env) (now' env) (req_man_block p) b = Ok (a, m) →
  request_block env b p =
    if (a : bool) then
      if sink_ok env then
        (Ok tt, with_shared (on_counter (record_upload (4 + 13))) (with_effect (Sink (Request b)) (with_block_man m p)))
      else (Err (IO OtherKind), with_block_man m p)
    else (Ok tt, with_block_man m p).
Proof.
  intros Ha. unfold request_block. rewrite bind_action, (on_blocks_ok (fun r => add_request (now env) (now' env) r b) p _ _ Ha).
  destruct a; [|done]. unfold feed, sink_feed, tell_if. rewrite bind_action. by destruct (sink_ok env).
Qed.
Lemma request_block_panics env b p r p' :
  request_block env b p = (r, p') → r ≠ Panic → ∃ a m, @add_request BlockInfo _ _ Error (now env) (now' env) (req_man_block p) b = Ok (a, m).
Proof.
  unfold request_block, on_blocks. rewrite bind_action, bind_action. cbn [getS]. rewrite bind_action. cbn [lift].
  intros Hr Hn. destruct (@add_request BlockInfo _ _ Error (now env) (now' env) (req_man_block p) b) as [[a m]|e|] eqn:Ha; [by exists a, m| |].
  - exfalso. revert Ha. unfold add_request, get_timeout. destruct (_ || _); [done|]. destruct (is_full _); [done|].
    destruct (_ =? _)%N; [done|]. by destruct (duration_mul_f32 _ _).
  - by injection Hr as <- _.
Qed.

Lemma add_fulfilled now now' (r : RequestManager BlockInfo) x a m :
  @add_request _ _ _ Error now now' r x = Ok (a, m) → fulfilled_index m = fulfilled_index r.
Proof.
  unfold add_request. repeat case_match; try (by intros [= _ <-]). intros Ha. apply bind_ok in Ha as (d & _ & Ha). by injection Ha as _ <-.
Qed.
(** Blocks asked for or queued, without anything given back *)
Lemma requests_held env l p r p' :
  sink_ok env = true → rm_sound (req_man_block p) → forM (request_block env) l p = (r, p') → r ≠ Panic →
  r = Ok tt ∧ fulfilled_index (req_man_block p') = fulfilled_index (req_man_block p) ∧
  ∃ k, accounted k p p' ∧ back k = [] ∧ ∀ b, b ∈ l → held b p'.
Proof.
  intros Hok. revert p. induction l as [|b l IH]; intros p Hs Hf Hn.
  { injection Hf as <- <-. split_and!; try done. exists []. split_and!; [|done|by intros b ?%elem_of_nil].
    split; try done; [by rewrite app_nil_r|by auto]. }
  cbn [forM] in Hf. rewrite bind_action in Hf. destruct (request_block env b p) as [r1 p1] eqn:Hb.
  destruct (request_block_panics env b p r1 p1 Hb) as (a & m & Ha); [by intros ->; injection Hf as <- _|].
  rewrite (request_block_by env b p a m Ha), Hok in Hb. destruct (add_holds _ _ _ _ _ _ Ha Hs) as (Hsm & Hfm & Hpm & Hxm).
  assert (r1 = Ok tt ∧ req_man_block p1 = m ∧ ∃ k, accounted k p p1 ∧ back k = []) as (-> & Hm & k1 & Hk1 & Hbk1).
  { destruct a; injection Hb as <- <-; (split_and!; [done..|]); [exists [Sink (Request b)]|exists []];
      (split; [|done]); (split; try done; try (by rewrite ?app_nil_r)); intros c [Hc|Hc]; left; unfold held; simpl;
      [left; by apply Hfm|by apply Hpm|left; by apply Hfm|by apply Hpm]. }
  destruct (IH p1) as (-> & Hq' & k & Hk & Hbk & Hheld); [by rewrite Hm|done|done|].
  split_and!; [done|by rewrite Hq', Hm, (add_fulfilled _ _ _ _ _ _ Ha)|]. exists (k1 ++ k).
  split_and!; [by eapply accounted_trans|by rewrite back_app, Hbk1, Hbk|].
  intros c [->|Hc]%elem_of_cons; [|by apply Hheld]. destruct (acc_held _ _ _ Hk b) as [?|Hx]; [by rewrite <- Hm in Hxm|done|].
  rewrite Hbk in Hx. by apply elem_of_nil in Hx.
Qed.

(** The blocks the torrent answers with *)
Definition answered env : list BlockInfo := match request_answer env with Some (Ok blocks) => blocks | _ => [] end.
Lemma requests_account env p r p' :
  sink_ok env = true → request_block_infos env p = (r, p') → r ≠ Panic → rm_sound (req_man_block p) →
  ∃ k, accounted k p p' ∧ back k = [] ∧ (torrent_ok env = true → ∀ b, b ∈ answered env → held b p') ∧
    fulfilled_index (req_man_block p') = fulfilled_index (req_man_block p).
Proof.
  intros Hok Hr Hn Hs. unfold request_block_infos in Hr. rewrite bind_action in Hr. cbn [getS] in Hr. rewrite bind_action in Hr.
  unfold tell_torrent, tell_if in Hr. destruct (torrent_ok env); cbn [perform modifyS lift] in Hr; cycle 1.
  { injection Hr as <- <-. exists []. split; [|done]. split; try done; [by rewrite app_nil_r|by auto]. }
  cbv zeta in Hr. fold (answered env) in Hr. set (e := ToTorrent _) in Hr. rewrite bind_action in Hr.
  destruct (forM (request_block env) (answered env) (with_effect e p)) as [r1 p1] eqn:Hf1.
  destruct (requests_held env (answered env) (with_effect e p) r1 p1 Hok Hs Hf1) as (-> & Hf1' & k1 & Hk1 & Hb1 & Hheld1);
    [by intros ->; injection Hr as <- _|].
  rewrite bind_action in Hr. cbn [getS] in Hr. rewrite bind_action, (on_blocks_ok _ _ _ _ eq_refl) in Hr.
  rewrite bind_action in Hr. cbn [modifyS] in Hr. rewrite bind_action in Hr.
  match type of Hr with context [forM (request_block env) ?l ?q] => set (l2 := l) in Hr; set (q2 := q) in Hr end.
  set (n := get_available_request_len (req_man_block p1)) in *.
  assert (rm_sound (req_man_block q2)) as Hs2 by exact (acc_sound _ _ _ Hk1).
  destruct (forM (request_block env) l2 q2) as [r2 p2] eqn:Hf2.
  destruct (requests_held env l2 q2 r2 p2 Hok Hs2 Hf2) as (-> & Hf2' & k2 & Hk2 & Hb2 & Hheld2); [by intros ->; injection Hr as <- _|].
  assert (∀ b, held b p1 → held b p2) as H12.
  { intros b [Hb|Hb]; [left; by apply (acc_fulfilled _ _ _ Hk2)|].
    unfold pending in Hb. rewrite <- (take_drop (N.to_nat (N.min n (len (queue (req_man_block p1))))) (queue (req_man_block p1))) in Hb.
    rewrite !elem_of_app in Hb. destruct Hb as [Hb|[Hb|Hb]].
    - destruct (acc_held _ _ _ Hk2 b) as [?|Hx]; [right; unfold pending; simpl; set_solver|done|rewrite Hb2 in Hx; by apply elem_of_nil in Hx].
    - apply Hheld2. unfold l2. simpl. rewrite bool_decide_false; [done|]. intros Hnil. rewrite Hnil in Hb. by apply elem_of_nil in Hb.
    - destruct (acc_held _ _ _ Hk2 b) as [?|Hx]; [right; unfold pending; simpl; set_solver|done|rewrite Hb2 in Hx; by apply elem_of_nil in Hx]. }
  assert (accounted ([e] ++ k1 ++ k2) p p2 ∧ back ([e] ++ k1 ++ k2) = []) as [H02 Hb02].
  { split; [|by rewrite !back_app, Hb1, Hb2]. destruct Hk1 as [Hs1 He1 Hi1 Hh1 Hp1 Hc1 Hm1], Hk2 as [Hs3 He2 Hi2 Hh2 Hp2 Hc2 Hm2].
    split; [done|simpl in *; by rewrite He2, He1, <- !app_assoc|set_solver| |simpl in *; congruence|simpl in *; congruence|].
    - intros b Hb. left. apply H12. destruct (Hh1 b Hb) as [?|Hx]; [done|]. rewrite Hb1 in Hx. by apply elem_of_nil in Hx.
    - rewrite !frees_app. apply Forall_app. split; [by constructor|]. apply Forall_app. split; [done|]. simpl in Hp1. by rewrite <- Hp1. }
  clear Hk2. assert (fulfilled_index (req_man_block p2) = fulfilled_index (req_man_block p)) as Hful by (rewrite Hf2'; exact Hf1').
  revert Hr. case_match; cycle 1.
  { intros [= <- <-]. eexists. split_and!; [exact H02|exact Hb02| |done]. intros _ b Hb. by apply H12, Hheld1. }
  rewrite bind_action. intros [= <- <-]. exists (([e] ++ k1 ++ k2) ++ [Flush]). split_and!.
  - eapply accounted_trans; [exact H02|]. split; try done; [exact (acc_sound _ _ _ H02)|by auto].
  - by rewrite back_app, Hb02.
  - intros _ b Hb. by apply H12, Hheld1.
  - done.
Qed.
(** ** A run *)

(** The peer is not told to only seed, or that a piece was corrupted, and its
    socket takes what it writes while it requests. *)
Definition orderly (e : Env * PeerEvent) : Prop :=
  match e.2 with
  | EvBroadcast Seedonly | EvMail (PmCorruptedPiece _ _ _) => False
  | EvBlocks | EvMail PmRequestAlgorithm => sink_ok e.1 = true
  | _ => True
  end.
(** The blocks an event, a loop, a run is given *)
Definition given (e : Env * PeerEvent) : list BlockInfo :=
  match e.2 with
  | EvBlocks | EvMail PmRequestAlgorithm => if torrent_ok e.1 then answered e.1 else []
  | _ => []
  end.
Fixpoint loop_given (es : list (Env * PeerEvent)) p : list BlockInfo :=
  match es with
  | [] => []
  | (env, ev) :: es =>
      if enabled p ev then
        given (env, ev) ++ match peer_step env ev p with (Ok true, p) => loop_given es p | _ => [] end
      else loop_given es p
  end.
Definition run_given env (es : list (Env * PeerEvent)) p : list BlockInfo :=
  match peer_start env p with (Ok _, p) => loop_given es p | _ => [] end.

Lemma accounts_handle_block env b : keeps accounts (handle_block env b).
Proof. unfold handle_block. keepb. Qed.
Lemma accounts_tell_torrent env m : keeps accounts (tell_torrent env m).
Proof. by apply accounts_tell_if. Qed.
Lemma accounts_tell_disk env m : keeps accounts (tell_disk env m).
Proof. by apply accounts_tell_if. Qed.
Lemma accounts_tell_mailbox env m : keeps accounts (tell_mailbox env m).
Proof. by apply accounts_tell_if. Qed.
#[local] Hint Resolve accounts_handle_block accounts_tell_torrent accounts_tell_disk accounts_tell_mailbox : keeps.
Lemma accounts_handle_core env m : keeps accounts (handle_core env m).
Proof. unfold handle_core. keepb. Qed.
Lemma accounts_handle_metadata env m : keeps accounts (handle_metadata env m).
Proof. unfold handle_metadata. keepb. Qed.
Lemma accounts_handle_extension env m : keeps accounts (handle_extension env m).
Proof. unfold handle_extension. keepb. Qed.
#[local] Hint Resolve accounts_handle_core accounts_handle_metadata accounts_handle_extension : keeps.
Lemma accounts_handle_message env m : keeps accounts (handle_message env m).
Proof. unfold handle_message. keepb. Qed.
Lemma accounts_request_metadata env : keeps accounts (request_metadata env).
Proof. unfold request_metadata, request_metadata_piece. keepb. Qed.
Lemma accounts_interested env : keeps accounts (interested env).
Proof. unfold interested. keepb. Qed.
Lemma accounts_anti_snubbing env : keeps accounts (anti_snubbing env).
Proof. unfold anti_snubbing. keepb. Qed.
#[local] Hint Resolve accounts_handle_message accounts_request_metadata accounts_interested accounts_anti_snubbing : keeps.
Lemma accounts_broadcast env m : m ≠ Seedonly → keeps accounts (handle_broadcast env m).
Proof. intros Hm. unfold handle_broadcast, go_on. destruct m; try done; keepb. Qed.
Lemma accounts_mail env m :
  match m with PmCorruptedPiece _ _ _ | PmRequestAlgorithm => True | _ => keeps accounts (handle_mail env m) end.
Proof. destruct m; try done; unfold handle_mail; keepb. Qed.
Lemma accounts_start env : keeps accounts (peer_start env).
Proof. unfold peer_start. keepb. Qed.

Lemma go_on_state (m : pact unit) p r p' : go_on m p = (r, p') → ∃ r', m p = (r', p') ∧ (r' = Panic → r = Panic).
Proof. unfold go_on. rewrite bind_action. destruct (m p) as [[[]|e|] q]; intros [= <- <-]; by eexists. Qed.
Lemma step_account env ev p r p' :
  orderly (env, ev) → peer_step env ev p = (r, p') → r ≠ Panic → rm_sound (req_man_block p) →
  ∃ k, accounted k p p' ∧ ∀ b, b ∈ given (env, ev) → held b p' ∨ b ∈ back k.
Proof.
  intros Ho Hp Hr Hs.
  assert (∀ m : pact bool, keeps accounts m → m p = (r, p') → given (env, ev) = [] →
    ∃ k, accounted k p p' ∧ ∀ b, b ∈ given (env, ev) → held b p' ∨ b ∈ back k) as Hkeep.
  { intros m Hm Hmp Hg. destruct (Hm _ _ _ Hmp Hr Hs) as [k Hk]. exists k. split; [done|]. rewrite Hg. by intros b ?%elem_of_nil. }
  assert (∀ q, go_on (request_block_infos env) q = (r, p') → sink_ok env = true → rm_sound (req_man_block q) →
    ∃ k, accounted k q p' ∧ ∀ b, b ∈ (if torrent_ok env then answered env else []) → held b p' ∨ b ∈ back k) as Hreq.
  { intros q Hq Hok Hsq. apply go_on_state in Hq as (r' & Hq & Hn).
    destruct (requests_account env q r' p' Hok Hq) as (k & Hk & _ & Ht & _); [by intros ->; apply Hr, Hn|done|].
    exists k. split; [done|]. destruct (torrent_ok env); [|by intros b ?%elem_of_nil]. intros b Hb. left. by apply Ht. }
  destruct ev as [m| | | | | |m|m]; cbn [peer_step] in Hp; try by (eapply Hkeep; [|exact Hp|done]; unfold go_on; keepb).
  - by apply Hreq.
  - eapply Hkeep; [|exact Hp|done]. apply accounts_broadcast. by intros ->.
  - pose proof (accounts_mail env m) as Hm. destruct m; try done;
      try by (eapply Hkeep; [|exact Hp|done]; unfold go_on; apply keeps_bind; [apply _|exact Hm|intros; apply keeps_ret, _]).
    by apply Hreq.
Qed.
Lemma loop_account es p r p' :
  Forall orderly es → peer_loop es p = (r, p') → r ≠ Panic → rm_sound (req_man_block p) →
  ∃ k, accounted k p p' ∧ ∀ b, b ∈ loop_given es p → held b p' ∨ b ∈ back k.
Proof.
  intros Ho. revert p. induction Ho as [|[env ev] es Ho _ IH]; intros p Hp Hr Hs.
  { injection Hp as <- <-. exists []. split; [|by intros b ?%elem_of_nil]. split; try done; [by rewrite app_nil_r|by auto]. }
  cbn [peer_loop loop_given] in *. rewrite bind_action in Hp. cbn [getS] in Hp. destruct (enabled p ev); [|by apply IH].
  rewrite bind_action in Hp. destruct (peer_step env ev p) as [r1 p1] eqn:Hstep.
  destruct (step_account env ev p r1 p1 Ho Hstep) as (k1 & Hk1 & Hg1); [by intros ->; injection Hp as <- _|done|].
  assert (∀ b, b ∈ given (env, ev) ++ [] → held b p1 ∨ b ∈ back k1) as Hend by (intros b Hb; rewrite app_nil_r in Hb; by apply Hg1).
  destruct r1 as [[]|e|]; try by (injection Hp as <- <-; exists k1; split; [done|exact Hend]).
  destruct (IH p1 Hp Hr (acc_sound _ _ _ Hk1)) as (k2 & Hk2 & Hg2). exists (k1 ++ k2).
  split; [by eapply accounted_trans|]. intros b [Hb|Hb]%elem_of_app; rewrite back_app, elem_of_app.
  - destruct (Hg1 b Hb) as [Hh|]; [|by auto]. destruct (acc_held _ _ _ Hk2 b Hh); auto.
  - destruct (Hg2 b Hb); auto.
Qed.
Lemma run_account env es p r p' :
  Forall orderly es → peer_run env es p = (r, p') → r ≠ Panic → rm_sound (req_man_block p) →
  ∃ k, accounted k p p' ∧ ∀ b, b ∈ run_given env es p → held b p' ∨ b ∈ back k.
Proof.
  intros Ho Hp Hr Hs. unfold peer_run in Hp. rewrite bind_action in Hp. unfold run_given.
  destruct (peer_start env p) as [r1 p1] eqn:Hst.
  destruct (accounts_start env p r1 p1 Hst) as [k1 Hk1]; [by intros ->; injection Hp as <- _|done|].
  destruct r1 as [[]|e|]; try by (injection Hp as <- <-; exists k1; split; [done|by intros b ?%elem_of_nil]).
  destruct (loop_account es p1 r p' Ho Hp Hr (acc_sound _ _ _ Hk1)) as (k2 & Hk2 & Hg2). exists (k1 ++ k2).
  split; [by eapply accounted_trans|]. intros b Hb. rewrite back_app, elem_of_app. destruct (Hg2 b Hb); auto.
Qed.
(** ** The ends of a task *)

(** What is given back is in the queue of the torrent again. *)
Lemma disk_returns h l s t :
  d_torrents (disk s) !! h = Some t → Forall (mine h) l →
  ∃ s' t', forM handle_return l s = (Ok tt, s') ∧ d_torrents (disk s') !! h = Some t' ∧
    td_queue t' = td_queue t ++ concat (blocks_of <$> l) ∧
    ∀ h', h' ≠ h → d_torrents (disk s') !! h' = d_torrents (disk s) !! h'.
Proof.
  intros Ht Hl. revert s t Ht. induction Hl as [|m l Hm _ IH]; intros s t Ht.
  { exists s, t. by rewrite app_nil_r. }
  assert (∃ s1 t1, handle_return m s = (Ok tt, s1) ∧ d_torrents (disk s1) !! h = Some t1 ∧
    td_queue t1 = td_queue t ++ blocks_of m ∧ ∀ h', h' ≠ h → d_torrents (disk s1) !! h' = d_torrents (disk s) !! h')
    as (s1 & t1 & Hr & Ht1 & Hq1 & Ho1).
  { destruct m as [h' bs|h' ms]; simpl in Hm; subst h'; unfold handle_return, catch, torrent_data_mut, torrent_data;
      rewrite bind_action, Ht; (eexists _, _; split; [reflexivity|]); (split; [apply lookup_insert_eq|]);
      (split; [by rewrite ?app_nil_r|]); intros h' Hne; by apply lookup_insert_ne. }
  destruct (IH s1 t1 Ht1) as (s' & t' & Hs' & Ht' & Hq' & Ho'). exists s', t'.
  split; [by cbn [forM]; rewrite bind_action, Hr|]. split; [done|]. split.
  - by rewrite Hq', Hq1, <- app_assoc.
  - intros h' Hne. by rewrite Ho', Ho1.
Qed.

(** A torrent that lists no peer of an address *)
Definition forgotten (a : SocketAddr) (t : Torrent) : Prop :=
  (a ∉ idle_peers t) ∧
  ∀ q, q ∈ connected_peers t ∨ q ∈ unchoked_peers t ∨ opt_unchoked_peer t = Some q → pc_addr q ≠ a.
Lemma peer_error_forgets a w : ∃ w', go (peer_error a) w = (Ok Continue, w') ∧ forgotten a (torrent w').
Proof.
  eexists. split; [reflexivity|]. split; simpl; [set_solver|]. intros q [[? _]%list_elem_of_filter|[[? _]%list_elem_of_filter|Hq]]; [done..|].
  destruct (opt_unchoked_peer (torrent w)) as [o|]; [|done]. case_decide; [done|]. by injection Hq as <-.
Qed.

(** C25. When the loop of a peer ends with an error, the task it runs in gives
    back to the disk every block the peer had or was given in its run and did
    not get, so that the blocks are in the queue of the torrent again; and the
    torrent it tells no longer lists the peer.  This holds for a peer that
    connected to us, and for one we connected to while the torrent is there,
    if the socket took what was written while it requested.  A connection that
    fails is told to the torrent, a handshake of a peer that connected to us and
    fails is not. *)
Theorem peer_gives_back p env es e p' :
  rm_sound (req_man_block p) → Forall orderly es → peer_run env es p = (Err e, p') →
  (∃ q l, (∀ tx_ok, inbound_task tx_ok (Ok p) env es = tell_error tx_ok (pc_addr (ctx p)) (Err e) (Some q)) ∧
    (∀ addr p0 info seed, with_flags info (in_endgame p0) seed (is_paused p0) (is_snubbed p0) p0 = p →
      outbound_task true addr info seed (CnSocket (Ok p0)) env es = tell_error true addr (Err e) (Some q)) ∧
    effects q = effects p ++ l ∧ pending (req_man_block q) = [] ∧
    (∀ b, b ∈ pending (req_man_block p) ∨ b ∈ run_given env es p →
      b ∈ fulfilled_index (req_man_block q) ∨ b ∈ back l) ∧
    ∀ s t, d_torrents (disk s) !! p_info_hash p = Some t →
      ∃ s' t', forM handle_return (frees l) s = (Ok tt, s') ∧ d_torrents (disk s') !! p_info_hash p = Some t' ∧
        td_queue t' = td_queue t ++ back l ∧
        ∀ h, h ≠ p_info_hash p → d_torrents (disk s') !! h = d_torrents (disk s) !! h) ∧
  (∀ addr pick info from_bencode xt trackers w,
    (∃ w', handle_metainfo pick info (MPeerError addr) w = (Ok Continue, w') ∧ forgotten addr (torrent w')) ∧
    ∃ w', handle_magnet from_bencode xt trackers (MPeerError addr) w = (Ok Continue, w') ∧ forgotten addr (torrent w')) ∧
  (∀ addr info seed c, c ≠ CnSocket Panic → (∀ p0, c ≠ CnSocket (Ok p0)) →
    te_told (outbound_task true addr info seed c env es) = [MPeerError addr]) ∧
  ∀ tx_ok hs, (∀ p0, hs ≠ Ok p0) → te_told (inbound_task tx_ok hs env es) = [].
Proof.
  intros Hs Ho Hp. split; [|split; [|split]].
  - destruct (run_account env es p _ _ Ho Hp) as (k & Hk & Hg); [done|done|].
    destruct (free_gives p') as (q & l & Hq & Hl & Hb & Hn & Hf).
    pose proof (accounted_trans _ _ _ _ _ Hk Hl) as Ha. exists q, (k ++ l). split_and!.
    + intros tx_ok. unfold inbound_task. rewrite Hp, Hq. simpl. by rewrite (acc_ctx _ _ _ Ha).
    + intros addr p0 info seed Hp0. unfold outbound_task. by rewrite Hp0, Hp, Hq.
    + apply (acc_effects _ _ _ Ha).
    + done.
    + intros b Hb'. assert (held b q ∨ b ∈ back (k ++ l)) as [[?|Hx]|?]; [|by left|by rewrite Hn in Hx; apply elem_of_nil in Hx|by right].
      destruct Hb' as [Hb'|Hb']; [apply (acc_held _ _ _ Ha); by right|].
      rewrite back_app, elem_of_app. destruct (Hg b Hb') as [Hh|]; [|by auto]. destruct (acc_held _ _ _ Hl b Hh); auto.
    + intros s t Ht. destruct (disk_returns (p_info_hash p) (frees (k ++ l)) s t Ht (acc_mine _ _ _ Ha)) as (s' & t' & H').
      by exists s', t'.
  - intros addr pick info from_bencode xt trackers w. destruct (peer_error_forgets addr w) as (w' & Hw & Hf). by split; exists w'.
  - intros addr info seed c Hc Hn. destruct c as [| |[p0|e0|]]; try done. by destruct (Hn p0).
  - intros tx_ok hs Hn. destruct hs as [p0|e0|]; [by destruct (Hn p0)|done..].
Qed.

(** When the socket fails while blocks are requested, the blocks that were to
    follow are lost: they left the queue of the disk and are not given back. *)
Theorem peer_failing_sink_loses tx_ok env0 env p b bs m :
  torrent_ok env0 = true → torrent_ok env = true → sink_ok env = false → can_request p = true →
  request_answer env = Some (Ok (b :: bs)) →
  @add_request _ _ _ Error (now env) (now' env) (req_man_block p) b = Ok (true, m) →
  ∃ q l, te_peer (inbound_task tx_ok (Ok p) env0 [(env, EvBlocks)]) = Some q ∧ effects q = effects p ++ l ∧
    back l = pending m ∧ ∀ c, c ∈ bs → c ∉ pending m → (c ∉ back l) ∧ (c ∉ pending (req_man_block q)).
Proof.
  intros Ht0 Ht Hk Hc Ha Hm. unfold inbound_task, peer_run, peer_start, tell_torrent, tell_if.
  rewrite Ht0. rewrite bind_action. unfold getS at 1. rewrite bind_action. unfold perform, modifyS at 1.
  set (p1 := with_effect _ p). cbn [peer_loop]. rewrite bind_action. unfold getS at 1.
  change (enabled p1 EvBlocks) with (can_request p). rewrite Hc. rewrite bind_action. cbn [peer_step]. unfold go_on.
  rewrite bind_action. unfold request_block_infos. rewrite bind_action. unfold getS at 1. rewrite bind_action.
  unfold tell_torrent, tell_if. rewrite Ht. unfold perform at 1, modifyS at 1. set (p2 := with_effect _ p1).
  rewrite Ha. cbv zeta. rewrite bind_action. cbn [forM]. rewrite bind_action, (request_block_by env b p2 true m Hm), Hk.
  cbn beta iota. destruct (free_gives (with_block_man m p2)) as (q & l & -> & Hl & Hb & Hn & _).
  exists q. eexists. split; [by destruct tx_ok|]. split.
  - rewrite (acc_effects _ _ _ Hl). simpl. rewrite <- !app_assoc. reflexivity.
  - assert (∀ e1 e2, frees [e1] = [] → frees [e2] = [] → back ([e1] ++ [e2] ++ l) = back l) as Hback.
    { intros e1 e2 H1 H2. unfold back. by rewrite !frees_app, H1, H2. }
    rewrite Hback by done. rewrite Hb. split; [done|]. intros c _ Hc'. split; [done|]. rewrite Hn. apply not_elem_of_nil.
Qed.
End tasks.

Section witnesses.
#[local] Existing Instances dev list_bits text_bendy.

(** A socket that takes nothing more, and a peer that meets it once a block is
    on its way *)
Definition ex_broken : Env := {|
  now := 0; now' := 0; sink_ok := false; torrent_ok := true; disk_ok := true; mailbox_ok := true;
  request_answer := None; meta_answer := None; piece_answer := None; info_answer := None; block_answer := None |}.
Definition ex_life : list (Env * PeerEvent) := (pair (ex_env 0) <$> ex_events) ++ [(ex_broken, EvKeepAlive)].

Lemma peer_gives_back_witness :
  ∃ q l, te_peer (inbound_task true (Ok ex_new) (ex_env 0) ex_life) = Some q ∧
    te_told (inbound_task true (Ok ex_new) (ex_env 0) ex_life) = [MPeerError 1%N] ∧
    (let b := {| bi_index := 0; bi_begin := 0; bi_len := 2 |}%N in
     b ∈ fulfilled_index (req_man_block q) ∨ b ∈ back l) ∧ effects q = effects ex_new ++ l.
Proof.
  assert (peer_run (ex_env 0) ex_life ex_new = (Err (IO OtherKind), (peer_run (ex_env 0) ex_life ex_new).2)) as Hrun
    by by vm_compute.
  destruct (peer_gives_back ex_new (ex_env 0) ex_life _ _ (exact_sound _ rm_default_exact)
    ltac:(by repeat constructor) Hrun) as [(q & l & Hin & _ & He & _ & Hb & _) _].
  exists q, l. rewrite (Hin true). split_and!; [done|done| |done]. apply Hb. right. vm_compute. left.
Defined.
End witnesses.
