(* ===== verification/System.v ===== *)
(** A torrent, the disk and the peers together, with the messages on their way
    between them: who asks whom for blocks ([peer/mod.rs], [request_block_infos];
    [torrent/from_meta_info.rs], [TorrentMsg::Request]; [disk.rs],
    [DiskMsg::RequestBlocks] and [free_rx]), and how the tasks of peers come and
    go, also when the socket of a peer fails.  Mailboxes are read in any order,
    since tasks that are spawned to send overtake each other. *)
From S2P Require Import Prelude Buffers Errors Bits Core Bencode Metainfo Disk Floats Counter RequestManager RequestManagerFacts.
From S2P Require Import Torrent Handshake MetadataMsg Peer PeerFacts PeerTasks.

Section system.
Context `{Build, Sha1Api, BV : BitVecApi, BendyApi}.

(** A running peer: the answer it waits for, if it does, and its mailbox *)
Record PeerTask := { pk_peer : Peer; pk_asked : option N; pk_mail : list PeerMsg }.

(** The state of all.  A message that asks for blocks goes with the number of
    the channel ([oneshot]) of its answer.  [sy_written] lists the blocks the
    peers handed to the disk, [sy_lost] those whose answer came when nobody
    listened any more, and those that a peer whose socket failed as it requested
    them forgot, and [sy_gave_up] the channels whose peers went on before an
    answer came or failed in this way. *)
Record System := {
  sy_disk : DiskState;
  sy_torrent : World;
  sy_peers : gmap N PeerTask;
  to_torrent : list (TorrentMsg * option N);
  to_disk : list (DiskMsg * option N);
  to_free : list ReturnToDisk;
  sy_answers : gmap N (outcome Error (list BlockInfo));
  sy_next : N;
  sy_written : list BlockInfo;
  sy_lost : list BlockInfo;
  sy_gave_up : list N;
}.

Definition with_sy_disk (d : DiskState) (s : System) : System := {|
  sy_disk := d; sy_torrent := sy_torrent s; sy_peers := sy_peers s; to_torrent := to_torrent s; to_disk := to_disk s;
  to_free := to_free s; sy_answers := sy_answers s; sy_next := sy_next s; sy_written := sy_written s; sy_lost := sy_lost s;
  sy_gave_up := sy_gave_up s |}.
Definition with_sy_torrent (w : World) (s : System) : System := {|
  sy_disk := sy_disk s; sy_torrent := w; sy_peers := sy_peers s; to_torrent := to_torrent s; to_disk := to_disk s;
  to_free := to_free s; sy_answers := sy_answers s; sy_next := sy_next s; sy_written := sy_written s; sy_lost := sy_lost s;
  sy_gave_up := sy_gave_up s |}.
Definition with_sy_peers (f : gmap N PeerTask → gmap N PeerTask) (s : System) : System := {|
  sy_disk := sy_disk s; sy_torrent := sy_torrent s; sy_peers := f (sy_peers s); to_torrent := to_torrent s; to_disk := to_disk s;
  to_free := to_free s; sy_answers := sy_answers s; sy_next := sy_next s; sy_written := sy_written s; sy_lost := sy_lost s;
  sy_gave_up := sy_gave_up s |}.
Definition with_boxes (t : list (TorrentMsg * option N)) (d : list (DiskMsg * option N)) (f : list ReturnToDisk) (s : System) : System := {|
  sy_disk := sy_disk s; sy_torrent := sy_torrent s; sy_peers := sy_peers s; to_torrent := t; to_disk := d; to_free := f;
  sy_answers := sy_answers s; sy_next := sy_next s; sy_written := sy_written s; sy_lost := sy_lost s;
  sy_gave_up := sy_gave_up s |}.
Definition with_answers (a : gmap N (outcome Error (list BlockInfo))) (next : N) (written lost : list BlockInfo) (s : System) : System := {|
  sy_disk := sy_disk s; sy_torrent := sy_torrent s; sy_peers := sy_peers s; to_torrent := to_torrent s; to_disk := to_disk s;
  to_free := to_free s; sy_answers := a; sy_next := next; sy_written := written; sy_lost := lost;
  sy_gave_up := sy_gave_up s |}.
Definition with_gave_up (g : list N) (s : System) : System := {|
  sy_disk := sy_disk s; sy_torrent := sy_torrent s; sy_peers := sy_peers s; to_torrent := to_torrent s; to_disk := to_disk s;
  to_free := to_free s; sy_answers := sy_answers s; sy_next := sy_next s; sy_written := sy_written s; sy_lost := sy_lost s;
  sy_gave_up := g |}.

(** ** What goes where *)

(** An answer reaches the channel of a peer that still waits for it; otherwise
    sending it fails, and the failure is dropped.  A channel carries one answer. *)
Definition waiting (k : N) (s : System) : Prop := map_Exists (fun _ t => pk_asked t = Some k) (sy_peers s).
#[global] Instance waiting_dec k s : Decision (waiting k s).
Proof. unfold waiting. apply _. Defined.
Definition deliver (k : option N) (r : outcome Error (list BlockInfo)) (s : System) : System :=
  let dropped := with_answers (sy_answers s) (sy_next s) (sy_written s)
    (sy_lost s ++ match r with Ok l => l | _ => [] end) s in
  match k with
  | Some k => if decide (waiting k s ∧ sy_answers s !! k = None) then with_answers (<[k := r]> (sy_answers s)) (sy_next s) (sy_written s) (sy_lost s) s
              else dropped
  | None => dropped
  end.

(** The effects of a peer, which are of number [i] *)
Definition mail_to (i : N) (m : PeerMsg) (s : System) : System :=
  with_sy_peers (alter (fun t => {| pk_peer := pk_peer t; pk_asked := pk_asked t; pk_mail := pk_mail t ++ [m] |}) i) s.
Definition route_effect (i : N) (s : System) (e : Effect) : System :=
  match e with
  | ToTorrent m => with_boxes (to_torrent s ++ [(m, None)]) (to_disk s) (to_free s) s
  | Peer.ToDisk m =>
      with_answers (sy_answers s) (sy_next s) (sy_written s ++ option_list (write_of e)) (sy_lost s)
        (with_boxes (to_torrent s) (to_disk s ++ [(m, None)]) (to_free s) s)
  | ToFree m => with_boxes (to_torrent s) (to_disk s) (to_free s ++ [m]) s
  | ToMailbox m => mail_to i m s
  | Sink _ | Flush | ToCloner _ => s
  end.
Definition route_effects (i : N) (l : list Effect) (s : System) : System := foldl (route_effect i) s l.
(** What the torrent sends while it handles a message that came with channel [k] *)
Definition route_out (k : option N) (s : System) (o : Out) : System :=
  match o with
  | Torrent.ToDisk m => with_boxes (to_torrent s) (to_disk s ++ [(m, k)]) (to_free s) s
  | ToPeer q m => mail_to (pc_ref q) m s
  | Answer (RBlocks l) => deliver k (Ok l) s
  | _ => s
  end.
Definition route_outs (k : option N) (l : list Out) (s : System) : System := foldl (route_out k) s l.
(** What the disk tells the torrent [h] *)
Definition msg_of_event (e : DiskEvent) : option TorrentMsg :=
  match e with
  | DownloadedPiece p => Some (MDownloadedPiece p)
  | CorruptedPiece p => Some (MCorruptedPiece p)
  | EndgameStarted => Some MEndgame
  | SetTorrentError c => Some (MSetTorrentError c)
  | AddTorrentToDaemon _ _ => None
  end.
Definition route_sent (h : InfoHash) (l : list (InfoHash * DiskEvent)) (s : System) : System :=
  with_boxes (to_torrent s ++ omap (fun e => if decide (e.1 = h) then (fun m => (m, None)) <$> msg_of_event e.2 else None) l)
    (to_disk s) (to_free s) s.
Definition route_reply (k : option N) (r : DiskReply) (s : System) : System :=
  match r with BlocksReply r => deliver k r s | _ => s end.

(** ** Steps *)

(** A peer asks for blocks when its interval ticks or it is told to. *)
Definition asks_blocks (ev : PeerEvent) : bool :=
  match ev with EvBlocks | EvMail PmRequestAlgorithm => true | _ => false end.
(** A branch of the loop of a peer is enabled; the broadcast that ends downloads
    needs a torrent that sent it, and [Quit] is left out: the composition is of a
    torrent that neither quits nor is deleted. *)
Definition may_happen (w : World) (p : Peer) (ev : PeerEvent) : Prop :=
  enabled p ev = true ∧
  match ev with
  | EvBroadcast Seedonly => Broadcast Seedonly ∈ out w
  | EvBroadcast Quit => False
  | _ => True
  end.
(** The message of an event is taken from the mailbox. *)
Definition takes (ev : PeerEvent) (mail mail' : list PeerMsg) : Prop :=
  match ev with EvMail m => ∃ l k, mail = l ++ m :: k ∧ mail' = l ++ k | _ => mail' = mail end.
(** The other tasks are there; what they answer, but for blocks, is anything. *)
Definition served (env : Env) : Prop := torrent_ok env = true ∧ disk_ok env = true.
(** A task fresh from a handshake, with nothing requested *)
Definition fresh (h : InfoHash) (i : N) (p : Peer) : Prop :=
  pc_ref (ctx p) = i ∧ p_info_hash p = h ∧ rm_sound (req_man_block p) ∧ pending (req_man_block p) = [] ∧
  fulfilled_index (req_man_block p) = ∅.
Definition set_task (i : N) (p : Peer) (asked : option N) (mail : list PeerMsg) (s : System) : System :=
  with_sy_peers <[i := {| pk_peer := p; pk_asked := asked; pk_mail := mail |}]> s.
(** How many blocks a peer has is an atomic of the peer, which the disk reads as
    it handles the message, not the torrent as it sends it: any number. *)
Definition reads_len (n : N) (m : DiskMsg) : DiskMsg :=
  match m with RequestBlocks h _ ps v => RequestBlocks h n ps v | _ => m end.
(** The new part of a log *)
Definition since {A} (old new : list A) : list A := drop (length old) new.
Variable h : InfoHash.
Inductive sys_step : relation System :=
  (** The torrent handles a message, or one of its intervals ticks. *)
  | sys_torrent s pick info m k l l' w :
      to_torrent s = l ++ (m, k) :: l' →
      handle_metainfo pick info m (sy_torrent s) = (Ok Continue, w) →
      sys_step s (route_outs k (since (out (sy_torrent s)) (out w))
        (with_sy_torrent w (with_boxes (l ++ l') (to_disk s) (to_free s) s)))
  | sys_tick s tick w :
      (tick = unchoke ∨ (∃ pick, tick = optimistic_unchoke pick) ∨ ∃ now, tick = heartbeat_interval now) →
      tick (sy_torrent s) = (Ok tt, w) →
      sys_step s (route_outs None (since (out (sy_torrent s)) (out w)) (with_sy_torrent w s))
  (** The disk handles a message, or blocks that come back. *)
  | sys_disk s hex now n m k l l' reply d :
      to_disk s = l ++ (m, k) :: l' → handle_disk_msg hex now (reads_len n m) (sy_disk s) = (Ok reply, d) →
      sys_step s (route_reply k reply (route_sent h (since (sent (sy_disk s)) (sent d))
        (with_sy_disk d (with_boxes (to_torrent s) (l ++ l') (to_free s) s))))
  | sys_free s m l l' d :
      to_free s = l ++ m :: l' → handle_return m (sy_disk s) = (Ok tt, d) →
      sys_step s (with_sy_disk d (with_boxes (to_torrent s) (to_disk s) (l ++ l') s))
  (** A peer connects. *)
  | sys_joins s i p :
      sy_peers s !! i = None → fresh h i p → sys_step s (set_task i p None [] s)
  (** A turn of the loop of a peer, which asks for no blocks; the end of its task
      when the turn fails *)
  | sys_peer s i t env ev p mail :
      sy_peers s !! i = Some t → pk_asked t = None → asks_blocks ev = false → served env →
      may_happen (sy_torrent s) (pk_peer t) ev → takes ev (pk_mail t) mail →
      peer_step env ev (pk_peer t) = (Ok true, p) →
      sys_step s (route_effects i (since (effects (pk_peer t)) (effects p)) (set_task i p None mail s))
  | sys_fails s i t env ev p p' mail e :
      sy_peers s !! i = Some t → pk_asked t = None → asks_blocks ev = false → served env →
      may_happen (sy_torrent s) (pk_peer t) ev → takes ev (pk_mail t) mail →
      peer_step env ev (pk_peer t) = (Err e, p) → free_pending_blocks p = (Ok tt, p') →
      sys_step s (with_sy_peers (delete i) (route_effects i
        (since (effects (pk_peer t)) (effects p') ++ [ToTorrent (MPeerError (pc_addr (ctx p)))]) (set_task i p' None mail s)))
  (** A peer asks for blocks and waits. *)
  | sys_asks s i t ev mail :
      sy_peers s !! i = Some t → pk_asked t = None → asks_blocks ev = true →
      may_happen (sy_torrent s) (pk_peer t) ev → takes ev (pk_mail t) mail →
      let p := pk_peer t in
      sys_step s (with_boxes
        (to_torrent s ++ [(MRequest (ctx p) (get_available_request_len (req_man_block p)), Some (sy_next s))])
        (to_disk s) (to_free s)
        (with_answers (sy_answers s) (sy_next s + 1) (sy_written s) (sy_lost s) (set_task i p (Some (sy_next s)) mail s)))
  (** It goes on with the answer, or without one when three seconds passed.  The
      message it asked with is the first of its effects. *)
  | sys_goes_on s i t k env p :
      sy_peers s !! i = Some t → pk_asked t = Some k → served env → sink_ok env = true →
      request_answer env = sy_answers s !! k →
      request_block_infos env (pk_peer t) = (Ok tt, p) →
      sys_step s (route_effects i (tail (since (effects (pk_peer t)) (effects p)))
        (with_answers (delete k (sy_answers s)) (sy_next s) (sy_written s) (sy_lost s)
          (with_gave_up (if decide (sy_answers s !! k = None) then sy_gave_up s ++ [k] else sy_gave_up s)
            (set_task i p None (pk_mail t) s))))
  (** Its socket fails as it requests the blocks, which ends its task: what it
      still knows of is given back, the other blocks are lost. *)
  | sys_breaks s i t k env p p' e :
      sy_peers s !! i = Some t → pk_asked t = Some k → served env →
      request_answer env = sy_answers s !! k →
      request_block_infos env (pk_peer t) = (Err e, p) → free_pending_blocks p = (Ok tt, p') →
      let forgotten := filter (fun b => b ∉ pending (req_man_block p)) (pending (req_man_block (pk_peer t)) ++ answered env) in
      sys_step s (route_effects i
        (tail (since (effects (pk_peer t)) (effects p')) ++ [ToTorrent (MPeerError (pc_addr (ctx p)))])
        (with_answers (delete k (sy_answers s)) (sy_next s) (sy_written s) (sy_lost s ++ forgotten)
          (with_gave_up (sy_gave_up s ++ [k]) (with_sy_peers (delete i) s))))
  (** What other tasks do: other torrents of the disk, the shared parts of the
      peers, and messages to the torrent that are not those of peers *)
  | sys_others_disk s d :
      d_torrents (disk d) !! h = d_torrents (disk (sy_disk s)) !! h → sys_step s (with_sy_disk d s)
  | sys_others_torrent s w :
      torrent w = torrent (sy_torrent s) → out w = out (sy_torrent s) → sys_step s (with_sy_torrent w s)
  | sys_message s m :
      match m with MRequest _ _ | MCancel _ _ => False | _ => True end →
      sys_step s (with_boxes (to_torrent s ++ [(m, None)]) (to_disk s) (to_free s) s).
End system.
