(* ===== verification/SystemFacts.v ===== *)
(** What the torrent, the disk and a peer do to the blocks on their way: the
    lemmas [SystemTheorems] puts together. *)
From S2P Require Import Prelude Buffers Errors Bits Core Bencode Metainfo Disk Floats Counter RequestManager RequestManagerFacts.
From S2P Require Import Torrent TorrentFacts Handshake MetadataMsg Peer PeerFacts PeerTasks System.

(** ** The torrent *)
Section torrent.
Context `{Build, BV : BitVecApi}.
Variable h : InfoHash.

(** What handling [m] may send: blocks are asked for a request, or there are
    none, a download is over after a piece, and a block is cancelled when a peer
    said so. *)
Definition tells (m : TorrentMsg) (o : Out) : Prop :=
  match o with
  | Torrent.ToDisk (RequestBlocks h' _ _ _) => h' = h ∧ match m with MRequest _ _ => True | _ => False end
  | Torrent.ToDisk (FinishedDownload _) => match m with MDownloadedPiece _ => True | _ => False end
  | Torrent.ToDisk _ => False
  | ToPeer _ (PmCancel b) => match m with MCancel _ b' => b' = b | _ => False end
  | Answer (RBlocks l) => match m with MRequest _ _ => l = [] | _ => False end
  | _ => True
  end.
Definition emits (P : Out → Prop) : relation World := fun w w' =>
  t_info_hash (torrent w) = h → t_info_hash (torrent w') = h ∧ ∃ l, out w' = out w ++ l ∧ Forall P l.
#[export] Instance emits_preorder P : PreOrder (emits P).
Proof.
  split.
  - intros w Hh. split; [done|]. exists []. by rewrite app_nil_r.
  - intros w1 w2 w3 H1 H2 Hh. destruct (H1 Hh) as [Hh2 (l1 & Ho1 & Hl1)]. destruct (H2 Hh2) as [Hh3 (l2 & Ho2 & Hl2)].
    split; [done|]. exists (l1 ++ l2). split; [by rewrite Ho2, Ho1, app_assoc|by apply Forall_app].
Qed.
Lemma emits_same P w w' : t_info_hash (torrent w') = t_info_hash (torrent w) → out w' = out w → emits P w w'.
Proof. intros Hh Ho Hw. split; [congruence|]. exists []. by rewrite app_nil_r. Qed.
Lemma emits_tell (P : Out → Prop) o : P o → keeps (emits P) (tell o).
Proof. intros Ho. apply keeps_modifyS. intros w Hh. split; [done|]. exists [o]. split; [done|by constructor]. Qed.
#[local] Hint Extern 1 (keeps (emits _) (tell _)) => (apply emits_tell; first [exact I | reflexivity | done]) : keeps.
Ltac keept := keep ltac:(first [done | by apply emits_same | apply emits_same; repeat case_match; done]).

Lemma emits_unchoke m : keeps (emits (tells m)) unchoke.
Proof. unfold unchoke. keept. Qed.
Lemma emits_optimistic m pick : keeps (emits (tells m)) (optimistic_unchoke pick).
Proof. unfold optimistic_unchoke, set_opt. keept. Qed.
Lemma emits_heartbeat m now : keeps (emits (tells m)) (heartbeat_interval now).
Proof. unfold heartbeat_interval, update_peer. keept. Qed.
Lemma emits_gen_missing m id : keeps (emits (tells m)) (gen_missing_pieces id).
Proof. unfold gen_missing_pieces. keept. Qed.
#[local] Hint Resolve emits_unchoke emits_optimistic emits_heartbeat emits_gen_missing : keeps.
Lemma emits_peer_have m id p : keeps (emits (tells m)) (peer_have id p).
Proof. unfold peer_have. keept. Qed.
Lemma emits_downloaded_piece p : keeps (emits (tells (MDownloadedPiece p))) (downloaded_piece p).
Proof. unfold downloaded_piece. keept. Qed.
Lemma emits_get_want m id n : keeps (emits (tells m)) (get_want_pieces id n).
Proof. unfold get_want_pieces. keept. Qed.
#[local] Hint Resolve emits_peer_have emits_downloaded_piece emits_get_want : keeps.
Lemma emits_common m : keeps (emits (tells m)) (handle_common m).
Proof. unfold handle_common, peer_error, peer_connected, toggle_pause, quit, go. keept. Qed.
#[local] Hint Resolve emits_common : keeps.
Lemma emits_request pick info p n : keeps (emits (tells (MRequest p n))) (handle_metainfo pick info (MRequest p n)).
Proof.
  intros w r w' Hh Hr Hw. unfold handle_metainfo in Hh. rewrite bind_action in Hh. cbn [getS] in Hh.
  rewrite bind_action in Hh. unfold lift at 1 in Hh.
  destruct (@umul Error _ n BLOCK_LEN) as [bytes|e|] in Hh; [|injection Hh as _ <-; by apply emits_same..].
  rewrite bind_action in Hh. unfold lift at 1 in Hh.
  destruct (@udiv_ceil Error bytes _) as [wanted|e|] in Hh; [|injection Hh as _ <-; by apply emits_same..].
  unfold if_ok in Hh. destruct (get_want_pieces _ _ w) as [[l|e|] w1] eqn:Hg; [| |by injection Hh as <- _].
  - destruct (emits_get_want (MRequest p n) _ _ _ _ _ Hg ltac:(done) Hw) as [Hw1 Ho1].
    refine (proj1 (_ : emits (tells (MRequest p n)) w w' ∧ True) Hw). split; [|done].
    etrans; [intros _; exact (conj Hw1 Ho1)|]. rewrite bind_action in Hh. cbn [getS] in Hh. rewrite bind_action in Hh. unfold lift in Hh.
    destruct (peer_pieces (torrent w1) !! pc_id p); [|injection Hh as _ <-; by apply emits_same].
    assert (keeps (emits (tells (MRequest p n))) (go (tell (Torrent.ToDisk
      (RequestBlocks (t_info_hash (torrent w)) (block_infos_len (Torrent.shared (peers w1) p)) l b))))) as Hk.
    { unfold go. apply keeps_bind; [apply _|by apply emits_tell|intros; apply keeps_ret, _]. }
    by eapply Hk.
  - destruct (emits_get_want (MRequest p n) _ _ _ _ _ Hg ltac:(done) Hw) as [Hw1 Ho1].
    refine (proj1 (_ : emits (tells (MRequest p n)) w w' ∧ True) Hw). split; [|done].
    etrans; [intros _; exact (conj Hw1 Ho1)|].
    assert (keeps (emits (tells (MRequest p n))) (go (tell (Answer (RBlocks []))))) as Hk by (unfold go; keept).
    by eapply Hk.
Qed.
Lemma handle_metainfo_emits pick info m : keeps (emits (tells m)) (handle_metainfo pick info m).
Proof. destruct m; try apply emits_request. all: unfold handle_metainfo, go; keept. Qed.
Lemma tick_emits tick :
  (tick = unchoke ∨ (∃ pick, tick = optimistic_unchoke pick) ∨ ∃ now, tick = heartbeat_interval now) →
  keeps (emits (tells MQuit)) tick.
Proof. intros [->|[[? ->]|[? ->]]]; eauto with keeps. Qed.
(** A request is passed on, or answered at once. *)
Lemma request_passed pick info p n w w' :
  handle_metainfo pick info (MRequest p n) w = (Ok Continue, w') →
  out w' = out w ++ [Answer (RBlocks [])] ∨ ∃ h' k l b, out w' = out w ++ [Torrent.ToDisk (RequestBlocks h' k l b)].
Proof.
  unfold handle_metainfo. rewrite bind_action. cbn [getS]. do 2 (rewrite bind_action; unfold lift at 1; case_match; [|done..]).
  unfold if_ok. destruct (get_want_pieces _ _ w) as [r1 w1] eqn:Hg. destruct r1 as [l|e|]; [| |done].
  - destruct (get_want_spec _ _ _ _ _ Hg) as [(? & _)|(diff & ? & req & [= <-] & Hd & -> & Hw)]; [done|done|].
    rewrite bind_action. cbn [getS]. rewrite bind_action. cbn [lift]. destruct (peer_pieces _ !! _); cbn [ok_or]; [|done].
    intros [= <-]. right. by eexists _, _, _, _.
  - destruct (get_want_spec _ _ _ _ _ Hg) as [(_ & -> & _)|(diff & ? & req & ? & _)]; [done| |done].
    intros [= <-]. by left.
Qed.
Lemma tick_quiet tick :
  (tick = unchoke ∨ (∃ pick, tick = optimistic_unchoke pick) ∨ ∃ now, tick = heartbeat_interval now) → keeps TorrentFacts.quiet tick.
Proof. intros [->|[[? ->]|[? ->]]]; [apply unchoke_quiet|apply optimistic_unchoke_quiet|apply heartbeat_quiet]. Qed.
End torrent.

(** ** The disk *)
Section disk.
Context `{Build, Sha1Api, BV : BitVecApi}.
Variable h : InfoHash.

(** The queue of the torrent only gets longer, and its sizes stay. *)
Definition grows : relation DiskState := fun s s' =>
  ∀ t, d_torrents (disk s) !! h = Some t →
    ∃ t', d_torrents (disk s') !! h = Some t' ∧ torrent_cache t' = torrent_cache t ∧ td_queue t ⊆ td_queue t'.
#[export] Instance grows_preorder : PreOrder grows.
Proof.
  split; [intros s t Ht; by exists t|]. intros s1 s2 s3 H1 H2 t Ht.
  destruct (H1 t Ht) as (t2 & Ht2 & Hc2 & Hq2). destruct (H2 t2 Ht2) as (t3 & Ht3 & Hc3 & Hq3).
  exists t3. split_and!; [done|congruence|set_solver].
Qed.
Lemma grows_same s s' : d_torrents (disk s') !! h = d_torrents (disk s) !! h → grows s s'.
Proof. intros Hs t Ht. exists t. by rewrite Hs. Qed.
Lemma grows_data h' : keeps grows (torrent_data h').
Proof. intros s r s' [= <- <-] _. done. Qed.
Lemma grows_mut h' f :
  (∀ t, torrent_cache (f t) = torrent_cache t ∧ td_queue t ⊆ td_queue (f t)) → keeps grows (torrent_data_mut h' f).
Proof.
  intros Hf s r s' Hs _ t Ht. unfold torrent_data_mut, torrent_data in Hs. rewrite bind_action in Hs.
  destruct (d_torrents (disk s) !! h') as [t0|] eqn:Hh0; cbn [ok_or] in Hs; injection Hs as _ <-; [|by exists t].
  simpl. destruct (decide (h' = h)) as [->|Hne].
  - rewrite Hh0 in Ht. injection Ht as ->. exists (f t). rewrite lookup_insert_eq. by destruct (Hf t).
  - exists t. by rewrite lookup_insert_ne.
Qed.
Lemma grows_send h' e : keeps grows (Disk.send h' e).
Proof. apply keeps_modifyS. intros s. by apply grows_same. Qed.
Lemma grows_open q : keeps grows (open_file q).
Proof.
  intros s r s' Hs _. unfold open_file in Hs. destruct (d_entries (disk s) !! q); [by injection Hs as _ <-|].
  case_decide; injection Hs as _ <-; by apply grows_same.
Qed.
Lemma grows_read_mmap q : keeps grows (get_cached_read_mmap q).
Proof.
  intros s r s' Hs Hr. unfold get_cached_read_mmap in Hs. destruct (d_read_cache (disk s) !! q); [by injection Hs as _ <-|].
  pose proof (grows_open q s) as Hg. destruct (open_file q s) as [[i|e|] s1]; injection Hs as <- <-; [|by eapply Hg..|done].
  etrans; [by eapply Hg|by apply grows_same].
Qed.
Lemma grows_write_mmap q : keeps grows (get_cached_write_mmap q).
Proof.
  intros s r s' Hs Hr. unfold get_cached_write_mmap in Hs. destruct (d_write_cache (disk s) !! q); [by injection Hs as _ <-|].
  pose proof (grows_open q s) as Hg. destruct (open_file q s) as [[i|e|] s1]; injection Hs as <- <-; [|by eapply Hg..|done].
  etrans; [by eapply Hg|by apply grows_same].
Qed.
Lemma grows_mmap_write m off data : keeps grows (mmap_write m off data).
Proof.
  intros s r s' Hs Hr. unfold mmap_write in Hs. destruct (_ <=? _)%N; injection Hs as <- <-; [by apply grows_same|done].
Qed.
#[local] Hint Resolve grows_data grows_send grows_read_mmap grows_write_mmap grows_mmap_write : keeps.
#[local] Hint Extern 1 (keeps grows (torrent_data_mut _ _)) =>
  (apply grows_mut; intros; split; simpl; [done|set_solver]) : keeps.
Ltac keepd := keep ltac:(by apply grows_same).

Lemma grows_validate_loop a b l acc : keeps grows (validate_loop a b l acc).
Proof. revert acc. induction l as [|m l IH]; intros acc; cbn [validate_loop]; keepd; apply IH. Qed.
#[local] Hint Resolve grows_validate_loop : keeps.
Lemma grows_validate_piece h' p : keeps grows (validate_piece h' p).
Proof. unfold validate_piece. keepd. Qed.
#[local] Hint Resolve grows_validate_piece : keeps.
Lemma grows_write_block h' b : keeps grows (write_block h' b).
Proof. unfold write_block, write_one, set_piece_count, is_piece_downloaded. keepd. Qed.
Lemma grows_read_block now h' b : keeps grows (read_block now h' b).
Proof. unfold read_block, record_piece_access. keepd. Qed.
Lemma grows_request_metadata h' n m : keeps grows (Disk.request_metadata h' n m).
Proof. unfold Disk.request_metadata. keepd. Qed.
Lemma grows_return m : keeps grows (handle_return m).
Proof. unfold handle_return. keepd. Qed.
Lemma keeps_result_of {A} (m : action DiskState Error A) : keeps grows m → keeps grows (result_of m).
Proof.
  intros Hm s r s' Hs Hr. unfold result_of in Hs. destruct (m s) as [[a|e|] s1] eqn:Hms; injection Hs as <- <-;
    [by eapply Hm|by eapply Hm|done].
Qed.
Lemma grows_report {A} h' (r : outcome Error A) : keeps grows (report h' r).
Proof. unfold report, handle_torrent_err. keepd. Qed.
#[local] Hint Resolve grows_report : keeps.

(** The messages of peers *)
Lemma grows_msg hex now m :
  match m with ReadBlock _ _ | WriteBlock _ _ | RequestMetadata _ _ _ => True | _ => False end →
  keeps grows (handle_disk_msg hex now m).
Proof.
  destruct m; try done; intros _; unfold handle_disk_msg.
  - apply keeps_bind; [apply _|apply keeps_result_of, grows_read_block|intros; keepd].
  - apply keeps_bind; [apply _|apply keeps_result_of, grows_write_block|intros; keepd].
  - apply keeps_bind; [apply _|apply keeps_catch; apply grows_request_metadata|intros; keepd].
Qed.

(** *** Blocks are handed out *)

(** Computations that panic or return *)
Definition noerr {A} (o : outcome Error A) : Prop := ∀ e, o ≠ Err e.
Lemma noerr_bind {A B} (o : outcome Error A) (f : A → outcome Error B) : noerr o → (∀ a, noerr (f a)) → noerr (o ≫= f).
Proof. intros Ho Hf e. destruct o as [a|e'|]; [apply Hf| |done]. by destruct (Ho e'). Qed.
Lemma noerr_mapM {A B} (f : A → outcome Error B) l : (∀ a, noerr (f a)) → noerr (mapM_outcome f l).
Proof.
  intros Hf. induction l as [|a l IH]; [done|]. apply noerr_bind; [apply Hf|]. intros b. by apply noerr_bind.
Qed.
Lemma noerr_arith m z : noerr (arith m z).
Proof. intros e. apply arith_no_err. Qed.
Lemma noerr_block_infos total plen p : noerr (get_block_infos_of_piece total plen p).
Proof.
  unfold get_block_infos_of_piece, block_info_at. repeat (apply noerr_bind; [apply noerr_arith|intros]).
  apply noerr_mapM. intros k. repeat (apply noerr_bind; [apply noerr_arith|intros]). case_match; [|done].
  by apply noerr_bind; [apply noerr_arith|].
Qed.
Lemma noerr_pop v rq : noerr (pop_while v rq).
Proof.
  revert v. induction rq as [|b rq IH]; intros v; [done|]. cbn [pop_while]. apply noerr_bind; [intros e; apply safe_get_no_err|].
  intros [has v']. destruct has; [|done]. apply noerr_bind; [apply IH|]. by intros [[??]?].
Qed.
Lemma noerr_copy v q : noerr (copy_blocks v q).
Proof.
  revert v. induction q as [|b q IH]; intros v; [done|]. cbn [copy_blocks]. apply noerr_bind; [intros e; apply safe_get_no_err|].
  intros [has v']. apply noerr_bind; [apply IH|done].
Qed.
Lemma mapM_outcome_inv {E A B} (f : A → outcome E B) l ys :
  mapM_outcome f l = Ok ys → ∀ x, x ∈ l → ∃ y, f x = Ok y ∧ y ∈ ys.
Proof.
  revert ys. induction l as [|a l IH]; intros ys Hy x Hx; [by apply elem_of_nil in Hx|].
  cbn [mapM_outcome] in Hy. apply bind_ok in Hy as (y & Hfa & Hy). apply bind_ok in Hy as (ys' & Hl & Hy). injection Hy as <-.
  apply elem_of_cons in Hx as [->|Hx]; [exists y; split; [done|left]|].
  destruct (IH ys' Hl x Hx) as (z & Hz & Hin). exists z. split; [done|by right].
Qed.
Lemma pop_while_parts v rq popped rest v' : pop_while v rq = Ok (popped, rest, v') → popped ++ rest = rq.
Proof.
  revert v popped rest v'. induction rq as [|b rq IH]; intros v popped rest v' Hp; cbn [pop_while] in Hp; [by injection Hp as <- <- _|].
  apply bind_ok in Hp as ([has v1] & _ & Hp). destruct has; [|by injection Hp as <- <- _].
  apply bind_ok in Hp as ([[po re] v2] & Hrec & Hp). injection Hp as <- <- _. simpl. by rewrite (IH _ _ _ _ Hrec).
Qed.

(** The blocks of the queue stay there or are in the answer, as are those of the
    pieces asked for. *)
Lemma request_blocks_shares n ps v s r s' t :
  request_blocks h n ps v s = (r, s') → r ≠ Panic → d_torrents (disk s) !! h = Some t →
  ∃ l t', r = Ok l ∧ d_torrents (disk s') !! h = Some t' ∧ torrent_cache t' = torrent_cache t ∧
    (∀ b, b ∈ td_queue t → b ∈ td_queue t' ∨ b ∈ l) ∧
    ∀ p, p ∈ ps → ∃ bs, @get_block_infos_of_piece _ Error (tc_total_size (torrent_cache t)) (tc_piece_length (torrent_cache t)) p = Ok bs ∧
      ∀ b, b ∈ bs → b ∈ l.
Proof.
  intros Hs Hr Ht. unfold request_blocks in Hs. rewrite bind_action in Hs. unfold torrent_data at 1 in Hs. rewrite Ht in Hs.
  cbn [ok_or] in Hs. rewrite bind_action in Hs. unfold lift at 1 in Hs.
  destruct (umul _ _) as [cap|e|] eqn:Hcap in Hs; [|by apply arith_no_err in Hcap|by injection Hs as <- _].
  rewrite bind_action in Hs. unfold lift at 1 in Hs.
  destruct (mapM_outcome _ ps) as [blocks|e|] eqn:Hblocks in Hs;
    [|by apply (noerr_mapM _ _ (noerr_block_infos _ _)) in Hblocks|by injection Hs as <- _].
  rewrite bind_action in Hs. match type of Hs with match ?m s with _ => _ end = _ => set (taking := m) in Hs end.
  assert (∀ r1 s1, taking s = (r1, s1) → r1 ≠ Panic → ∃ queued t1, r1 = Ok queued ∧ d_torrents (disk s1) !! h = Some t1 ∧
    torrent_cache t1 = torrent_cache t ∧ ∀ b, b ∈ td_queue t → b ∈ td_queue t1 ∨ b ∈ queued) as Htaking.
  { intros r1 s1 H1 Hn. unfold taking in H1. destruct (endgame t).
    - unfold lift in H1. injection H1 as <- <-. destruct (copy_blocks v (td_queue t)) as [q|e|] eqn:Hc; [|by apply noerr_copy in Hc|done].
      exists q, t. split_and!; [done..|by auto].
    - rewrite bind_action in H1. unfold lift at 1 in H1.
      destruct (pop_while v (reverse (td_queue t))) as [[[popped rest] v']|e|] eqn:Hp;
        [|by apply noerr_pop in Hp|by injection H1 as <- _].
      apply pop_while_parts in Hp. rewrite bind_action in H1. unfold torrent_data_mut, torrent_data in H1.
      rewrite bind_action, Ht in H1. cbn [ok_or] in H1. injection H1 as <- <-. eexists _, _. split; [done|]. simpl.
      rewrite lookup_insert_eq. split_and!; [done..|]. intros b Hb. simpl.
      assert (b ∈ popped ++ rest) as Hpr by (rewrite Hp; by apply elem_of_reverse).
      apply elem_of_app in Hpr as [?|?]; [by right|left; by apply elem_of_reverse]. }
  destruct (taking s) as [r1 s1] eqn:H1.
  destruct (Htaking r1 s1 eq_refl) as (queued & t1 & -> & Ht1 & Hc1 & Hq1); [by intros ->; injection Hs as <- _|].
  rewrite bind_action in Hs. set (result := concat blocks ++ queued) in *.
  assert (∀ s2, grows s1 s2 → (Ok result, s2) = (r, s') → ∃ l t', r = Ok l ∧ d_torrents (disk s') !! h = Some t' ∧
    torrent_cache t' = torrent_cache t ∧ (∀ b, b ∈ td_queue t → b ∈ td_queue t' ∨ b ∈ l) ∧
    ∀ p, p ∈ ps → ∃ bs, @get_block_infos_of_piece _ Error (tc_total_size (torrent_cache t)) (tc_piece_length (torrent_cache t)) p = Ok bs ∧
      ∀ b, b ∈ bs → b ∈ l) as Hend.
  { intros s2 Hg [= <- <-]. destruct (Hg t1 Ht1) as (t2 & Ht2 & Hc2 & Hq2). exists result, t2. split_and!; [done|done|congruence| |].
    - intros b Hb. destruct (Hq1 b Hb) as [?|?]; [left; by apply Hq2|right; apply elem_of_app; by right].
    - intros p Hp. destruct (mapM_outcome_inv _ _ _ Hblocks p Hp) as (bs & Hbs & Hin). exists bs. split; [done|].
      intros b Hb. apply elem_of_app. left. apply list_elem_of_In, in_concat. exists bs. by rewrite <- !list_elem_of_In. }
  destruct (_ && _).
  - assert (keeps grows (catch tt (enter_endgame h))) as Hk by (unfold enter_endgame; keepd).
    destruct (catch tt (enter_endgame h) s1) as [r2 s2] eqn:H2.
    destruct r2 as [[]|e|]; [|unfold catch in H2; by repeat case_match|by injection Hs as <- _].
    by apply (Hend s2); [eapply Hk|].
  - by apply (Hend s1).
Qed.
End disk.

(** ** Peers *)
Section peer.
Context `{Build, BV : BitVecApi, BendyApi}.
Implicit Types (p : Peer) (env : Env) (X W : list BlockInfo).

(** What a peer says when the blocks [W] were written: only those are cancelled,
    no blocks are asked for, and the disk is asked to read, to write and for
    metadata. *)
Definition fine W (e : Effect) : Prop :=
  match e with
  | Peer.ToDisk m => match m with ReadBlock _ _ | WriteBlock _ _ | RequestMetadata _ _ _ => True | _ => False end
  | ToTorrent (MCancel _ b) | ToMailbox (PmCancel b) => b ∈ W
  | ToTorrent (MRequest _ _) => False
  | _ => True
  end.
Lemma fine_mono W W' e : W ⊆ W' → fine W e → fine W' e.
Proof. intros HW. destruct e as [| |m| | |m|]; try done; destruct m; try done; apply HW. Qed.
(** All it says is fine, and all it has was written, but for [X]. *)
Definition speaks X : relation Peer := fun p p' =>
  ∃ l, effects p' = effects p ++ l ∧ Forall (fine (X ++ written l)) l ∧
    ∀ b, b ∈ fulfilled_index (req_man_block p') → b ∈ fulfilled_index (req_man_block p) ∨ b ∈ X ++ written l.
#[export] Instance speaks_preorder X : PreOrder (speaks X).
Proof.
  split.
  - intros p. exists []. rewrite !app_nil_r. split_and!; [done|done|by auto].
  - intros p1 p2 p3 (l1 & He1 & Hl1 & Hf1) (l2 & He2 & Hl2 & Hf2). exists (l1 ++ l2).
    unfold written in *. rewrite omap_app. split; [by rewrite He2, He1, app_assoc|]. split.
    + apply Forall_app. split; [eapply Forall_impl; [exact Hl1|]|eapply Forall_impl; [exact Hl2|]];
        intros e; apply fine_mono; set_solver.
    + intros b Hb. destruct (Hf2 b Hb) as [Hb2|]; [|set_solver]. destruct (Hf1 b Hb2); set_solver.
Qed.
Lemma speaks_same X p p' :
  effects p' = effects p → fulfilled_index (req_man_block p') ⊆ fulfilled_index (req_man_block p) → speaks X p p'.
Proof. intros He Hf. exists []. rewrite app_nil_r. split_and!; [done|done|by auto]. Qed.
Lemma speaks_perform X e : fine X e → keeps (speaks X) (perform e).
Proof.
  intros He. apply keeps_modifyS. intros p. exists [e]. split; [done|]. split; [|by auto].
  constructor; [|done]. eapply fine_mono; [|done]. set_solver.
Qed.
Lemma speaks_tell_if X ok err e : fine X e → keeps (speaks X) (tell_if ok err e).
Proof. intros He. unfold tell_if. destruct ok; [by apply speaks_perform|apply keeps_lift; apply _]. Qed.
Lemma speaks_update_shared X f : keeps (speaks X) (update_shared f).
Proof. apply keeps_modifyS. intros p. by apply speaks_same. Qed.
#[local] Hint Extern 1 (keeps (speaks _) (perform _)) => (apply speaks_perform; first [exact I | done]) : keeps.
#[local] Hint Extern 1 (keeps (speaks _) (tell_if _ _ _)) => (apply speaks_tell_if; first [exact I | done]) : keeps.
#[local] Hint Resolve speaks_update_shared : keeps.
Ltac keeps_speaking := keep ltac:(by apply speaks_same).

(** An operation of the request manager of blocks *)
Lemma speaks_on_blocks {A} X (f : _ → outcome Error (A * _)) :
  (∀ r a m, f r = Ok (a, m) → ∀ b, b ∈ fulfilled_index m → b ∈ fulfilled_index r ∨ b ∈ X) → keeps (speaks X) (on_blocks f).
Proof.
  intros Hf p r p' Ho Hr. unfold on_blocks in Ho. rewrite bind_action in Ho. cbn [getS] in Ho.
  rewrite bind_action in Ho. cbn [lift] in Ho. destruct (f (req_man_block p)) as [[a m]|e|] eqn:Hm; injection Ho as <- <-; try done.
  exists []. rewrite !app_nil_r. split_and!; [done|done|]. intros b Hb. by eapply Hf.
Qed.
Lemma speaks_fulfill X env b : b ∈ X → keeps (speaks X) (on_blocks (fun r => fulfill_request (now env) r b)).
Proof.
  intros Hb. apply speaks_on_blocks. intros r a m Hf. rewrite (fulfill_grows _ _ _ _ _ Hf). set_solver.
Qed.
Lemma speaks_drain X : keeps (speaks X) (on_blocks (fun r => Ok (drain r))).
Proof. apply speaks_on_blocks. intros r a m [= _ <-]. by auto. Qed.
Lemma speaks_on_metas {A} X (f : _ → outcome Error (A * _)) : keeps (speaks X) (on_metas f).
Proof. unfold on_metas. keeps_speaking. Qed.
#[local] Hint Resolve speaks_drain speaks_on_metas : keeps.

Lemma speaks_store_len X : keeps (speaks X) store_len.
Proof. unfold store_len. keeps_speaking. Qed.
Lemma speaks_sink_send X env m : keeps (speaks X) (sink_send env m).
Proof. unfold sink_send, sink_feed. keeps_speaking. Qed.
Lemma speaks_feed X env m : keeps (speaks X) (feed env m).
Proof. unfold feed, sink_feed. keeps_speaking. Qed.
#[local] Hint Resolve speaks_store_len speaks_sink_send speaks_feed : keeps.
Lemma speaks_send X env m : keeps (speaks X) (Peer.send env m).
Proof. unfold Peer.send. keeps_speaking. Qed.
Lemma speaks_await {A} X (o : option A) : keeps (speaks X) (await o).
Proof. apply keeps_lift, _. Qed.
#[local] Hint Resolve speaks_send speaks_await : keeps.
Lemma speaks_free X : keeps (speaks X) free_pending_blocks.
Proof. unfold free_pending_blocks. keeps_speaking. Qed.
#[local] Hint Resolve speaks_free : keeps.
Lemma speaks_handle_block X env block : disk_ok env = true → keeps (speaks X) (handle_block env block).
Proof.
  intros Hd p r p' Hh Hr. set (b := BlockInfo_from block).
  assert (keeps (speaks (X ++ [b])) (handle_block env block)) as Hk.
  { unfold handle_block. pose proof (speaks_fulfill (X ++ [b]) env b ltac:(set_solver)).
    assert (fine (X ++ [b]) (ToTorrent (MCancel (ctx p) b))) by (simpl; set_solver). keeps_speaking; intros; apply speaks_perform; simpl; set_solver. }
  destruct (Hk p r p' Hh Hr) as (l & He & Hl & Hf).
  assert (b ∈ written l ∨ p' = set_snubbed false p) as [Hb| ->]; [|exists l|by apply speaks_same].
  - destruct (was_fulfilled (req_man_block p) b) eqn:Hw.
    { right. unfold handle_block in Hh. rewrite bind_action in Hh. unfold modifyS at 1 in Hh. rewrite bind_action in Hh.
      cbn [getS] in Hh. change (req_man_block (set_snubbed false p)) with (req_man_block p) in Hh. fold b in Hh. rewrite Hw in Hh.
      by injection Hh as _ <-. }
    destruct (@fulfill_request _ _ _ Error (now env) (req_man_block p) b) as [[a m]|e|] eqn:Hfr;
      try (right; rewrite (handle_block_fails env p block _ Hw Hfr) in Hh by done; by injection Hh as _ <-).
    left. destruct (handle_block_new env p block a m Hw Hfr) as (p1 & Hh1 & _ & _ & Hw1).
    rewrite Hh in Hh1. injection Hh1 as -> ->. unfold written in *. rewrite He, omap_app, Hd in Hw1. apply app_inv_head in Hw1.
    rewrite Hw1. by left.
  - assert (X ++ [b] ++ written l ⊆ X ++ written l) as Hx by set_solver. rewrite <- app_assoc in *. split; [done|]. split.
    + eapply Forall_impl; [exact Hl|]. intros e. by apply fine_mono.
    + intros c Hc. destruct (Hf c Hc); [by left|right; by apply Hx].
Qed.
#[local] Hint Resolve speaks_handle_block : keeps.
Lemma speaks_handle_core X env m : disk_ok env = true → keeps (speaks X) (handle_core env m).
Proof. intros Hd. unfold handle_core, tell_torrent, tell_disk. keeps_speaking. Qed.
Lemma speaks_handle_metadata X env m : keeps (speaks X) (handle_metadata env m).
Proof. unfold handle_metadata, tell_torrent. keeps_speaking. Qed.
Lemma speaks_handle_extension X env m : keeps (speaks X) (handle_extension env m).
Proof. unfold handle_extension, handle_ext. keeps_speaking. Qed.
#[local] Hint Resolve speaks_handle_core speaks_handle_metadata speaks_handle_extension : keeps.
Lemma speaks_handle_message X env m : disk_ok env = true → keeps (speaks X) (handle_message env m).
Proof. intros Hd. unfold handle_message. keeps_speaking. Qed.
#[local] Hint Resolve speaks_handle_message : keeps.
Lemma speaks_request_metadata X env : keeps (speaks X) (Peer.request_metadata env).
Proof. unfold Peer.request_metadata, request_metadata_piece, tell_disk. keeps_speaking. Qed.
Lemma speaks_interested X env : keeps (speaks X) (Peer.interested env).
Proof. unfold Peer.interested, tell_torrent. keeps_speaking. Qed.
Lemma speaks_anti_snubbing X env : keeps (speaks X) (anti_snubbing env).
Proof. unfold anti_snubbing. keeps_speaking. Qed.
Lemma speaks_seed_only X env : keeps (speaks X) (enter_seed_only env).
Proof. unfold enter_seed_only, tell_mailbox. keep ltac:(apply speaks_same; simpl; set_solver). Qed.
#[local] Hint Resolve speaks_request_metadata speaks_interested speaks_anti_snubbing speaks_seed_only : keeps.
Lemma speaks_broadcast X env m : keeps (speaks X) (handle_broadcast env m).
Proof. unfold handle_broadcast, go_on, tell_mailbox. keeps_speaking. Qed.
(** The blocks of cancellations come from the torrent. *)
Definition cancelled (ev : PeerEvent) : list BlockInfo := match ev with EvMail (PmCancel b) => [b] | _ => [] end.
Lemma speaks_step env ev : disk_ok env = true → asks_blocks ev = false → keeps (speaks (cancelled ev)) (peer_step env ev).
Proof.
  intros Hd Hq. destruct ev as [m| | | | | |m|m]; try done; cbn [peer_step]; try apply speaks_broadcast; unfold go_on; try by keeps_speaking.
  apply keeps_bind; [apply _| |intros; apply keeps_ret, _]. destruct m; try done; unfold handle_mail;
    try by keep ltac:(apply speaks_same; simpl; set_solver).
  pose proof (speaks_fulfill [b] env b ltac:(set_solver)). cbn [cancelled]. keeps_speaking.
Qed.

(** *** Turns *)

(** The effects [l] lead from [p] to [p'] in a turn that is handed the
    cancellations [X]. *)
Record turn X (l : list Effect) (p p' : Peer) : Prop := {
  turn_effects : effects p' = effects p ++ l;
  turn_sound : rm_sound (req_man_block p');
  turn_hash : p_info_hash p' = p_info_hash p;
  turn_fine : Forall (fine (X ++ written l)) l;
  turn_mine : Forall (mine (p_info_hash p)) (frees l);
  turn_fulfilled b : b ∈ fulfilled_index (req_man_block p') → b ∈ fulfilled_index (req_man_block p) ∨ b ∈ X ++ written l;
  turn_pending b : b ∈ pending (req_man_block p) →
    b ∈ pending (req_man_block p') ∨ b ∈ back l ∨ b ∈ fulfilled_index (req_man_block p) ∨ b ∈ X ++ written l;
}.
Lemma turn_trans X l k p1 p2 p3 : turn X l p1 p2 → turn X k p2 p3 → turn X (l ++ k) p1 p3.
Proof.
  intros [He1 Hs1 Hh1 Hl1 Hm1 Hf1 Hp1] [He2 Hs2 Hh2 Hl2 Hm2 Hf2 Hp2].
  assert (written (l ++ k) = written l ++ written k) as Hw by apply omap_app. split; rewrite ?Hw; try done.
  - by rewrite He2, He1, app_assoc.
  - congruence.
  - apply Forall_app. split; (eapply Forall_impl; [eassumption|]); intros e; apply fine_mono; set_solver.
  - rewrite frees_app. apply Forall_app. split; [done|]. by rewrite <- Hh1.
  - intros b Hb. destruct (Hf2 b Hb) as [Hb2|]; [|set_solver]. destruct (Hf1 b Hb2); set_solver.
  - intros b Hb. rewrite back_app, (elem_of_app (back l)). destruct (Hp1 b Hb) as [Hx|[|[|]]]; [|set_solver..].
    destruct (Hp2 b Hx) as [|[|[Hy|]]]; [set_solver..| |set_solver]. destruct (Hf1 b Hy); set_solver.
Qed.
(** A turn that speaks and accounts for its blocks *)
Lemma turn_of X l p p' :
  speaks X p p' → accounted l p p' → turn X l p p'.
Proof.
  intros (l' & He' & Hl & Hf) [Hs He _ Hh Hp _ Hm]. rewrite He in He'. apply app_inv_head in He' as <-.
  split; try done. intros b Hb. destruct (Hh b ltac:(by right)) as [[Hx|]|]; [|by auto..].
  destruct (Hf b Hx); auto.
Qed.
(** Blocks of a corrupted piece are no longer taken as written. *)
Lemma corrupted_turn env i n m p r p' :
  handle_mail env (PmCorruptedPiece i n m) p = (r, p') → r ≠ Panic → rm_sound (req_man_block p) → turn [] [] p p'.
Proof.
  set (R := fun p p' => effects p' = effects p ∧ p_info_hash p' = p_info_hash p ∧
    pending (req_man_block p') = pending (req_man_block p) ∧ fulfilled_index (req_man_block p') ⊆ fulfilled_index (req_man_block p) ∧
    (rm_sound (req_man_block p) → rm_sound (req_man_block p'))).
  assert (PreOrder R) by (split; [done|]; intros ? ? ? (? & ? & ? & ? & ?) (? & ? & ? & ? & ?); unfold R;
    split_and!; [congruence..|set_solver|auto]).
  intros Hh Hr Hs. assert (keeps R (handle_mail env (PmCorruptedPiece i n m))) as Hk.
  { unfold handle_mail. keep ltac:(idtac). unfold R, pending. simpl. split_and!; [done..|set_solver|].
    intros Hs1 x k Hx. cbn in Hx. apply lookup_delete_Some in Hx as [_ Hx]. by apply Hs1. }
  destruct (Hk p r p' Hh Hr) as (He & Hi & Hp & Hf & Hs'). split; try done; [by rewrite app_nil_r|by auto|by auto|rewrite Hp; by auto].
Qed.
(** A turn that asks for no blocks *)
Lemma step_turn env ev p r p' :
  disk_ok env = true → asks_blocks ev = false → ev ≠ EvBroadcast Seedonly → peer_step env ev p = (r, p') → r ≠ Panic →
  rm_sound (req_man_block p) → ∃ l, turn (cancelled ev) l p p'.
Proof.
  intros Hd Hq Hseed Hp Hr Hs.
  assert ((∃ i n m, ev = EvMail (PmCorruptedPiece i n m)) ∨ ∀ i n m, ev ≠ EvMail (PmCorruptedPiece i n m)) as [(i & n & m & ->)|Hc].
  { destruct ev as [| | | | | | |[]]; try (by right). left. eauto. }
  { cbn [peer_step] in Hp. apply go_on_state in Hp as (r' & Hp & Hn). exists []. eapply corrupted_turn; [exact Hp| |done].
    intros ->. by apply Hr, Hn. }
  destruct (step_account env ev p r p') as (k & Hk & _); [|done..|].
  - destruct ev as [| | | | | |[]|[]]; try done. by edestruct Hc.
  - exists k. apply turn_of; [|done]. by eapply speaks_step.
Qed.
Lemma free_turn X p :
  ∃ p' l, free_pending_blocks p = (Ok tt, p') ∧ turn X l p p' ∧ pending (req_man_block p') = [].
Proof.
  destruct (free_gives p) as (p' & l & Hp & Hl & _ & Hn & _). exists p', l. split_and!; [done| |done].
  apply turn_of; [by eapply speaks_free|done].
Qed.
(** What goes to the socket *)
Definition wire (e : Effect) : Prop := match e with Sink _ | Flush => True | _ => False end.
Definition writes : relation Peer := fun p p' => ∃ l, effects p' = effects p ++ l ∧ Forall wire l.
#[local] Instance writes_preorder : PreOrder writes.
Proof.
  split; [intros p; exists []; by rewrite app_nil_r|]. intros p1 p2 p3 (l1 & He1 & Hl1) (l2 & He2 & Hl2).
  exists (l1 ++ l2). rewrite He2, He1, app_assoc. split; [done|by apply Forall_app].
Qed.
Lemma writes_same p p' : effects p' = effects p → writes p p'.
Proof. intros He. exists []. by rewrite app_nil_r. Qed.
Lemma writes_perform e : wire e → keeps writes (perform e).
Proof. intros He. apply keeps_modifyS. intros p. exists [e]. split; [done|by constructor]. Qed.
Lemma writes_request_block env b : keeps writes (request_block env b).
Proof.
  unfold request_block, feed, sink_feed, tell_if, update_shared, on_blocks.
  keep ltac:(by apply writes_same); intros; by apply writes_perform.
Qed.
#[local] Hint Resolve writes_request_block : keeps.
Definition same_hash : relation Peer := fun p p' => p_info_hash p' = p_info_hash p.
#[local] Instance same_hash_preorder : PreOrder same_hash.
Proof. unfold same_hash. split; [done|]. intros p1 p2 p3 -> ->. done. Qed.
(** What a peer asks with comes first, the rest goes to the socket. *)
Lemma requests_wire env p r p' :
  request_block_infos env p = (r, p') → r ≠ Panic → ∃ k, effects p' = effects p ++ k ∧ Forall wire (tail k).
Proof.
  unfold request_block_infos. rewrite bind_action. cbn [getS]. rewrite bind_action. unfold tell_torrent, tell_if.
  destruct (torrent_ok env); [|intros [= _ <-] _; exists []; by rewrite app_nil_r]. unfold perform at 1, modifyS at 1. intros Hp Hr.
  match type of Hp with ?m ?q = _ => assert (keeps writes m) as Hk end.
  { unfold store_len, on_blocks. keep ltac:(by apply writes_same); intros; by apply writes_perform. }
  destruct (Hk _ _ _ Hp Hr) as (l & He & Hl). eexists (_ :: l). split; [|exact Hl]. rewrite He. simpl. by rewrite <- app_assoc.
Qed.
(** A peer whose torrent is there asks first, whatever comes of it. *)
Lemma requests_asks env p r p' :
  torrent_ok env = true → request_block_infos env p = (r, p') → r ≠ Panic →
  ∃ e k, effects p' = effects p ++ e :: k ∧ Forall wire k ∧ p_info_hash p' = p_info_hash p.
Proof.
  unfold request_block_infos. rewrite bind_action. cbn [getS]. rewrite bind_action. unfold tell_torrent, tell_if.
  intros ->. unfold perform at 1, modifyS at 1. intros Hp Hr.
  match type of Hp with ?m ?q = _ => assert (keeps writes m) as Hk; [|assert (keeps same_hash m) as Hh] end.
  { unfold store_len, on_blocks. keep ltac:(by apply writes_same); intros; by apply writes_perform. }
  { unfold store_len, on_blocks, request_block, feed, sink_feed, tell_if, update_shared, on_blocks, perform. keep ltac:(done). }
  destruct (Hk _ _ _ Hp Hr) as (l & He & Hl). eexists _, l. split; [|split; [exact Hl|exact (Hh _ _ _ Hp Hr)]].
  rewrite He. simpl. by rewrite <- app_assoc.
Qed.
(** A peer goes on with the blocks it was answered. *)
Lemma requests_turn env p p' :
  served env → sink_ok env = true → request_block_infos env p = (Ok tt, p') → rm_sound (req_man_block p) →
  ∃ k, effects p' = effects p ++ k ∧ Forall wire (tail k) ∧ rm_sound (req_man_block p') ∧ p_info_hash p' = p_info_hash p ∧
    fulfilled_index (req_man_block p') = fulfilled_index (req_man_block p) ∧
    ∀ b, b ∈ pending (req_man_block p) ∨ b ∈ answered env →
      b ∈ pending (req_man_block p') ∨ b ∈ fulfilled_index (req_man_block p).
Proof.
  intros [Ht _] Hok Hp Hs. destruct (requests_account env p _ _ Hok Hp) as (k & Hk & Hb & Ha & Hf); [done|done|].
  destruct (requests_wire env p _ _ Hp) as (k' & He' & Hw); [done|]. rewrite (acc_effects _ _ _ Hk) in He'. apply app_inv_head in He' as <-.
  exists k. destruct Hk as [Hs' He _ Hh Hh' _ _]. split_and!; try done.
  intros b Hx. assert (held b p') as [Hy|]; [|by rewrite Hf in Hy; auto|by auto]. destruct Hx as [Hx|Hx]; [|by apply Ha].
  destruct (Hh b ltac:(by right)) as [|Hn]; [done|]. rewrite Hb in Hn. by apply elem_of_nil in Hn.
Qed.
Lemma wire_fine W l : Forall wire l → Forall (fine W) l ∧ frees l = [] ∧ written l = [].
Proof. induction 1 as [|[] l He _ (IH1 & IH2 & IH3)]; try done; (split; [by constructor|done]). Qed.
End peer.
