(* ===== verification/SystemAnswers.v ===== *)
(** Every request for blocks is answered to the peer that waits for it: while no
    peer gives up waiting, no answer is lost ([tokio::sync::oneshot] in
    [peer/mod.rs], [request_block_infos]). *)
From S2P Require Import Prelude Buffers Errors Bits Core Bencode Metainfo Disk Floats Counter RequestManager RequestManagerFacts.
From S2P Require Import Torrent TorrentFacts Handshake MetadataMsg Peer PeerFacts PeerTasks System SystemFacts.

Section answers.
Context `{Build, Sha1Api, BV : BitVecApi, BendyApi}.
Variable h : InfoHash.
Implicit Types (s : System) (i k : N).

(** The peer [i] waits for an answer on [k]. *)
Definition asks s i k : Prop := ∃ t, sy_peers s !! i = Some t ∧ pk_asked t = Some k.
(** The channels on their way *)
Definition channels s : list N := omap snd (to_torrent s) ++ omap snd (to_disk s) ++ (map_to_list (sy_answers s)).*1.
(** Messages that ask for blocks go with a channel, others without. *)
Definition torrent_channel (m : TorrentMsg * option N) : Prop := match m.1 with MRequest _ _ => is_Some m.2 | _ => m.2 = None end.
Definition disk_channel (m : DiskMsg * option N) : Prop := match m.1 with RequestBlocks _ _ _ _ => is_Some m.2 | _ => m.2 = None end.
Record answering s : Prop := {
  ans_torrent : Forall torrent_channel (to_torrent s);
  ans_disk : Forall disk_channel (to_disk s);
  ans_nodup : NoDup (channels s);
  ans_asked k : k ∈ channels s → ∃ i, asks s i k;
  ans_fresh i k : asks s i k → (k < sy_next s)%N;
  ans_alone i j k : asks s i k → asks s j k → i = j;
  ans_lost : sy_lost s = [];
}.
Definition answers s : Prop := sy_gave_up s = [] → answering s.

(** No new channel, and the same peers wait. *)
Lemma answering_step s s' :
  (∀ i k, asks s' i k ↔ asks s i k) → channels s' ⊆+ channels s → Forall torrent_channel (to_torrent s') →
  Forall disk_channel (to_disk s') → sy_next s' = sy_next s → sy_lost s' = sy_lost s → answering s → answering s'.
Proof.
  intros Ha Hc Ht Hd Hn Hl [_ _ Hnd Hask Hf Hal Hlost]. apply submseteq_Permutation in Hc as [k0 Hc]. split; try done.
  - rewrite Hc in Hnd. by apply NoDup_app in Hnd as [? _].
  - intros k Hk. destruct (Hask k) as [i Hi]; [rewrite Hc; set_solver|]. exists i. by apply Ha.
  - intros i k Hk. rewrite Hn. by eapply Hf, Ha.
  - intros i j k Hi Hj. eapply Hal; by apply Ha.
  - congruence.
Qed.
(** An answer is delivered: its channel was on its way in [s]. *)
Lemma answering_deliver s s0 k r :
  (∀ i k, asks s0 i k ↔ asks s i k) → channels s ≡ₚ k :: channels s0 → Forall torrent_channel (to_torrent s0) →
  Forall disk_channel (to_disk s0) → sy_next s0 = sy_next s → sy_lost s0 = sy_lost s → answering s →
  answering (deliver (Some k) r s0).
Proof.
  intros Ha Hc Ht Hd Hn Hl Hs. pose proof (ans_nodup _ Hs) as Hnd. rewrite Hc in Hnd. apply NoDup_cons in Hnd as [Hk _].
  assert (sy_answers s0 !! k = None) as Hnone.
  { destruct (sy_answers s0 !! k) as [x|] eqn:Hx; [|done]. destruct Hk. unfold channels. do 2 (apply elem_of_app; right).
    apply list_elem_of_fmap. exists (k, x). split; [done|]. by apply elem_of_map_to_list. }
  destruct (ans_asked _ Hs k) as [i Hi]; [rewrite Hc; by left|]. apply Ha in Hi.
  unfold deliver. rewrite decide_True by (split; [exact (ex_intro _ i Hi)|done]).
  apply (answering_step s); try done. rewrite Hc. unfold channels. simpl.
  rewrite map_to_list_insert by done. simpl. apply Permutation_submseteq. solve_Permutation.
Qed.
Lemma asks_mail i m s j k : asks (mail_to i m s) j k ↔ asks s j k.
Proof.
  unfold asks. simpl. destruct (decide (j = i)) as [->|Hne]; [|by rewrite lookup_alter_ne].
  rewrite lookup_alter_eq. destruct (sy_peers s !! i) as [t|]; simpl; [|done]. naive_solver.
Qed.
Lemma omap_snoc {A B} (f : A → option B) l x : f x = None → omap f (l ++ [x]) = omap f l.
Proof. intros Hx. rewrite omap_app. simpl. by rewrite Hx, app_nil_r. Qed.
Lemma answering_effect W i s e : fine W e → answering s → answering (route_effect i s e).
Proof.
  intros He Hs. destruct e as [m| |m|m|m|m|l]; try done; apply (answering_step s); try done; try apply Hs.
  - unfold channels. simpl. by rewrite omap_snoc.
  - simpl. apply Forall_app. split; [apply Hs|]. constructor; [|done]. by destruct m.
  - unfold channels. simpl. by rewrite omap_snoc.
  - simpl. apply Forall_app. split; [apply Hs|]. constructor; [|done]. by destruct m.
  - apply asks_mail.
Qed.
Lemma answering_effects W i l s : Forall (fine W) l → answering s → answering (route_effects i l s).
Proof. intros Hl. revert s. induction Hl as [|e l He _ IH]; intros s Hs; [done|]. by eapply IH, answering_effect. Qed.
(** What the torrent sends when it handles no request *)
Lemma answering_out h' m s o :
  tells h' m o → match m with MRequest _ _ => False | _ => True end → answering s → answering (route_out None s o).
Proof.
  intros Ho Hm Hs. destruct o as [q m'| | |m'| | |[l| | | | | | |]]; try done; try (by destruct m); apply (answering_step s); try done; try apply Hs.
  - apply asks_mail.
  - unfold channels. simpl. by rewrite omap_snoc.
  - simpl. apply Forall_app. split; [apply Hs|]. constructor; [|done]. destruct m', m; try done; by destruct Ho.
Qed.
Lemma answering_outs h' m l s :
  Forall (tells h' m) l → match m with MRequest _ _ => False | _ => True end → answering s → answering (route_outs None l s).
Proof. intros Hl Hm. revert s. induction Hl as [|o l Ho _ IH]; intros s Hs; [done|]. by eapply IH, answering_out. Qed.

(** ** Steps *)

Lemma gave_up_fold {A} (f : System → A → System) l s :
  (∀ s a, sy_gave_up (f s a) = sy_gave_up s) → sy_gave_up (foldl f s l) = sy_gave_up s.
Proof. intros Hf. revert s. induction l as [|a l IH]; intros s; [done|]. simpl. by rewrite IH, Hf. Qed.
Lemma gave_up_deliver (k : option N) r s : sy_gave_up (deliver k r s) = sy_gave_up s.
Proof. unfold deliver. by repeat case_match. Qed.
Lemma gave_up_effects i l s : sy_gave_up (route_effects i l s) = sy_gave_up s.
Proof. apply gave_up_fold. by intros s' []. Qed.
Lemma gave_up_outs (k : option N) l s : sy_gave_up (route_outs k l s) = sy_gave_up s.
Proof. apply gave_up_fold. intros s' [| | | | | |[]]; try done. apply gave_up_deliver. Qed.
Lemma answers_step s s' : sy_gave_up s' = sy_gave_up s → (answering s → answering s') → answers s → answers s'.
Proof. unfold answers. intros ->. auto. Qed.

Lemma answering_torrent s pick info m (k : option N) l l' w :
  to_torrent s = l ++ (m, k) :: l' → handle_metainfo pick info m (sy_torrent s) = (Ok Continue, w) → answering s →
  answering (route_outs k (since (out (sy_torrent s)) (out w)) (with_sy_torrent w (with_boxes (l ++ l') (to_disk s) (to_free s) s))).
Proof.
  intros Hbox Hm Hs. set (s0 := with_sy_torrent _ _).
  pose proof (ans_torrent _ Hs) as Ht. rewrite Hbox in Ht. apply Forall_app in Ht as [Hl Hl']. apply Forall_cons in Hl' as [Hk Hl'].
  assert (Forall torrent_channel (to_torrent s0)) as Ht0 by by apply Forall_app.
  assert (m = m ∧ ((∃ p n, m = MRequest p n) ∨ match m with MRequest _ _ => False | _ => True end)) as [_ [(p & n & ->)|Hn]]
    by (split; [done|]; destruct m; eauto).
  - destruct Hk as [k0 Hk0]. simpl in Hk0. subst k.
    assert (channels s ≡ₚ k0 :: channels s0) as Hch.
    { unfold channels, s0. simpl. rewrite Hbox, !omap_app. simpl. solve_Permutation. }
    destruct (request_passed _ _ _ _ _ _ Hm) as [Ho|(h' & x & ps & v & Ho)]; unfold since; rewrite Ho, drop_app_length; cbn [route_outs foldl route_out].
    + apply (answering_deliver s); try done. apply Hs.
    + apply (answering_step s); try done; [|simpl; apply Forall_app; split; [apply Hs|]; constructor; [by eexists|done]].
      apply Permutation_submseteq. rewrite Hch. unfold channels. simpl. rewrite !omap_app. simpl. solve_Permutation.
  - assert (k = None) as -> by by destruct m.
    destruct (handle_metainfo_emits (t_info_hash (torrent (sy_torrent s))) pick info m _ _ _ Hm) as [_ (new & Hnew & Hall)]; [done..|].
    unfold since. rewrite Hnew, drop_app_length. eapply answering_outs; [exact Hall|done|].
    apply (answering_step s); try done; [|apply Hs]. unfold channels. simpl. rewrite Hbox, !omap_app. simpl. done.
Qed.
(** Only requests for blocks are answered with blocks. *)
Definition returns {A} (P : A → Prop) (m : action DiskState Error A) : Prop := ∀ d a d', m d = (Ok a, d') → P a.
Lemma returns_bind {A B} (P : B → Prop) (m : action DiskState Error A) f : (∀ a, returns P (f a)) → returns P (m ≫= f).
Proof. intros Hf d b d' Hb. rewrite bind_action in Hb. destruct (m d) as [[a|e|] d1]; try done. by eapply Hf. Qed.
Lemma returns_ret {A} (P : A → Prop) a : P a → returns P (mret a).
Proof. by intros Ha d b d' [= <- _]. Qed.
Lemma reply_blocks hex now m :
  match m with RequestBlocks _ _ _ _ => False | _ => True end → returns (fun r => ∀ b, r ≠ BlocksReply b) (handle_disk_msg hex now m).
Proof.
  intros Hm. destruct m; try done; unfold handle_disk_msg; repeat (first [apply returns_bind; intros|apply returns_ret; done|case_match]).
Qed.
Lemma answering_disk s hex now n0 m (k : option N) l l' reply d :
  to_disk s = l ++ (m, k) :: l' → handle_disk_msg hex now (reads_len n0 m) (sy_disk s) = (Ok reply, d) → answering s →
  answering (route_reply k reply (route_sent h (since (sent (sy_disk s)) (sent d))
    (with_sy_disk d (with_boxes (to_torrent s) (l ++ l') (to_free s) s)))).
Proof.
  intros Hbox Hd Hs. set (s0 := with_sy_disk _ _). set (s1 := route_sent _ _ _).
  pose proof (ans_disk _ Hs) as Ht. rewrite Hbox in Ht. apply Forall_app in Ht as [Hl Hl']. apply Forall_cons in Hl' as [Hk Hl'].
  assert (omap snd (to_torrent s1) = omap snd (to_torrent s) ∧ Forall torrent_channel (to_torrent s1)) as [Hst Hft].
  { simpl. generalize (since (sent (sy_disk s)) (sent d)). intros new. split.
    - rewrite omap_app. trans (omap snd (to_torrent s) ++ []); [f_equal|by rewrite app_nil_r].
      induction new as [|[h' e] new IH]; [done|]. simpl. case_decide; [destruct e; exact IH|exact IH].
    - apply Forall_app. split; [apply Hs|]. induction new as [|[h' e] new IH]; [constructor|]. simpl. case_decide; [|done].
      destruct e; simpl; try (by constructor). done. }
  assert (Forall disk_channel (to_disk s1)) as Hd1 by by apply Forall_app.
  assert ((∃ h' n ps v, m = RequestBlocks h' n ps v) ∨ match m with RequestBlocks _ _ _ _ => False | _ => True end) as [(h' & n & ps & v & ->)|Hn]
    by (destruct m; eauto 6).
  - destruct Hk as [k0 Hk0]. simpl in Hk0. subst k. cbn [reads_len] in Hd. unfold handle_disk_msg in Hd. rewrite bind_action in Hd.
    destruct (result_of _ _) as [[r|e|] d'] in Hd; [|done..]. injection Hd as <- <-. cbn [route_reply].
    apply (answering_deliver s); try done. unfold channels. rewrite Hst. simpl. rewrite Hbox, !omap_app. simpl. solve_Permutation.
  - assert (k = None) as -> by by destruct m. assert (∀ r, reply ≠ BlocksReply r) as Hr.
    { assert (reads_len n0 m = m) as Hsame by by destruct m. rewrite Hsame in Hd. by eapply reply_blocks. }
    assert (route_reply None reply s1 = s1) as -> by (destruct reply; try done; by edestruct Hr).
    apply (answering_step s); try done. unfold channels. rewrite Hst. simpl. rewrite Hbox, !omap_app. simpl. done.
Qed.

(** Tasks that wait for nothing before and after *)
Lemma asks_task s i p mail j k :
  (∀ t, sy_peers s !! i = Some t → pk_asked t = None) → asks (set_task i p None mail s) j k ↔ asks s j k.
Proof.
  intros Hi. unfold asks. simpl. destruct (decide (j = i)) as [->|Hne]; [|by rewrite lookup_insert_ne].
  rewrite lookup_insert_eq. split; intros (t & Ht & Hk); [by injection Ht as <-|]. by rewrite (Hi t Ht) in Hk.
Qed.
Lemma asks_delete s i j k :
  (∀ t, sy_peers s !! i = Some t → pk_asked t = None) → asks (with_sy_peers (delete i) s) j k ↔ asks s j k.
Proof.
  intros Hi. unfold asks. simpl. destruct (decide (j = i)) as [->|Hne]; [|by rewrite lookup_delete_ne].
  rewrite lookup_delete_eq. split; intros (t & Ht & Hk); [done|]. by rewrite (Hi t Ht) in Hk.
Qed.
Lemma answering_task s i p mail :
  (∀ t, sy_peers s !! i = Some t → pk_asked t = None) → answering s → answering (set_task i p None mail s).
Proof. intros Hi Hs. apply (answering_step s); try done; try apply Hs. intros j k. by apply asks_task. Qed.
Lemma answering_turn W s i t p mail l :
  sy_peers s !! i = Some t → pk_asked t = None → Forall (fine W) l → answering s →
  answering (route_effects i l (set_task i p None mail s)).
Proof. intros Hi Ha Hl Hs. apply (answering_effects W); [done|]. apply answering_task; [|done]. intros t' Ht'. congruence. Qed.
Lemma effects_asked i l s j : pk_asked <$> sy_peers (route_effects i l s) !! j = pk_asked <$> sy_peers s !! j.
Proof.
  unfold route_effects. revert s. induction l as [|e l IH]; intros s; [done|]. simpl. rewrite IH. destruct e; try done. simpl.
  destruct (decide (j = i)) as [->|Hne]; [|by rewrite lookup_alter_ne]. rewrite lookup_alter_eq. by destruct (sy_peers s !! i).
Qed.
(** A peer asks, on a new channel. *)
Lemma answering_asks s i t p q n mail :
  sy_peers s !! i = Some t → pk_asked t = None → answering s →
  answering (with_boxes (to_torrent s ++ [(MRequest q n, Some (sy_next s))]) (to_disk s) (to_free s)
    (with_answers (sy_answers s) (sy_next s + 1) (sy_written s) (sy_lost s) (set_task i p (Some (sy_next s)) mail s))).
Proof.
  intros Hi Ha [Ht Hd Hnd Hask Hf Hal Hl]. set (s' := with_boxes _ _ _ _).
  assert (∀ j k, asks s' j k ↔ asks s j k ∨ j = i ∧ k = sy_next s) as Hasks.
  { intros j k. unfold asks. simpl. destruct (decide (j = i)) as [->|Hne].
    - rewrite lookup_insert_eq. split; [intros (t' & [= <-] & [= <-]); by right|]. intros [(t' & Ht' & Hk)|[_ ->]]; [congruence|by eexists].
    - rewrite lookup_insert_ne by done. naive_solver. }
  assert (channels s' ≡ₚ sy_next s :: channels s) as Hc.
  { unfold channels. simpl. rewrite omap_app. simpl. solve_Permutation. }
  split; try done.
  - simpl. apply Forall_app. split; [done|]. constructor; [by eexists|done].
  - rewrite Hc. constructor; [|done]. intros Hk. destruct (Hask _ Hk) as [j Hj]. apply Hf in Hj. lia.
  - intros k. rewrite Hc. intros [->|Hk]%elem_of_cons; [exists i; apply Hasks; by right|]. destruct (Hask k Hk) as [j Hj].
    exists j. apply Hasks. by left.
  - intros j k. rewrite Hasks. simpl. intros [Hj%Hf|[_ ->]]; lia.
  - intros j1 j2 k. rewrite !Hasks. intros [H1'|[-> ->]] [H2'|[-> H2']]; try done; [by eapply Hal|subst; apply Hf in H1'; lia|apply Hf in H2'; lia].
Qed.
(** It goes on with an answer. *)
Lemma answering_goes_on W s i t k p l g r :
  sy_peers s !! i = Some t → pk_asked t = Some k → sy_answers s !! k = Some r → Forall (fine W) l → answering s →
  answering (route_effects i l
    (with_answers (delete k (sy_answers s)) (sy_next s) (sy_written s) (sy_lost s) (with_gave_up g (set_task i p None (pk_mail t) s)))).
Proof.
  intros Hi Ha Hr Hl [Ht Hd Hnd Hask Hf Hal Hlost]. apply (answering_effects W); [done|]. set (s' := with_answers _ _ _ _ _).
  assert (∀ j k', asks s' j k' ↔ asks s j k' ∧ j ≠ i) as Hasks.
  { intros j k'. unfold asks. simpl. destruct (decide (j = i)) as [->|Hne].
    - rewrite lookup_insert_eq. split; [by intros (t' & [= <-] & ?)|by intros [_ ?]].
    - rewrite lookup_insert_ne by done. naive_solver. }
  assert (channels s ≡ₚ k :: channels s') as Hc.
  { unfold channels. simpl. rewrite <- (map_to_list_delete (sy_answers s) k r Hr). simpl. solve_Permutation. }
  rewrite Hc in Hnd. apply NoDup_cons in Hnd as [Hk Hnd]. split; try done.
  - intros k' Hk'. destruct (Hask k') as [j Hj]; [rewrite Hc; by right|]. exists j. apply Hasks. split; [done|]. intros ->.
    destruct Hj as (t' & Ht' & Hk''). assert (k' = k) as -> by congruence. done.
  - intros j k' [Hj _]%Hasks. by eapply Hf.
  - intros j1 j2 k' [H1' _]%Hasks [H2' _]%Hasks. by eapply Hal.
Qed.
End answers.
