(* ===== verification/SystemTheorems.v ===== *)
(** Blocks are conserved: in the composition of [System], a block of a piece that
    the torrent marked as requested is always somewhere from where it reaches the
    disk or is asked for again, until the download is finished. *)
From S2P Require Import Prelude Buffers Errors Bits Core Bencode BencodeText Metainfo Disk DiskTheorems DiskRequests Floats Counter RequestManager RequestManagerFacts.
From S2P Require Import Torrent TorrentFacts Handshake MetadataMsg Peer PeerFacts PeerTasks System SystemFacts SystemAnswers.

Section system.
Context `{Build, Sha1Api, BV : BitVecApi, BendyApi}.
Variable h : InfoHash.
Variables total plen : N.
Implicit Types (s : System) (b : BlockInfo) (W : list BlockInfo).

(** ** Definitions *)

(** Where a block is *)
Inductive whereabouts b s : Prop :=
  | in_request h' n ps v k p bs :
      (RequestBlocks h' n ps v, k) ∈ to_disk s → p ∈ ps →
      @get_block_infos_of_piece _ Error total plen p = Ok bs → b ∈ bs → whereabouts b s
  | in_queue t : d_torrents (disk (sy_disk s)) !! h = Some t → b ∈ td_queue t → whereabouts b s
  | in_answer k l : sy_answers s !! k = Some (Ok l) → b ∈ l → whereabouts b s
  | at_peer i t : sy_peers s !! i = Some t → b ∈ pending (req_man_block (pk_peer t)) → whereabouts b s
  | in_return m : m ∈ to_free s → b ∈ blocks_of m → whereabouts b s
  | on_disk : b ∈ sy_written s → whereabouts b s
  | in_vain : b ∈ sy_lost s → whereabouts b s.

(** The torrent has said that the download is over. *)
Definition finished s : Prop :=
  Broadcast Seedonly ∈ out (sy_torrent s) ∨ ∃ h', Torrent.ToDisk (FinishedDownload h') ∈ out (sy_torrent s).

(** Messages of the system to the disk *)
Definition usual (m : DiskMsg) : Prop :=
  match m with
  | ReadBlock _ _ | WriteBlock _ _ | RequestMetadata _ _ _ => True
  | RequestBlocks h' _ _ _ => h' = h
  | _ => False
  end.
(** A peer whose blocks are accounted for in [W] *)
Record tidy W (t : PeerTask) : Prop := {
  tidy_sound : rm_sound (req_man_block (pk_peer t));
  tidy_hash : p_info_hash (pk_peer t) = h;
  tidy_fulfilled b : b ∈ fulfilled_index (req_man_block (pk_peer t)) → b ∈ W;
  tidy_mail b : PmCancel b ∈ pk_mail t → b ∈ W;
}.
(** What holds of all, when the blocks [W] were written *)
Record orderly W s : Prop := {
  ord_disk : ∃ t, d_torrents (disk (sy_disk s)) !! h = Some t ∧
    tc_total_size (torrent_cache t) = total ∧ tc_piece_length (torrent_cache t) = plen;
  ord_hash : t_info_hash (torrent (sy_torrent s)) = h;
  ord_peers : map_Forall (fun _ => tidy W) (sy_peers s);
  ord_free : Forall (mine h) (to_free s);
  ord_cancels q b k : (MCancel q b, k) ∈ to_torrent s → b ∈ W;
  ord_msgs : Forall (fun m => usual m.1) (to_disk s);
}.
Lemma tidy_mono W W' t : W ⊆ W' → tidy W t → tidy W' t.
Proof. intros HW [? ? Hf Hm]. split; [done|done|by intros b ?%Hf%HW|by intros b ?%Hm%HW]. Qed.
Lemma orderly_mono W W' s : W ⊆ W' → orderly W s → orderly W' s.
Proof.
  intros HW [? ? Hp ? Hc ?]. split; try done; [|by intros q b k ?%Hc%HW].
  eapply map_Forall_impl; [exact Hp|]. intros i t. by apply tidy_mono.
Qed.

(** ** Routing *)

(** Nothing is taken away, and the tasks stay what they are. *)
Record onward s s' : Prop := {
  onw_disk : sy_disk s' = sy_disk s;
  onw_torrent : sy_torrent s' = sy_torrent s;
  onw_peers i : pk_peer <$> sy_peers s' !! i = pk_peer <$> sy_peers s !! i;
  onw_to_disk : to_disk s ⊆ to_disk s';
  onw_free : to_free s ⊆ to_free s';
  onw_answers : sy_answers s ⊆ sy_answers s';
  onw_written : sy_written s ⊆ sy_written s';
  onw_lost : sy_lost s ⊆ sy_lost s';
}.
#[export] Instance onward_preorder : PreOrder onward.
Proof.
  split; [by split|]. intros s1 s2 s3 [] []. split; try congruence; try (by etrans).
Qed.
Lemma onward_where b s s' : onward s s' → whereabouts b s → whereabouts b s'.
Proof.
  intros [Hd Ht Hp Hb Hf Ha Hw Hl] [h' n ps v k p bs Hm|t Hq|k l Hk|i t Hi|m Hm|Hx|Hx].
  - by eapply (in_request _ _ _ _ _ _ _ _ _ (Hb _ Hm)).
  - apply (in_queue _ _ t); [by rewrite Hd|done].
  - apply (in_answer _ _ k l); [by eapply lookup_weaken|done].
  - specialize (Hp i). rewrite Hi in Hp. simpl in Hp. destruct (sy_peers s' !! i) as [t'|] eqn:Ht'; [|done].
    injection Hp as Hp. apply (at_peer _ _ i t' Ht'). by rewrite Hp.
  - by apply (in_return _ _ m); [apply Hf|].
  - by apply on_disk, Hw.
  - by apply in_vain, Hl.
Qed.
Lemma onward_fold {A} (f : System → A → System) l s : (∀ s a, onward s (f s a)) → onward s (foldl f s l).
Proof. intros Hf. revert s. induction l as [|a l IH]; intros s; [done|]. simpl. etrans; [apply Hf|apply IH]. Qed.
Lemma onward_mail i m s : onward s (mail_to i m s).
Proof.
  split; try done. intros j. simpl. destruct (decide (j = i)) as [->|Hne]; [|by rewrite lookup_alter_ne].
  rewrite lookup_alter_eq. by destruct (sy_peers s !! i).
Qed.
Lemma onward_deliver k r s : onward s (deliver k r s).
Proof.
  unfold deliver. destruct k as [k|]; [case_decide as Hk|]; split; try done; simpl; try set_solver.
  by apply insert_subseteq, Hk.
Qed.
Lemma onward_effect i s e : onward s (route_effect i s e).
Proof.
  destruct e as [m| |m|m|m|m|l]; try done; try apply onward_mail; split; try done; simpl; set_solver.
Qed.
Lemma onward_out k s o : onward s (route_out k s o).
Proof.
  destruct o as [q m| | |m| | |[l| | | | | | |]]; try done; try apply onward_mail; try apply onward_deliver.
  split; try done; simpl; set_solver.
Qed.
Lemma onward_effects i l s : onward s (route_effects i l s).
Proof. apply onward_fold, onward_effect. Qed.
Lemma onward_outs k l s : onward s (route_outs k l s).
Proof. apply onward_fold, onward_out. Qed.
Lemma onward_sent l s : onward s (route_sent h l s).
Proof. by split. Qed.
Lemma onward_reply k r s : onward s (route_reply k r s).
Proof. destruct r; try done. apply onward_deliver. Qed.

(** An answer arrives or comes too late. *)
Lemma deliver_where b k l s : b ∈ l → whereabouts b (deliver k (Ok l) s).
Proof.
  intros Hb. unfold deliver. destruct k as [k|]; [case_decide|]; [|apply in_vain; simpl; set_solver..].
  by apply (in_answer _ _ k l); [apply lookup_insert_eq|].
Qed.
(** What the torrent asks the disk for is in the mailbox. *)
Lemma outs_request k l m s : Torrent.ToDisk m ∈ l → (m, k) ∈ to_disk (route_outs k l s).
Proof.
  revert s. induction l as [|o l IH]; intros s Hm; [by apply elem_of_nil in Hm|].
  apply elem_of_cons in Hm as [<-|Hm]; [|by apply IH].
  apply (onw_to_disk _ _ (onward_outs k l (route_out k s (Torrent.ToDisk m)))). apply elem_of_app. right. by left.
Qed.

(** ** What keeps order *)

Lemma orderly_mail W i m s : (∀ b, m = PmCancel b → b ∈ W) → orderly W s → orderly W (mail_to i m s).
Proof.
  intros Hm [? ? Hp ? ? ?]. split; try done. intros j t Ht. simpl in Ht.
  destruct (decide (j = i)) as [->|Hne]; [|rewrite lookup_alter_ne in Ht by done; by apply (Hp j)].
  rewrite lookup_alter_eq in Ht. apply fmap_Some in Ht as (t0 & Ht0 & ->). destruct (Hp i t0 Ht0) as [? ? ? Hc].
  split; try done. simpl. intros b [Hb|Hb%list_elem_of_singleton]%elem_of_app; [by apply Hc|by apply Hm].
Qed.
Lemma orderly_deliver W k r s : orderly W s → orderly W (deliver k r s).
Proof. unfold deliver. intros []. repeat case_match; by split. Qed.
Lemma orderly_effect W i s e : fine W e → Forall (mine h) (frees [e]) → orderly W s → orderly W (route_effect i s e).
Proof.
  intros He Hm Hs. destruct e as [m| |m|m|m|m|l]; try done.
  - destruct Hs as [? ? ? ? Hc ?]. split; try done. simpl. intros q b k [Hx|Hx%list_elem_of_singleton]%elem_of_app; [by eapply Hc|].
    injection Hx as <- ->. exact He.
  - destruct Hs as [? ? ? ? ? Hd]. split; try done. simpl. apply Forall_app. split; [done|]. constructor; [|done].
    by destruct m.
  - destruct Hs as [? ? ? Hf ? ?]. split; try done. simpl. by apply Forall_app.
  - apply orderly_mail; [|done]. by intros b ->.
Qed.
Lemma orderly_effects W i l s :
  Forall (fine W) l → Forall (mine h) (frees l) → orderly W s → orderly W (route_effects i l s).
Proof.
  intros Hl. revert s. induction Hl as [|e l He _ IH]; intros s Hm Hs; [done|]. change (e :: l) with ([e] ++ l) in Hm.
  rewrite frees_app in Hm. apply Forall_app in Hm as [Hm1 Hm2]. apply IH; [done|]. by apply orderly_effect.
Qed.
(** What the torrent may send *)
Definition allowed W (o : Out) : Prop :=
  match o with Torrent.ToDisk m => usual m | ToPeer _ (PmCancel b) => b ∈ W | _ => True end.
Lemma orderly_out W k s o : allowed W o → orderly W s → orderly W (route_out k s o).
Proof.
  intros Ho Hs. destruct o as [q m| | |m| | |[l| | | | | | |]]; try done.
  - apply orderly_mail; [|done]. by intros b ->.
  - destruct Hs as [? ? ? ? ? Hd]. split; try done. simpl. apply Forall_app. split; [done|]. by constructor.
  - by apply orderly_deliver.
Qed.
Lemma orderly_outs W k l s : Forall (allowed W) l → orderly W s → orderly W (route_outs k l s).
Proof. intros Hl. revert s. induction Hl as [|o l Ho _ IH]; intros s Hs; [done|]. apply IH. by apply orderly_out. Qed.
Lemma orderly_sent W l s : orderly W s → orderly W (route_sent h l s).
Proof.
  intros [? ? ? ? Hc ?]. split; try done. simpl. intros q b k [Hx|Hx]%elem_of_app; [by eapply Hc|].
  apply list_elem_of_omap in Hx as ([h' e] & _ & Hx). case_decide; [|done]. by destruct e.
Qed.
Lemma orderly_reply W k r s : orderly W s → orderly W (route_reply k r s).
Proof. destruct r; try done. apply orderly_deliver. Qed.

(** What is written is written by the peers. *)
Lemma effects_written i l s : sy_written (route_effects i l s) = sy_written s ++ written l.
Proof.
  unfold route_effects, written. revert s. induction l as [|e l IH]; intros s; [by rewrite app_nil_r|]. simpl. rewrite IH.
  destruct e as [m| |m|m|m|m|x]; try done. simpl. destruct m; simpl; by rewrite <- ?app_assoc.
Qed.
Lemma effects_free i l s : to_free (route_effects i l s) = to_free s ++ frees l.
Proof.
  unfold route_effects, frees. revert s. induction l as [|e l IH]; intros s; [by rewrite app_nil_r|]. simpl. rewrite IH.
  destruct e as [m| |m|m|m|m|x]; try done. simpl. by rewrite <- app_assoc.
Qed.
Lemma outs_written k l s : sy_written (route_outs k l s) = sy_written s.
Proof.
  unfold route_outs. revert s. induction l as [|o l IH]; intros s; [done|]. simpl. rewrite IH.
  destruct o as [q m| | |m| | |[x| | | | | | |]]; try done. unfold route_out, deliver. by repeat case_match.
Qed.
Lemma deliver_written k r s : sy_written (deliver k r s) = sy_written s.
Proof. unfold deliver. by repeat case_match. Qed.

(** The torrent is finished, or says what it may. *)
Lemma tells_allowed W m l :
  Forall (tells h m) l → (∀ q b, m = MCancel q b → b ∈ W) →
  Forall (allowed W) l ∨ ∃ h', Torrent.ToDisk (FinishedDownload h') ∈ l.
Proof.
  intros Hl Hm. induction Hl as [|o l Ho _ [IH|[h' IH]]]; [by left| |right; exists h'; by right].
  assert (allowed W o ∨ ∃ h', o = Torrent.ToDisk (FinishedDownload h')) as [Ha|[h' ->]]; [|by left; constructor|right; exists h'; by left].
  destruct o as [q []| | |[]| | |]; simpl in *; try (by left); try done; try (right; by eexists); [|left; by destruct Ho].
  left. destruct m; try done. subst. by eapply Hm.
Qed.
Lemma requested_new w w' l p :
  out w' = out w ++ l → p ∈ requested w' →
  p ∈ requested w ∨ ∃ h' n ps v, Torrent.ToDisk (RequestBlocks h' n ps v) ∈ l ∧ p ∈ ps.
Proof.
  unfold requested. intros ->. rewrite bind_app, elem_of_app. intros [|Hp]; [by left|right].
  apply list_elem_of_bind in Hp as (o & Hp & Ho). destruct o as [| | |[]| | |]; try (by apply elem_of_nil in Hp). by eexists _, _, _, _.
Qed.

(** ** The invariant *)

Record conserved s : Prop := {
  con_orderly : orderly (sy_written s) s;
  con_marked p : has (peer_pieces_req (torrent (sy_torrent s))) p = true → p ∈ requested (sy_torrent s);
  con_where p bs b : p ∈ requested (sy_torrent s) → @get_block_infos_of_piece _ Error total plen p = Ok bs → b ∈ bs →
    whereabouts b s;
}.
Definition inv s : Prop := t_info_hash (torrent (sy_torrent s)) = h ∧ (finished s ∨ conserved s).

(** Steps that leave the torrent alone *)
Lemma conserved_step s s' :
  sy_torrent s' = sy_torrent s → orderly (sy_written s') s' → (∀ b, whereabouts b s → whereabouts b s') →
  conserved s → conserved s'.
Proof. intros Ht Ho Hw [_ Hm Hc]. split; rewrite ?Ht; try done. intros p bs b Hp Hbs Hb. by eapply Hw, Hc. Qed.
Lemma inv_step s s' : sy_torrent s' = sy_torrent s → (conserved s → finished s ∨ conserved s') → inv s → inv s'.
Proof.
  intros Ht Hs [Hh Hi]. unfold inv, finished. rewrite Ht. split; [done|]. destruct Hi as [|Hc]; [by left|]. by apply Hs.
Qed.

Lemma with_boxes_same s : with_boxes (to_torrent s) (to_disk s) (to_free s) s = s.
Proof. by destruct s. Qed.
(** The torrent moves. *)
Lemma inv_torrent s l k m w :
  l ⊆ to_torrent s → emits h (tells h m) (sy_torrent s) w → marks (sy_torrent s) w →
  (∀ q b, m = MCancel q b → ∃ k', (m, k') ∈ to_torrent s) → inv s →
  inv (route_outs k (since (out (sy_torrent s)) (out w)) (with_sy_torrent w (with_boxes l (to_disk s) (to_free s) s))).
Proof.
  intros Hl He (asked & Hr & Hmarks) Hm [Hh Hi]. destruct (He Hh) as (Hh' & new & Hnew & Ht).
  unfold since. rewrite Hnew, drop_app_length. set (s0 := with_sy_torrent _ _). set (s' := route_outs _ _ _).
  pose proof (onward_outs k new s0) as Ho. fold s' in Ho. assert (sy_torrent s' = w) as Hw by exact (onw_torrent _ _ Ho).
  unfold inv, finished. rewrite Hw, Hnew. split; [done|]. destruct Hi as [[Hf|[h' Hf]]|[Hord Hmark Hwhere]];
    [left; left; set_solver|left; right; exists h'; set_solver|].
  assert (∀ q b, m = MCancel q b → b ∈ sy_written s) as Hcan.
  { intros q b Hq. destruct (Hm q b Hq) as [k' Hk]. rewrite Hq in Hk. by eapply ord_cancels. }
  destruct (tells_allowed (sy_written s) m new Ht Hcan) as [Hall|[h' Hf]]; [right|left; right; exists h'; set_solver].
  split; rewrite ?Hw.
  - unfold s'. rewrite outs_written. apply orderly_outs; [done|]. destruct Hord as [? ? ? ? Hc ?]. split; try done.
    intros q b k' Hx. by eapply Hc, Hl.
  - intros p Hp. rewrite Hr. destruct (Hmarks p Hp) as [Hx|]; [apply Hmark in Hx|]; set_solver.
  - intros p bs b Hp Hbs Hb. destruct (requested_new _ _ _ _ Hnew Hp) as [Hp'|(h' & n & ps & v & Hin & Hps)].
    + eapply onward_where; [exact Ho|]. destruct (Hwhere p bs b Hp' Hbs Hb) as [? ? ? ? ? ? ? Hin| | | | | | ];
        eauto using whereabouts.
    + eapply (in_request b s' h' n ps v k p bs); try done. by apply outs_request.
Qed.

(** *** The disk *)

(** What the disk does to a message: the blocks it takes are in its answer. *)
Lemma disk_answers hex now m (s : DiskState) reply d t :
  usual m → handle_disk_msg hex now m s = (Ok reply, d) → d_torrents (disk s) !! h = Some t →
  ∃ t' bl, d_torrents (disk d) !! h = Some t' ∧ torrent_cache t' = torrent_cache t ∧
    (∀ b, b ∈ td_queue t → b ∈ td_queue t' ∨ b ∈ bl) ∧ (∀ b, b ∈ bl → reply = BlocksReply (Ok bl)) ∧
    match m with
    | RequestBlocks _ _ ps _ => ∀ p bs b, p ∈ ps →
        @get_block_infos_of_piece _ Error (tc_total_size (torrent_cache t)) (tc_piece_length (torrent_cache t)) p = Ok bs →
        b ∈ bs → b ∈ bl
    | _ => True
    end.
Proof.
  intros Hm Hs Ht. assert (grows h s d → match m with RequestBlocks _ _ _ _ => False | _ => True end → ∃ t' bl,
    d_torrents (disk d) !! h = Some t' ∧ torrent_cache t' = torrent_cache t ∧
    (∀ b, b ∈ td_queue t → b ∈ td_queue t' ∨ b ∈ bl) ∧ (∀ b, b ∈ bl → reply = BlocksReply (Ok bl)) ∧ True) as Hother.
  { intros Hg _. destruct (Hg t Ht) as (t' & Ht' & Hc & Hq). exists t', []. split_and!; try done; [by auto|by intros b ?%elem_of_nil]. }
  destruct m as [| | |h' b|h' b|h' n ps v|h' a b]; try done; try (by apply Hother; [eapply (grows_msg h); [|exact Hs|]|]).
  clear Hother. simpl in Hm. subst h'. unfold handle_disk_msg in Hs. rewrite bind_action in Hs. unfold result_of in Hs.
  destruct (request_blocks h n ps v s) as [r d'] eqn:Hr. destruct (decide (r = Panic)) as [->|Hn]; [done|].
  destruct (request_blocks_shares h n ps v s r d' t Hr Hn Ht) as (bl & t' & -> & Ht' & Hc & Hq & Hp).
  injection Hs as <- <-. exists t', bl. split_and!; try done. intros p bs b Hin Hbs Hb.
  destruct (Hp p Hin) as (bs' & Hbs' & Hall). apply Hall. rewrite Hbs in Hbs'. by injection Hbs' as <-.
Qed.
Lemma conserved_disk s hex now n0 m k l l' reply d :
  to_disk s = l ++ (m, k) :: l' → handle_disk_msg hex now (reads_len n0 m) (sy_disk s) = (Ok reply, d) → conserved s →
  conserved (route_reply k reply (route_sent h (since (sent (sy_disk s)) (sent d))
    (with_sy_disk d (with_boxes (to_torrent s) (l ++ l') (to_free s) s)))).
Proof.
  intros Hbox Hd Hc. set (s0 := with_sy_disk _ _). set (s1 := route_sent _ _ _). set (s2 := route_reply _ _ _).
  assert (onward s0 s2) as Ho by (etrans; [apply onward_sent|apply onward_reply]).
  destruct (con_orderly _ Hc) as [(t & Ht & Htot & Hplen) Hh Hp Hf Hcan Hmsgs].
  assert (usual m ∧ Forall (fun m => usual m.1) (l ++ l')) as [Hm Hrest].
  { rewrite Hbox in Hmsgs. apply Forall_app in Hmsgs as [H1' H2']. apply Forall_cons in H2' as [??]. split; [done|by apply Forall_app]. }
  assert (usual (reads_len n0 m)) as Hmr by by destruct m.
  destruct (disk_answers hex now (reads_len n0 m) _ _ _ t Hmr Hd Ht) as (t' & bl & Ht' & Hcache & Hq & Hbl & Hask).
  assert (∀ b, b ∈ bl → whereabouts b s2) as Hans.
  { intros b Hb. unfold s2. rewrite (Hbl b Hb). by apply deliver_where. }
  apply (conserved_step s); [by rewrite (onw_torrent _ _ Ho)| | |exact Hc].
  - assert (sy_written s2 = sy_written s) as -> by (unfold s2, route_reply; destruct reply; try done; apply (deliver_written k _ s1)).
    apply orderly_reply, orderly_sent. split; try done. exists t'. by rewrite Hcache.
  - intros b Hw. destruct Hw as [h' n ps v k' p bs Hin Hps Hbs Hb|t0 Ht0 Hb| | | | |];
      try by (eapply onward_where; [exact Ho|]; eauto using whereabouts).
    + rewrite Hbox in Hin. assert ((RequestBlocks h' n ps v, k') ∈ l ++ l' ∨ m = RequestBlocks h' n ps v) as [Hin'| ->] by set_solver.
      * eapply onward_where; [exact Ho|]. by eapply (in_request b s0 h' n ps v k' p bs Hin').
      * apply Hans. eapply Hask; [exact Hps| |exact Hb]. by rewrite Htot, Hplen.
    + rewrite Ht in Ht0. injection Ht0 as <-. destruct (Hq b Hb) as [Hb'|]; [|by apply Hans].
      eapply onward_where; [exact Ho|]. by apply (in_queue _ _ t').
Qed.
(** Blocks come back. *)
Lemma conserved_free s m l l' d :
  to_free s = l ++ m :: l' → handle_return m (sy_disk s) = (Ok tt, d) → conserved s →
  conserved (with_sy_disk d (with_boxes (to_torrent s) (to_disk s) (l ++ l') s)).
Proof.
  intros Hbox Hd Hc. destruct (con_orderly _ Hc) as [(t & Ht & Htot & Hplen) Hh Hp Hf Hcan Hmsgs].
  rewrite Hbox in Hf. apply Forall_app in Hf as [Hl Hl']. apply Forall_cons in Hl' as [Hm Hl'].
  destruct (disk_returns h [m] (sy_disk s) t Ht) as (d' & t' & Hd' & Ht' & Hq & _); [by constructor|].
  cbn [forM] in Hd'. rewrite bind_action, Hd in Hd'. injection Hd' as <-. simpl in Hq. rewrite app_nil_r in Hq.
  destruct (grows_return h m _ _ _ Hd ltac:(done) t Ht) as (t2 & Ht2 & Hcache & _). rewrite Ht' in Ht2. injection Ht2 as <-.
  apply (conserved_step s); [done| | |exact Hc].
  - split; try done; [exists t'; by rewrite Hcache|by apply Forall_app].
  - intros b Hw. destruct Hw as [|t0 Ht0 Hb| | |m' Hm' Hb| |]; eauto using whereabouts.
    + rewrite Ht in Ht0. injection Ht0 as <-. apply (in_queue _ _ t'); [done|]. rewrite Hq. set_solver.
    + rewrite Hbox in Hm'. assert (m' ∈ l ++ l' ∨ m' = m) as [Hin| ->] by set_solver; [by apply (in_return _ _ m')|].
      apply (in_queue _ _ t'); [done|]. rewrite Hq. set_solver.
Qed.

(** *** Peers *)

(** A task takes the place of another. *)
Lemma orderly_task W s i p asked mail :
  tidy W {| pk_peer := p; pk_asked := asked; pk_mail := mail |} → orderly W s → orderly W (set_task i p asked mail s).
Proof. intros Ht [? ? Hp ? ? ?]. split; try done. simpl. by apply map_Forall_insert_2. Qed.
Lemma where_task b s i t p asked mail l :
  sy_peers s !! i = Some t →
  (b ∈ pending (req_man_block (pk_peer t)) → b ∈ pending (req_man_block p) ∨ b ∈ back l ∨ b ∈ sy_written s ++ written l) →
  whereabouts b s → whereabouts b (route_effects i l (set_task i p asked mail s)).
Proof.
  intros Hi Hb Hw. pose proof (onward_effects i l (set_task i p asked mail s)) as Ho.
  destruct Hw as [| | |j t' Hj Hx| | |]; try by (eapply onward_where; [exact Ho|]; eauto using whereabouts).
  destruct (decide (j = i)) as [->|Hne].
  - rewrite Hi in Hj. injection Hj as <-. destruct (Hb Hx) as [Hp|[Hp|Hp]].
    + eapply onward_where; [exact Ho|]. eapply (at_peer _ _ i); [apply lookup_insert_eq|done].
    + unfold back in Hp. apply list_elem_of_In, in_concat in Hp as (bs & Hbs%list_elem_of_In & Hin%list_elem_of_In).
      apply list_elem_of_fmap in Hbs as (m & -> & Hm). apply (in_return _ _ m); [|done]. rewrite effects_free. set_solver.
    + apply on_disk. by rewrite effects_written.
  - eapply onward_where; [exact Ho|]. eapply (at_peer _ _ j); [simpl; by rewrite lookup_insert_ne|done].
Qed.
(** A turn of a peer *)
Lemma conserved_turn s i t X l p mail :
  sy_peers s !! i = Some t → turn X l (pk_peer t) p → X ⊆ sy_written s → mail ⊆ pk_mail t →
  conserved s → conserved (route_effects i l (set_task i p None mail s)).
Proof.
  intros Hi Ht HX Hmail Hc. pose proof (onward_effects i l (set_task i p None mail s)) as Ho.
  pose proof (ord_peers _ _ (con_orderly _ Hc) i t Hi) as [Hs Hh Hf Hm].
  assert (X ++ written l ⊆ sy_written s ++ written l) as HW by set_solver.
  apply (conserved_step s); [by rewrite (onw_torrent _ _ Ho)| | |exact Hc].
  - rewrite effects_written. apply orderly_effects.
    + eapply Forall_impl; [exact (turn_fine _ _ _ _ Ht)|]. intros e. by apply fine_mono.
    + rewrite <- Hh. exact (turn_mine _ _ _ _ Ht).
    + apply orderly_task; [|eapply orderly_mono; [|exact (con_orderly _ Hc)]; set_solver]. split; simpl.
      * exact (turn_sound _ _ _ _ Ht).
      * by rewrite (turn_hash _ _ _ _ Ht).
      * intros b Hb. destruct (turn_fulfilled _ _ _ _ Ht b Hb) as [Hx|]; [apply Hf in Hx|]; set_solver.
      * intros b Hb. apply Hmail, Hm in Hb. set_solver.
  - intros b. apply where_task with t; [done|]. intros Hb.
    destruct (turn_pending _ _ _ _ Ht b Hb) as [|[|[Hx|]]]; [by auto..|apply Hf in Hx|]; set_solver.
Qed.
(** Tasks end when they have no blocks any more. *)
Lemma conserved_ends s i :
  (∀ t, sy_peers s !! i = Some t → pending (req_man_block (pk_peer t)) = []) →
  conserved s → conserved (with_sy_peers (delete i) s).
Proof.
  intros Hn Hc. apply (conserved_step s); [done| | |exact Hc].
  - destruct (con_orderly _ Hc). split; try done. simpl. by apply map_Forall_delete.
  - intros b Hw. destruct Hw as [| | |j t Hj Hx| | |]; eauto using whereabouts.
    destruct (decide (j = i)) as [->|Hne]; [rewrite (Hn t Hj) in Hx; by apply elem_of_nil in Hx|].
    eapply (at_peer _ _ j); [simpl; by rewrite lookup_delete_ne|done].
Qed.
(** What adds to the boxes only *)
Lemma conserved_onward s s' : onward s s' → orderly (sy_written s') s' → conserved s → conserved s'.
Proof. intros Ho Hs. apply conserved_step; [apply Ho|done|]. intros b. by apply onward_where. Qed.
Lemma taken_subset ev (mail mail' : list PeerMsg) : takes ev mail mail' → mail' ⊆ mail.
Proof. unfold takes. destruct ev; try (by intros ->). intros (l & k & -> & ->). set_solver. Qed.
Lemma cancelled_written s i t ev mail :
  conserved s → sy_peers s !! i = Some t → takes ev (pk_mail t) mail → cancelled ev ⊆ sy_written s.
Proof.
  intros Hc Hi Hm b Hb. destruct ev as [| | | | | | |[]]; try (by apply elem_of_nil in Hb). apply list_elem_of_singleton in Hb as ->.
  destruct Hm as (l & k & Hm & _). eapply tidy_mail; [by eapply (ord_peers _ _ (con_orderly _ Hc))|]. rewrite Hm. set_solver.
Qed.
(** A turn, whatever its end *)
Lemma inv_turn s i t env ev p r mail :
  sy_peers s !! i = Some t → asks_blocks ev = false → served env → may_happen (sy_torrent s) (pk_peer t) ev →
  takes ev (pk_mail t) mail → peer_step env ev (pk_peer t) = (r, p) → r ≠ Panic → conserved s →
  finished s ∨ ∃ l, effects p = effects (pk_peer t) ++ l ∧ turn (cancelled ev) l (pk_peer t) p.
Proof.
  intros Hi Hq [_ Hd] [_ Hmay] Hm Hp Hr Hc. pose proof (ord_peers _ _ (con_orderly _ Hc) i t Hi) as Ht.
  assert (ev = EvBroadcast Seedonly ∨ ev ≠ EvBroadcast Seedonly) as [->|Hs]; [|by left; left|].
  { destruct ev as [| | | | | |[]|]; auto. }
  right. destruct (step_turn env ev _ _ _ Hd Hq Hs Hp Hr (tidy_sound _ _ Ht)) as (l & Hl). exists l. split; [apply Hl|done].
Qed.
Lemma since_app {A} (l k : list A) : since l (l ++ k) = k.
Proof. apply drop_app_length. Qed.
Lemma inv_peer s i t env ev p mail :
  sy_peers s !! i = Some t → asks_blocks ev = false → served env → may_happen (sy_torrent s) (pk_peer t) ev →
  takes ev (pk_mail t) mail → peer_step env ev (pk_peer t) = (Ok true, p) → inv s →
  inv (route_effects i (since (effects (pk_peer t)) (effects p)) (set_task i p None mail s)).
Proof.
  intros Hi Hq Hs Hmay Hm Hp. apply inv_step; [exact (onw_torrent _ _ (onward_effects _ _ _))|]. intros Hc.
  destruct (inv_turn s i t env ev p _ mail Hi Hq Hs Hmay Hm Hp ltac:(done) Hc) as [|(l & He & Hl)]; [by left|right].
  rewrite He, since_app. eapply conserved_turn; [done|done|by eapply cancelled_written|by eapply taken_subset|done].
Qed.
Lemma inv_fails s i t env ev p p' mail e :
  sy_peers s !! i = Some t → asks_blocks ev = false → served env → may_happen (sy_torrent s) (pk_peer t) ev →
  takes ev (pk_mail t) mail → peer_step env ev (pk_peer t) = (Err e, p) → free_pending_blocks p = (Ok tt, p') → inv s →
  inv (with_sy_peers (delete i) (route_effects i
    (since (effects (pk_peer t)) (effects p') ++ [ToTorrent (MPeerError (pc_addr (ctx p)))]) (set_task i p' None mail s))).
Proof.
  intros Hi Hq Hs Hmay Hm Hp Hfree. apply inv_step; [exact (onw_torrent _ _ (onward_effects _ _ _))|]. intros Hc.
  destruct (inv_turn s i t env ev p _ mail Hi Hq Hs Hmay Hm Hp ltac:(done) Hc) as [|(l & He & Hl)]; [by left|right].
  destruct (free_turn (cancelled ev) p) as (q & k & Hq' & Hk & Hn). rewrite Hfree in Hq'. injection Hq' as <-.
  assert (turn (cancelled ev) (l ++ k) (pk_peer t) p') as Hlk by by eapply turn_trans.
  rewrite (turn_effects _ _ _ _ Hlk), since_app. set (s1 := route_effects i (l ++ k) (set_task i p' None mail s)).
  assert (conserved s1) as Hc1 by (eapply conserved_turn; [done|done|by eapply cancelled_written|by eapply taken_subset|done]).
  unfold route_effects. rewrite foldl_app. fold (route_effects i (l ++ k) (set_task i p' None mail s)). fold s1.
  apply conserved_ends.
  - intros t' Ht'. pose proof (onw_peers _ _ (onward_effects i (l ++ k) (set_task i p' None mail s)) i) as Hpk. fold s1 in Hpk.
    simpl in Ht', Hpk. rewrite Ht', lookup_insert_eq in Hpk. injection Hpk as ->. exact Hn.
  - eapply conserved_onward; [apply (onward_effect i s1)| |exact Hc1]. by apply orderly_effect, Hc1.
Qed.
(** A peer goes on. *)
Lemma inv_goes_on s i t k env p g :
  sy_peers s !! i = Some t → served env → sink_ok env = true → request_answer env = sy_answers s !! k →
  request_block_infos env (pk_peer t) = (Ok tt, p) → inv s →
  inv (route_effects i (tail (since (effects (pk_peer t)) (effects p)))
    (with_answers (delete k (sy_answers s)) (sy_next s) (sy_written s) (sy_lost s) (with_gave_up g (set_task i p None (pk_mail t) s)))).
Proof.
  intros Hi Hs Hok Ha Hp. apply inv_step; [exact (onw_torrent _ _ (onward_effects _ _ _))|]. intros Hc. right.
  pose proof (ord_peers _ _ (con_orderly _ Hc) i t Hi) as [Hsound Hh Hf Hm].
  destruct (requests_turn env _ _ Hs Hok Hp Hsound) as (l & He & Hwire & Hs' & Hh' & Hf' & Hpend).
  destruct (wire_fine (sy_written s) _ Hwire) as (Hfine & Hmine & Hw).
  rewrite He, since_app. set (s0 := with_answers (delete k (sy_answers s)) (sy_next s) (sy_written s) (sy_lost s) (with_gave_up g s)).
  change (with_answers _ _ _ _ _) with (set_task i p None (pk_mail t) s0).
  apply (conserved_step s); [exact (onw_torrent _ _ (onward_effects _ _ _))| | |exact Hc].
  - rewrite effects_written, Hw, app_nil_r. apply orderly_effects.
    + done.
    + by rewrite Hmine.
    + apply orderly_task; [|by destruct (con_orderly _ Hc)]. split; simpl; [done|congruence|by rewrite Hf'|exact Hm].
  - intros b Hb. assert (whereabouts b s0 ∨ b ∈ answered env) as [Hb0|Hb0].
    { destruct Hb as [| |k' x Hk Hx| | | |]; eauto using whereabouts. destruct (decide (k' = k)) as [->|Hne].
      - right. unfold answered. by rewrite Ha, Hk.
      - left. apply (in_answer _ _ k' x); [simpl; by rewrite lookup_delete_ne|done]. }
    + apply (where_task b s0 i t); [done| |exact Hb0]. intros Hx. destruct (Hpend b ltac:(by left)) as [|Hy]; [by left|].
      right; right. apply elem_of_app. left. by apply Hf.
    + destruct (Hpend b ltac:(by right)) as [Hx|Hx].
      * eapply onward_where; [apply onward_effects|]. by eapply (at_peer _ _ i); [apply lookup_insert_eq|].
      * apply on_disk. rewrite effects_written. apply elem_of_app. left. by apply Hf.
Qed.
(** The socket of a peer fails as it requests: its blocks come back or are
    lost. *)
Lemma inv_breaks s i t k env p p' e g a :
  sy_peers s !! i = Some t → served env → request_answer env = sy_answers s !! k →
  request_block_infos env (pk_peer t) = (Err e, p) → free_pending_blocks p = (Ok tt, p') → inv s →
  inv (route_effects i (tail (since (effects (pk_peer t)) (effects p')) ++ [ToTorrent (MPeerError a)])
    (with_answers (delete k (sy_answers s)) (sy_next s) (sy_written s)
      (sy_lost s ++ filter (fun b => b ∉ pending (req_man_block p)) (pending (req_man_block (pk_peer t)) ++ answered env))
      (with_gave_up g (with_sy_peers (delete i) s)))).
Proof.
  intros Hi Hs Ha Hp Hfree. apply inv_step; [exact (onw_torrent _ _ (onward_effects _ _ _))|]. intros Hc. right.
  pose proof (ord_peers _ _ (con_orderly _ Hc) i t Hi) as Ht.
  destruct (requests_asks env _ _ _ (proj1 Hs) Hp) as (x & l & He & Hl & Hh); [done|].
  destruct (free_gives p) as (q & k' & Hq & Hk & Hb & _). rewrite Hfree in Hq. injection Hq as <-.
  assert (Forall (fine (written k')) k') as Hfine.
  { destruct (speaks_free [] p _ _ Hfree) as (k2 & Hk2 & Hf & _); [done|]. rewrite (acc_effects _ _ _ Hk) in Hk2.
    by apply app_inv_head in Hk2 as <-. }
  rewrite (acc_effects _ _ _ Hk), He, <- app_assoc, since_app. cbn [tail app].
  set (s0 := with_answers _ _ _ _ _). destruct (wire_fine (sy_written s) _ Hl) as (Hlf & Hlm & Hlw).
  pose proof (onward_effects i ((l ++ k') ++ [ToTorrent (MPeerError a)]) s0) as Ho.
  apply (conserved_step s); [by rewrite (onw_torrent _ _ Ho)| | |exact Hc].
  - rewrite effects_written. apply orderly_effects.
    + apply Forall_app. split; [|by repeat constructor]. unfold written. rewrite omap_app, omap_app.
      apply Forall_app. split; (eapply Forall_impl; [eassumption|]); intros y; apply fine_mono; unfold written in *; simpl; set_solver.
    + rewrite !frees_app, Hlm, app_nil_r. rewrite <- (tidy_hash _ _ Ht), <- Hh. exact (acc_mine _ _ _ Hk).
    + change (sy_written s0) with (sy_written s). set (W := sy_written s ++ _).
      assert (orderly W s) as [] by (eapply orderly_mono; [|exact (con_orderly _ Hc)]; unfold W; set_solver).
      split; try done. simpl. by apply map_Forall_delete.
  - intros b Hw.
    assert (whereabouts b s0 ∨ b ∈ pending (req_man_block p)) as [Hb0|Hb0].
    { assert (b ∈ pending (req_man_block (pk_peer t)) ++ answered env → whereabouts b s0 ∨ b ∈ pending (req_man_block p)) as Hx.
      { intros Hx. destruct (decide (b ∈ pending (req_man_block p))); [by right|left]. apply in_vain. simpl.
        apply elem_of_app. right. by apply list_elem_of_filter. }
      destruct Hw as [| |k2 x' Hk2 Hx2|j t' Hj Hx2| | |Hx2]; eauto using whereabouts.
      - destruct (decide (k2 = k)) as [->|Hne]; [|left; apply (in_answer _ _ k2 x'); [simpl; by rewrite lookup_delete_ne|done]].
        apply Hx, elem_of_app. right. unfold answered. by rewrite Ha, Hk2.
      - destruct (decide (j = i)) as [->|Hne]; [|left; eapply (at_peer _ _ j); [simpl; by rewrite lookup_delete_ne|done]].
        rewrite Hi in Hj. injection Hj as <-. apply Hx, elem_of_app. by left.
      - left. apply in_vain. simpl. apply elem_of_app. by left. }
    + by eapply onward_where.
    + rewrite <- Hb in Hb0. unfold back in Hb0. apply list_elem_of_In, in_concat in Hb0 as (bs & Hbs%list_elem_of_In & Hin%list_elem_of_In).
      apply list_elem_of_fmap in Hbs as (m & -> & Hm). apply (in_return _ _ m); [|done]. rewrite effects_free, !frees_app. set_solver.
Qed.
(** A task starts. *)
Lemma inv_joins s i p : sy_peers s !! i = None → fresh h i p → inv s → inv (set_task i p None [] s).
Proof.
  intros Hi (_ & Hh & Hs & Hn & Hf). apply inv_step; [done|]. intros Hc. right.
  apply (conserved_step s); [done| | |exact Hc].
  - apply orderly_task; [|apply Hc]. split; simpl; [done|done|rewrite Hf; set_solver|by intros b ?%elem_of_nil].
  - intros b Hb. destruct Hb as [| | |j t Hj Hx| | |]; eauto using whereabouts.
    assert (j ≠ i) by congruence. eapply (at_peer _ _ j); [simpl; by rewrite lookup_insert_ne|done].
Qed.
(** A peer asks. *)
Lemma inv_asks s i t m ev mail next :
  sy_peers s !! i = Some t → takes ev (pk_mail t) mail → (∀ q b, m.1 ≠ MCancel q b) → inv s →
  inv (with_boxes (to_torrent s ++ [m]) (to_disk s) (to_free s)
    (with_answers (sy_answers s) next (sy_written s) (sy_lost s) (set_task i (pk_peer t) (Some (sy_next s)) mail s))).
Proof.
  intros Hi Hm Hn. apply inv_step; [done|]. intros Hc. right. apply (conserved_step s); [done| | |exact Hc].
  - destruct (con_orderly _ Hc) as [? ? Hp ? Hcan ?]. split; try done; simpl.
    + apply map_Forall_insert_2; [|done]. destruct (Hp i t Hi) as [? ? ? Hmail]. split; try done. simpl. intros b Hb.
      by eapply Hmail, taken_subset.
    + intros q b k [Hx|Hx%list_elem_of_singleton]%elem_of_app; [by eapply Hcan|]. subst. by edestruct Hn.
  - intros b Hb. destruct Hb as [| | |j t' Hj Hx| | |]; eauto using whereabouts.
    destruct (decide (j = i)) as [->|Hne]; [|eapply (at_peer _ _ j); [simpl; by rewrite lookup_insert_ne|done]].
    rewrite Hi in Hj. injection Hj as <-. eapply (at_peer _ _ i); [apply lookup_insert_eq|done].
Qed.
Lemma inv_preserved s s' : sys_step h s s' → inv s → inv s'.
Proof.
  destruct 1 as [s pick info m k l l' w Hbox Hm|s tick w Ht Hw|s hex now n0 m k l l' reply d Hbox Hd|s m l l' d Hbox Hd
    |s i p Hi Hp|s i t env ev p mail Hi _ Hq Hs Hmay Hm Hp|s i t env ev p p' mail e Hi _ Hq Hs Hmay Hm Hp Hf
    |s i t ev mail Hi _ _ _ Hm|s i t k env p Hi _ Hs Hok Ha Hp|s i t k env p p' e Hi _ Hs Ha Hp Hf forgotten|s d Hd|s w Ht Ho|s m Hm].
  - apply (inv_torrent s (l ++ l') k m w).
    + rewrite Hbox. set_solver.
    + by eapply handle_metainfo_emits.
    + by eapply handle_metainfo_marks.
    + intros q b _. exists k. rewrite Hbox. set_solver.
  - intros Hinv. rewrite <- (with_boxes_same s) at 2. apply (inv_torrent s (to_torrent s) None MQuit w); [done| | |done|done].
    + by eapply (tick_emits h tick).
    + eapply same_req_marks, quiet_req, tick_quiet; [exact Ht|exact Hw|done].
  - apply inv_step; [by rewrite (onw_torrent _ _ (onward_reply _ _ _))|]. intros Hc. right. by eapply conserved_disk.
  - apply inv_step; [done|]. intros Hc. right. by eapply conserved_free.
  - by apply inv_joins.
  - by eapply inv_peer.
  - by eapply inv_fails.
  - by eapply inv_asks.
  - by eapply inv_goes_on.
  - by eapply inv_breaks.
  - apply inv_step; [done|]. intros Hc. right. apply (conserved_step s); [done| | |exact Hc].
    + destruct (con_orderly _ Hc). split; try done. by rewrite <- Hd in *.
    + intros b Hb. destruct Hb; eauto using whereabouts. eapply in_queue; [|done]. simpl. congruence.
  - intros [Hh Hi]. unfold inv, finished. simpl. rewrite Ht, Ho. split; [done|]. destruct Hi as [|[[] Hm Hw]]; [by left|right].
    assert (requested w = requested (sy_torrent s)) as Hr by (unfold requested; by rewrite Ho).
    split; simpl; rewrite ?Ht, ?Hr; [|done|].
    + split; try done. simpl. by rewrite Ht.
    + intros p bs b Hp Hbs Hb. destruct (Hw p bs b Hp Hbs Hb); eauto using whereabouts.
  - apply inv_step; [done|]. intros Hc. right. eapply conserved_onward; [..|exact Hc]; [split; try done; simpl; set_solver|].
    destruct (con_orderly _ Hc) as [? ? ? ? Hcan ?]. split; try done. simpl.
    intros q b k [Hx|Hx%list_elem_of_singleton]%elem_of_app; [by eapply Hcan|]. injection Hx as <- _. done.
Qed.
Lemma answers_preserved s s' : sys_step h s s' → answers s → answers s'.
Proof.
  destruct 1 as [s pick info m k l l' w Hbox Hm|s tick w Ht Hw|s hex now n0 m k l l' reply d Hbox Hd|s m l l' d Hbox Hd
    |s i p Hi Hp|s i t env ev p mail Hi Ha Hq Hs Hmay Hm Hp|s i t env ev p p' mail e Hi Ha Hq Hs Hmay Hm Hp Hf
    |s i t ev mail Hi Ha _ _ Hm|s i t k env p Hi Hk Hs Hok Ha Hp|s i t k env p p' e Hi Hk Hs Ha Hp Hf forgotten|s d Hd|s w Ht Ho|s m Hm].
  - apply answers_step; [exact (gave_up_outs _ _ _)|]. by eapply answering_torrent.
  - apply answers_step; [exact (gave_up_outs _ _ _)|]. intros Hs.
    destruct (tick_emits (t_info_hash (torrent (sy_torrent s))) tick Ht _ _ _ Hw) as [_ (new & Hnew & Hall)]; [done..|].
    unfold since. rewrite Hnew, drop_app_length. eapply answering_outs; [exact Hall|done|].
    by apply (answering_step s); try done; apply Hs.
  - apply answers_step; [destruct reply; try done; exact (gave_up_deliver _ _ _)|]. by eapply answering_disk.
  - apply answers_step; [done|]. intros Hs. by apply (answering_step s); try done; apply Hs.
  - apply answers_step; [done|]. apply answering_task. congruence.
  - apply answers_step; [exact (gave_up_effects _ _ _)|].
    destruct (speaks_step env ev (proj2 Hs) Hq _ _ _ Hp) as (l & He & Hl & _); [done|]. rewrite He, since_app. by eapply answering_turn.
  - apply answers_step; [exact (gave_up_effects _ _ _)|]. intros Hans.
    assert (speaks (cancelled ev) (pk_peer t) p') as (l & He & Hl & _).
    { etrans; [by eapply (speaks_step env ev (proj2 Hs) Hq)|by eapply speaks_free]. }
    rewrite He, since_app. set (s1 := route_effects _ _ _). assert (answering s1) as Hs1.
    { eapply answering_turn; [done|done| |done]. apply Forall_app. split; [exact Hl|by repeat constructor]. }
    apply (answering_step s1); try done; try apply Hs1. intros j k. apply asks_delete. intros t' Ht'.
    pose proof (effects_asked i (l ++ [ToTorrent (MPeerError (pc_addr (ctx p)))]) (set_task i p' None mail s) i) as Hx.
    fold s1 in Hx. rewrite Ht' in Hx. simpl in Hx. rewrite lookup_insert_eq in Hx. by injection Hx.
  - apply answers_step; [done|]. by eapply answering_asks.
  - destruct (sy_answers s !! k) as [r|] eqn:Hr; cycle 1.
    { unfold answers. rewrite gave_up_effects. simpl. intros _ Hn. by destruct (sy_gave_up s). }
    apply answers_step; [by rewrite gave_up_effects|].
    destruct (requests_wire _ _ _ _ Hp) as (l & He & Hl); [done|]. rewrite He, since_app.
    apply (answering_goes_on []) with r; try done. by apply wire_fine.
  - unfold answers. rewrite gave_up_effects. simpl. intros _ Hn. by destruct (sy_gave_up s).
  - apply answers_step; [done|]. intros Hs. by apply (answering_step s); try done; apply Hs.
  - apply answers_step; [done|]. intros Hs. by apply (answering_step s); try done; apply Hs.
  - apply answers_step; [done|]. intros Hs. apply (answering_step s); try done; [|simpl; apply Forall_app; split; [apply Hs|]|apply Hs].
    + unfold channels. simpl. by rewrite omap_snoc.
    + constructor; [|done]. by destruct m.
Qed.
End system.

(** ** Conservation *)
Section claim.
Context `{Build, Sha1Api, BV : BitVecApi, BendyApi}.
Variable h : InfoHash.

(** Nothing has happened yet; the torrent has [total] bytes and pieces of [plen]. *)
Record starts (total plen : N) (s : System) : Prop := {
  start_disk : ∃ t, d_torrents (disk (sy_disk s)) !! h = Some t ∧
    tc_total_size (torrent_cache t) = total ∧ tc_piece_length (torrent_cache t) = plen;
  start_hash : t_info_hash (torrent (sy_torrent s)) = h;
  start_out : out (sy_torrent s) = [];
  start_marked p : has (peer_pieces_req (torrent (sy_torrent s))) p = false;
  start_tasks : sy_peers s = ∅ ∧ sy_answers s = ∅;
  start_boxes : to_torrent s = [] ∧ to_disk s = [] ∧ to_free s = [];
  start_lists : sy_written s = [] ∧ sy_lost s = [] ∧ sy_gave_up s = [];
}.
Lemma starts_inv total plen s : starts total plen s → inv h total plen s.
Proof.
  intros [Hd Hh Ho Hm [Hp Ha] (Ht & Hb & Hf) (Hw & Hl & Hg)]. split; [done|right].
  split; [|intros p Hx; by rewrite Hm in Hx|intros p bs b Hx; unfold requested in Hx; rewrite Ho in Hx; by apply elem_of_nil in Hx].
  split; rewrite ?Hf, ?Ht, ?Hb, ?Hp; [done|done|apply map_Forall_empty|done|by intros q b k Hx%elem_of_nil|done].
Qed.
Lemma starts_answers total plen s : starts total plen s → answers s.
Proof.
  intros [Hd Hh Ho Hm [Hp Ha] (Ht & Hb & Hf) (Hw & Hl & Hg)] _.
  assert (∀ i k, ¬ asks s i k) as Hn by (intros i k (t & Hi & _); by rewrite Hp in Hi).
  assert (channels s = []) as Hc by (unfold channels; by rewrite Ht, Hb, Ha).
  split; rewrite ?Ht, ?Hb, ?Hc; try done; [constructor|by intros k ?%elem_of_nil|by intros i k ?%Hn|by intros i j k ?%Hn].
Qed.
(** Nobody has anything to do with blocks. *)
Definition at_rest (s : System) : Prop :=
  sy_peers s = ∅ ∧ sy_answers s = ∅ ∧ to_disk s = [] ∧ to_free s = [].

(** C26. Whatever the torrent, the disk and the peers do, in whatever order their
    messages are handled and whichever peers come, ask, answer, cancel and fail
    (the torrent neither quits nor is deleted): until the download is finished,
    every block of every piece the torrent has marked as requested (and will not
    ask for again) is in the request to the disk, in the disk's queue, in its
    answer, pending at a peer, on its way back, handed to the disk to be written,
    or lost.  It is lost only in an answer that comes after a peer gave up waiting
    for it, or at a peer whose socket fails as it requests the blocks of an
    answer; so while neither happens no block is lost, and once all peers are
    gone and the messages are handled, each block was written or is in the queue,
    from where the next peer gets it. *)
Theorem system_conserves total plen s0 s p bs b :
  starts total plen s0 → rtc (sys_step h) s0 s → ¬ finished s →
  has (peer_pieces_req (torrent (sy_torrent s))) p = true →
  @get_block_infos_of_piece _ Error total plen p = Ok bs → b ∈ bs →
  whereabouts h total plen b s ∧ (sy_gave_up s = [] → sy_lost s = []) ∧
  (at_rest s → sy_gave_up s = [] →
    b ∈ sy_written s ∨ ∃ t, d_torrents (disk (sy_disk s)) !! h = Some t ∧ b ∈ td_queue t).
Proof.
  intros Hst Hrun Hfin Hp Hbs Hb. assert (inv h total plen s ∧ answers s) as [[_ [?|Hc]] Ha]; [|done|].
  { pose proof (starts_inv _ _ _ Hst) as Hi. pose proof (starts_answers _ _ _ Hst) as Ha. clear Hst Hfin Hp.
    induction Hrun as [s|s1 s2 s3 Hs _ IH]; [done|]. apply IH; [by eapply inv_preserved|by eapply answers_preserved]. }
  assert (whereabouts h total plen b s) as Hw by (eapply (con_where h total plen _ Hc); [by apply (con_marked h total plen _ Hc)|done..]).
  assert (sy_gave_up s = [] → sy_lost s = []) as Hl by (intros Hg; by apply ans_lost, Ha).
  split_and!; [done|done|]. intros (Hp0 & Ha0 & Hd0 & Hf0) Hg. specialize (Hl Hg).
  destruct Hw as [h' n ps v k q bs' Hx|t Ht Hx|k l Hx|i t Hx|m Hx|Hx|Hx].
  - rewrite Hd0 in Hx. by apply elem_of_nil in Hx.
  - right. by exists t.
  - by rewrite Ha0 in Hx.
  - by rewrite Hp0 in Hx.
  - rewrite Hf0 in Hx. by apply elem_of_nil in Hx.
  - by left.
  - rewrite Hl in Hx. by apply elem_of_nil in Hx.
Qed.
End claim.

Section witnesses.
#[local] Existing Instances prefix_sha1 release list_bits text_bendy.

(** The small torrent of [DiskRequests]; a peer that has both pieces *)
Definition ex_start : System := {|
  sy_disk := ex_added;
  sy_torrent := {| torrent := connected_torrent [] [false; false] 32 (Counter_default 0) ex_h 0
      {| interval := 0; leechers := 0; seeders := 0 |} ∅;
    peers := ∅; connected_count := 0; max_global_peers := 5; max_torrent_peers := 3; out := [] |};
  sy_peers := ∅; to_torrent := []; to_disk := []; to_free := []; sy_answers := ∅; sy_next := 0;
  sy_written := []; sy_lost := []; sy_gave_up := [] |}.
Definition ex_asker : Peer :=
  with_flags true false false false false (with_shared (fun s => set_am_interested true (set_peer_choking false s))
    (new_peer ex_pctx true ex_h 0 0)).
(** The first message of the torrent, of the disk, of what comes back is
    handled. *)
Definition torrent_turn (s : System) : System :=
  match to_torrent s with
  | (m, k) :: l => let w := (handle_metainfo id DiskRequests.ex_torrent m (sy_torrent s)).2 in
      route_outs k (since (out (sy_torrent s)) (out w)) (with_sy_torrent w (with_boxes ([] ++ l) (to_disk s) (to_free s) s))
  | [] => s
  end.
Definition disk_turn (s : System) : System :=
  match to_disk s with
  | (m, k) :: l =>
      match handle_disk_msg id 0 m (sy_disk s) with
      | (Ok reply, d) => route_reply k reply (route_sent ex_h (since (sent (sy_disk s)) (sent d))
          (with_sy_disk d (with_boxes (to_torrent s) ([] ++ l) (to_free s) s)))
      | _ => s
      end
  | [] => s
  end.
Definition return_turn (s : System) : System :=
  match to_free s with
  | m :: l => with_sy_disk (handle_return m (sy_disk s)).2 (with_boxes (to_torrent s) (to_disk s) ([] ++ l) s)
  | [] => s
  end.
Definition told (m : TorrentMsg) (s : System) : System :=
  with_boxes (to_torrent s ++ [(m, None)]) (to_disk s) (to_free s) s.
Definition ex_told : System := told (MSetPeerBitfield [7%N] [true; true]) ex_start.
Definition ex_joined : System := set_task 0 ex_asker None [] (torrent_turn ex_told).
Definition ex_asks : System :=
  with_boxes (to_torrent ex_joined ++ [(MRequest (ctx ex_asker) (get_available_request_len (req_man_block ex_asker)), Some (sy_next ex_joined))])
    (to_disk ex_joined) (to_free ex_joined)
    (with_answers (sy_answers ex_joined) (sy_next ex_joined + 1) (sy_written ex_joined) (sy_lost ex_joined)
      (set_task 0 ex_asker (Some (sy_next ex_joined)) [] ex_joined)).
Definition ex_answered : System := disk_turn (torrent_turn ex_asks).
Definition env_with (ok : bool) (a : option (outcome Error (list BlockInfo))) : Env := {|
  now := 0; now' := 0; sink_ok := ok; torrent_ok := true; disk_ok := true; mailbox_ok := true;
  request_answer := a; meta_answer := None; piece_answer := None; info_answer := None; block_answer := None |}.
Definition ex_busy : Peer := (request_block_infos (env_with true (sy_answers ex_answered !! 0%N)) ex_asker).2.
Definition ex_working : System :=
  route_effects 0 (tail (since (effects ex_asker) (effects ex_busy)))
    (with_answers (delete 0%N (sy_answers ex_answered)) (sy_next ex_answered) (sy_written ex_answered) (sy_lost ex_answered)
      (with_gave_up (sy_gave_up ex_answered) (set_task 0 ex_busy None [] ex_answered))).
(** The peer fails as it keeps the connection alive. *)
Definition ex_failed : Peer := (peer_step (env_with false None) EvKeepAlive ex_busy).2.
Definition ex_gone : Peer := (free_pending_blocks ex_failed).2.
Definition ex_left : System :=
  with_sy_peers (delete 0%N) (route_effects 0
    (since (effects ex_busy) (effects ex_gone) ++ [ToTorrent (MPeerError (pc_addr (ctx ex_failed)))]) (set_task 0 ex_gone None [] ex_working)).
Definition ex_rest : System := return_turn (torrent_turn ex_left).
Lemma torrent_turn_step s :
  match to_torrent s with (m, _) :: _ => (handle_metainfo id DiskRequests.ex_torrent m (sy_torrent s)).1 = Ok Continue | [] => False end →
  sys_step ex_h s (torrent_turn s).
Proof.
  unfold torrent_turn. destruct (to_torrent s) as [|[m k] l] eqn:Hb; [done|]. intros Hm.
  eapply (sys_torrent _ s id DiskRequests.ex_torrent m k [] l); [done|]. rewrite <- Hm. apply surjective_pairing.
Qed.
Lemma disk_turn_step s :
  match to_disk s with (m, _) :: _ => ∃ r, (handle_disk_msg id 0 m (sy_disk s)).1 = Ok r | [] => False end →
  sys_step ex_h s (disk_turn s).
Proof.
  unfold disk_turn. destruct (to_disk s) as [|[m k] l] eqn:Hb; [done|]. intros [r Hr].
  destruct (handle_disk_msg id 0 m (sy_disk s)) as [r' d] eqn:Hd. simpl in Hr. subst r'.
  assert (∃ n, reads_len n m = m) as [n Hn] by (destruct m; try (by exists 0%N); by eexists).
  eapply (sys_disk _ s id 0%N n m k [] l); [done|by rewrite Hn].
Qed.
Lemma return_turn_step s :
  match to_free s with m :: _ => (handle_return m (sy_disk s)).1 = Ok tt | [] => False end → sys_step ex_h s (return_turn s).
Proof.
  unfold return_turn. destruct (to_free s) as [|m l] eqn:Hb; [done|]. intros Hm.
  eapply (sys_free _ s m [] l); [done|]. rewrite <- Hm. apply surjective_pairing.
Qed.
Lemma ex_run_rest : rtc (sys_step ex_h) ex_start ex_rest.
Proof.
  apply rtc_l with ex_told; [by apply sys_message|].
  apply rtc_l with (torrent_turn ex_told); [apply torrent_turn_step; by vm_compute|].
  apply rtc_l with ex_joined; [apply sys_joins; [by vm_compute|by split_and!; try (by vm_compute); intros ? ? ?]|].
  set (t := {| pk_peer := ex_asker; pk_asked := None; pk_mail := [] |}).
  apply rtc_l with ex_asks; [by (apply (sys_asks _ ex_joined 0%N t EvBlocks []); vm_compute)|].
  apply rtc_l with (torrent_turn ex_asks); [apply torrent_turn_step; by vm_compute|].
  apply rtc_l with ex_answered; [apply disk_turn_step; vm_compute; by eexists|].
  set (t1 := {| pk_peer := ex_asker; pk_asked := Some 0%N; pk_mail := [] |}).
  apply rtc_l with ex_working.
  { by (apply (sys_goes_on _ ex_answered 0%N t1 0%N (env_with true (sy_answers ex_answered !! 0%N)) ex_busy); vm_compute). }
  set (t2 := {| pk_peer := ex_busy; pk_asked := None; pk_mail := [] |}).
  apply rtc_l with ex_left.
  { by (eapply (sys_fails _ ex_working 0%N t2 (env_with false None) EvKeepAlive ex_failed ex_gone []); vm_compute). }
  apply rtc_l with (torrent_turn ex_left); [apply torrent_turn_step; by vm_compute|].
  apply rtc_once, return_turn_step. by vm_compute.
Qed.
(** When the socket fails as the peer requests the two blocks it was answered, the
    first comes back and the second is lost. *)
Definition ex_broken : Peer := (request_block_infos (env_with false (sy_answers ex_answered !! 0%N)) ex_asker).2.
Lemma ex_breaks :
  ∃ s, sys_step ex_h ex_answered s ∧ sy_lost s = [{| bi_index := 1; bi_begin := 0; bi_len := 16 |}]%N ∧
    (blocks_of <$> to_free s) = [[{| bi_index := 0; bi_begin := 0; bi_len := 16 |}]]%N.
Proof.
  eexists. split.
  - apply (sys_breaks _ ex_answered 0%N {| pk_peer := ex_asker; pk_asked := Some 0%N; pk_mail := [] |} 0%N
      (env_with false (sy_answers ex_answered !! 0%N)) ex_broken (free_pending_blocks ex_broken).2 (IO OtherKind)); by vm_compute.
  - by vm_compute.
Qed.
Lemma system_conserves_witness :
  has (peer_pieces_req (torrent (sy_torrent ex_rest))) 1 = true ∧
  ∃ t, d_torrents (disk (sy_disk ex_rest)) !! ex_h = Some t ∧ {| bi_index := 1; bi_begin := 0; bi_len := 16 |}%N ∈ td_queue t.
Proof.
  assert (has (peer_pieces_req (torrent (sy_torrent ex_rest))) 1 = true) as Hreq by by vm_compute. split; [exact Hreq|].
  destruct (system_conserves ex_h 32 16 ex_start ex_rest 1 [{| bi_index := 1; bi_begin := 0; bi_len := 16 |}]%N
    {| bi_index := 1; bi_begin := 0; bi_len := 16 |}%N) as (_ & _ & Hrest).
  - split; [exists ex_data; split_and!; vm_compute; reflexivity|reflexivity|reflexivity| |split; reflexivity|split_and!; reflexivity..].
    intros p. unfold has. change (bits (peer_pieces_req (torrent (sy_torrent ex_start)))) with [false; false].
    by destruct (N.to_nat p) as [|[|]].
  - exact ex_run_rest.
  - assert (Forall (fun o => match o with Broadcast Seedonly | Torrent.ToDisk (FinishedDownload _) => False | _ => True end)
      (out (sy_torrent ex_rest))) as Hn by (vm_compute; repeat constructor).
    rewrite Forall_forall in Hn. intros [Hx|[h' Hx]]; exact (Hn _ Hx).
  - exact Hreq.
  - by vm_compute.
  - by left.
  - destruct Hrest as [Hw|Ht]; [split_and!; vm_compute; reflexivity|vm_compute; reflexivity| |exact Ht].
    assert (sy_written ex_rest = []) as Hn by (vm_compute; reflexivity). rewrite Hn in Hw. destruct (not_elem_of_nil _ Hw).
Defined.
End witnesses.
