(* ===== verification/Magnet.v ===== *)
(** [magnet.rs]: the info hash, the name and the trackers of a magnet link.
    The link itself is parsed by [magnet_url]; [hex] and [urlencoding] decode
    its fields. *)
From S2P Require Import Prelude Buffers Errors Bencode Core Metainfo Floats Torrent DaemonWire.

(** The fields of [magnet_url::Magnet] that are read, [hex::decode] and
    [urlencoding::decode]. Hexadecimal text is twice as long as what it
    encodes. *)
Class MagnetFields `{MA : MagnetApi} := {
  hash : Magnet → option (list N);
  display_name : Magnet → option (list N);
  trackers : Magnet → list (list N);
  hex_decode : list N → option (list N);
  url_decode : list N → option (list N);
  hex_length s b : hex_decode s = Some b → len s = (2 * len b)%N;
}.

(** ** Text *)

(** [str::find]: the offset of the first occurrence *)
Fixpoint find_sub (pat s : list N) : option N :=
  if decide (take (length pat) s = pat) then Some 0%N
  else match s with [] => None | _ :: s => N.succ <$> find_sub pat s end.

(** [str::replace]; [skip] counts the bytes of an occurrence still to drop *)
Fixpoint replace_go (pat to s : list N) (skip : nat) : list N :=
  match s with
  | [] => []
  | x :: s' =>
      match skip with
      | S skip => replace_go pat to s' skip
      | O => if decide (take (length pat) s = pat) then to ++ replace_go pat to s' (pred (length pat))
             else x :: replace_go pat to s' 0
      end
  end.
Definition replace (pat to s : list N) : list N := replace_go pat to s 0.

Section magnet.
Context `{MagnetFields}.

(** [Magnet::parse_dn] *)
Definition parse_dn (m : Magnet) : list N :=
  match display_name m ≫= url_decode with
  | Some dn => dn
  | None => ascii "Unknown"
  end.

(** [Magnet::parse_xt_infohash]: what is no hexadecimal text, or less than 40
    digits of it, panics. *)
Definition parse_xt_infohash (m : Magnet) : outcome Error InfoHash :=
  info_hash ← or_panic (hex_decode (default (replicate 40 48%N) (hash m)));
  slice info_hash 0 20.

(** One tracker: [None] is a [continue]. The offsets are next to ASCII text, so
    slicing there never splits a character. *)
Definition organize_tracker (x : list N) : outcome Error (option (list N)) :=
  match find_sub (ascii "%3A%2F%2F") x with
  | None => Ok None
  | Some b =>
      rest ← slice x (b + 8) (len x);
      match find_sub (ascii "%2F") rest with
      | None => Ok None
      | Some e =>
          prot ← slice x 0 b;
          if negb (bool_decide (prot = ascii "udp")) then Ok None
          else
            url ← slice x (b + 9) (e + b + 8);
            Ok (Some (replace (ascii "%3A") (ascii ":") url))
      end
  end.

(** [Magnet::organize_trackers] *)
Definition organize_trackers (m : Magnet) : outcome Error (list (list N)) :=
  l ← (mapM_outcome organize_tracker (trackers m) : outcome Error (list (option (list N))));
  Ok (omap (M:=list) id l).

(** [MetaInfo::organize_trackers], one URL: whether it is of UDP is told from the
    text before it is decoded. *)
Definition organize_meta_tracker (x : list N) : outcome Error (option (list N)) :=
  match url_decode x with
  | None => Ok None
  | Some uri =>
      let before n := window 0 n x in
      let prot := match find_sub (ascii "%3A") x with
                  | Some n => before n
                  | None => default [] (before <$> find_sub (ascii ":") x)
                  end in
      if negb (bool_decide (prot = ascii "udp")) then Ok None
      else
        let uri := replace (ascii "udp://") [] uri in
        match find_sub (ascii "/announce") uri with
        | Some i => uri ← slice uri 0 i; Ok (Some uri)
        | None => Ok (Some uri)
        end
  end.
(** [MetaInfo::organize_trackers]: [announce] itself is not among the trackers. *)
Definition organize_meta_trackers (m : MetaInfo) : outcome Error (list (list N)) :=
  l ← (mapM_outcome organize_meta_tracker (concat (default [] (announce_list m))) : outcome Error (list (option (list N))));
  Ok (omap (M:=list) id l).
End magnet.

(** ** Facts *)

Section facts.
Implicit Types (p s a host port path : list N).

Lemma find_sub_spec pat s :
  match find_sub pat s with
  | Some n => (n + len pat <= len s)%N ∧ window n (len pat) s = pat
  | None => True
  end.
Proof.
  induction s as [|x s IH]; cbn [find_sub].
  - case_decide as Hp; [|done]. rewrite take_nil in Hp. by subst pat.
  - case_decide as Hp.
    + split.
      * rewrite <- Hp. unfold len. rewrite length_take. lia.
      * unfold window, len. cbn [N.to_nat drop]. by rewrite Nat2N.id.
    + destruct (find_sub pat s) as [n|]; [|done]. cbn [fmap option_fmap option_map].
      destruct IH as [Hl Hw]. split; [unfold len in *; cbn [length]; lia|].
      unfold window in *. by rewrite N2Nat.inj_succ.
Qed.

(** Text without the first byte of the pattern is passed over. *)
Lemma find_sub_skip c p a s : c ∉ a → find_sub (c :: p) (a ++ s) = N.add (len a) <$> find_sub (c :: p) s.
Proof.
  induction a as [|x a IH]; intros Hc.
  { cbn [app]. destruct (find_sub _ s) as [n|]; [|done]. cbn. by rewrite N.add_0_l. }
  cbn [app find_sub]. rewrite decide_False by (cbn [length take]; intros [= Hx _]; subst x; apply Hc; constructor).
  rewrite IH by set_solver. destruct (find_sub (c :: p) s) as [n|]; [|done].
  cbn. f_equal. unfold len. cbn [length]. lia.
Qed.
Lemma find_sub_here p s : find_sub p (p ++ s) = Some 0%N.
Proof. destruct (p ++ s) eqn:Hs; cbn [find_sub]; by rewrite decide_True by (rewrite <- Hs; apply take_app_length). Qed.
Lemma find_sub_absent c p a : c ∉ a → find_sub (c :: p) a = None.
Proof. intros Hc. rewrite <- (app_nil_r a), find_sub_skip by done. done. Qed.

Lemma replace_skip c p to a s : c ∉ a → replace (c :: p) to (a ++ s) = a ++ replace (c :: p) to s.
Proof.
  unfold replace. induction a as [|x a IH]; intros Hc; [done|].
  cbn [app replace_go]. rewrite decide_False by (cbn [length take]; intros [= Hx _]; subst x; apply Hc; constructor).
  by rewrite IH by set_solver.
Qed.
Lemma replace_go_drop p to l s : replace_go p to (l ++ s) (length l) = replace_go p to s 0.
Proof. induction l as [|x l IH]; [done|]. exact IH. Qed.
Lemma replace_here c p to s : replace (c :: p) to ((c :: p) ++ s) = to ++ replace (c :: p) to s.
Proof.
  unfold replace. cbn [app replace_go]. rewrite decide_True.
  - f_equal. apply replace_go_drop.
  - change (c :: p ++ s) with ((c :: p) ++ s). by rewrite take_app_length.
Qed.

Lemma slice_mid {E} a m s i j : i = len a → j = (i + len m)%N → @slice E N (a ++ m ++ s) i j = Ok m.
Proof.
  intros -> ->. unfold len. rewrite slice_ok by (unfold len; rewrite ?length_app; lia). f_equal. unfold window.
  rewrite Nat2N.id, drop_app_length.
  replace (N.to_nat _) with (length m) by lia. apply take_app_length.
Qed.

Lemma replace_absent p to s : find_sub p s = None → replace p to s = s.
Proof.
  unfold replace. induction s as [|x s IH]; intros Hf; [done|]. cbn [find_sub replace_go] in *.
  case_decide; [done|]. destruct (find_sub p s) eqn:Hs; [done|]. by rewrite IH.
Qed.
(** The URL of a UDP tracker in a torrent file *)
Definition udp_url host port path : list N := ascii "udp://" ++ host ++ ascii ":" ++ port ++ ascii "/announce" ++ path.
Lemma organize_meta_udp `{MagnetFields} host port path :
  url_decode (udp_url host port path) = Some (udp_url host port path) →
  37%N ∉ udp_url host port path → 47%N ∉ host → 47%N ∉ port →
  find_sub (ascii "udp://") (host ++ ascii ":" ++ port ++ ascii "/announce" ++ path) = None →
  organize_meta_tracker (udp_url host port path) = Ok (Some (host ++ ascii ":" ++ port)).
Proof.
  intros Hd H37 Hh Hp Hu. unfold organize_meta_tracker. rewrite Hd. cbv zeta.
  change (ascii "%3A") with (37%N :: ascii "3A"). rewrite find_sub_absent by done.
  assert (find_sub (ascii ":") (udp_url host port path) = Some 3%N) as ->.
  { change (find_sub (58%N :: []) (ascii "udp" ++ [58%N] ++ ascii "//" ++ host ++ ascii ":" ++ port ++ ascii "/announce" ++ path) = Some 3%N).
    rewrite find_sub_skip by (by apply (bool_decide_unpack _)). by rewrite find_sub_here. }
  cbn [fmap option_fmap option_map default from_option id].
  change (window 0 3 (udp_url host port path)) with (ascii "udp").
  rewrite bool_decide_eq_true_2 by done. cbn [negb]. unfold udp_url.
  change (ascii "udp://") with (117%N :: ascii "dp://") in Hu |- *.
  rewrite replace_here, (replace_absent _ _ _ Hu), app_nil_l.
  replace (host ++ ascii ":" ++ port ++ ascii "/announce" ++ path)
    with ((host ++ ascii ":" ++ port) ++ ascii "/announce" ++ path) by by rewrite <- !app_assoc.
  change (ascii "/announce") with (47%N :: ascii "announce").
  rewrite find_sub_skip, find_sub_here.
  - cbn [fmap option_fmap option_map].
    match goal with |- context [slice ?l 0 ?n] => assert (slice l 0 n = @Ok Error _ (host ++ ascii ":" ++ port)) as -> end; [|done].
    apply (slice_mid []); [done|]. lia.
  - rewrite !elem_of_app. change (ascii ":") with [58%N]. rewrite list_elem_of_singleton. naive_solver.
Qed.
Lemma organize_meta_no_panic `{MagnetFields} x : organize_meta_tracker x ≠ Panic.
Proof.
  unfold organize_meta_tracker. destruct (url_decode x) as [uri|]; [|done]. cbv zeta. case_match; [done|].
  pose proof (find_sub_spec (ascii "/announce") (replace (ascii "udp://") [] uri)) as Hs.
  destruct (find_sub _ (replace _ _ uri)) as [i|]; [|done]. rewrite slice_ok by lia. done.
Qed.

Definition udp_sep : list N := ascii "udp%3A%2F%2F".
Lemma organize_udp y :
  organize_tracker (udp_sep ++ y) =
  match find_sub (ascii "%2F") y with
  | None => Ok None
  | Some e => url ← slice (udp_sep ++ y) 12 (e + 12); Ok (Some (replace (ascii "%3A") (ascii ":") url))
  end.
Proof.
  unfold organize_tracker.
  assert (Hn : 37%N ∉ ascii "udp") by (by apply (bool_decide_unpack _)).
  assert (find_sub (ascii "%3A%2F%2F") (udp_sep ++ y) = Some 3%N) as ->.
  { change (udp_sep ++ y) with (ascii "udp" ++ ascii "%3A%2F%2F" ++ y).
    change (ascii "%3A%2F%2F") with (37%N :: ascii "3A%2F%2F").
    by rewrite (find_sub_skip _ _ _ _ Hn), find_sub_here. }
  assert (slice (udp_sep ++ y) (3 + 8) (len (udp_sep ++ y)) = @Ok Error _ (70%N :: y)) as ->.
  { rewrite <- (slice_mid (ascii "udp%3A%2F%2") (70%N :: y) [] 11 (11 + len (70%N :: y)) eq_refl eq_refl).
    rewrite app_nil_r. f_equal. unfold len. rewrite length_app. change (length udp_sep) with 12. cbn [length]. lia. }
  cbn [mbind outcome_bind find_sub]. rewrite decide_False by done.
  destruct (find_sub (ascii "%2F") y) as [e|]; [|done]. cbn [fmap option_fmap option_map].
  assert (slice (udp_sep ++ y) 0 3 = @Ok Error _ (ascii "udp")) as ->.
  { apply (slice_mid [] (ascii "udp") (ascii "%3A%2F%2F" ++ y)); reflexivity. }
  cbn [mbind outcome_bind]. rewrite bool_decide_eq_true_2 by done. cbn [negb].
  by replace (N.succ e + 3 + 8)%N with (e + 12)%N by lia.
Qed.

Lemma organize_encoded host port path :
  37%N ∉ host → 37%N ∉ port →
  let url := udp_sep ++ host ++ ascii "%3A" ++ port in
  organize_tracker (url ++ ascii "%2F" ++ path) = Ok (Some (host ++ ascii ":" ++ port)) ∧
  organize_tracker url = Ok None.
Proof.
  intros Hh Hp url.
  assert (H3 : ∀ s, find_sub (ascii "%2F") (ascii "%3A" ++ s) = N.add 3 <$> find_sub (ascii "%2F") s).
  { intros s. change (ascii "%3A" ++ s) with (37%N :: ascii "3A" ++ s). cbn [find_sub].
    rewrite decide_False by done. change (ascii "%2F") with (37%N :: ascii "2F").
    rewrite find_sub_skip by (by apply (bool_decide_unpack _)).
    destruct (find_sub _ s) as [n|]; [|done]. cbn [fmap option_fmap option_map]. f_equal. change (len (ascii "3A")) with 2%N. lia. }
  change (ascii "%2F") with (37%N :: ascii "2F") in H3 |- *.
  assert (Hf : ∀ s, find_sub (37%N :: ascii "2F") (host ++ ascii "%3A" ++ port ++ s) =
    N.add (len (host ++ ascii "%3A" ++ port)) <$> find_sub (37%N :: ascii "2F") s).
  { intros s. rewrite find_sub_skip, H3, find_sub_skip by done.
    destruct (find_sub _ s) as [n|]; [|done]. cbn [fmap option_fmap option_map]. f_equal. rewrite !len_app.
    change (len (ascii "%3A")) with 3%N. lia. }
  split_and!.
  - unfold url. rewrite <- !app_assoc, organize_udp. change (ascii "%2F") with (37%N :: ascii "2F") at 1.
    rewrite Hf, find_sub_here. cbn [fmap option_fmap option_map].
    rewrite (app_assoc (ascii "%3A")), (app_assoc host), (slice_mid udp_sep (host ++ ascii "%3A" ++ port));
      [|reflexivity|lia].
    cbn [mbind outcome_bind]. do 2 f_equal. change (ascii "%3A") with (37%N :: ascii "3A").
    rewrite replace_skip by done. rewrite replace_here, <- (app_nil_r port) at 1.
    by rewrite replace_skip, app_nil_r by done.
  - unfold url. rewrite organize_udp. change (ascii "%2F") with (37%N :: ascii "2F").
    rewrite <- (app_nil_r port), Hf. done.
Qed.
Lemma organize_no_panic x : organize_tracker x ≠ Panic.
Proof.
  unfold organize_tracker. pose proof (find_sub_spec (ascii "%3A%2F%2F") x) as Hb.
  destruct (find_sub _ x) as [b|]; [|done]. destruct Hb as [Hb Hbw]. change (len (ascii "%3A%2F%2F")) with 9%N in Hb, Hbw.
  rewrite (slice_ok x (b + 8) (len x)) by lia. cbn [mbind outcome_bind].
  change (ascii "%2F") with (37%N :: ascii "2F"). pose proof (find_sub_spec (37%N :: ascii "2F") (window (b + 8) (len x - (b + 8)) x)) as He.
  destruct (find_sub _ (window _ _ _)) as [e|]; [|done]. destruct He as [He Hw].
  change (len (37%N :: ascii "2F")) with 3%N in He, Hw. rewrite len_window in He by lia.
  rewrite (slice_ok x 0 b) by lia. cbn [mbind outcome_bind]. case_match; [done|].
  rewrite (slice_ok x (b + 9) (e + b + 8)); [done| |lia].
  enough (e ≠ 0%N) by lia. intros ->.
  apply (f_equal (fun l => l !! 0)) in Hw. apply (f_equal (fun l => l !! 8)) in Hbw.
  unfold window in Hw, Hbw. rewrite lookup_take_lt, lookup_drop, lookup_take_lt, lookup_drop in Hw by lia.
  rewrite lookup_take_lt, lookup_drop in Hbw by lia.
  replace (N.to_nat (b + 8) + (N.to_nat 0 + 0)) with (N.to_nat b + 8) in Hw by lia.
  rewrite Hbw in Hw. done.
Qed.

(** The host and port of a UDP tracker are recovered from its URL: from a
    magnet link, where the URL is percent-encoded, if the URL has a path, and
    left out without one; from a torrent file, where it is plain, up to
    /announce.  Whatever a link or a file says, nothing panics. *)
Theorem magnet_trackers `{MagnetFields} host port path :
  37%N ∉ host → 37%N ∉ port → 47%N ∉ host → 47%N ∉ port →
  let url := udp_sep ++ host ++ ascii "%3A" ++ port in
  organize_tracker (url ++ ascii "%2F" ++ path) = Ok (Some (host ++ ascii ":" ++ port)) ∧
  organize_tracker url = Ok None ∧
  (url_decode (udp_url host port path) = Some (udp_url host port path) →
   37%N ∉ udp_url host port path →
   find_sub (ascii "udp://") (host ++ ascii ":" ++ port ++ ascii "/announce" ++ path) = None →
   organize_meta_tracker (udp_url host port path) = Ok (Some (host ++ ascii ":" ++ port))) ∧
  ∀ x, organize_tracker x ≠ Panic ∧ organize_meta_tracker x ≠ Panic.
Proof.
  intros Hh Hp Hh' Hp' url. destruct (organize_encoded host port path Hh Hp) as [? ?].
  split_and!; [done|done|intros; by apply organize_meta_udp|].
  intros x. split; [apply organize_no_panic|apply organize_meta_no_panic].
Qed.
End facts.

(** A link that says nothing, and URLs without percent signs *)
Section witnesses.
#[local] Instance ex_no_links : MagnetApi.
Proof. by refine {| Magnet := unit; Magnet_new := fun _ => Some tt; Magnet_to_string := fun _ => [] |}. Defined.
#[local] Instance ex_plain : MagnetFields.
Proof.
  by refine {| hash := fun _ => None; display_name := fun _ => None; trackers := fun _ => [];
    url_decode := fun s => if decide (37%N ∈ s) then None else Some s; hex_decode := fun _ => None |}.
Defined.

Lemma magnet_trackers_witness :
  organize_tracker (ascii "udp%3A%2F%2Fopen.stealth.si%3A80%2Fannounce") = Ok (Some (ascii "open.stealth.si:80")) ∧
  organize_tracker (ascii "udp%3A%2F%2Fopen.stealth.si%3A80") = Ok None ∧
  organize_meta_tracker (ascii "udp://open.stealth.si:80/announce") = Ok (Some (ascii "open.stealth.si:80")).
Proof.
  destruct (magnet_trackers (ascii "open.stealth.si") (ascii "80") (ascii "announce")) as (H1 & H2 & _);
    [by apply (bool_decide_unpack _)..|].
  destruct (magnet_trackers (ascii "open.stealth.si") (ascii "80") []) as (_ & _ & H3 & _);
    [by apply (bool_decide_unpack _)..|].
  split; [exact H1|]. split; [exact H2|]. apply H3; [reflexivity|by apply (bool_decide_unpack _)|reflexivity].
Defined.
End witnesses.

Example magnet_http_tracker :
  organize_tracker (ascii "http%3A%2F%2Fnyaa.tracker.wf%3A7777%2Fannounce") = Ok None.
Proof. vm_compute. reflexivity. Qed.
