(* ===== verification/Daemon.v ===== *)
(** [daemon.rs]: the daemon, which owns the torrents: its mailbox and messages,
    the states it keeps for the frontends, and the connection of a frontend.
    The tasks of the torrents and the disk are told by effects. *)
From S2P Require Import Prelude Buffers Errors Bits Bencode Core Metainfo Disk Floats Torrent DaemonWire Magnet.

(** [DAEMON_MSG_BOUND] *)
Definition DAEMON_MSG_BOUND : N := 128.

Section daemon.
Context `{BV : BitVecApi, MF : MagnetFields}.

(** The part of [Torrent<Idle, FromMetaInfo>] that is read *)
Record IdleTorrent := { it_name : list N; it_bitfield : bitvec; it_meta : MetaInfo }.

Inductive DaemonMsg :=
  | DaNewTorrentMagnet (m : Magnet)
  | DaAddTorrent (t : IdleTorrent)
  | DaDeleteTorrent (h : InfoHash) (also_from_disk : bool)
  | DaGetAllTorrentState
  | DaTorrentState (s : TorrentState)
  | DaRequestTorrentState (h : InfoHash)
  | DaTogglePause (h : InfoHash)
  | DaPrintTorrentState
  | DaQuit.

(** What the daemon does to the outside, in order; a message to a torrent whose
    task is over is lost. *)
Inductive DaemonEffect :=
  | TellTorrent (h : InfoHash) (m : TorrentMsg)
  | TellDiskDelete (h : InfoHash) (also_from_disk : bool)
  | TellDiskQuit
  | SpawnTorrent (h : InfoHash)
  | AnswerStates (l : list TorrentState)
  | AnswerState (s : option TorrentState)
  | PrintStates (l : list TorrentState).

(** [Daemon] with its context: [torrent_ctxs] maps to the size of the metadata,
    the field of a [TorrentCtx] that the daemon's tasks read; [d_rx] is the
    mailbox, oldest message first. *)
Record Daemon := {
  torrent_states : list TorrentState;
  torrent_ctxs : gmap InfoHash N;
  quit_after_complete : bool;
  d_rx : list DaemonMsg;
  d_out : list DaemonEffect;
}.
Abbreviation dact := (action Daemon Error).

Definition with_states (f : list TorrentState → list TorrentState) (d : Daemon) : Daemon := {|
  torrent_states := f (torrent_states d); torrent_ctxs := torrent_ctxs d;
  quit_after_complete := quit_after_complete d; d_rx := d_rx d; d_out := d_out d |}.
Definition with_ctxs (f : gmap InfoHash N → gmap InfoHash N) (d : Daemon) : Daemon := {|
  torrent_states := torrent_states d; torrent_ctxs := f (torrent_ctxs d);
  quit_after_complete := quit_after_complete d; d_rx := d_rx d; d_out := d_out d |}.
Definition with_rx (l : list DaemonMsg) (d : Daemon) : Daemon := {|
  torrent_states := torrent_states d; torrent_ctxs := torrent_ctxs d;
  quit_after_complete := quit_after_complete d; d_rx := l; d_out := d_out d |}.
Definition with_out (l : list DaemonEffect) (d : Daemon) : Daemon := {|
  torrent_states := torrent_states d; torrent_ctxs := torrent_ctxs d;
  quit_after_complete := quit_after_complete d; d_rx := d_rx d; d_out := d_out d ++ l |}.

(** [Daemon::new] *)
Definition Daemon_new (quit : bool) : Daemon := {|
  torrent_states := []; torrent_ctxs := ∅; quit_after_complete := quit; d_rx := []; d_out := [] |}.

(** [TorrentState { name, info_hash, bitfield, ..Default::default() }] *)
Definition default_state (name : list N) (h : InfoHash) (bits : list N) : TorrentState := {|
  ts_name := name; ts_stats := {| interval := 0; leechers := 0; seeders := 0 |};
  ts_status := ConnectingTrackers; ts_downloaded := 0; ts_download_rate := f64_of 0;
  ts_uploaded := 0; ts_upload_rate := f64_of 0; ts_size := 0; ts_info_hash := h;
  ts_bitfield := bits; ts_connected_peers := 0; ts_downloading_from := 0; ts_idle_peers := 0 |}.
(** [impl From<&Torrent<Idle, FromMetaInfo>> for TorrentState] *)
Definition state_of_idle (t : IdleTorrent) : TorrentState :=
  default_state (it_name t) (info_hash (mi_info (it_meta t))) (to_bytes (it_bitfield t)).

(** ** Handlers *)

(** A message the daemon sends to a torrent or to the disk is taken at once.  The
    code awaits room in their bounded mailboxes: it would wait with a task that
    does not read its own. *)
Definition effect (e : DaemonEffect) : dact unit := modifyS (with_out [e]).

(** [torrent_states.iter().any(|v| v.info_hash == info_hash)] *)
Definition present (h : InfoHash) (d : Daemon) : bool :=
  existsb (fun s => bool_decide (ts_info_hash s = h)) (torrent_states d).

(** [Daemon::new_torrent_magnet] *)
Definition new_torrent_magnet (m : Magnet) : dact unit :=
  lift (parse_xt_infohash m) ≫= fun h =>
  getS ≫= fun d =>
  if present h d then lift (Err NoDuplicateTorrent)
  else
    modifyS (with_states (fun l => l ++ [default_state (parse_dn m) h []])) ≫= fun _ =>
    modifyS (with_ctxs <[h := 0%N]>) ≫= fun _ =>
    effect (SpawnTorrent h).

(** [Daemon::add_torrent_meta_info] *)
Definition add_torrent_meta_info (t : IdleTorrent) : dact unit :=
  let h := info_hash (mi_info (it_meta t)) in
  getS ≫= fun d =>
  if present h d then lift (Err NoDuplicateTorrent)
  else
    modifyS (with_ctxs <[h := metadata_size (mi_info (it_meta t))]>) ≫= fun _ =>
    modifyS (with_states (fun l => l ++ [state_of_idle t])) ≫= fun _ =>
    effect (SpawnTorrent h).

(** [Daemon::delete_torrent] *)
Definition delete_torrent (h : InfoHash) (also_from_disk : bool) : dact unit :=
  getS ≫= fun d =>
  match torrent_ctxs d !! h with
  | None => mret tt
  | Some _ =>
      effect (TellTorrent h MQuit) ≫= fun _ =>
      effect (TellDiskDelete h also_from_disk) ≫= fun _ =>
      modifyS (with_states (filter (fun v => ts_info_hash v ≠ h))) ≫= fun _ =>
      modifyS (with_ctxs (delete h))
  end.

(** [Daemon::quit_all_torrents] *)
Definition quit_all_torrents : dact unit :=
  getS ≫= fun d =>
  modifyS (with_out ((fun e => TellTorrent e.1 MQuit) <$> map_to_list (torrent_ctxs d))) ≫= fun _ =>
  modifyS (with_ctxs (fun _ => ∅)).

(** [Daemon::toggle_pause] *)
Definition daemon_toggle_pause (h : InfoHash) : dact unit :=
  getS ≫= fun d =>
  lift (ok_or TorrentDoesNotExist (torrent_ctxs d !! h)) ≫= fun _ =>
  effect (TellTorrent h MTogglePause).

(** The state of a torrent takes the place of the first of its hash, or goes to
    the end. *)
Fixpoint upsert (s : TorrentState) (l : list TorrentState) : list TorrentState :=
  match l with
  | [] => [s]
  | v :: l => if bool_decide (ts_info_hash v = ts_info_hash s) then s :: l else v :: upsert s l
  end.

(** How a turn of the loop ends: it goes on, the loop is over, or it waits for
    ever (the loop sends to its own full mailbox). *)
Inductive dflow := DGo | DStop | DStuck.

(** One message of [Daemon::run] *)
Definition handle_daemon (m : DaemonMsg) : dact dflow :=
  match m with
  | DaNewTorrentMagnet m => catch tt (new_torrent_magnet m) ≫= fun _ => mret DGo
  | DaAddTorrent t => catch tt (add_torrent_meta_info t) ≫= fun _ => mret DGo
  | DaDeleteTorrent h also => catch tt (delete_torrent h also) ≫= fun _ => mret DGo
  | DaGetAllTorrentState => getS ≫= fun d => effect (AnswerStates (torrent_states d)) ≫= fun _ => mret DGo
  | DaTorrentState s =>
      modifyS (with_states (upsert s)) ≫= fun _ =>
      getS ≫= fun d =>
      if quit_after_complete d && forallb (fun v => bool_decide (ts_status v = Seeding)) (torrent_states d)
      then
        if (DAEMON_MSG_BOUND <=? len (d_rx d))%N then mret DStuck
        else modifyS (with_rx (d_rx d ++ [DaQuit])) ≫= fun _ => mret DGo
      else mret DGo
  | DaTogglePause h => catch tt (daemon_toggle_pause h) ≫= fun _ => mret DGo
  | DaRequestTorrentState h =>
      getS ≫= fun d =>
      effect (AnswerState (list_find (fun v => ts_info_hash v = h) (torrent_states d) ≫= fun e => Some e.2)) ≫= fun _ =>
      mret DGo
  | DaPrintTorrentState => getS ≫= fun d => effect (PrintStates (torrent_states d)) ≫= fun _ => mret DGo
  | DaQuit =>
      catch tt quit_all_torrents ≫= fun _ => effect TellDiskQuit ≫= fun _ => mret DStop
  end.

(** The oldest message is taken from the mailbox and handled. *)
Definition daemon_turn (d : Daemon) : outcome Error dflow * Daemon :=
  match d_rx d with
  | [] => (Ok DGo, d)
  | m :: rx => handle_daemon m (with_rx rx d)
  end.

(** Messages sent to the daemon; those that do not fit wait outside. *)
Definition arrive (l : list DaemonMsg) (d : Daemon) : Daemon :=
  with_rx (d_rx d ++ take (N.to_nat (DAEMON_MSG_BOUND - len (d_rx d))) l) d.

(** The loop, as many turns as there are [arrivals], which come in before each
    turn. [None]: it still runs. *)
Fixpoint daemon_run (arrivals : list (list DaemonMsg)) (d : Daemon)
    : option (outcome Error dflow) * Daemon :=
  match arrivals with
  | [] => (None, d)
  | l :: arrivals =>
      match daemon_turn (arrive l d) with
      | (Ok DGo, d) => daemon_run arrivals d
      | (r, d) => (Some r, d)
      end
  end.

(** What can happen to a running daemon: messages arrive and one is handled. *)
Inductive daemon_step : relation Daemon :=
  | daemon_handle l d d' : daemon_turn (arrive l d) = (Ok DGo, d') → daemon_step d d'.

(** ** The connection of a frontend *)
Context `{R1 : !RkyvApi TorrentState, R2 : !RkyvApi (list TorrentState)}.

(** [Daemon::handle_remote_msgs]: what the daemon is sent, and what goes back to
    the frontend; [answer] is what the daemon answers, if it does. *)
Definition handle_remote_msgs (msg : Message) (answer : option (option TorrentState))
    : list DaemonMsg * outcome Error (list Message) :=
  match msg with
  | DmDeleteTorrent h also => ([DaDeleteTorrent h also], Ok [])
  | DmNewTorrent m => ([DaNewTorrentMagnet m], Ok [])
  | DmGetTorrentState h =>
      ([DaRequestTorrentState h],
       r ← ok_or ReceiveErrorOneshot answer;
       Ok (match r with Some r => [DmTorrentState r] | None => [] end))
  | DmTogglePause h => ([DaTogglePause h], Ok [])
  | DmQuit => ([DaQuit], Ok [])
  | DmPrintTorrentStatus => ([DaPrintTorrentState], Ok [])
  | _ => ([], Ok [])
  end.

(** [Daemon::draw]: the message drawn, if the frontend takes it, and whether the
    connection is cancelled *)
Definition draw (answer : option (list TorrentState)) (sink_ok : bool)
    : list DaemonMsg * outcome Error (list Message * bool) :=
  ([DaGetAllTorrentState],
   states ← ok_or ReceiveErrorOneshot answer;
   Ok (if sink_ok then ([DmTorrentStates states], false) else ([], true))).

(** The task of a connection: [fr_cancelled] is its token, [fr_sent] what the
    frontend was sent, [fr_asked] what the daemon was sent. *)
Record Frontend := { fr_cancelled : bool; fr_sent : list Message; fr_asked : list DaemonMsg }.
Inductive FrontendEvent :=
  | FeCancelled
  | FeTick (answer : option (list TorrentState)) (sink_ok : bool)
  | FeMessage (m : Message) (answer : option (option TorrentState)).

(** One turn: the next state, or [None] when the task is over *)
Definition frontend_step (f : Frontend) (ev : FrontendEvent) : option Frontend :=
  match ev with
  | FeCancelled => if fr_cancelled f then None else Some f
  | FeTick answer sink_ok =>
      let '(asked, r) := draw answer sink_ok in
      match r with
      | Ok (sent, cancel) =>
          Some {| fr_cancelled := fr_cancelled f || cancel; fr_sent := fr_sent f ++ sent;
                  fr_asked := fr_asked f ++ asked |}
      | _ => None
      end
  | FeMessage m answer =>
      let '(asked, r) := handle_remote_msgs m answer in
      let quit := match m with DmFrontendQuit => true | _ => false end in
      match r with
      | Ok sent =>
          Some {| fr_cancelled := fr_cancelled f || quit; fr_sent := fr_sent f ++ sent;
                  fr_asked := fr_asked f ++ asked |}
      | _ => None
      end
  end.
End daemon.
