(* ===== verification/DaemonFacts.v ===== *)
(** What the daemon keeps track of, a deleted torrent that comes back, and the
    way the daemon quits. *)
From S2P Require Import Prelude Buffers Errors Bits Bencode Core Metainfo Disk Floats Torrent DaemonWire Magnet Daemon.

Section daemon.
Context `{BV : BitVecApi, MF : MagnetFields}.
Implicit Types (d : Daemon) (m : DaemonMsg) (h : InfoHash) (s : TorrentState) (l : list TorrentState).

(** ** The states *)

Abbreviation hashes l := (ts_info_hash <$> l).

Lemma upsert_hashes s l :
  hashes (upsert s l) = if decide (ts_info_hash s ∈ hashes l) then hashes l else hashes l ++ [ts_info_hash s].
Proof.
  induction l as [|v l IH]; [done|]. cbn [upsert]. destruct (bool_decide_reflect (ts_info_hash v = ts_info_hash s)) as [Hv|Hv].
  - cbn [fmap list_fmap]. rewrite Hv. rewrite decide_True by constructor. done.
  - rewrite !fmap_cons, IH. destruct (decide (ts_info_hash s ∈ hashes l)) as [Hs|Hs].
    + by rewrite decide_True by (by constructor).
    + rewrite decide_False; [done|]. intros [He|He]%elem_of_cons; [by apply Hv|done].
Qed.
Lemma elem_upsert h s l : h ∈ hashes (upsert s l) ↔ h ∈ hashes l ∨ h = ts_info_hash s.
Proof.
  rewrite upsert_hashes. case_decide; [|by rewrite elem_of_app, list_elem_of_singleton].
  split; [by left|]. by intros [?| ->].
Qed.
Lemma NoDup_upsert s l : NoDup (hashes l) → NoDup (hashes (upsert s l)).
Proof.
  intros Hl. rewrite upsert_hashes. case_decide; [done|].
  apply NoDup_app. split; [done|]. split; [|apply NoDup_singleton].
  by intros x Hx ->%list_elem_of_singleton.
Qed.
Lemma elem_forget h h' l : h ∈ hashes (filter (fun v => ts_info_hash v ≠ h') l) ↔ h ∈ hashes l ∧ h ≠ h'.
Proof.
  rewrite !list_elem_of_fmap. split.
  - intros (v & -> & [Hv Hin]%list_elem_of_filter). eauto.
  - intros [(v & -> & Hin) Hv]. exists v. split; [done|]. by apply list_elem_of_filter.
Qed.
Lemma NoDup_forget h l : NoDup (hashes l) → NoDup (hashes (filter (fun v => ts_info_hash v ≠ h) l)).
Proof.
  induction l as [|v l IH]; [done|]. rewrite fmap_cons. intros [Hv Hl]%NoDup_cons.
  destruct (decide (ts_info_hash v ≠ h)).
  - rewrite filter_cons_True, fmap_cons by done. apply NoDup_cons. split; [|by apply IH].
    by intros [? _]%elem_forget.
  - rewrite filter_cons_False by done. by apply IH.
Qed.
Lemma present_spec h d : present h d = true ↔ h ∈ hashes (torrent_states d).
Proof.
  unfold present. rewrite List.existsb_exists, list_elem_of_fmap. split.
  - intros (v & Hin%list_elem_of_In & Hv%bool_decide_eq_true). by exists v.
  - intros (v & -> & Hin). exists v. split; [by apply list_elem_of_In|by apply bool_decide_eq_true].
Qed.

(** ** The torrents that run *)

(** Those spawned and not yet told to quit, as the effects tell *)
Definition live_step (X : gset InfoHash) (e : DaemonEffect) : gset InfoHash :=
  match e with
  | SpawnTorrent h => {[h]} ∪ X
  | TellTorrent h MQuit => X ∖ {[h]}
  | _ => X
  end.
Definition live (l : list DaemonEffect) : gset InfoHash := foldl live_step ∅ l.
Lemma live_app (l1 l2 : list DaemonEffect) : live (l1 ++ l2) = foldl live_step (live l1) l2.
Proof. unfold live. by rewrite foldl_app. Qed.

(** The daemon's books: one state per hash, a state for every context, and a
    context for every torrent that runs. *)
Record ledger d : Prop := {
  ledger_states : NoDup (hashes (torrent_states d));
  ledger_ctxs h : is_Some (torrent_ctxs d !! h) → h ∈ hashes (torrent_states d);
  ledger_live : live (d_out d) = dom (torrent_ctxs d);
}.
Lemma ledger_new quit : ledger (Daemon_new quit).
Proof. split; cbn; [constructor| |by rewrite dom_empty_L]. by intros h [? ?]. Qed.

Lemma quit_live (l : list (InfoHash * N)) X :
  foldl live_step X ((fun e => TellTorrent e.1 MQuit) <$> l) = X ∖ list_to_set l.*1.
Proof.
  revert X. induction l as [|e l IH]; intros X; [cbn; set_solver|].
  rewrite !fmap_cons. cbn [foldl live_step]. rewrite IH. cbn [list_to_set]. set_solver.
Qed.

(** ** What a message does to the daemon *)

Definition added (st : TorrentState) (n : N) d : Daemon :=
  with_out [SpawnTorrent (ts_info_hash st)]
    (with_ctxs <[ts_info_hash st := n]> (with_states (fun l => l ++ [st]) d)).
Definition removed h (also : bool) d : Daemon :=
  with_ctxs (delete h) (with_states (filter (fun v => ts_info_hash v ≠ h))
    (with_out [TellDiskDelete h also] (with_out [TellTorrent h MQuit] d))).
Definition stopped d : Daemon :=
  with_out [TellDiskQuit] (with_ctxs (fun _ => ∅)
    (with_out ((fun e => TellTorrent e.1 MQuit) <$> map_to_list (torrent_ctxs d)) d)).

Inductive moved d : Daemon → Prop :=
  | moved_same : moved d d
  | moved_out e : (∀ X, live_step X e = X) → moved d (with_out [e] d)
  | moved_added st n : ts_info_hash st ∉ hashes (torrent_states d) → moved d (added st n d)
  | moved_removed h also : is_Some (torrent_ctxs d !! h) → moved d (removed h also d)
  | moved_upsert s x : moved d (with_rx (d_rx d ++ x) (with_states (upsert s) d))
  | moved_stopped : moved d (stopped d).

Lemma add_moved d st n h (k : action Daemon Error unit) :
  ts_info_hash st = h → k d = (Ok tt, added st n d) →
  moved d ((if present h d then lift (Err NoDuplicateTorrent) else k) d).2.
Proof.
  intros Hst Hk. destruct (present h d) eqn:Hp; [constructor|]. rewrite Hk. constructor.
  rewrite Hst. intros Hin%present_spec. congruence.
Qed.
Lemma new_magnet_moved (g : Magnet) d : moved d (new_torrent_magnet g d).2.
Proof.
  unfold new_torrent_magnet. rewrite bind_action. destruct (parse_xt_infohash g) as [h|e|]; cbn [lift]; [|constructor..].
  rewrite bind_action. cbn [getS]. by eapply (add_moved d (default_state (parse_dn g) h [])).
Qed.
Lemma add_meta_moved t d : moved d (add_torrent_meta_info t d).2.
Proof.
  unfold add_torrent_meta_info. rewrite bind_action. cbn [getS]. by eapply (add_moved d (state_of_idle t)).
Qed.
Lemma delete_run h also d :
  delete_torrent h also d = (Ok tt, match torrent_ctxs d !! h with Some _ => removed h also d | None => d end).
Proof.
  unfold delete_torrent. rewrite bind_action. cbn [getS]. by destruct (torrent_ctxs d !! h).
Qed.
Lemma quit_run d : handle_daemon DaQuit d = (Ok DStop, stopped d).
Proof. reflexivity. Qed.

Lemma catch_go (k : action Daemon Error unit) d r d' :
  (catch tt k ≫= fun _ => mret DGo) d = (r, d') → d' = (k d).2.
Proof. rewrite bind_action. unfold catch. by destruct (k d) as [[[]|e|] d1]; intros [= _ <-]. Qed.

Lemma handle_moved m d r d' : handle_daemon m d = (r, d') → moved d d'.
Proof.
  intros Hm. destruct m; cbn [handle_daemon] in Hm.
  - rewrite (catch_go _ _ _ _ Hm). apply new_magnet_moved.
  - rewrite (catch_go _ _ _ _ Hm). apply add_meta_moved.
  - rewrite (catch_go _ _ _ _ Hm), delete_run. cbn [snd].
    destruct (torrent_ctxs d !! h) eqn:Hh; [|constructor]. constructor. by rewrite Hh.
  - injection Hm as _ <-. by constructor.
  - rewrite bind_action in Hm. cbn [modifyS] in Hm. rewrite bind_action in Hm. cbn [getS] in Hm.
    assert (Hs : moved d (with_states (upsert s) d)).
    { replace (with_states (upsert s) d) with (with_rx (d_rx d ++ []) (with_states (upsert s) d))
        by (by rewrite app_nil_r). constructor. }
    destruct (_ && _); [|by injection Hm as _ <-].
    destruct (_ <=? _)%N; [by injection Hm as _ <-|].
    rewrite bind_action in Hm. injection Hm as _ <-. apply moved_upsert.
  - injection Hm as _ <-. by constructor.
  - rewrite (catch_go _ _ _ _ Hm). unfold daemon_toggle_pause. rewrite bind_action. cbn [getS].
    rewrite bind_action. destruct (torrent_ctxs d !! h); cbn [ok_or lift snd]; by constructor.
  - injection Hm as _ <-. by constructor.
  - change (handle_daemon DaQuit d = (r, d')) in Hm. rewrite quit_run in Hm. injection Hm as _ <-. constructor.
Qed.

Lemma ledger_moved d d' : moved d d' → ledger d → ledger d'.
Proof.
  intros Hm [Hn Hc Hl]. destruct Hm as [|e He|st n Hst|h also Hh|s rx|]; split; try done;
    cbn [with_out with_states with_ctxs with_rx added removed stopped torrent_states torrent_ctxs d_out].
  - by rewrite live_app, <- Hl; cbn; rewrite He.
  - rewrite fmap_app. apply NoDup_app. split; [done|]. split; [|apply NoDup_singleton].
    by intros x Hx ->%list_elem_of_singleton.
  - intros h Hh%elem_of_dom. rewrite fmap_app. rewrite dom_insert in Hh. apply elem_of_app.
    apply elem_of_union in Hh as [->%elem_of_singleton|Hh%elem_of_dom]; [right; by constructor|left; by apply Hc].
  - rewrite live_app, Hl. cbn. by rewrite dom_insert_L.
  - by apply NoDup_forget.
  - intros h' Hh'. apply elem_forget. rewrite lookup_delete_is_Some in Hh'. naive_solver.
  - rewrite !live_app, Hl. cbn. by rewrite dom_delete_L.
  - by apply NoDup_upsert.
  - intros h Hh. apply elem_upsert. left. by apply Hc.
  - by intros h [? Hh].
  - rewrite !live_app, Hl. cbn. rewrite quit_live, dom_empty_L. 
    rewrite <- (list_to_map_to_list (torrent_ctxs d)) at 1. rewrite dom_list_to_map_L. set_solver.
Qed.

Lemma turn_moved d r d' : daemon_turn d = (r, d') → ∃ rx, moved (with_rx rx d) d'.
Proof.
  unfold daemon_turn. intros Ht. destruct (d_rx d) as [|m rx] eqn:Hrx.
  - injection Ht as _ <-. exists (d_rx d). destruct d; constructor.
  - exists rx. by eapply handle_moved.
Qed.
Lemma step_moved d d' : daemon_step d d' → ∃ rx, moved (with_rx rx d) d'.
Proof. intros [l d1 d2 Ht]. by destruct (turn_moved _ _ _ Ht) as [rx Hm]; exists rx. Qed.

Lemma ledger_rx rx d : ledger d → ledger (with_rx rx d).
Proof. by intros []; split. Qed.
Lemma ledger_reach d d' : rtc daemon_step d d' → ledger d → ledger d'.
Proof.
  induction 1 as [|d d1 d2 (rx & Hm)%step_moved _ IH]; [done|]. intros Hd. apply IH.
  eapply ledger_moved; [exact Hm|]. by apply ledger_rx.
Qed.

(** C28. In every run of the daemon, no two of the states it shows are of the same
    torrent, every torrent it can reach has one, and those it can reach are
    exactly those that were spawned and not yet told to quit. *)
Theorem daemon_ledger quit d :
  rtc daemon_step (Daemon_new quit) d →
  NoDup (hashes (torrent_states d)) ∧
  (∀ h, is_Some (torrent_ctxs d !! h) → h ∈ hashes (torrent_states d)) ∧
  live (d_out d) = dom (torrent_ctxs d).
Proof. intros Hr. by destruct (ledger_reach _ _ Hr (ledger_new quit)). Qed.

(** ** A torrent that is gone and still shown *)

Definition ghost h d : Prop := h ∈ hashes (torrent_states d) ∧ torrent_ctxs d !! h = None.

Lemma ghost_moved h d d' : moved d d' → ghost h d → ghost h d'.
Proof.
  intros Hm [Hin Hc]. destruct Hm as [|e He|st n Hst|h' also Hh|s rx|]; split; try done;
    cbn [with_out with_states with_ctxs with_rx added removed stopped torrent_states torrent_ctxs].
  - rewrite fmap_app. apply elem_of_app. by left.
  - rewrite lookup_insert_ne; [done|]. intros Heq. apply Hst. by rewrite Heq.
  - apply elem_forget. split; [done|]. intros ->. rewrite Hc in Hh. by destruct Hh.
  - rewrite lookup_delete_None. by right.
  - apply elem_upsert. by left.
Qed.
Lemma ghost_reach h d d' : rtc daemon_step d d' → ghost h d → ghost h d'.
Proof.
  induction 1 as [|d d1 d2 (rx & Hm)%step_moved _ IH]; [done|]. intros Hd. apply IH.
  by eapply ghost_moved.
Qed.

Lemma ghost_delete h also d : ghost h d → handle_daemon (DaDeleteTorrent h also) d = (Ok DGo, d).
Proof.
  intros [_ Hc]. cbn [handle_daemon]. rewrite bind_action. unfold catch. by rewrite delete_run, Hc.
Qed.
Lemma ghost_magnet h (g : Magnet) d :
  parse_xt_infohash g = Ok h → ghost h d → handle_daemon (DaNewTorrentMagnet g) d = (Ok DGo, d).
Proof.
  intros Hg [Hin%present_spec _]. cbn [handle_daemon]. rewrite bind_action. unfold catch, new_torrent_magnet.
  rewrite bind_action, Hg. cbn [lift]. rewrite bind_action. cbn [getS]. by rewrite Hin.
Qed.

(** C29. A torrent that is deleted is told to quit and no longer shown.  But one
    state it sent before it quit brings it back for good: whatever happens after,
    it is shown, can not be deleted, and the same magnet link is refused. *)
Theorem daemon_deleted_returns h also s d :
  is_Some (torrent_ctxs d !! h) → ts_info_hash s = h → ∃ d1 f d2,
  handle_daemon (DaDeleteTorrent h also) d = (Ok DGo, d1) ∧
  d_out d1 = d_out d ++ [TellTorrent h MQuit; TellDiskDelete h also] ∧ present h d1 = false ∧
  handle_daemon (DaTorrentState s) d1 = (Ok f, d2) ∧
  ∀ d', rtc daemon_step d2 d' →
    present h d' = true ∧
    (∀ also', handle_daemon (DaDeleteTorrent h also') d' = (Ok DGo, d')) ∧
    (∀ g : Magnet, parse_xt_infohash g = Ok h →
      handle_daemon (DaNewTorrentMagnet g) d' = (Ok DGo, d')).
Proof.
  intros Hh Hs. exists (removed h also d).
  assert (Hs2 : ∃ f rx, handle_daemon (DaTorrentState s) (removed h also d) =
    (Ok f, with_rx rx (with_states (upsert s) (removed h also d)))).
  { cbn [handle_daemon]. rewrite bind_action. cbn [modifyS]. rewrite bind_action. cbn [getS].
    destruct (_ && _); [|exists DGo, (d_rx d); reflexivity].
    destruct (_ <=? _)%N; [exists DStuck, (d_rx d); reflexivity|].
    exists DGo, (d_rx d ++ [DaQuit]). reflexivity. }
  destruct Hs2 as (f & rx & Hs2). exists f, (with_rx rx (with_states (upsert s) (removed h also d))).
  split_and!.
  - cbn [handle_daemon]. rewrite bind_action. unfold catch. rewrite delete_run. by destruct Hh as [? ->].
  - cbn. by rewrite <- app_assoc.
  - destruct (present h (removed h also d)) eqn:Hp; [|done]. apply present_spec, elem_forget in Hp. naive_solver.
  - exact Hs2.
  - intros d' Hr.
    assert (Hg : ghost h d').
    { eapply ghost_reach; [exact Hr|]. split; cbn; [apply elem_upsert; by right|by rewrite lookup_delete_eq]. }
    split_and!; [by apply present_spec, Hg|intros; by apply ghost_delete|intros; by eapply ghost_magnet].
Qed.

(** ** Quitting *)

(** How a message ends *)
Lemma catch_result (k : action Daemon Error unit) d r d' :
  (catch tt k ≫= fun _ => mret DGo) d = (r, d') → r = Ok DGo ∨ r = Panic ∧ (k d).1 = Panic.
Proof.
  rewrite bind_action. unfold catch. destruct (k d) as [[[]|e|] d1]; intros [= <- _]; [by left..|by right].
Qed.
Lemma handle_result m d r d' :
  handle_daemon m d = (r, d') →
  r = Ok DGo ∨ (m = DaQuit ∧ r = Ok DStop) ∨ (r = Ok DStuck ∧ quit_after_complete d = true) ∨
  ∃ g, m = DaNewTorrentMagnet g ∧ parse_xt_infohash g = Panic.
Proof.
  intros Hm. destruct m; cbn [handle_daemon] in Hm.
  - destruct (catch_result _ _ _ _ Hm) as [?|[_ Hp]]; [by left|]. do 3 right. exists m. split; [done|].
    unfold new_torrent_magnet in Hp. rewrite bind_action in Hp.
    destruct (parse_xt_infohash m); cbn [lift] in Hp; [|done..].
    rewrite bind_action in Hp. cbn [getS] in Hp. by destruct (present _ _).
  - destruct (catch_result _ _ _ _ Hm) as [?|[_ Hp]]; [by left|].
    unfold add_torrent_meta_info in Hp. rewrite bind_action in Hp. cbn [getS] in Hp. by destruct (present _ _).
  - destruct (catch_result _ _ _ _ Hm) as [?|[_ Hp]]; [by left|]. by rewrite delete_run in Hp.
  - injection Hm as <- _. by left.
  - rewrite bind_action in Hm. cbn [modifyS] in Hm. rewrite bind_action in Hm. cbn [getS] in Hm.
    destruct (quit_after_complete (with_states (upsert s) d) && _) eqn:Hq; [|injection Hm as <- _; by left].
    destruct (_ <=? _)%N; [|injection Hm as <- _; by left].
    injection Hm as <- _. do 2 right. left. by apply andb_prop in Hq as [? _].
  - injection Hm as <- _. by left.
  - destruct (catch_result _ _ _ _ Hm) as [?|[_ Hp]]; [by left|]. unfold daemon_toggle_pause in Hp.
    rewrite bind_action in Hp. cbn [getS] in Hp. rewrite bind_action in Hp. by destruct (torrent_ctxs d !! h).
  - injection Hm as <- _. by left.
  - change (handle_daemon DaQuit d = (r, d')) in Hm. rewrite quit_run in Hm. injection Hm as <- _. by right; left.
Qed.

(** No message leaves the mailbox but the one that is handled. *)
Definition queues : relation Daemon := fun d d' =>
  quit_after_complete d' = quit_after_complete d ∧ ∃ x, d_rx d' = d_rx d ++ x.
Lemma moved_queues d d' : moved d d' → queues d d'.
Proof.
  intros []; (split; [done|]); [exists []; by rewrite app_nil_r..|by eexists|exists []; by rewrite app_nil_r].
Qed.

(** C30. The daemon comes to its quit message after the messages before it,
    whatever arrives meanwhile, if the torrents and the disk take what it sends
    them: the loop ends, and when it ends as it should, every torrent was told to
    quit and then the disk.  It can end otherwise only by a magnet link whose
    hash is no hexadecimal text, which panics the daemon, or, with
    [quit_after_complete], by waiting for ever for room in its own mailbox. *)
Theorem daemon_quits d pre post arrivals :
  ledger d → d_rx d = pre ++ DaQuit :: post → length pre < length arrivals →
  ∃ r d', daemon_run arrivals d = (Some r, d') ∧
    (r = Ok DStop → live (d_out d') = ∅ ∧ last (d_out d') = Some TellDiskQuit) ∧
    (quit_after_complete d = false → (∀ g, DaNewTorrentMagnet g ∈ pre → parse_xt_infohash g ≠ Panic) →
      r = Ok DStop).
Proof.
  revert d post arrivals. induction pre as [|m pre IH]; intros d post arrivals Hd Hrx Harr;
    (destruct arrivals as [|l arrivals]; [cbn in Harr; lia|]); cbn [daemon_run];
    set (d0 := arrive l d); assert (Hd0 : ledger d0) by (by apply ledger_rx);
    set (t := take (N.to_nat (DAEMON_MSG_BOUND - len (d_rx d))) l); assert (Hrx0 : d_rx d0 = (d_rx d) ++ t) by done; rewrite Hrx in Hrx0.
  - assert (Ht : daemon_turn d0 = (Ok DStop, stopped (with_rx (post ++ t) d0))).
    { unfold daemon_turn. by rewrite Hrx0. }
    rewrite Ht. do 2 eexists. split; [done|]. split; [|done]. intros _. split.
    + assert (Hs : ledger (stopped (with_rx (post ++ t) d0))).
      { eapply ledger_moved; [apply moved_stopped|]. by apply ledger_rx. }
      destruct Hs as [_ _ ->]. apply dom_empty_L.
    + cbn. by rewrite last_snoc.
  - set (rx := pre ++ DaQuit :: post ++ t).
    assert (Ht : daemon_turn d0 = handle_daemon m (with_rx rx d0)).
    { unfold daemon_turn. rewrite Hrx0. cbn [app]. unfold rx. by rewrite <- app_assoc. }
    rewrite Ht. destruct (handle_daemon m (with_rx rx d0)) as [r d1] eqn:Hm.
    pose proof (handle_moved _ _ _ _ Hm) as Hmv.
    assert (Hd1 : ledger d1) by (eapply ledger_moved; [exact Hmv|by apply ledger_rx]).
    destruct (moved_queues _ _ Hmv) as [Hq (x & Hx)].
    destruct (handle_result _ _ _ _ Hm) as [->|[[-> ->]|[[-> Hq1]|(g & -> & Hg)]]].
    + destruct (IH d1 (post ++ t ++ x) arrivals)
        as (r & d' & Hr & H1 & H2); [done| |cbn in Harr; lia|].
      { rewrite Hx. unfold rx. cbn [with_rx d_rx]. rewrite <- app_assoc. cbn [app]. by rewrite <- app_assoc. }
      exists r, d'. split; [done|]. split; [done|]. intros Hqf Hg. apply H2; [by rewrite Hq|].
      intros g Hin. apply Hg. by right.
    + exists (Ok DStop), d1. split; [done|]. split; [|done]. intros _.
      rewrite quit_run in Hm. injection Hm as <-. split; [|cbn; by rewrite last_snoc].
      destruct Hd1 as [_ _ ->]. apply dom_empty_L.
    + do 2 eexists. split; [done|]. split; [done|]. intros Hqf. cbn in Hq1. congruence.
    + assert (Hr : r = Panic).
      { cbn [handle_daemon] in Hm. rewrite bind_action in Hm. unfold catch, new_torrent_magnet in Hm.
        rewrite bind_action, Hg in Hm. cbn [lift] in Hm. by injection Hm as <- _. }
      subst r. do 2 eexists. split; [done|]. split; [done|]. intros _ Hno.
      by destruct (Hno g); [left|].
Qed.
End daemon.

(** ** At concrete inputs *)
Section witnesses.
#[local] Existing Instance list_bits.

(** Two links: one with a hash of zeros, one whose hash is no hexadecimal text *)
#[local] Instance ex_links : MagnetApi.
Proof. by refine {| Magnet := bool; Magnet_new := fun _ => Some true; Magnet_to_string := fun _ => [] |}. Defined.
Definition ex_zeros : list N := replicate 40 48%N.
#[local] Instance ex_fields : MagnetFields.
Proof.
  refine {| hash := fun m : @Magnet ex_links => if (m : bool) then None else Some (ascii "zz"); display_name := fun _ => None;
    trackers := fun _ => []; url_decode := fun _ => None;
    hex_decode := fun s => if decide (s = ex_zeros) then Some (replicate 20 0%N) else None |}.
  intros s b. case_decide as Hs; [|done]. subst s. by intros [= <-].
Defined.

Definition ex_link : @Magnet ex_links := true.
Definition ex_daemon : Daemon := Daemon_new false.
Definition ex_hash : InfoHash := replicate 20 0%N.
Definition ex_one : Daemon := (daemon_turn (arrive [DaNewTorrentMagnet ex_link] ex_daemon)).2.

Lemma daemon_ledger_witness :
  NoDup (ts_info_hash <$> torrent_states ex_one) ∧ live (d_out ex_one) = dom (torrent_ctxs ex_one) ∧
  ts_info_hash <$> torrent_states ex_one = [ex_hash].
Proof.
  destruct (daemon_ledger false ex_one) as (H1 & _ & H3).
  { apply rtc_once, (daemon_handle [DaNewTorrentMagnet ex_link]). vm_compute. reflexivity. }
  split; [exact H1|]. split; [exact H3|]. vm_compute. reflexivity.
Defined.

Lemma daemon_deleted_returns_witness :
  ∃ d2, handle_daemon (DaTorrentState (default_state [] ex_hash []))
    (handle_daemon (DaDeleteTorrent ex_hash true) ex_one).2 = (Ok DGo, d2) ∧ present ex_hash d2 = true.
Proof.
  destruct (daemon_deleted_returns ex_hash true (default_state [] ex_hash []) ex_one)
    as (d1 & f & d2 & H1 & _ & _ & H2 & Hd); [vm_compute; by eexists|done|].
  destruct (Hd d2) as (Hp & _); [constructor|]. exists d2. split; [|exact Hp].
  rewrite H1. cbn [snd]. assert (Hf : f = DGo).
  { apply (f_equal (fun r => r.2)) in H1 as Hd1. cbn [snd] in Hd1. rewrite <- Hd1 in H2.
    apply (f_equal (fun r => r.1)) in H2. vm_compute in H2. by injection H2. }
  by rewrite <- Hf.
Defined.

Lemma daemon_quits_witness :
  ∃ d', daemon_run [[]; []] (with_rx [DaPrintTorrentState; DaQuit] ex_daemon) = (Some (Ok DStop), d') ∧
    last (d_out d') = Some TellDiskQuit.
Proof.
  destruct (daemon_quits (with_rx [DaPrintTorrentState; DaQuit] ex_daemon) [DaPrintTorrentState] [] [[]; []])
    as (r & d' & Hr & Hl & Hs); [apply ledger_rx, ledger_new|done|by vm_compute; lia|].
  assert (r = Ok DStop) as ->.
  { apply Hs; [done|]. intros g Hg. by apply list_elem_of_singleton in Hg. }
  exists d'. split; [exact Hr|]. by apply Hl.
Defined.
End witnesses.
