(* ===== verification/Config.v ===== *)
(** [config.rs] and [dirs.rs]: the configuration, read from a file and merged
    with the flags of the command line.  Text is a list of code points.  The
    parser of the flags, the environment and the reading of files are arguments;
    so is the standard library's parser of socket addresses. *)
From S2P Require Import Prelude Errors Bencode BencodeText Torrent.

(** ** [str] *)

(** [char::is_whitespace] *)
Definition is_whitespace (c : N) : bool :=
  bool_decide (c ∈ [9; 10; 11; 12; 13; 32; 133; 160; 5760; 8192; 8193; 8194; 8195; 8196; 8197;
    8198; 8199; 8200; 8201; 8202; 8232; 8233; 8239; 8287; 12288]%N).
Fixpoint trim_start (s : list N) : list N :=
  match s with c :: s' => if is_whitespace c then trim_start s' else s | [] => [] end.
Definition trim (s : list N) : list N := reverse (trim_start (reverse (trim_start s))).

(** [str::find] of a character: what is before it and what follows it *)
Fixpoint split_at (c : N) (s : list N) : option (list N * list N) :=
  match s with
  | [] => None
  | x :: s => if (x =? c)%N then Some ([], s) else (fun p => (x :: p.1, p.2)) <$> split_at c s
  end.

(** [str::lines]: a line ends with a line feed, and a carriage return before it
    is left out. *)
Definition strip_cr (l : list N) : list N :=
  if bool_decide (last l = Some 13%N) then removelast l else l.
Fixpoint lines_go (acc s : list N) : list (list N) :=
  match s with
  | [] => if decide (acc = []) then [] else [acc]
  | c :: s => if (c =? 10)%N then strip_cr acc :: lines_go [] s else lines_go (acc ++ [c]) s
  end.
Definition lines (s : list N) : list (list N) := lines_go [] s.

(** [str::parse] to an unsigned integer of at most [max] *)
Definition parse_uint (max : N) (s : list N) : option N :=
  let ds := match s with 43%N :: l => l | _ => s end in
  if decide (ds = []) then None
  else if forallb is_digit ds then
    let n := digits_val ds in if (n <=? max)%N then Some n else None
  else None.
(** [str::parse] to [bool] *)
Definition parse_bool_text (s : list N) : option bool :=
  if decide (s = ascii "true") then Some true
  else if decide (s = ascii "false") then Some false else None.

(** [PathBuf::push] of a relative path *)
Definition path_join (p q : list N) : list N :=
  match last p with None | Some 47%N => p ++ q | _ => p ++ 47%N :: q end.

(** ** [dirs.rs] *)

(** The system the program is built for; on macOS, whether the feature
    [favor-xdg-style] is on *)
Inductive Platform := Linux | MacOs (favor_xdg : bool) | Windows | OtherOs.

(** [$var] when it is set to a text that is not empty, else a folder of the
    home *)
Definition xdg_or_home (var : list N → option (list N)) (home : option (list N))
    (name rel : list N) : option (list N) :=
  match var name with
  | Some p => if decide (p = []) then (fun h => path_join h rel) <$> home else Some p
  | None => (fun h => path_join h rel) <$> home
  end.
(** A folder of the home on macOS *)
Definition library_or_home (favor_xdg : bool) (home : option (list N)) (rel : list N) : option (list N) :=
  (fun h => if favor_xdg then path_join h rel else path_join (path_join h (ascii "Library")) (ascii "Application Support")) <$> home.
(** A variable that is set to a text that is not empty *)
Definition var_set (var : list N → option (list N)) (name : list N) : option (list N) :=
  match var name with Some [] => None | o => o end.
Definition config_dir (os : Platform) var home : option (list N) :=
  match os with
  | Linux => xdg_or_home var home (ascii "XDG_CONFIG_HOME") (ascii ".config")
  | MacOs x => library_or_home x home (ascii ".config")
  | Windows => var_set var (ascii "APPDATA")
  | OtherOs => None
  end.
Definition data_dir (os : Platform) var home : option (list N) :=
  match os with
  | Linux => xdg_or_home var home (ascii "XDG_DATA_HOME") (ascii ".local/share")
  | MacOs x => library_or_home x home (ascii ".local/share")
  | Windows => var_set var (ascii "LOCALAPPDATA")
  | OtherOs => None
  end.
Definition download_dir (os : Platform) var home : option (list N) :=
  match os with
  | Linux => xdg_or_home var home (ascii "XDG_DOWNLOAD_DIR") (ascii "Downloads")
  | MacOs _ | Windows => (fun h => path_join h (ascii "Downloads")) <$> home
  | OtherOs => None
  end.

(** ** [config.rs] *)

(** [Config] *)
Record Config := {
  cf_download_dir : option (list N); cf_metadata_dir : option (list N);
  cf_daemon_addr : option SocketAddr; cf_local_peer_port : option N;
  cf_max_global_peers : option N; cf_max_torrent_peers : option N;
  cf_is_ipv6 : option bool; cf_log : option bool; cf_quit_after_complete : option bool;
  cf_key : option N;
  cf_magnet : option (list N); cf_stats : bool; cf_pause : option (list N); cf_quit : bool;
}.
(** [ResolvedConfig] *)
Record ResolvedConfig := {
  rc_download_dir : list N; rc_metadata_dir : list N; rc_config_file : list N;
  rc_daemon_addr : SocketAddr; rc_local_peer_port : N;
  rc_max_global_peers : N; rc_max_torrent_peers : N;
  rc_is_ipv6 : bool; rc_log : bool; rc_quit_after_complete : bool; rc_key : N;
  rc_magnet : option (list N); rc_stats : bool; rc_pause : option (list N); rc_quit : bool;
}.

(** [Option::or] *)
Definition option_or {A} (a b : option A) : option A := match a with Some _ => a | None => b end.
(** [<] of two options: [None] is less than any value. *)
Definition option_lt (a b : option N) : bool :=
  match a, b with
  | None, Some _ => true
  | Some x, Some y => (x <? y)%N
  | _, None => false
  end.

(** [Config::merge] *)
Definition merge (file_config cli_config : Config) : outcome Error Config :=
  let s := {|
    cf_download_dir := option_or (cf_download_dir cli_config) (cf_download_dir file_config);
    cf_metadata_dir := option_or (cf_metadata_dir cli_config) (cf_metadata_dir file_config);
    cf_daemon_addr := option_or (cf_daemon_addr cli_config) (cf_daemon_addr file_config);
    cf_local_peer_port := option_or (cf_local_peer_port cli_config) (cf_local_peer_port file_config);
    cf_max_global_peers := option_or (cf_max_global_peers cli_config) (cf_max_global_peers file_config);
    cf_max_torrent_peers := option_or (cf_max_torrent_peers cli_config) (cf_max_torrent_peers file_config);
    cf_is_ipv6 := option_or (cf_is_ipv6 cli_config) (cf_is_ipv6 file_config);
    cf_log := option_or (cf_log cli_config) (cf_log file_config);
    cf_quit_after_complete := option_or (cf_quit_after_complete cli_config) (cf_quit_after_complete file_config);
    cf_key := option_or (cf_key cli_config) (cf_key file_config);
    cf_magnet := cf_magnet cli_config; cf_stats := cf_stats cli_config;
    cf_pause := cf_pause cli_config; cf_quit := cf_quit cli_config |} in
  if bool_decide (cf_max_global_peers s = Some 0%N) || bool_decide (cf_max_torrent_peers s = Some 0%N)
  then Panic
  else if option_lt (cf_max_global_peers s) (cf_max_torrent_peers s) then Panic
  else Ok s.

(** [Config::resolve]; [config] and [download] are the folders of the system,
    [listener] is [Daemon::DEFAULT_LISTENER] and [rnd] a random key. *)
Definition resolve (config download : option (list N)) (listener : SocketAddr) (rnd : N) (c : Config)
    : outcome Error ResolvedConfig :=
  folder ← or_panic config;
  downloads ← or_panic download;
  Ok {| rc_config_file := path_join folder (ascii "vincenzo/config.toml");
        rc_download_dir := default downloads (cf_download_dir c);
        rc_metadata_dir := default (path_join folder (ascii "vincenzo/torrents")) (cf_metadata_dir c);
        rc_daemon_addr := default listener (cf_daemon_addr c);
        rc_local_peer_port := default 51413%N (cf_local_peer_port c);
        rc_max_global_peers := default 500%N (cf_max_global_peers c);
        rc_max_torrent_peers := default 50%N (cf_max_torrent_peers c);
        rc_is_ipv6 := default false (cf_is_ipv6 c);
        rc_log := default false (cf_log c);
        rc_quit_after_complete := default false (cf_quit_after_complete c);
        rc_key := default rnd (cf_key c);
        rc_magnet := cf_magnet c; rc_stats := cf_stats c; rc_pause := cf_pause c; rc_quit := cf_quit c |}.

(** [Config::parse_quoted_string]: a lone quote begins and ends the text, and
    the slice between panics. *)
Definition parse_quoted_string (raw : list N) : outcome Error (list N) :=
  let trimmed := trim raw in
  if bool_decide (head trimmed = Some 34%N) && bool_decide (last trimmed = Some 34%N)
  then slice trimmed 1 (len trimmed - 1)
  else Err ParseStrError.

(** [into_ok], with [From<Error> for !], which panics *)
Definition into_ok {A : Type} (r : outcome Error A) : outcome Error A :=
  match r with Err _ => Panic | r => r end.
Definition parse_bool (s : list N) : outcome Error bool := ok_or ParseBoolError (parse_bool_text s).
Definition parse_num (max : N) (s : list N) : outcome Error N := ok_or ParseIntError (parse_uint max s).

(** One line of [Config::from_str]: its key and value, if it has any *)
Definition config_line (line : list N) : outcome Error (option (list N * list N)) :=
  match split_at 61 (trim line) with
  | None => Ok None
  | Some (k, v) =>
      let key := trim k in
      let value_part := trim v in
      if decide (key = []) then Err ParseStrError
      else
        Ok (Some (key,
          match split_at 35 value_part with
          | Some (before_hash, _) => if bool_decide (34%N ∈ before_hash) then value_part else trim before_hash
          | None => value_part
          end))
  end.
Fixpoint config_map (ls : list (list N)) (m : gmap (list N) (list N)) : outcome Error (gmap (list N) (list N)) :=
  match ls with
  | [] => Ok m
  | line :: ls => o ← config_line line;
      config_map ls (match o with Some (k, v) => <[k := v]> m | None => m end)
  end.

(** [map.get(key).map(|v| f(v).into_ok())] *)
Definition get_with {A : Type} (m : gmap (list N) (list N)) (key : list N) (f : list N → outcome Error A)
    : outcome Error (option A) :=
  match m !! key with
  | None => Ok None
  | Some v => x ← into_ok (f v); Ok (Some x)
  end.

(** [Config::from_str] *)
Definition from_str (parse_addr : list N → option SocketAddr) (input : list N) : outcome Error Config :=
  m ← config_map (lines input) ∅;
  is_ipv6 ← get_with m (ascii "is_ipv6") parse_bool;
  log ← get_with m (ascii "log") parse_bool;
  quit_after_complete ← get_with m (ascii "quit_after_complete") parse_bool;
  local_peer_port ← get_with m (ascii "local_peer_port") (parse_num u16_max);
  max_global_peers ← get_with m (ascii "max_global_peers") (parse_num usize_max);
  key ← get_with m (ascii "key") (parse_num u32_max);
  max_torrent_peers ← get_with m (ascii "max_torrent_peers") (parse_num usize_max);
  addr ← get_with m (ascii "daemon_addr") parse_quoted_string;
  daemon_addr ← match addr with
                | Some a => a ← ok_or ParseStrError (parse_addr a); Ok (Some a)
                | None => Ok None
                end;
  metadata_dir ← get_with m (ascii "metadata_dir") parse_quoted_string;
  download ← get_with m (ascii "download_dir") parse_quoted_string;
  Ok {| cf_download_dir := download; cf_metadata_dir := metadata_dir; cf_daemon_addr := daemon_addr;
        cf_local_peer_port := local_peer_port; cf_max_global_peers := max_global_peers;
        cf_max_torrent_peers := max_torrent_peers; cf_is_ipv6 := is_ipv6; cf_log := log;
        cf_quit_after_complete := quit_after_complete; cf_key := key;
        cf_magnet := None; cf_stats := false; cf_pause := None; cf_quit := false |}.

(** [Config::load]: [file] is the text of the configuration file, if it can be
    read; a file that can not is a panic. *)
Definition load (parse_addr : list N → option SocketAddr) (config download : option (list N))
    (listener : SocketAddr) (rnd : N) (cli_config : Config) (file : option (list N))
    : outcome Error ResolvedConfig :=
  _ ← or_panic config;
  content ← or_panic file;
  file_config ← from_str parse_addr content;
  c ← merge file_config cli_config;
  resolve config download listener rnd c.

(** [Config::get_config_folder], [get_log_path]: a folder that is not known is a
    panic. *)
Definition get_config_folder (os : Platform) var home : outcome Error (list N) := or_panic (config_dir os var home).
Definition get_log_path (os : Platform) var home : outcome Error (list N) :=
  p ← or_panic (data_dir os var home); Ok (path_join p (ascii "vincenzo")).
(** [Config::from_file], [read] being the content of a file *)
Definition from_file (parse_addr : list N → option SocketAddr) (os : Platform) var home
    (read : list N → option (list N)) : outcome Error Config :=
  folder ← get_config_folder os var home;
  content ← or_panic (read (path_join folder (ascii "vincenzo/config.toml")));
  from_str parse_addr content.
(** What [load] does on a system *)
Definition load_on (parse_addr : list N → option SocketAddr) (os : Platform) var home
    (read : list N → option (list N)) (listener : SocketAddr) (rnd : N) (cli_config : Config) : outcome Error ResolvedConfig :=
  load parse_addr (config_dir os var home) (download_dir os var home) listener rnd cli_config
    (folder ← config_dir os var home; read (path_join folder (ascii "vincenzo/config.toml"))).

(** The unit tests of the file *)
Definition ex_addr (s : list N) : option SocketAddr :=
  if decide (s = ascii "127.0.0.1:9000") then Some 9000%N else None.
Definition nl : list N := [10%N].
Definition quoted (s : list N) : list N := [34%N] ++ s ++ [34%N].
Example config_decode :
  (c ← from_str ex_addr (nl ++ ascii "  is_ipv6 = true" ++ nl ++ ascii "  local_peer_port = 8080" ++ nl ++
    ascii "  daemon_addr = " ++ quoted (ascii "127.0.0.1:9000") ++ nl ++
    ascii "  metadata_dir = " ++ quoted (ascii "/tmp/metadata_dir") ++ nl ++ ascii "  ");
   Ok (cf_is_ipv6 c, cf_local_peer_port c, cf_daemon_addr c, cf_metadata_dir c)) =
  Ok (Some true, Some 8080%N, Some 9000%N, Some (ascii "/tmp/metadata_dir")).
Proof. vm_compute. reflexivity. Qed.
Example config_decode_potential_errors :
  (c ← from_str ex_addr (ascii " [notsupported]" ++ nl ++ ascii " # this will be skiped" ++ nl ++
    ascii "is_ipv6 = true #heh" ++ nl ++ ascii "# wtf" ++ nl ++ ascii "wtf_is_a_kilometer = true" ++ nl);
   Ok (cf_is_ipv6 c, cf_local_peer_port c)) = Ok (Some true, None).
Proof. vm_compute. reflexivity. Qed.
