(* ===== verification/ConfigFacts.v ===== *)
(** The configuration file: what is written in it is read back, and the limits
    that pass the check. *)
From S2P Require Import Prelude Errors Bencode BencodeText Torrent Config.

Implicit Types (s k v : list N).

(** ** Text *)

Definition edge_ok s : bool :=
  match head s, last s with
  | Some a, Some b => negb (is_whitespace a) && negb (is_whitespace b)
  | _, _ => false
  end.
Lemma edge_ok_spec s : edge_ok s = true →
  ∃ a b, head s = Some a ∧ last s = Some b ∧ is_whitespace a = false ∧ is_whitespace b = false.
Proof.
  unfold edge_ok. destruct (head s) as [a|], (last s) as [b|]; try done. intros [Ha Hb]%andb_prop.
  exists a, b. by rewrite negb_true_iff in Ha, Hb.
Qed.

Lemma trim_start_id s a : head s = Some a → is_whitespace a = false → trim_start s = s.
Proof. destruct s as [|x s]; [done|]. intros [= ->] Ha. cbn. by rewrite Ha. Qed.
Lemma trim_end_id s b : last s = Some b → is_whitespace b = false → reverse (trim_start (reverse s)) = s.
Proof.
  intros Hb Hw. rewrite (trim_start_id (reverse s) b), reverse_involutive; [done| |done].
  by rewrite head_reverse.
Qed.
Lemma trim_id s : edge_ok s = true → trim s = s.
Proof.
  intros (a & b & Ha & Hb & Hwa & Hwb)%edge_ok_spec. unfold trim.
  rewrite (trim_start_id _ _ Ha Hwa). by eapply trim_end_id.
Qed.
Lemma trim_before s : edge_ok s = true → trim (32%N :: s) = s.
Proof.
  intros (a & b & Ha & Hb & Hwa & Hwb)%edge_ok_spec. unfold trim.
  change (trim_start (32%N :: s)) with (trim_start s). rewrite (trim_start_id _ _ Ha Hwa). by eapply trim_end_id.
Qed.
Lemma trim_after s : edge_ok s = true → trim (s ++ [32%N]) = s.
Proof.
  intros (a & b & Ha & Hb & Hwa & Hwb)%edge_ok_spec. unfold trim.
  rewrite (trim_start_id (s ++ [32%N]) a); [|by destruct s|done].
  rewrite reverse_app. change (trim_start (reverse [32%N] ++ reverse s)) with (trim_start (reverse s)).
  by eapply trim_end_id.
Qed.
Lemma edge_ok_join k v m : edge_ok k = true → edge_ok v = true → edge_ok (k ++ m ++ v) = true.
Proof.
  intros (a & b & Ha & Hb & Hwa & Hwb)%edge_ok_spec (a' & b' & Ha' & Hb' & Hwa' & Hwb')%edge_ok_spec.
  unfold edge_ok. assert (head (k ++ m ++ v) = Some a) as -> by (by destruct k).
  rewrite !last_app, Hb'. by rewrite Hwa, Hwb'.
Qed.

Lemma split_at_here c s r : c ∉ s → split_at c (s ++ c :: r) = Some (s, r).
Proof.
  induction s as [|x s IH]; intros Hc; cbn [app split_at]; [by rewrite N.eqb_refl|].
  destruct (N.eqb_spec x c) as [->|_]; [by destruct Hc; left|]. by rewrite IH by (intros ?; apply Hc; by right).
Qed.
Lemma split_at_none c s : c ∉ s → split_at c s = None.
Proof.
  induction s as [|x s IH]; intros Hc; cbn [split_at]; [done|].
  destruct (N.eqb_spec x c) as [->|_]; [by destruct Hc; left|]. by rewrite IH by (intros ?; apply Hc; by right).
Qed.
Lemma split_at_some c s a r : split_at c s = Some (a, r) → s = a ++ c :: r.
Proof.
  revert a. induction s as [|x s IH]; intros a; cbn [split_at]; [done|].
  destruct (N.eqb_spec x c) as [->|_]; [by intros [= <- <-]|].
  destruct (split_at c s) as [[a' r']|]; [|done]. intros [= <- <-]. cbn. f_equal. by apply IH.
Qed.

(** The lines of a text whose lines end with something else than a carriage
    return *)
Definition text_of (ls : list (list N)) : list N := concat ((fun l => l ++ [10%N]) <$> ls).
Lemma lines_text ls :
  Forall (fun l => (10%N ∉ l) ∧ last l ≠ Some 13%N) ls → lines (text_of ls) = ls.
Proof.
  unfold lines, text_of. induction 1 as [|l ls [Hn Hc] _ IH]; [done|].
  assert (Hg : ∀ acc, lines_go acc (l ++ 10%N :: concat ((fun l => l ++ [10%N]) <$> ls)) = strip_cr (acc ++ l) :: ls).
  { clear Hc. induction l as [|c l IHl]; intros acc; (cbn [app lines_go]).
    - by rewrite N.eqb_refl, IH, app_nil_r.
    - destruct (N.eqb_spec c 10) as [->|_]; [by destruct Hn; left|].
      rewrite IHl by (intros ?; apply Hn; by right). by rewrite <- app_assoc. }
  rewrite fmap_cons. cbn [concat]. rewrite <- app_assoc. cbn [app]. rewrite Hg. cbn [app]. f_equal.
  unfold strip_cr. by rewrite bool_decide_eq_false_2.
Qed.

(** ** One entry *)

Definition entry k v : list N := k ++ ascii " = " ++ v.
Definition key_ok k : bool := edge_ok k && bool_decide (61%N ∉ k) && bool_decide (10%N ∉ k).
(** A value that is read as it is written: no comment outside of quotes *)
Definition value_ok v : Prop :=
  edge_ok v = true ∧ (10%N ∉ v) ∧ (35%N ∉ v ∨ head v = Some 34%N).

Lemma entry_line k v : key_ok k = true → value_ok v → config_line (entry k v) = Ok (Some (k, v)).
Proof.
  unfold key_ok. rewrite !andb_true_iff, !bool_decide_eq_true. intros [[Hk He] _] (Hv & _ & Hc).
  unfold config_line, entry.
  rewrite trim_id by (by apply edge_ok_join).
  change (k ++ ascii " = " ++ v) with (k ++ [32%N] ++ (61%N :: 32%N :: v)). rewrite app_assoc.
  rewrite split_at_here by (rewrite elem_of_app, list_elem_of_singleton; intros [?|?]; [by apply He|done]).
  rewrite (trim_after k Hk), (trim_before v Hv).
  rewrite decide_False by (intros ->; done). do 3 f_equal.
  destruct (split_at 35 v) as [[a r]|] eqn:Hs; [|done]. apply split_at_some in Hs.
  destruct Hc as [Hc|Hc]; [by destruct Hc; rewrite Hs; apply elem_of_app; right; left|].
  rewrite bool_decide_eq_true_2; [done|]. subst v. destruct a as [|x a]; [done|].
  injection Hc as ->. by left.
Qed.
Lemma entry_text k v : key_ok k = true → value_ok v → (10%N ∉ entry k v) ∧ last (entry k v) ≠ Some 13%N.
Proof.
  unfold key_ok. rewrite !andb_true_iff, !bool_decide_eq_true. intros [_ Hk] (Hv & Hn & _).
  apply edge_ok_spec in Hv as (_ & b & _ & Hb & _ & Hw). unfold entry. split.
  - rewrite !elem_of_app. intros [?|[Hin|?]]; [done| |done].
    by apply (bool_decide_unpack (10%N ∉ ascii " = ")) in Hin.
  - rewrite !last_app, Hb. by intros [= ->].
Qed.

(** ** A whole file *)

(** Keys with the text of their values, if they have one *)
Definition table := list (list N * option (list N)).
Definition entries (t : table) : list (list N * list N) :=
  omap (fun e => (fun v => (e.1, v)) <$> e.2) t.
Definition table_ok (t : table) : Prop :=
  NoDup t.*1 ∧ Forall (fun e => key_ok e.1 = true ∧ ∀ v, e.2 = Some v → value_ok v) t.

Lemma config_map_entries l m :
  Forall (fun e => key_ok e.1 = true ∧ value_ok e.2) l →
  config_map ((fun e => entry e.1 e.2) <$> l) m = Ok (foldl (fun m e => <[e.1 := e.2]> m) m l).
Proof.
  intros Hl. revert m. induction Hl as [|e l [Hk Hv] _ IH]; intros m; [done|].
  rewrite fmap_cons. cbn [config_map]. rewrite (entry_line _ _ Hk Hv). cbn [mbind outcome_bind]. apply IH.
Qed.

Lemma insert_keys (l : list (list N * list N)) (m : gmap (list N) (list N)) k :
  k ∉ l.*1 → foldl (fun m e => <[e.1 := e.2]> m) m l !! k = m !! k.
Proof.
  revert m. induction l as [|e l IH]; intros m Hk; [done|]. rewrite fmap_cons in Hk.
  apply not_elem_of_cons in Hk as [Hne Hk]. cbn [foldl]. rewrite IH by done. by rewrite lookup_insert_ne.
Qed.
Lemma entries_keys (t : table) k : k ∈ (entries t).*1 → k ∈ t.*1.
Proof.
  unfold entries. intros (e & -> & (e' & Hin & He')%list_elem_of_omap)%list_elem_of_fmap.
  destruct e' as [k' [v|]]; [|done]. injection He' as <-. apply list_elem_of_fmap. by exists (k', Some v).
Qed.
Lemma lookup_entries (t : table) (m : gmap (list N) (list N)) k o :
  NoDup t.*1 → (k, o) ∈ t → m !! k = None →
  foldl (fun m e => <[e.1 := e.2]> m) m (entries t) !! k = o.
Proof.
  revert m. induction t as [|[k' o'] t IH]; intros m Hn Hin Hm; [by apply elem_of_nil in Hin|].
  rewrite fmap_cons in Hn. apply NoDup_cons in Hn as [Hk Hn]. apply elem_of_cons in Hin as [[= -> ->]|Hin].
  - destruct o' as [v|]; unfold entries; cbn [omap list_omap fmap option_fmap option_map fst snd foldl];
      change (list_omap _ _ _ t) with (entries t).
    + rewrite insert_keys by (by intros ?%entries_keys). apply lookup_insert_eq.
    + by rewrite insert_keys by (by intros ?%entries_keys).
  - assert (k ≠ k') as Hne by (intros ->; apply Hk, list_elem_of_fmap; by exists (k', o)).
    destruct o' as [v|]; unfold entries; cbn [omap list_omap fmap option_fmap option_map fst snd foldl];
      change (list_omap _ _ _ t) with (entries t); apply IH; try done.
    by rewrite lookup_insert_ne.
Qed.

(** The text of a table *)
Definition render_table (t : table) : list N := text_of ((fun e => entry e.1 e.2) <$> entries t).
Lemma read_table t : table_ok t →
  ∃ m, config_map (lines (render_table t)) ∅ = Ok m ∧ ∀ k o, (k, o) ∈ t → m !! k = o.
Proof.
  intros [Hn Ht]. assert (He : Forall (fun e => key_ok e.1 = true ∧ value_ok e.2) (entries t)).
  { apply Forall_forall. intros e (e' & Hin & He')%list_elem_of_omap.
    rewrite Forall_forall in Ht. specialize (Ht _ Hin) as [Hk Hv]. destruct e' as [k [v|]]; [|done].
    injection He' as <-. split; [done|]. by apply Hv. }
  eexists. unfold render_table. rewrite lines_text.
  - split; [by apply config_map_entries|]. intros k o Hin. by apply lookup_entries.
  - apply Forall_fmap. eapply Forall_impl; [exact He|]. intros e [Hk Hv]. by apply entry_text.
Qed.

(** ** Values *)

Lemma digit_plain c : is_digit c = true → is_whitespace c = false ∧ c ≠ 10%N ∧ c ≠ 35%N ∧ c ≠ 43%N.
Proof.
  unfold is_digit. intros [H1 H2]%andb_prop. apply N.leb_le in H1, H2. split_and!; [|lia..].
  unfold is_whitespace. apply bool_decide_eq_false. rewrite !elem_of_cons, elem_of_nil. lia.
Qed.
Lemma decimal_plain n : Forall (fun c => is_whitespace c = false ∧ c ≠ 10%N ∧ c ≠ 35%N ∧ c ≠ 43%N) (decimal n).
Proof.
  eapply Forall_impl; [apply decimal_spec|]. intros c Hc. by apply digit_plain, Is_true_true_1.
Qed.
Lemma plain_edge s : s ≠ [] → Forall (fun c => is_whitespace c = false) s → edge_ok s = true.
Proof.
  intros Hne Hs. rewrite Forall_forall in Hs. unfold edge_ok.
  destruct (last s) as [b|] eqn:Hb; [|by apply last_None in Hb]. destruct s as [|a s]; [done|]. cbn [head].
  rewrite (Hs a) by (by left). by rewrite (Hs b) by (by apply last_Some_elem_of).
Qed.
Lemma decimal_nonempty n : decimal n ≠ [].
Proof. destruct (decimal_hd n) as (c & l & -> & _). done. Qed.
Lemma value_decimal n : value_ok (decimal n).
Proof.
  pose proof (decimal_plain n) as Hp. split; [|split].
  - apply plain_edge; [apply decimal_nonempty|]. by eapply Forall_impl; [exact Hp|]; intros ? [? _].
  - intros Hin. rewrite Forall_forall in Hp. by destruct (Hp _ Hin) as (_ & ? & _).
  - left. intros Hin. rewrite Forall_forall in Hp. by destruct (Hp _ Hin) as (_ & _ & ? & _).
Qed.
Lemma parse_decimal max n : (n <= max)%N → parse_num max (decimal n) = Ok n.
Proof.
  intros Hn. unfold parse_num, parse_uint. destruct (decimal_spec n) as [Hv Hd].
  assert (match decimal n with 43%N :: l => l | _ => decimal n end = decimal n) as ->.
  { pose proof (decimal_plain n) as Hp. destruct (decimal n) as [|c l]; [done|].
    apply Forall_cons in Hp as [(_ & _ & _ & Hc) _]. repeat (case_match; try done). }
  rewrite decide_False by apply decimal_nonempty.
  assert (forallb is_digit (decimal n) = true) as ->.
  { apply List.forallb_forall. intros c Hc%list_elem_of_In. rewrite Forall_forall in Hd.
    by apply Is_true_true_1, Hd. }
  rewrite Hv. by destruct (N.leb_spec n max); [|lia].
Qed.

Definition show_bool (b : bool) : list N := if b then ascii "true" else ascii "false".
Lemma value_bool b : value_ok (show_bool b).
Proof. destruct b; (split; [done|]; split; [|left]); by apply (bool_decide_unpack _). Qed.
Lemma parse_show_bool b : parse_bool (show_bool b) = Ok b.
Proof. by destruct b. Qed.

Lemma quoted_edge s : edge_ok (quoted s) = true.
Proof.
  unfold edge_ok, quoted. by rewrite app_assoc, last_snoc.
Qed.
Lemma value_quoted s : 10%N ∉ s → value_ok (quoted s).
Proof.
  intros Hs. split; [apply quoted_edge|]. split; [|by right].
  unfold quoted. rewrite !elem_of_app, !list_elem_of_singleton. intros [?|[?|?]]; done.
Qed.
Lemma parse_quoted s : parse_quoted_string (quoted s) = Ok s.
Proof.
  unfold parse_quoted_string. rewrite trim_id by apply quoted_edge.
  rewrite !bool_decide_eq_true_2; [|unfold quoted; by rewrite app_assoc, last_snoc|done]. cbn [andb].
  unfold quoted. rewrite slice_ok by (unfold len; rewrite ?length_app; cbn [length]; lia).
  f_equal. unfold window. change (N.to_nat 1) with 1. cbn [app drop].
  replace (N.to_nat _) with (length s); [apply take_app_length|].
  unfold len. cbn [length]. rewrite length_app. cbn [length]. lia.
Qed.

Lemma get_shown {A : Type} (m : gmap (list N) (list N)) key (o : option A) (show : A → list N) f :
  m !! key = show <$> o → (∀ x, o = Some x → f (show x) = Ok x) → get_with m key f = Ok o.
Proof.
  intros Hm Hf. unfold get_with. rewrite Hm. destruct o as [x|]; [|done]. cbn. by rewrite (Hf x).
Qed.

(** ** The configuration *)
Section config.
Context (parse_addr : list N → option SocketAddr) (show_addr : SocketAddr → list N).
Context (Haddr : ∀ a, parse_addr (show_addr a) = Some a ∧ 10%N ∉ show_addr a).

Definition config_table (c : Config) : table := [
  (ascii "download_dir", quoted <$> cf_download_dir c);
  (ascii "metadata_dir", quoted <$> cf_metadata_dir c);
  (ascii "daemon_addr", quoted ∘ show_addr <$> cf_daemon_addr c);
  (ascii "local_peer_port", decimal <$> cf_local_peer_port c);
  (ascii "max_global_peers", decimal <$> cf_max_global_peers c);
  (ascii "max_torrent_peers", decimal <$> cf_max_torrent_peers c);
  (ascii "is_ipv6", show_bool <$> cf_is_ipv6 c);
  (ascii "log", show_bool <$> cf_log c);
  (ascii "quit_after_complete", show_bool <$> cf_quit_after_complete c);
  (ascii "key", decimal <$> cf_key c)].

Definition config_wf (c : Config) : Prop :=
  (∀ s, cf_download_dir c = Some s → 10%N ∉ s) ∧ (∀ s, cf_metadata_dir c = Some s → 10%N ∉ s) ∧
  (∀ n, cf_local_peer_port c = Some n → n <= u16_max)%N ∧
  (∀ n, cf_max_global_peers c = Some n → n <= usize_max)%N ∧
  (∀ n, cf_max_torrent_peers c = Some n → n <= usize_max)%N ∧
  (∀ n, cf_key c = Some n → n <= u32_max)%N ∧
  cf_magnet c = None ∧ cf_stats c = false ∧ cf_pause c = None ∧ cf_quit c = false.

Lemma shown_ok {A : Type} (o : option A) (show : A → list N) :
  (∀ x, o = Some x → value_ok (show x)) → ∀ v, show <$> o = Some v → value_ok v.
Proof. intros Hs v. destruct o as [x|]; [|done]. intros [= <-]. by apply Hs. Qed.
Lemma config_table_ok c : config_wf c → table_ok (config_table c).
Proof.
  intros (H1 & H2 & _). split.
  - apply (bool_decide_unpack (NoDup _)). vm_compute. done.
  - repeat (apply Forall_cons; split; [split; [by vm_compute|cbn [snd]; apply shown_ok; intros x Hx]|]); try done;
      try apply value_decimal; try apply value_bool; apply value_quoted; [by apply H1|by apply H2|apply Haddr].
Qed.

(** The field [o] of the table, read back by what undoes its text *)
Ltac field Hl key o show undo :=
  rewrite (get_shown _ key o show) by
    first [solve [apply Hl; unfold config_table; repeat (first [by left|right])]
          |intros; apply undo; solve [eauto]].

Lemma read_addr (m : gmap (list N) (list N)) (o : option SocketAddr) :
  m !! ascii "daemon_addr" = quoted ∘ show_addr <$> o →
  (addr ← get_with m (ascii "daemon_addr") parse_quoted_string;
   match addr with Some a => a ← ok_or ParseStrError (parse_addr a); Ok (Some a) | None => Ok None end) =
  @Ok Error _ o.
Proof.
  intros Hm. rewrite (get_shown m (ascii "daemon_addr") (show_addr <$> o) quoted);
    [|by rewrite <- option_fmap_compose|intros; apply parse_quoted].
  destruct o as [a|]; [|done]. cbn. by destruct (Haddr a) as [-> _].
Qed.

Lemma bind_assoc {A B C : Type} (m : outcome Error A) (f : A → outcome Error B) (g : B → outcome Error C) :
  (m ≫= fun a => f a ≫= g) = ((m ≫= f) ≫= g).
Proof. by destruct m. Qed.

(** A configuration written as a file, one entry a line, is read back as it
    is; a value that is no boolean panics instead of being reported. *)
Theorem config_roundtrip c :
  config_wf c →
  from_str parse_addr (render_table (config_table c)) = Ok c ∧
  ∀ v, value_ok v → parse_bool_text v = None →
    from_str parse_addr (render_table [(ascii "log", Some v)]) = Panic.
Proof.
  intros Hw. split.
  - destruct (read_table _ (config_table_ok c Hw)) as (m & Hm & Hl).
    destruct Hw as (_ & _ & H3 & H4 & H5 & H6 & H7 & H8 & H9 & H10).
    unfold from_str. rewrite Hm. cbn [mbind outcome_bind].
    field Hl (ascii "is_ipv6") (cf_is_ipv6 c) show_bool parse_show_bool.
    field Hl (ascii "log") (cf_log c) show_bool parse_show_bool.
    field Hl (ascii "quit_after_complete") (cf_quit_after_complete c) show_bool parse_show_bool.
    field Hl (ascii "local_peer_port") (cf_local_peer_port c) decimal parse_decimal.
    field Hl (ascii "max_global_peers") (cf_max_global_peers c) decimal parse_decimal.
    field Hl (ascii "key") (cf_key c) decimal parse_decimal.
    field Hl (ascii "max_torrent_peers") (cf_max_torrent_peers c) decimal parse_decimal.
    field Hl (ascii "metadata_dir") (cf_metadata_dir c) quoted parse_quoted.
    field Hl (ascii "download_dir") (cf_download_dir c) quoted parse_quoted.
    cbn [mbind outcome_bind]. rewrite bind_assoc, (read_addr m (cf_daemon_addr c)).
    + cbn [mbind outcome_bind]. destruct c. cbn in *. by subst.
    + apply Hl. unfold config_table. repeat (first [by left|right]).
  - intros v Hv Hp. destruct (read_table [(ascii "is_ipv6", None); (ascii "log", Some v)]) as (m & Hm & Hl).
    { split; [by apply (bool_decide_unpack (NoDup _))|].
      repeat (constructor; [split; [done|]; by intros ? [= <-]|]). constructor. }
    unfold from_str. change (render_table _) with (render_table [(ascii "is_ipv6", None); (ascii "log", Some v)]).
    rewrite Hm. cbn [mbind outcome_bind]. unfold get_with.
    rewrite (Hl (ascii "is_ipv6") None), (Hl (ascii "log") (Some v)) by (repeat (first [by left|right])).
    cbn [mbind outcome_bind]. unfold parse_bool. by rewrite Hp.
Qed.
End config.

(** ** Limits *)

(** Loading reads the file in the folder of the configuration.  The folders are
    known on Linux and macOS when the home is; on Windows the configuration has
    none without [APPDATA], and on any other system the program panics. *)
Lemma load_on_system parse_addr os var home read listener rnd cli :
  load_on parse_addr os var home read listener rnd cli =
    (file_config ← from_file parse_addr os var home read;
     c ← merge file_config cli;
     resolve (config_dir os var home) (download_dir os var home) listener rnd c) ∧
  (is_Some home → match os with Linux | MacOs _ => True | _ => False end →
    is_Some (config_dir os var home) ∧ is_Some (download_dir os var home) ∧ is_Some (data_dir os var home)) ∧
  (os = OtherOs ∨ os = Windows ∧ var (ascii "APPDATA") = None → load_on parse_addr os var home read listener rnd cli = Panic).
Proof.
  split; [|split].
  - unfold load_on, load, from_file, get_config_folder. destruct (config_dir os var home) as [folder|]; [|done]. simpl.
    by destruct (read _).
  - assert (∀ name rel, is_Some home → is_Some (xdg_or_home var home name rel)) as Hx.
    { intros name rel [h ->]. unfold xdg_or_home. destruct (var name); [case_decide|]; by eexists. }
    intros Hh Hos. destruct os as [|x| |]; try done; simpl.
    + split_and!; by apply Hx.
    + destruct Hh as [h ->]. split_and!; by eexists.
  - intros [->|[-> Hv]]; [done|]. unfold load_on. simpl. unfold var_set. by rewrite Hv.
Qed.

Lemma resolved_limits config download listener rnd c rc :
  resolve config download listener rnd c = Ok rc →
  rc_max_global_peers rc = default 500%N (cf_max_global_peers c) ∧
  rc_max_torrent_peers rc = default 50%N (cf_max_torrent_peers c).
Proof.
  unfold resolve. destruct (or_panic config); [|done..]. destruct (or_panic download); [|done..].
  by intros [= <-].
Qed.

(** C31. The check of the limits of connections: what it lets pass is not zero,
    and keeps a torrent's limit within the global one, but for a global limit
    below 50 that stands alone; and it stops the program at a torrent's limit
    that stands alone, whatever it is, since it looks at the values before the
    defaults are filled in. *)
Theorem config_limits file cli config download listener rnd :
  let g := option_or (cf_max_global_peers cli) (cf_max_global_peers file) in
  let t := option_or (cf_max_torrent_peers cli) (cf_max_torrent_peers file) in
  (∀ c rc, merge file cli = Ok c → resolve config download listener rnd c = Ok rc →
    (0 < rc_max_global_peers rc)%N ∧ (0 < rc_max_torrent_peers rc)%N ∧
    ((rc_max_torrent_peers rc <= rc_max_global_peers rc)%N ↔ ¬ (t = None ∧ ∃ n, g = Some n ∧ (n < 50)%N))) ∧
  (merge file cli = Panic ↔
    g = Some 0%N ∨ t = Some 0%N ∨ (g = None ∧ is_Some t) ∨ ∃ x y, g = Some x ∧ t = Some y ∧ (x < y)%N).
Proof.
  intros g t. unfold merge. cbn [cf_max_global_peers cf_max_torrent_peers]. fold g t.
  destruct (bool_decide_reflect (g = Some 0%N)) as [Hg|Hg]; cbn [orb].
  { split; [done|]. split; [by left|done]. }
  destruct (bool_decide_reflect (t = Some 0%N)) as [Ht|Ht].
  { split; [done|]. split; [by right; left|done]. }
  destruct (option_lt g t) eqn:Hlt.
  { split; [done|]. split; [intros _; do 2 right|done].
    destruct g as [x|], t as [y|]; try done; [right; exists x, y|left]; cbn in Hlt.
    - split_and!; try done. by apply N.ltb_lt.
    - by split. }
  split.
  - intros c rc [= <-] [-> ->]%resolved_limits. cbn [cf_max_global_peers cf_max_torrent_peers]. fold g t.
    assert (Hpos : ∀ (o : option N) n, o ≠ Some 0%N → (0 < n)%N → (0 < default n o)%N).
    { intros [x|] n Ho Hn; [|done]. cbn. destruct (N.eq_dec x 0%N) as [->|]; [done|lia]. }
    split; [by apply Hpos|]. split; [by apply Hpos|].
    destruct g as [x|], t as [y|]; try done; cbn in *.
    + apply N.ltb_ge in Hlt. split; [by intros _ [? _]|done].
    + split; [intros Hle [_ (n & [= ->] & Hn)]; lia|].
      intros Hn. destruct (N.le_gt_cases 50 x); [done|]. destruct Hn. split; [done|]. by exists x.
    + split; [by intros _ [_ (n & ? & _)]|lia].
  - split; [done|]. intros [?|[?|[[Hn [y Hy]]|(x & y & Hx & Hy & Hxy)]]]; try done.
    + by rewrite Hn, Hy in Hlt.
    + rewrite Hx, Hy in Hlt. cbn in Hlt. apply N.ltb_ge in Hlt. lia.
Qed.

(** ** At concrete inputs *)

Definition show_port (a : SocketAddr) : list N := decimal a.
Definition parse_port (s : list N) : option SocketAddr := Some (digits_val s).
Lemma port_back a : parse_port (show_port a) = Some a ∧ 10%N ∉ show_port a.
Proof.
  unfold parse_port, show_port. split; [by destruct (decimal_spec a) as [-> _]|].
  intros Hin. pose proof (decimal_plain a) as Hp. rewrite Forall_forall in Hp.
  by destruct (Hp _ Hin) as (_ & ? & _).
Qed.
Definition ex_config : Config := {|
  cf_download_dir := Some (ascii "/tmp/a # b"); cf_metadata_dir := None; cf_daemon_addr := Some 51411%N;
  cf_local_peer_port := Some 51413%N; cf_max_global_peers := Some 500%N; cf_max_torrent_peers := Some 50%N;
  cf_is_ipv6 := Some false; cf_log := Some true; cf_quit_after_complete := None; cf_key := None;
  cf_magnet := None; cf_stats := false; cf_pause := None; cf_quit := false |}.

Lemma config_roundtrip_witness :
  from_str parse_port (render_table (config_table show_port ex_config)) = Ok ex_config ∧
  from_str parse_port (render_table [(ascii "log", Some (ascii "1"))]) = Panic.
Proof.
  destruct (config_roundtrip parse_port show_port port_back ex_config) as [H1 H2].
  - unfold config_wf. split_and!; try done; intros x [= <-]; try by vm_compute.
    by apply (bool_decide_unpack (10%N ∉ ascii "/tmp/a # b")).
  - split; [exact H1|]. apply H2; [|done]. split; [done|]. split; [|left]; by apply (bool_decide_unpack _).
Defined.

(** A torrent's limit of 10 alone stops the program, a global limit of 20 alone
    leaves torrents a limit of 50. *)
Definition ex_limits (g t : option N) : Config := {|
  cf_download_dir := None; cf_metadata_dir := None; cf_daemon_addr := None;
  cf_local_peer_port := None; cf_max_global_peers := g; cf_max_torrent_peers := t;
  cf_is_ipv6 := None; cf_log := None; cf_quit_after_complete := None; cf_key := None;
  cf_magnet := None; cf_stats := false; cf_pause := None; cf_quit := false |}.
Lemma config_limits_witness :
  merge (ex_limits None (Some 10%N)) (ex_limits None None) = Panic ∧
  ∃ rc, resolve (Some []) (Some []) 0%N 0 (ex_limits (Some 20%N) None) = Ok rc ∧
    ¬ (rc_max_torrent_peers rc <= rc_max_global_peers rc)%N.
Proof.
  split.
  - apply (config_limits _ _ None None 0%N 0). right. right. left. by split.
  - destruct (config_limits (ex_limits (Some 20%N) None) (ex_limits None None) (Some []) (Some []) 0%N 0) as [Hl _].
    eexists. split; [vm_compute; reflexivity|].
    destruct (Hl (ex_limits (Some 20%N) None) _ eq_refl eq_refl) as (_ & _ & Hi).
    intros Hle. apply Hi in Hle. destruct Hle. split; [done|]. by exists 20%N.
Defined.
