(* ===== verification/VimInput.v ===== *)
(** [vim_input.rs]: the text input of the interface: its lines, its cursor and
    its keys.  A line is a list of code points; the code's byte offsets all come
    from [char_indices] and stand for the characters before them.  The widths of
    a character and of a string are [unicode_width]'s.  Styles, blocks and drawing are left out;
    [draw] sets the width and height of the area. *)
From S2P Require Import Prelude Torrent Config.

(** [lib.rs] *)
Inductive Key :=
  | KChar (c : N) | KF (n : N) | KBackspace | KInsert | KEnter | KLeft | KRight | KUp | KDown | KTab
  | KDelete | KHome | KEnd | KPageUp | KPageDown | KEsc | KCopy | KCut | KPaste
  | KMouseScrollDown | KMouseScrollUp | KNull.
Record Input := { key : Key; ctrl : bool; alt : bool; shift : bool }.
Definition Input_default : Input := {| key := KNull; ctrl := false; alt := false; shift := false |}.

Inductive Mode := Normal | Insert | Operator (c : N).
#[global] Instance Mode_eq_dec : EqDecision Mode.
Proof. solve_decision. Defined.
#[global] Instance Key_eq_dec : EqDecision Key.
Proof. solve_decision. Defined.

Inductive Transition := Nop | ToMode (m : Mode) | Pending (i : Input) | QuitInput.

(** [VimInput]; [cursor] is the row and the column *)
Record VimInput := {
  mode : Mode;
  pending : Input;
  chars_per_line : N;
  v_lines : list (list N);
  cursor : N * N;
  area_height : N;
  scroll_offset : N;
}.
Definition VimInput_default : VimInput := {|
  mode := Insert; pending := Input_default; chars_per_line := 50; v_lines := [[]];
  cursor := (0, 0)%N; area_height := 0; scroll_offset := 0 |}.

Definition with_lines (l : list (list N)) (c : N * N) (v : VimInput) : VimInput := {|
  mode := mode v; pending := pending v; chars_per_line := chars_per_line v; v_lines := l;
  cursor := c; area_height := area_height v; scroll_offset := scroll_offset v |}.
Definition with_scroll (n : N) (v : VimInput) : VimInput := {|
  mode := mode v; pending := pending v; chars_per_line := chars_per_line v; v_lines := v_lines v;
  cursor := cursor v; area_height := area_height v; scroll_offset := n |}.
Definition with_mode (m : Mode) (p : Input) (v : VimInput) : VimInput := {|
  mode := m; pending := p; chars_per_line := chars_per_line v; v_lines := v_lines v;
  cursor := cursor v; area_height := area_height v; scroll_offset := scroll_offset v |}.

(** What [draw] changes *)
Definition set_area (width height : N) (v : VimInput) : VimInput := {|
  mode := mode v; pending := pending v; chars_per_line := width; v_lines := v_lines v;
  cursor := cursor v; area_height := height; scroll_offset := scroll_offset v |}.

(** A loop that never ends, as the error of a call *)
Inductive endless := Endless.

Section vim.
Context `{Build} (char_width : N → N) (str_width : list N → N).
Abbreviation vact := (action VimInput endless).

(** [str::len], of the encoding *)
Definition len_utf8 (c : N) : N :=
  if (c <? 128)%N then 1%N else if (c <? 2048)%N then 2%N else if (c <? 65536)%N then 3%N else 4%N.
Definition str_len (s : list N) : N := foldr (fun c n => len_utf8 c + n)%N 0%N s.

(** [VimInput::column_width] *)
Definition column_width (s : list N) : N := foldr (fun c n => char_width c + n)%N 0%N s.

(** The characters that fit before column [col], and the others: where
    [byte_idx_and_width_at_column] and [break_lines_from] cut a line *)
Fixpoint split_col (col current_col : N) (s : list N) : list N * list N :=
  match s with
  | [] => ([], [])
  | ch :: rest =>
      if (col <? current_col + char_width ch)%N then ([], s)
      else let '(a, b) := split_col col (current_col + char_width ch) rest in (ch :: a, b)
  end.

(** [VimInput::adjust_scroll_offset] *)
Definition adjust_scroll_offset : vact unit :=
  modifyS (fun v => if ((cursor v).1 <? scroll_offset v)%N then with_scroll (cursor v).1 v else v) ≫= fun _ =>
  getS ≫= fun v =>
  let row := (cursor v).1 in
  lift (a ← uadd (scroll_offset v) (area_height v); usub a 1) ≫= fun bottom_line =>
  (if (bottom_line <? row)%N then
     lift (a ← usub row (area_height v); uadd a 1) ≫= fun off => modifyS (with_scroll off)
   else mret tt) ≫= fun _ =>
  modifyS (fun v => with_scroll (N.min (scroll_offset v) (len (v_lines v) - area_height v)) v).

(** [VimInput::break_lines_from], on the lines from [row] on; [fuel] bounds the
    lines it visits. *)
Fixpoint break_lines (cpl : N) (fuel : nat) (row : N) (ls : list (list N)) (cur : N * N)
    : option (list (list N) * (N * N)) :=
  match ls with
  | [] => Some ([], cur)
  | line :: rest =>
      match fuel with
      | O => None
      | S fuel =>
          if (column_width line <=? cpl)%N then
            '(ls, cur) ← break_lines cpl fuel (row + 1) rest cur; Some (line :: ls, cur)
          else
            let '(pre, remainder) := split_col cpl 0 line in
            let rest := match rest with [] => [remainder] | next :: rest => (remainder ++ next) :: rest end in
            let cur := if (cur.1 =? row)%N && (column_width pre <? cur.2)%N
                       then (cur.1 + 1, cur.2 - column_width pre)%N else cur in
            '(ls, cur) ← break_lines cpl fuel (row + 1) rest cur; Some (pre :: ls, cur)
      end
  end.
Definition break_lines_from (fuel : nat) (start_row : N) : vact unit :=
  getS ≫= fun v =>
  let n := N.to_nat start_row in
  lift (ok_or Endless (break_lines (chars_per_line v) fuel start_row (drop n (v_lines v)) (cursor v))) ≫= fun '(ls, cur) =>
  modifyS (with_lines (take n (v_lines v) ++ ls) cur).

(** [VimInput::insert_char] *)
Definition insert_char (fuel : nat) (c : N) : vact unit :=
  getS ≫= fun v =>
  let '(row, col) := cursor v in
  let ls := v_lines v ++ replicate (N.to_nat (row + 1 - len (v_lines v))) [] in
  lift (index ls row) ≫= fun line =>
  let '(before, after) := split_col col 0 line in
  let line := before ++ c :: after in
  lift (uadd col (char_width c)) ≫= fun col =>
  modifyS (with_lines (<[N.to_nat row := line]> ls) (row, col)) ≫= fun _ =>
  (if (chars_per_line v <? column_width line)%N then break_lines_from fuel row else mret tt) ≫= fun _ =>
  adjust_scroll_offset.

(** [VimInput::insert_newline] *)
Definition insert_newline : vact unit :=
  getS ≫= fun v =>
  let '(row, col) := cursor v in
  lift (index (v_lines v) row) ≫= fun line =>
  let '(before, remainder) := split_col col 0 line in
  let n := N.to_nat row in
  modifyS (with_lines (take n (v_lines v) ++ [before; remainder] ++ drop (S n) (v_lines v)) ((row + 1)%N, 0%N)) ≫= fun _ =>
  adjust_scroll_offset.

(** The loop of [backspace] that fills a line from the next ones; one character
    moves up for each line. *)
Fixpoint refill (cpl : N) (line : list N) (rest : list (list N)) : list (list N) :=
  match rest with
  | [] => [line]
  | next :: rest' =>
      if (cpl <=? column_width line)%N then line :: rest
      else
        match next with
        | [] => refill cpl line rest'
        | ch :: next' =>
            if (cpl <? column_width line + char_width ch)%N then line :: rest
            else (line ++ [ch]) :: refill cpl next' rest'
        end
  end.

(** [VimInput::backspace]: the character before the cursor is the last of those
    before its column, or else the first of the line, of no width. *)
Definition backspace (fuel : nat) : vact unit :=
  getS ≫= fun v =>
  let '(row, col) := cursor v in
  let n := N.to_nat row in
  (if (0 <? col)%N then
    lift (index (v_lines v) row) ≫= fun line =>
    let '(before, after) := split_col col 0 line in
    lift (match last before, line with
          | Some ch, _ => Ok (removelast before ++ after, char_width ch)
          | None, _ :: line => Ok (line, 0%N)
          | None, [] => Panic
          end) ≫= fun '(line, last_width) =>
    lift (usub col last_width) ≫= fun col =>
    modifyS (with_lines (take n (v_lines v) ++ refill (chars_per_line v) line (drop (S n) (v_lines v))) (row, col))
  else if (0 <? row)%N then
    lift (index (v_lines v) row) ≫= fun current_line =>
    lift (index (v_lines v) (row - 1)) ≫= fun prev_line =>
    modifyS (with_lines (take (pred n) (v_lines v) ++ [prev_line ++ current_line] ++ drop (S n) (v_lines v))
      ((row - 1)%N, column_width prev_line)) ≫= fun _ =>
    break_lines_from fuel (row - 1)
  else mret tt) ≫= fun _ =>
  adjust_scroll_offset.

(** ** The cursor *)

Definition set_cursor (c : N * N) : vact unit := modifyS (fun v => with_lines (v_lines v) c v).

(** The column [VimInput::move_cursor_left] goes to in a line *)
Fixpoint left_of (col start prev_start : N) (s : list N) : N * bool :=
  match s with
  | [] => (prev_start, false)
  | ch :: s =>
      if (col <? start + char_width ch)%N then ((if (col =? start)%N then prev_start else start), true)
      else left_of col (start + char_width ch) start s
  end.
(** [VimInput::move_cursor_left], which leaves early inside a line *)
Definition move_cursor_left : vact unit :=
  getS ≫= fun v =>
  let '(row, col) := cursor v in
  if (0 <? col)%N then
    lift (index (v_lines v) row) ≫= fun line =>
    let '(col, early) := left_of col 0 0 line in
    set_cursor (row, col) ≫= fun _ => if early then mret tt else adjust_scroll_offset
  else if (0 <? row)%N then
    lift (index (v_lines v) (row - 1)) ≫= fun line =>
    set_cursor ((row - 1)%N, str_width line) ≫= fun _ => adjust_scroll_offset
  else adjust_scroll_offset.

(** The column [VimInput::move_cursor_right] goes to in a line *)
Fixpoint right_of (col start : N) (s : list N) : N :=
  match s with
  | [] => col
  | ch :: s =>
      if (col <? start + char_width ch)%N then (start + char_width ch)%N
      else right_of col (start + char_width ch) s
  end.
Definition move_cursor_right : vact unit :=
  getS ≫= fun v =>
  let '(row, col) := cursor v in
  lift (index (v_lines v) row) ≫= fun line =>
  lift (usub (len (v_lines v)) 1) ≫= fun last_row =>
  (if (col <? str_width line)%N then set_cursor (row, right_of col 0 line)
   else if (row <? last_row)%N then set_cursor ((row + 1)%N, 0%N) else mret tt) ≫= fun _ =>
  adjust_scroll_offset.

(** The cursor on [row], not past its end *)
Definition to_row (row : N) : vact unit :=
  getS ≫= fun v =>
  lift (index (v_lines v) row) ≫= fun line =>
  set_cursor (row, N.min (cursor v).2 (str_width line)).
Definition move_cursor_up : vact unit :=
  getS ≫= fun v =>
  (if (0 <? (cursor v).1)%N then to_row ((cursor v).1 - 1) else mret tt) ≫= fun _ =>
  adjust_scroll_offset.
Definition move_cursor_down : vact unit :=
  getS ≫= fun v =>
  lift (usub (len (v_lines v)) 1) ≫= fun last_row =>
  (if ((cursor v).1 <? last_row)%N then to_row ((cursor v).1 + 1) else mret tt) ≫= fun _ =>
  adjust_scroll_offset.

(** The cursor on [row], its column no more than the bytes of the line *)
Definition scroll_to_row (row : N) : vact unit :=
  getS ≫= fun v =>
  lift (index (v_lines v) row) ≫= fun line =>
  set_cursor (row, N.min (cursor v).2 (str_len line)).
(** [VimInput::scroll_up], [scroll_down] *)
Definition scroll_up (n : N) : vact unit :=
  getS ≫= fun v =>
  let new_scroll := (scroll_offset v - n)%N in
  lift (usub (scroll_offset v) new_scroll) ≫= fun amount =>
  modifyS (with_scroll new_scroll) ≫= fun _ =>
  if (0 <? (cursor v).1)%N then scroll_to_row ((cursor v).1 - amount) else mret tt.
Definition scroll_down (n : N) : vact unit :=
  getS ≫= fun v =>
  lift (uadd (scroll_offset v) n) ≫= fun sum =>
  let new_scroll := N.min sum (len (v_lines v) - area_height v) in
  lift (usub new_scroll (scroll_offset v)) ≫= fun amount =>
  modifyS (with_scroll new_scroll) ≫= fun _ =>
  lift (usub (len (v_lines v)) 1) ≫= fun last_row =>
  if ((cursor v).1 <? last_row)%N then
    lift (uadd (cursor v).1 amount) ≫= fun row => scroll_to_row (N.min row last_row)
  else mret tt.

(** ** Keys *)

Definition normal (m : vact unit) : vact Transition := m ≫= fun _ => mret (ToMode Normal).
Definition nop (m : vact unit) : vact Transition := m ≫= fun _ => mret Nop.

(** [VimInput::handle_normal_mode] *)
Definition handle_normal_mode (i : Input) : vact Transition :=
  getS ≫= fun v =>
  let h := area_height v in
  match key i with
  | KChar 105 => mret (ToMode Insert)
  | KChar 104 => normal move_cursor_left
  | KChar 106 => normal move_cursor_down
  | KChar 107 => normal move_cursor_up
  | KChar 108 => normal move_cursor_right
  | KChar 101 => if ctrl i then nop (scroll_down 1) else mret Nop
  | KChar 121 => if ctrl i then nop (scroll_up 1) else mret Nop
  | KChar 100 => if ctrl i then nop (scroll_down (div_ceil h 2)) else mret Nop
  | KChar 117 => if ctrl i then nop (scroll_up (div_ceil h 2)) else mret Nop
  | KChar 102 => if ctrl i then nop (scroll_down h) else mret Nop
  | KChar 98 => if ctrl i then nop (scroll_up h) else mret Nop
  | KChar 71 =>
      if shift i then
        let last_line := (len (v_lines v) - 1)%N in
        lift (index (v_lines v) last_line) ≫= fun line =>
        set_cursor (last_line, str_len line) ≫= fun _ => normal adjust_scroll_offset
      else mret Nop
  | KChar 103 =>
      if decide (key (pending v) = KChar 103) then
        set_cursor (0, 0)%N ≫= fun _ => modifyS (with_scroll 0) ≫= fun _ =>
        modifyS (fun v => with_mode (mode v) Input_default v) ≫= fun _ => mret (ToMode Normal)
      else mret (Pending i)
  | _ => mret Nop
  end.

(** [VimInput::handle_insert_mode] *)
Definition handle_insert_mode (fuel : nat) (i : Input) : vact Transition :=
  match key i with
  | KEsc => mret (ToMode Normal)
  | KEnter => if shift i then nop insert_newline else mret Nop
  | KBackspace => nop (backspace fuel)
  | KChar c => insert_char fuel c ≫= fun _ => mret (ToMode Insert)
  | _ => mret Nop
  end.

(** [VimInput::transition] *)
Definition transition (fuel : nat) (i : Input) : vact Transition :=
  getS ≫= fun v =>
  if decide (key i = KNull) then mret Nop
  else if bool_decide (mode v = Normal) && bool_decide (key i = KEsc) then mret QuitInput
  else
    match mode v with
    | Normal => handle_normal_mode i
    | Insert => handle_insert_mode fuel i
    | Operator _ => mret Nop
    end.

(** [VimInput::handle_event]: whether the input is over *)
Definition vim_handle_event (fuel : nat) (i : Input) : vact bool :=
  transition fuel i ≫= fun t =>
  match t with
  | ToMode m => modifyS (fun v => with_mode m (pending v) v) ≫= fun _ => mret false
  | Pending i => modifyS (fun v => with_mode (mode v) i v) ≫= fun _ => mret false
  | QuitInput => mret true
  | Nop => mret false
  end.

(** [validate_magnet], with the parser of links *)
Definition validate_magnet {M : Type} (parse : list N → option M) (v : VimInput) : option M :=
  parse (trim (concat (v_lines v))).
End vim.
