(* ===== verification/VimInputFacts.v ===== *)
(** What the keys of the text input do: breaking lines ends exactly when every
    character fits in the area; a key of the insert mode is an edit of the text
    on both sides of the cursor; no key panics or moves the cursor out of the
    text or out of sight. *)
From S2P Require Import Prelude Bencode BencodeText Torrent Config VimInput.

(** The text on both sides of the cursor *)
Record Buffer := { left_text : list N; right_text : list N }.
Definition buffer_text (b : Buffer) : list N := left_text b ++ right_text b.
(** What a key of the insert mode means to the text; [at_start] tells whether
    the cursor starts a line, where backspace joins lines and removes nothing. *)
Definition buffer_key (at_start : bool) (k : Key) (b : Buffer) : Buffer :=
  match k with
  | KChar c => {| left_text := left_text b ++ [c]; right_text := right_text b |}
  | KBackspace =>
      if at_start then b else {| left_text := removelast (left_text b); right_text := right_text b |}
  | _ => b
  end.

(** Keys one after the other, until one ends the input *)
Fixpoint vim_keys `{Build} (char_width : N → N) (str_width : list N → N) (fuel : nat) (ks : list Input)
    : action VimInput endless unit :=
  match ks with
  | [] => mret tt
  | k :: ks =>
      vim_handle_event char_width str_width fuel k ≫= fun quit =>
      if quit : bool then mret tt else vim_keys char_width str_width fuel ks
  end.

Section widths.
Context (char_width : N → N).
Abbreviation width := (column_width char_width).

Lemma column_width_app s t : width (s ++ t) = (width s + width t)%N.
Proof. unfold column_width. induction s; simpl; lia. Qed.
Lemma column_width_char c s : width (c :: s) = (char_width c + width s)%N.
Proof. done. Qed.
Lemma column_width_elem c s : c ∈ s → (char_width c <= width s)%N.
Proof. induction 1; rewrite column_width_char; lia. Qed.
Lemma column_width_zero s : Forall (fun c => 1 <= char_width c)%N s → width s = 0%N → s = [].
Proof. intros Hs. destruct Hs; [done|]. rewrite column_width_char. lia. Qed.

Lemma split_col_app col cur s a b : split_col char_width col cur s = (a, b) → s = a ++ b.
Proof.
  revert cur a b. induction s as [|c s IH]; simpl; intros cur a b Hs; [by simplify_eq|].
  case_match; [by simplify_eq|]. destruct (split_col _ _ _ _) as [a' b'] eqn:Hr. simplify_eq/=.
  f_equal. by eapply IH.
Qed.
(** Up to the width of a prefix, the prefix is cut off, if the next character
    has a width. *)
Lemma split_col_at cur a b :
  (∀ c, head b = Some c → 1 <= char_width c)%N →
  split_col char_width (cur + width a) cur (a ++ b) = (a, b).
Proof.
  intros Hb. revert cur. induction a as [|c a IH]; intros cur; simpl.
  - destruct b as [|c b]; [done|]. simpl. specialize (Hb c eq_refl).
    destruct (N.ltb_spec (cur + 0) (cur + char_width c)); [done|lia].
  - destruct (N.ltb_spec (cur + (char_width c + width a)) (cur + char_width c)); [lia|].
    rewrite N.add_assoc. by rewrite IH.
Qed.
(** A line that is too wide is cut so that its start fits, and not empty if its
    first character fits. *)
Lemma split_col_fits col cur s a b :
  split_col char_width col cur s = (a, b) → (cur <= col)%N → (cur + width a <= col)%N.
Proof.
  revert cur a b. induction s as [|c s IH]; simpl; intros cur a b Hs Hc; [simplify_eq/=; lia|].
  case_match eqn:Hlt; [simplify_eq/=; lia|]. destruct (split_col _ _ _ _) as [a' b'] eqn:Hr. simplify_eq/=.
  apply IH in Hr; lia.
Qed.
Lemma split_col_progress col s a b :
  split_col char_width col 0 s = (a, b) → s ≠ [] → Forall (fun c => char_width c <= col)%N s → a ≠ [].
Proof.
  destruct s as [|c s]; [done|]. simpl. intros Hs _ Hf. inversion_clear Hf.
  case_match eqn:Hlt; [lia|]. destruct (split_col _ _ _ _). by simplify_eq.
Qed.

(** *** Breaking lines *)

(** What is broken next, after a line that was too wide *)
Definition carry (rest : list N) (ls : list (list N)) : list (list N) :=
  match ls with [] => [rest] | next :: ls => (rest ++ next) :: ls end.
Lemma concat_carry s ls : concat (carry s ls) = s ++ concat ls.
Proof. destruct ls; simpl; [done|]. by rewrite app_assoc. Qed.
Lemma length_carry s ls : length (carry s ls) = Nat.max 1 (length ls).
Proof. destruct ls; simpl; lia. Qed.

Lemma break_lines_eq cpl fuel row line rest cur :
  break_lines char_width cpl (S fuel) row (line :: rest) cur =
  if (width line <=? cpl)%N then
    '(ls, cur) ← break_lines char_width cpl fuel (row + 1) rest cur; Some (line :: ls, cur)
  else
    let '(pre, remainder) := split_col char_width cpl 0 line in
    let cur := if (cur.1 =? row)%N && (width pre <? cur.2)%N
               then (cur.1 + 1, cur.2 - width pre)%N else cur in
    '(ls, cur) ← break_lines char_width cpl fuel (row + 1) (carry remainder rest) cur; Some (pre :: ls, cur).
Proof. done. Qed.

(** Every turn passes a line or takes characters off the text. *)
Lemma break_lines_total cpl fuel row ls cur :
  Forall (fun c => char_width c <= cpl)%N (concat ls) →
  length ls + length (concat ls) <= fuel →
  ∃ r, break_lines char_width cpl fuel row ls cur = Some r ∧ concat r.1 = concat ls ∧
    Forall (fun l => width l <= cpl)%N r.1 ∧ length ls <= length r.1 <= length ls + length (concat ls).
Proof.
  revert row ls cur. induction fuel as [|fuel IH]; intros row ls cur Hf Hn.
  { destruct ls; [|simpl in *; lia]. eexists. by repeat split. }
  destruct ls as [|line rest]; [eexists; by repeat split|]. rewrite break_lines_eq. simpl in Hf, Hn.
  rewrite length_app in Hn. apply Forall_app in Hf as [Hl Hr].
  destruct (N.leb_spec (width line) cpl) as [Hw|Hw].
  - destruct (IH (row + 1)%N rest cur Hr) as ([ls' cur'] & -> & Hc & Hwid & Hlen); [lia|].
    eexists. split; [reflexivity|]. simpl in *. rewrite Hc, length_app. split_and!; [done|by constructor|lia..].
  - destruct (split_col _ _ _ _) as [pre remainder] eqn:Hs. cbv zeta.
    pose proof (split_col_fits _ _ _ _ _ Hs (N.le_0_l _)) as Hpre.
    assert (line ≠ []) as Hne by (intros ->; simpl in Hw; lia).
    pose proof (split_col_progress _ _ _ _ Hs Hne Hl) as Hp. apply split_col_app in Hs as ->.
    apply Forall_app in Hl as [_ Hrem]. rewrite length_app in Hn.
    destruct pre as [|c pre]; [done|]. simpl in Hn.
    edestruct (IH (row + 1)%N (carry remainder rest)) as ([ls' cur'] & -> & Hc & Hwid & Hlen).
    { rewrite concat_carry. by apply Forall_app. }
    { rewrite concat_carry, length_carry, length_app. lia. }
    rewrite concat_carry, length_carry, ?length_app in *.
    eexists. split; [reflexivity|]. simpl in *. rewrite Hc, !length_app.
    split_and!; [by rewrite app_assoc|by constructor|lia..].
Qed.

(** A character wider than the area is pushed to the next line forever. *)
Lemma break_lines_endless cpl fuel row ls cur c :
  c ∈ concat ls → (cpl < char_width c)%N → break_lines char_width cpl fuel row ls cur = None.
Proof.
  revert row ls cur. induction fuel as [|fuel IH]; intros row ls cur Hin Hc.
  { destruct ls; [by apply elem_of_nil in Hin|done]. }
  destruct ls as [|line rest]; [by apply elem_of_nil in Hin|]. rewrite break_lines_eq. simpl in Hin.
  apply elem_of_app in Hin. destruct (N.leb_spec (width line) cpl) as [Hw|Hw].
  - destruct Hin as [Hin|Hin]; [apply column_width_elem in Hin; lia|]. by rewrite (IH _ rest).
  - destruct (split_col _ _ _ _) as [pre remainder] eqn:Hs. cbv zeta.
    pose proof (split_col_fits _ _ _ _ _ Hs (N.le_0_l _)) as Hpre. apply split_col_app in Hs as ->.
    rewrite IH; [done| |done]. rewrite concat_carry. rewrite elem_of_app in *.
    destruct Hin as [[Hin|Hin]|Hin]; [apply column_width_elem in Hin; lia|by left|by right].
Qed.

(** The cursor stays at its place in the text: [a] and [z] are the parts of the
    first line on its sides. *)
Lemma break_lines_passed cpl fuel row ls cur ls' cur' :
  break_lines char_width cpl fuel row ls cur = Some (ls', cur') → (cur.1 < row)%N →
  cur' = cur ∧ concat ls' = concat ls.
Proof.
  revert row ls cur ls' cur'. induction fuel as [|fuel IH]; intros row ls cur ls' cur' Hb Hc.
  { destruct ls; by simplify_eq/=. }
  destruct ls as [|line rest]; [by simplify_eq/=|]. rewrite break_lines_eq in Hb. case_match.
  - apply bind_Some in Hb as ([ls1 cur1] & Hb & [= <- <-]). apply IH in Hb as [-> ?]; [|lia].
    simpl. split; congruence.
  - destruct (split_col _ _ _ _) as [pre remainder] eqn:Hs. apply split_col_app in Hs as ->.
    replace (cur.1 =? row)%N with false in Hb by (symmetry; lia). simpl in Hb.
    apply bind_Some in Hb as ([ls1 cur1] & Hb & [= <- <-]). apply IH in Hb as [-> Hcc]; [|lia].
    simpl. by rewrite Hcc, concat_carry, app_assoc.
Qed.

Lemma prefixes_by_width a z pre remainder :
  a ++ z = pre ++ remainder → Forall (fun c => 1 <= char_width c)%N a →
  (width pre < width a)%N ∧ (∃ k, a = pre ++ k ∧ remainder = k ++ z) ∨
  (width a <= width pre)%N ∧ ∃ k, pre = a ++ k ∧ z = k ++ remainder.
Proof.
  intros He Ha. apply app_eq_inv in He as [(k & -> & ->)|(k & -> & ->)].
  - apply Forall_app in Ha as [_ Hk]. rewrite column_width_app. destruct (decide (width k = 0%N)) as [Hz|].
    + apply column_width_zero in Hz as ->; [|done]. right. split; [simpl; lia|]. exists []. by rewrite !app_nil_r.
    + left. split; [lia|eauto].
  - right. rewrite column_width_app. split; [lia|eauto].
Qed.

Lemma break_lines_cursor cpl fuel row a z below ls' cur' :
  break_lines char_width cpl fuel row ((a ++ z) :: below) (row, width a) = Some (ls', cur') →
  Forall (fun c => 1 <= char_width c)%N (a ++ z ++ concat below) →
  ∃ above' a' z' below', ls' = above' ++ (a' ++ z') :: below' ∧ cur' = (row + len above', width a')%N ∧
    concat above' ++ a' = a ∧ z' ++ concat below' = z ++ concat below.
Proof.
  revert row a z below ls' cur'.
  induction fuel as [|fuel IH]; [done|]; intros row a z below ls' cur' Hb Hpos.
  rewrite break_lines_eq in Hb. case_match.
  - apply bind_Some in Hb as ([ls1 cur1] & Hb & [= <- <-]).
    apply break_lines_passed in Hb as [-> Hc]; [|simpl; lia].
    exists [], a, z, ls1. simpl. rewrite Hc, N.add_0_r. done.
  - destruct (split_col _ _ _ _) as [pre remainder] eqn:Hs. apply split_col_app in Hs.
    simpl fst in Hb. simpl snd in Hb. rewrite N.eqb_refl, andb_true_l in Hb. cbv zeta in Hb.
    assert (Forall (fun c => 1 <= char_width c)%N a) as Ha by by apply Forall_app in Hpos as [? _].
    destruct (prefixes_by_width _ _ _ _ Hs Ha) as [[Hlt (k & -> & ->)]|[Hle (k & -> & ->)]].
    + rewrite (proj2 (N.ltb_lt _ _) Hlt), column_width_app in Hb.
      replace (width pre + width k - width pre)%N with (width k) in Hb by lia.
      apply bind_Some in Hb as ([ls1 cur1] & Hb & [= <- <-]).
      assert (∃ z1 below1, carry (k ++ z) below = (k ++ z1) :: below1 ∧ z1 ++ concat below1 = z ++ concat below)
        as (z1 & below1 & Hcar & Hz1).
      { destruct below as [|next below]; [exists z, []|exists (z ++ next), below]; simpl; by rewrite <- ?app_assoc. }
      rewrite Hcar in Hb. apply IH in Hb as (ab & a' & z' & bl & -> & -> & <- & Hz).
      * exists (pre :: ab), a', z', bl. rewrite len_cons. simpl.
        split_and!; [done|f_equal; lia|by rewrite app_assoc|by rewrite Hz].
      * rewrite Hz1. rewrite <- app_assoc in Hpos. by apply Forall_app in Hpos as [_ ?].
    + rewrite (proj2 (N.ltb_ge _ _) Hle) in Hb. apply bind_Some in Hb as ([ls1 cur1] & Hb & [= <- <-]).
      apply break_lines_passed in Hb as [-> Hc]; [|simpl; lia].
      exists [], a, k, ls1. simpl. rewrite Hc, concat_carry, N.add_0_r, <- app_assoc. done.
Qed.
End widths.

(** ** The state *)

Section edits.
Context `{Build} (char_width : N → N) (str_width : list N → N).
Abbreviation width := (column_width char_width).

(** The lines and the cursor are those of a text with a place in it. *)
Definition showing (v : VimInput) (b : Buffer) : Prop :=
  ∃ above a z below, v_lines v = above ++ (a ++ z) :: below ∧ cursor v = (len above, width a) ∧
    left_text b = concat above ++ a ∧ right_text b = z ++ concat below.
(** The row of the cursor is drawn, and no more lines are scrolled away than
    do not fit. *)
Definition visible (v : VimInput) : Prop :=
  (scroll_offset v <= (cursor v).1 < scroll_offset v + area_height v)%N ∧
  (scroll_offset v <= len (v_lines v) - area_height v)%N.
(** The characters have a width, and fit in an area of [cpl] columns. *)
Definition in_area (cpl : N) (s : list N) : Prop := Forall (fun c => 1 <= char_width c <= cpl)%N s.
Definition same_area (v v' : VimInput) : Prop :=
  mode v' = mode v ∧ pending v' = pending v ∧ chars_per_line v' = chars_per_line v ∧
  area_height v' = area_height v.
Definition area_ok (v : VimInput) : Prop :=
  (1 <= area_height v <= u16_max)%N ∧ (chars_per_line v <= u16_max)%N.
(** What a call comes to: the text [b], in at most [n] lines *)
Definition settles (v : VimInput) (n : N) (b : Buffer) (r : outcome endless unit * VimInput) : Prop :=
  ∃ v', r = (Ok tt, v') ∧ same_area v v' ∧ showing v' b ∧ visible v' ∧ (len (v_lines v') <= n)%N.

Lemma showing_row v b : showing v b → ((cursor v).1 < len (v_lines v))%N.
Proof. intros (above & a & z & below & -> & -> & _). rewrite len_app, len_cons. simpl. lia. Qed.

(** A bound on the text and the lines, within which no sum overflows *)
Definition vim_bound : N := 1099511627776.

Lemma adjust_ok v :
  area_ok v → ((cursor v).1 < len (v_lines v))%N → (len (v_lines v) <= vim_bound)%N →
  ∃ off, adjust_scroll_offset v = (Ok tt, with_scroll off v) ∧ visible (with_scroll off v).
Proof.
  intros [Ha _] Hrow Hn. unfold vim_bound, u16_max in *.
  set (off := if ((cursor v).1 <? scroll_offset v)%N then (cursor v).1 else scroll_offset v).
  assert ((if ((cursor v).1 <? scroll_offset v)%N then with_scroll (cursor v).1 v else v) = with_scroll off v)
    as Hoff by (unfold off; case_match; by destruct v).
  destruct v as [m p cpl ls [row col] h sc]. unfold adjust_scroll_offset, visible.
  rewrite bind_modifyS, Hoff, bind_getS. simpl in *.
  assert (off <= row)%N as Hle by (unfold off; case_match; lia).
  rewrite !bind_action. cbn. rewrite uadd_ok by (unfold usize_max, u64_max; lia). cbn.
  rewrite usub_ok by (unfold usize_max, u64_max; lia).
  destruct (N.ltb_spec (off + h - 1)%N row).
  - rewrite !bind_action. cbn. rewrite usub_ok by (unfold usize_max, u64_max; lia). cbn.
    rewrite uadd_ok by (unfold usize_max, u64_max; lia). cbn.
    eexists. split; [reflexivity|]. simpl. lia.
  - eexists. split; [reflexivity|]. simpl. lia.
Qed.
Lemma same_area_ok v v' : same_area v v' → area_ok v → area_ok v'.
Proof. unfold same_area, area_ok. intros (_ & _ & -> & ->). done. Qed.
Lemma adjust_settles v v' n b :
  showing v' b → same_area v v' → area_ok v → (len (v_lines v') <= n)%N → (n <= vim_bound)%N →
  settles v n b (adjust_scroll_offset v').
Proof.
  intros Hs Hsame Ha Hn Hb. destruct (adjust_ok v') as (off & -> & Hv);
    [by eapply same_area_ok|by eapply showing_row|lia|]. exists (with_scroll off v'). by split_and!.
Qed.

Lemma showing_lines v v' b : v_lines v' = v_lines v → cursor v' = cursor v → showing v b → showing v' b.
Proof. unfold showing. by intros -> ->. Qed.

Lemma in_area_app cpl s t : in_area cpl (s ++ t) ↔ in_area cpl s ∧ in_area cpl t.
Proof. apply Forall_app. Qed.
Lemma in_area_pos cpl s : in_area cpl s → Forall (fun c => 1 <= char_width c)%N s.
Proof. intros Hs. eapply Forall_impl; [exact Hs|]. simpl. lia. Qed.
Lemma in_area_le cpl s : in_area cpl s → Forall (fun c => char_width c <= cpl)%N s.
Proof. intros Hs. eapply Forall_impl; [exact Hs|]. simpl. lia. Qed.
Lemma in_area_width cpl s : in_area cpl s → (len s <= width s <= len s * cpl)%N.
Proof.
  induction 1 as [|c s Hc Hs IH]; [done|]. rewrite len_cons, column_width_char. nia.
Qed.
Lemma split_col_line cpl a z : in_area cpl z → split_col char_width (width a) 0 (a ++ z) = (a, z).
Proof.
  intros Hz. apply (split_col_at _ 0 a z). intros c Hc. destruct z; simplify_eq/=.
  inversion_clear Hz. lia.
Qed.

Lemma index_middle {A} (above below : list A) (l : A) :
  index (E:=endless) (above ++ l :: below) (len above) = Ok l.
Proof. unfold index. by rewrite len_nat, list_lookup_middle. Qed.
Lemma insert_middle {A} (above below : list A) (l l' : A) :
  <[N.to_nat (len above) := l']> (above ++ l :: below) = above ++ l' :: below.
Proof. rewrite len_nat. rewrite insert_app_r_alt by lia. by rewrite Nat.sub_diag. Qed.
Lemma take_above {A} (above below : list A) : take (N.to_nat (len above)) (above ++ below) = above.
Proof. rewrite len_nat. apply take_app_length. Qed.
Lemma drop_above {A} (above below : list A) : drop (N.to_nat (len above)) (above ++ below) = below.
Proof. rewrite len_nat. apply drop_app_length. Qed.
Lemma drop_below {A} (above below : list A) (l : A) : drop (S (N.to_nat (len above))) (above ++ l :: below) = below.
Proof. rewrite len_nat. rewrite drop_app_ge by lia. by replace (S (length above) - length above) with 1 by lia. Qed.

(** *** Typing *)

(** What the calls of the insert mode start from *)
Record editable (v : VimInput) (b : Buffer) (fuel : nat) : Prop := {
  ed_shows : showing v b;
  ed_area : area_ok v;
  ed_chars : in_area (chars_per_line v) (buffer_text b);
  ed_fuel : (len (v_lines v) + len (buffer_text b) < N.of_nat fuel)%N;
  ed_bound : (N.of_nat fuel <= vim_bound)%N;
}.

(** Breaking the lines from the cursor on *)
Lemma break_lines_settles v v' above a z below b fuel n :
  v_lines v' = above ++ (a ++ z) :: below → cursor v' = (len above, width a) →
  left_text b = concat above ++ a → right_text b = z ++ concat below →
  same_area v v' → area_ok v → in_area (chars_per_line v) (a ++ z ++ concat below) →
  (len (v_lines v') + len (buffer_text b) <= N.of_nat fuel)%N → (len (v_lines v') + len (buffer_text b) <= n <= vim_bound)%N →
  settles v n b ((break_lines_from char_width fuel (len above) ≫= fun _ => adjust_scroll_offset) v').
Proof.
  intros Hl Hc Hlt Hrt Hsame Ha Hin Hf Hn. unfold break_lines_from.
  rewrite bind_action, bind_getS, Hl, Hc, drop_above, take_above.
  destruct (break_lines_total char_width (chars_per_line v') fuel (len above) ((a ++ z) :: below) (len above, width a))
    as ([ls cur] & Hb & _ & _ & Hlen).
  { simpl. rewrite <- app_assoc. destruct Hsame as (_ & _ & -> & _). by eapply in_area_le. }
  { unfold buffer_text, len in *. rewrite Hl, Hlt, Hrt in Hf. simpl in *. rewrite !length_app in *. simpl in *. lia. }
  rewrite Hb. simpl in Hlen.
  apply break_lines_cursor in Hb as (ab & a' & z' & bl & -> & -> & <- & Hz); [|by eapply in_area_pos].
  erewrite bind_lift by reflexivity. unfold modifyS.
  apply adjust_settles; [|done|done| |lia].
  - exists (above ++ ab), a', z', bl. rewrite len_app, concat_app, <- app_assoc. simpl.
    rewrite Hlt, Hrt, Hz, <- ?app_assoc. done.
  - unfold buffer_text, len in *. rewrite Hl, Hlt, Hrt in Hn. simpl in *. rewrite !length_app in *. simpl in *. lia.
Qed.

Lemma insert_char_settles v b fuel c :
  editable v b fuel → (1 <= char_width c <= chars_per_line v)%N →
  settles v (len (v_lines v) + len (buffer_text b) + 1) (buffer_key false (KChar c) b) (insert_char char_width fuel c v).
Proof.
  intros [(above & a & z & below & Hl & Hc & Hlt & Hrt) Ha Hin Hf Hb] Hw.
  remember (len (v_lines v) + len (buffer_text b) + 1)%N as n eqn:Hn. unfold insert_char.
  unfold buffer_text in *. rewrite Hlt, Hrt in Hin, Hf, Hn. rewrite !in_area_app in Hin. destruct Hin as [[Hab Hia] [Hiz Hbl]].
  rewrite bind_getS, Hc. cbv zeta beta iota. rewrite Hl.
  replace (len above + 1 - len (above ++ (a ++ z) :: below))%N with 0%N by (rewrite len_app, len_cons; lia).
  rewrite app_nil_r. erewrite bind_lift by apply index_middle. cbv beta.
  erewrite split_col_line by done. cbv beta iota.
  pose proof (in_area_width _ _ Hia) as Hwa. destruct Ha as [Ha1 Ha2]. rewrite Hl in Hf, Hn.
  rewrite !len_app, len_cons in Hf, Hn. unfold vim_bound, u16_max in *.
  erewrite bind_lift by (apply uadd_ok; unfold usize_max, u64_max; nia).
  rewrite bind_modifyS, insert_middle. case_match.
  - apply (break_lines_settles v _ above (a ++ [c]) z below); [by simpl; rewrite <- app_assoc| |by simpl; rewrite Hlt, app_assoc|done|done|done| | |].
    + simpl. rewrite column_width_app. simpl. by rewrite N.add_0_r.
    + simpl. rewrite !in_area_app. split_and!; try done. by apply Forall_singleton.
    + unfold buffer_text. simpl. rewrite Hlt, Hrt. repeat rewrite ?len_app, ?len_cons, ?len_nil in *. lia.
    + unfold buffer_text. simpl. rewrite Hlt, Hrt. repeat rewrite ?len_app, ?len_cons, ?len_nil in *. unfold vim_bound. lia.
  - eapply adjust_settles; [|done|done| |unfold vim_bound in *; lia].
    + exists above, (a ++ [c]), z, below. simpl. rewrite column_width_app, Hlt, <- !app_assoc. simpl. by rewrite N.add_0_r.
    + simpl. rewrite len_app, len_cons. lia.
Qed.

Lemma insert_newline_settles v b fuel :
  editable v b fuel → settles v (len (v_lines v) + len (buffer_text b) + 1) b (insert_newline char_width v).
Proof.
  intros [(above & a & z & below & Hl & Hc & Hlt & Hrt) Ha Hin Hf Hb].
  remember (len (v_lines v) + len (buffer_text b) + 1)%N as n eqn:Hn. unfold insert_newline.
  unfold buffer_text in *. rewrite Hlt, Hrt in Hin, Hf, Hn. rewrite !in_area_app in Hin. destruct Hin as [[Hab Hia] [Hiz Hbl]].
  rewrite bind_getS, Hc. cbv zeta beta iota. rewrite Hl.
  erewrite bind_lift by apply index_middle. cbv beta. erewrite split_col_line by done. cbv beta iota.
  rewrite bind_modifyS, drop_below, take_above. rewrite Hl in Hf, Hn. repeat rewrite ?len_app, ?len_cons in Hf, Hn.
  eapply adjust_settles; [|done|done| |unfold vim_bound in *; lia].
  - exists (above ++ [a]), [], z, below. simpl. rewrite len_app, concat_app, Hlt, <- !app_assoc, Hrt. simpl.
    by rewrite !app_nil_r.
  - simpl. repeat rewrite ?len_app, ?len_cons, ?len_nil. lia.
Qed.

(** Filling a line from the next ones keeps the text. *)
Lemma refill_moves cpl line rest :
  ∃ s ls, refill char_width cpl line rest = (line ++ s) :: ls ∧ s ++ concat ls = concat rest ∧
    length ls <= length rest.
Proof.
  revert line. induction rest as [|next rest IH]; intros line; simpl.
  { exists [], []. by rewrite app_nil_r. }
  case_match; [exists [], (next :: rest); by rewrite app_nil_r|]. destruct next as [|ch next].
  { destruct (IH line) as (s & ls & -> & <- & ?). exists s, ls. simpl. split_and!; [done..|lia]. }
  case_match; [exists [], ((ch :: next) :: rest); by rewrite app_nil_r|].
  destruct (IH next) as (s & ls & -> & <- & ?). exists [ch], ((next ++ s) :: ls). simpl.
  rewrite <- app_assoc. split_and!; [done..|lia].
Qed.

Lemma backspace_settles v b fuel :
  editable v b fuel →
  settles v (len (v_lines v) + len (buffer_text b) + 1) (buffer_key ((cursor v).2 =? 0)%N KBackspace b) (backspace char_width fuel v).
Proof.
  intros [(above & a & z & below & Hl & Hc & Hlt & Hrt) Ha Hin Hf Hb].
  remember (len (v_lines v) + len (buffer_text b) + 1)%N as n eqn:Hn. unfold backspace.
  unfold buffer_text in Hin, Hf, Hn. rewrite Hlt, Hrt in Hin, Hf, Hn. rewrite !in_area_app in Hin.
  destruct Hin as [[Hab Hia] [Hiz Hbl]]. pose proof Ha as [Ha1 Ha2]. unfold vim_bound, u16_max in Hb, Ha1, Ha2.
  rewrite Hl in Hf, Hn. repeat rewrite ?len_app, ?len_cons in Hf, Hn. rewrite bind_getS, Hc. cbn [fst snd]. cbv zeta.
  destruct a as [|ch a _] using rev_ind.
  - change (width []) with 0%N in *. change (0 <? 0)%N with false. change (0 =? 0)%N with true. cbv iota.
    destruct above as [|p above _] using rev_ind.
    + change (0 <? len [])%N with false. cbv iota.
      apply adjust_settles; [by exists [], [], z, below|done|done|rewrite Hl; simpl; rewrite len_cons in *; lia|unfold vim_bound in *; lia].
    + assert (len (above ++ [p]) = len above + 1)%N as Hlen by by rewrite len_app.
      rewrite Hlen in *. destruct (N.ltb_spec 0 (len above + 1)); [|lia].
      replace (len above + 1 - 1)%N with (len above) by lia. cbv iota. rewrite bind_bind, Hl.
      erewrite bind_lift; [|rewrite <- Hlen; apply index_middle].
      cbv beta; rewrite bind_bind. erewrite bind_lift; [|rewrite <- app_assoc; apply index_middle].
      cbv beta; rewrite bind_bind, bind_modifyS. cbn [buffer_key].
      replace (S (N.to_nat (len above + 1))) with (S (N.to_nat (len (above ++ [p])))) by by rewrite Hlen.
      replace (Nat.pred (N.to_nat (len above + 1))) with (N.to_nat (len above)) by lia.
      rewrite drop_below, <- app_assoc, take_above. rewrite concat_app in *. simpl in *. repeat rewrite app_nil_r in *.
      rewrite in_area_app in Hab. destruct Hab as [Hab Hp].
      apply (break_lines_settles v _ above p z below); [done|done|exact Hlt|done|done|done| | |]; simpl.
      * by rewrite !in_area_app.
      * unfold buffer_text. rewrite Hlt, Hrt. repeat rewrite ?len_app, ?len_cons, ?len_nil in *. lia.
      * unfold buffer_text, vim_bound. rewrite Hlt, Hrt. repeat rewrite ?len_app, ?len_cons, ?len_nil in *. lia.
  - rewrite in_area_app in Hia. destruct Hia as [Hia Hch]. inversion_clear Hch as [|?? Hch1 _].
    rewrite column_width_app in *. change (width [ch]) with (char_width ch + 0)%N in *. rewrite N.add_0_r in *.
    destruct (N.ltb_spec 0 (width a + char_width ch)); [|lia].
    destruct (N.eqb_spec (width a + char_width ch) 0)%N; [lia|].
    cbv iota. rewrite bind_bind, Hl. erewrite bind_lift by apply index_middle.
    replace (width a + char_width ch)%N with (width (a ++ [ch])) by (rewrite column_width_app; simpl; lia).
    erewrite split_col_line by done. cbv beta iota zeta. rewrite last_snoc, removelast_last.
    cbv beta; rewrite bind_bind. erewrite bind_lift by reflexivity. cbv beta iota. rewrite bind_bind.
    pose proof (in_area_width _ _ Hia) as Hwa. rewrite column_width_app. simpl (width [ch]). rewrite N.add_0_r.
    rewrite len_app, len_cons in Hf, Hn.
    erewrite bind_lift by (apply usub_ok; unfold usize_max, u64_max; nia).
    rewrite bind_modifyS, drop_below, take_above.
    destruct (refill_moves (chars_per_line v) (a ++ z) below) as (s & ls & -> & Hs & Hls).
    apply adjust_settles; [|done|done| |unfold vim_bound in *; lia].
    + assert (removelast (left_text b) = concat above ++ a) as Hrem by (rewrite Hlt, app_assoc; apply removelast_last).
      exists above, a, (z ++ s), ls. simpl. rewrite Hrem, Hrt, <- Hs, <- !app_assoc.
      split_and!; [done|f_equal; lia|done..].
    + simpl. rewrite len_app, len_cons. unfold len in *. lia.
Qed.

(** ** A key of the insert mode *)

Lemma showing_text v b : showing v b → concat (v_lines v) = buffer_text b.
Proof.
  intros (above & a & z & below & -> & _ & Hl & Hr). unfold buffer_text. rewrite Hl, Hr, concat_app. simpl.
  by rewrite <- !app_assoc.
Qed.

(** A call, and the transition after it *)
Lemma handle_after v n b fuel i t (m : action VimInput endless unit) :
  mode v = Insert → key i ≠ KNull → handle_insert_mode char_width fuel i = (m ≫= fun _ => mret t) →
  t = Nop ∨ t = ToMode Insert → settles v n b (m v) →
  ∃ v', vim_handle_event char_width str_width fuel i v = (Ok false, v') ∧ same_area v v' ∧ showing v' b ∧
    visible v' ∧ (len (v_lines v') <= n)%N.
Proof.
  intros Hm Hk Hi Ht (v1 & Hr & Hs & Hsh & Hv & Hn).
  assert (transition char_width str_width fuel i v = (Ok t, v1)) as Htr.
  { unfold transition. rewrite bind_getS. destruct (decide (key i = KNull)); [done|].
    rewrite Hm. simpl. rewrite Hi, bind_action, Hr. done. }
  unfold vim_handle_event. rewrite bind_action, Htr. destruct Ht as [-> | ->]; [by exists v1|].
  eexists. split; [reflexivity|]. destruct Hs as (Hm1 & ?). split_and!; [|done..].
  unfold same_area in *. simpl. split_and!; [congruence|naive_solver..].
Qed.

Lemma vim_edit v b fuel i :
  editable v b fuel → mode v = Insert → key i ≠ KEsc → visible v →
  (∀ c, key i = KChar c → 1 <= char_width c <= chars_per_line v)%N →
  ∃ v', vim_handle_event char_width str_width fuel i v = (Ok false, v') ∧ same_area v v' ∧
    showing v' (buffer_key ((cursor v).2 =? 0)%N (key i) b) ∧ visible v' ∧
    (len (v_lines v') <= len (v_lines v) + len (buffer_text b) + 1)%N.
Proof.
  intros He Hm Hesc Hv Hw. pose proof (ed_shows _ _ _ He) as Hs.
  assert (∀ r : outcome endless bool * VimInput, r = (Ok false, v) → ∃ v', r = (Ok false, v') ∧ same_area v v' ∧ showing v' b ∧ visible v' ∧
    (len (v_lines v') <= len (v_lines v) + len (buffer_text b) + 1)%N) as Hid.
  { intros r ->. exists v. split_and!; [done..|by split_and!|done|done|lia]. }
  assert (key i = KNull ∨ handle_insert_mode char_width fuel i = mret Nop →
    ∃ v', vim_handle_event char_width str_width fuel i v = (Ok false, v') ∧ same_area v v' ∧ showing v' b ∧ visible v' ∧
    (len (v_lines v') <= len (v_lines v) + len (buffer_text b) + 1)%N) as Hnop.
  { intros Hn. apply Hid. unfold vim_handle_event, transition. rewrite bind_action, bind_getS, Hm.
    destruct (decide (key i = KNull)); [done|]. destruct Hn as [|Hn]; [done|]. simpl. by rewrite Hn. }
  destruct (key i) as [c| | | | | | | | | | | | | | | | | | | | |] eqn:Hk; simpl buffer_key;
    try (apply Hnop; unfold handle_insert_mode; rewrite Hk; by (left + right)).
  - eapply handle_after; [done..|by rewrite Hk| |by right|].
    + unfold handle_insert_mode. rewrite Hk. reflexivity.
    + eapply insert_char_settles; [done|by apply Hw].
  - eapply handle_after; [done..|by rewrite Hk| |by left|by eapply backspace_settles].
    unfold handle_insert_mode. rewrite Hk. reflexivity.
  - destruct (shift i) eqn:Hsh.
    + eapply handle_after; [done..|by rewrite Hk| |by left|by eapply insert_newline_settles].
      unfold handle_insert_mode. rewrite Hk, Hsh. reflexivity.
    + apply Hnop. right. unfold handle_insert_mode. by rewrite Hk, Hsh.
Qed.


(** Growth: after [n] keys there are at most [n] characters, in a number of lines
    that the fuel covers. *)
Definition grown (n : N) (v : VimInput) : Prop :=
  (len (concat (v_lines v)) <= n ∧ len (v_lines v) <= 1 + n * n)%N.
Lemma grown_editable n v b fuel :
  showing v b → area_ok v → in_area (chars_per_line v) (buffer_text b) → grown n v →
  ((n + 1) * (n + 1) < N.of_nat fuel <= vim_bound)%N → editable v b fuel.
Proof.
  intros Hs Ha Hin [Ht Hl] Hf. rewrite (showing_text _ _ Hs) in Ht. split; [done..| |lia]. lia.
Qed.
Lemma grown_key n v v' b s k :
  showing v b → showing v' (buffer_key s k b) →
  (len (v_lines v') <= len (v_lines v) + len (buffer_text b) + 1)%N → grown n v → grown (n + 1) v'.
Proof.
  intros Hs Hs' Hl [Ht Hn]. unfold grown. rewrite (showing_text _ _ Hs'). rewrite (showing_text _ _ Hs) in Ht.
  assert (len (buffer_text (buffer_key s k b)) <= len (buffer_text b) + 1)%N as Hk.
  { clear. unfold buffer_text. destruct s, k; simpl; rewrite ?len_app, ?len_cons, ?len_nil; try lia.
    destruct (left_text b) as [|x l _] using rev_ind; [simpl; lia|]. rewrite removelast_last, len_app. lia. }
  split; nia.
Qed.

(** *** Typing a text *)

Definition typed (c : N) : Input := {| key := KChar c; ctrl := false; alt := false; shift := false |}.

(** Keys none of which ends the input *)
Inductive vim_chain (fuel : nat) : list Input → VimInput → VimInput → Prop :=
  | chain_nil v : vim_chain fuel [] v v
  | chain_cons k ks v v1 v2 :
      vim_handle_event char_width str_width fuel k v = (Ok false, v1) → vim_chain fuel ks v1 v2 → vim_chain fuel (k :: ks) v v2.
Lemma chain_keys fuel ks v v' : vim_chain fuel ks v v' → vim_keys char_width str_width fuel ks v = (Ok tt, v').
Proof. induction 1 as [|k ks v v1 v2 Hk _ IH]; [done|]. simpl. by rewrite bind_action, Hk. Qed.

Lemma type_text s v b n fuel :
  showing v b → right_text b = [] → area_ok v → in_area (chars_per_line v) (left_text b ++ s) → visible v →
  mode v = Insert → grown n v → ((n + len s + 1) * (n + len s + 1) < N.of_nat fuel <= vim_bound)%N →
  ∃ v', vim_chain fuel (typed <$> s) v v' ∧
    showing v' {| left_text := left_text b ++ s; right_text := [] |} ∧ visible v' ∧ mode v' = Insert.
Proof.
  revert v b n. induction s as [|c s IH]; intros v b n Hs Hr Ha Hin Hv Hm Hg Hf.
  { exists v. split_and!; [constructor| |done..]. destruct b; simpl in *. by rewrite app_nil_r, <- Hr. }
  rewrite len_cons in Hf. rewrite in_area_app in Hin. destruct Hin as [Hl Hc]. inversion_clear Hc as [|?? Hc1 Hc2].
  assert (editable v b fuel) as He.
  { eapply (grown_editable n); [done|done| |done|nia]. unfold buffer_text. by rewrite Hr, app_nil_r. }
  destruct (vim_edit v b fuel (typed c) He Hm) as (v1 & Hev & Hsame & Hs1 & Hv1 & Hlen); [done|done|by intros ? [= <-]|].
  pose proof (grown_key _ _ _ _ _ _ Hs Hs1 Hlen Hg) as Hg1. pose proof (same_area_ok _ _ Hsame Ha) as Ha1.
  destruct Hsame as (Hm1 & _ & Hc & _). simpl in Hs1.
  edestruct (IH v1 _ (n + 1)%N Hs1) as (v' & Hrun & Hs' & Hv' & Hm'); [done|done| |done|congruence|done|nia|].
  - rewrite Hc. simpl. rewrite !in_area_app. split_and!; [done|by apply Forall_singleton|done].
  - exists v'. simpl in Hs'. rewrite <- app_assoc in Hs'. split_and!; [by eapply chain_cons|done..].
Qed.

(** A text typed into an empty input is the text that is read as a magnet
    link, wherever its lines were broken, and the cursor is at its end, in
    sight. *)
Theorem vim_typed {M : Type} (parse : list N → option M) s w h fuel :
  in_area w s → (w <= u16_max)%N → (1 <= h <= u16_max)%N →
  ((len s + 1) * (len s + 1) < N.of_nat fuel <= vim_bound)%N →
  ∃ v', vim_keys char_width str_width fuel (typed <$> s) (set_area w h VimInput_default) = (Ok tt, v') ∧
    validate_magnet parse v' = parse (trim s) ∧
    showing v' {| left_text := s; right_text := [] |} ∧ visible v'.
Proof.
  intros Hin Hw Hh Hf.
  destruct (type_text s (set_area w h VimInput_default) {| left_text := []; right_text := [] |} 0 fuel)
    as (v' & Hr & Hs & Hv & _); try done.
  - by exists [], [], [], [].
  - unfold visible. simpl. lia.
  - exists v'. split_and!; [by apply chain_keys| |done..]. unfold validate_magnet. rewrite (showing_text _ _ Hs).
    unfold buffer_text. simpl. by rewrite app_nil_r.
Qed.

(** *** Every key *)

(** Characters of one column and one byte, as those of a link *)
Definition plain (c : N) : Prop := char_width c = 1%N ∧ (c < 128)%N.
Definition in_text (v : VimInput) : Prop :=
  ∃ line, v_lines v !! N.to_nat (cursor v).1 = Some line ∧ ((cursor v).2 <= width line)%N.
Lemma plain_width s : Forall plain s → width s = len s.
Proof. induction 1 as [|c s [Hc _] _ IH]; [done|]. rewrite column_width_char, len_cons. lia. Qed.
Lemma plain_str_len s : Forall plain s → str_len s = width s.
Proof.
  induction 1 as [|c s [Hc Hlt] _ IH]; [done|]. unfold str_len in *. simpl. rewrite IH. unfold len_utf8.
  destruct (N.ltb_spec c 128); [|lia]. by rewrite Hc.
Qed.
Lemma plain_line (ls : list (list N)) (i : nat) l : Forall plain (concat ls) → ls !! i = Some l → Forall plain l.
Proof.
  intros Hp Hl. apply list_elem_of_split_length in Hl as (l1 & l2 & -> & _). rewrite concat_app in Hp. simpl in Hp.
  by apply Forall_app in Hp as [_ [? _]%Forall_app].
Qed.

(** In a text of such characters the cursor is between two of them. *)
Lemma in_text_shows v : in_text v → Forall plain (concat (v_lines v)) → ∃ b, showing v b.
Proof.
  intros (line & Hl & Hc) Hp. pose proof (plain_line _ _ _ Hp Hl) as Hpl.
  apply list_elem_of_split_length in Hl as (above & below & Hls & Hrow).
  set (a := take (N.to_nat (cursor v).2) line). set (z := drop (N.to_nat (cursor v).2) line).
  exists {| left_text := concat above ++ a; right_text := z ++ concat below |}, above, a, z, below.
  split_and!; [unfold a, z; by rewrite take_drop| |done..].
  rewrite (plain_width line) in Hc by done.
  rewrite (plain_width a) by by apply Forall_take. destruct (cursor v) as [row col]. simpl in *. unfold a, len in *.
  rewrite length_take. f_equal; lia.
Qed.
Lemma showing_in_text v b : showing v b → in_text v.
Proof.
  intros (above & a & z & below & Hl & Hc & _). exists (a ++ z). rewrite Hl, Hc. simpl.
  rewrite len_nat, list_lookup_middle, column_width_app by done. split; [done|lia].
Qed.

(** What moving the cursor starts from, and what it comes to *)
Definition vim_calm (v : VimInput) : Prop :=
  area_ok v ∧ Forall plain (concat (v_lines v)) ∧ in_text v ∧ visible v ∧ (len (v_lines v) <= vim_bound)%N.
Definition vim_moved (v v' : VimInput) : Prop :=
  same_area v v' ∧ v_lines v' = v_lines v ∧ in_text v' ∧ visible v'.
Definition moves {A} (v : VimInput) (r : outcome endless A * VimInput) : Prop :=
  ∃ a v', r = (Ok a, v') ∧ vim_moved v v'.
Hypothesis Hstr : ∀ s, Forall plain s → str_width s = width s.

Lemma in_text_at ls (cur : N * N) v line :
  ls !! N.to_nat cur.1 = Some line → (cur.2 <= width line)%N → in_text (with_lines ls cur v).
Proof. intros Hl Hc. by exists line. Qed.
Lemma in_text_row v : in_text v → ((cursor v).1 < len (v_lines v))%N.
Proof. intros (line & Hl & _). apply lookup_lt_Some in Hl. unfold len. lia. Qed.
Lemma with_same v : with_lines (v_lines v) (cursor v) v = v.
Proof. by destruct v. Qed.
Lemma adjust_moves v cur :
  area_ok v → (len (v_lines v) <= vim_bound)%N → in_text (with_lines (v_lines v) cur v) →
  moves v (adjust_scroll_offset (with_lines (v_lines v) cur v)).
Proof.
  intros Ha Hb Ht. destruct (adjust_ok (with_lines (v_lines v) cur v)) as (off & -> & Hv);
    [done|by apply in_text_row|done|]. eexists _, _. split; [reflexivity|]. by split_and!.
Qed.
Lemma stay_moves v : vim_calm v → moves v (adjust_scroll_offset v).
Proof.
  intros (Ha & Hp & Ht & Hv & Hb). pose proof (adjust_moves v (cursor v)) as Hm.
  rewrite with_same in Hm. by apply Hm.
Qed.
Lemma index_line (ls : list (list N)) (i : N) l : ls !! N.to_nat i = Some l → index (E:=endless) ls i = Ok l.
Proof. unfold index. by intros ->. Qed.
Lemma line_at v (i : N) : (i < len (v_lines v))%N → ∃ l, v_lines v !! N.to_nat i = Some l.
Proof. intros Hi. apply lookup_lt_is_Some_2. unfold len in Hi. lia. Qed.

Lemma left_of_le col start prev s :
  (prev <= start)%N → ((left_of char_width col start prev s).1 <= start + width s)%N.
Proof.
  revert start prev. induction s as [|c s IH]; intros start prev Hp; simpl; [lia|].
  case_match; [|etrans; [apply IH; lia|lia]]. simpl. case_match; lia.
Qed.
Lemma right_of_le col start s : (col <= start + width s)%N → (right_of char_width col start s <= start + width s)%N.
Proof.
  revert start. induction s as [|c s IH]; intros start Hc; simpl in *; [done|].
  case_match; [lia|]. rewrite N.add_assoc. apply IH. lia.
Qed.

Lemma move_cursor_left_moves v : vim_calm v → moves v (move_cursor_left char_width str_width v).
Proof.
  intros Hcalm. pose proof Hcalm as (Ha & Hp & Ht & Hv & Hb).
  pose proof (in_text_row _ Ht) as Hrow. destruct Ht as (line & Hl & Hc).
  unfold move_cursor_left. rewrite bind_getS. destruct (cursor v) as [row col] eqn:Hcur. simpl in *.
  destruct (N.ltb_spec 0 col).
  - erewrite bind_lift by by apply index_line. pose proof (left_of_le col 0 0 line (N.le_refl _)) as Hle.
    destruct (left_of _ _ _ _ _) as [col' early]. simpl in Hle. unfold set_cursor. rewrite bind_modifyS.
    destruct early; [|apply adjust_moves; [done..|by eapply in_text_at]].
    eexists _, _. split; [reflexivity|]. split_and!; [done|done|by eapply in_text_at|].
    unfold visible in *. rewrite Hcur in Hv. simpl in *. done.
  - destruct (N.ltb_spec 0 row).
    + destruct (line_at v (row - 1)) as [l Hl1]; [lia|]. erewrite bind_lift by by apply index_line.
      unfold set_cursor. rewrite bind_modifyS. apply adjust_moves; [done..|]. eapply in_text_at; [done|]. simpl.
      rewrite Hstr; [done|by eapply plain_line].
    + by apply stay_moves.
Qed.
Lemma move_cursor_right_moves v : vim_calm v → moves v (move_cursor_right char_width str_width v).
Proof.
  intros Hcalm. pose proof Hcalm as (Ha & Hp & Ht & Hv & Hb).
  pose proof (in_text_row _ Ht) as Hrow. destruct Ht as (line & Hl & Hc).
  unfold move_cursor_right. rewrite bind_getS. destruct (cursor v) as [row col] eqn:Hcur. simpl in *.
  erewrite bind_lift by by apply index_line. unfold vim_bound in *.
  erewrite bind_lift by (apply usub_ok; unfold usize_max, u64_max; lia).
  rewrite Hstr by by eapply plain_line. rewrite bind_action. destruct (N.ltb_spec col (width line)).
  - apply adjust_moves; [done..|]. eapply in_text_at; [done|]. simpl. apply (right_of_le col 0 line). lia.
  - destruct (N.ltb_spec row (len (v_lines v) - 1)).
    + destruct (line_at v (row + 1)) as [l Hl1]; [lia|]. apply adjust_moves; [done..|].
      eapply in_text_at; [done|]. simpl. lia.
    + by apply stay_moves.
Qed.
Lemma to_row_moves v row :
  vim_calm v → (row < len (v_lines v))%N → moves v ((to_row str_width row ≫= fun _ => adjust_scroll_offset) v).
Proof.
  intros (Ha & Hp & Ht & Hv & Hb) Hr. destruct (line_at v row Hr) as [l Hl]. unfold to_row.
  rewrite bind_action, bind_getS. erewrite bind_lift by by apply index_line.
  apply adjust_moves; [done..|]. eapply in_text_at; [done|]. simpl. rewrite Hstr by by eapply plain_line. lia.
Qed.
Lemma move_cursor_up_moves v : vim_calm v → moves v (move_cursor_up str_width v).
Proof.
  intros Hc. pose proof Hc as (_ & _ & Ht%in_text_row & _). unfold move_cursor_up. rewrite bind_getS.
  case_match; [apply to_row_moves; [done|lia]|by apply stay_moves].
Qed.
Lemma move_cursor_down_moves v : vim_calm v → moves v (move_cursor_down str_width v).
Proof.
  intros Hc. pose proof Hc as (_ & _ & Ht%in_text_row & _ & Hb). unfold move_cursor_down, vim_bound in *. rewrite bind_getS.
  erewrite bind_lift by (apply usub_ok; unfold usize_max, u64_max; lia).
  case_match; [apply to_row_moves; [done|lia]|by apply stay_moves].
Qed.

(** Scrolling moves the cursor with the lines. *)
Lemma scroll_to_row_moves v off row :
  vim_calm v → (row < len (v_lines v))%N → (off <= row < off + area_height v)%N →
  (off <= len (v_lines v) - area_height v)%N → moves v (scroll_to_row row (with_scroll off v)).
Proof.
  intros (Ha & Hp & Ht & Hv & Hb) Hr Ho Hm. destruct (line_at v row Hr) as [l Hl]. unfold scroll_to_row.
  rewrite bind_getS. erewrite bind_lift by by apply index_line.
  eexists _, _. split; [reflexivity|]. split_and!; [done|done| |].
  - eapply in_text_at; [done|]. simpl. rewrite plain_str_len by by eapply plain_line. lia.
  - unfold visible. simpl. done.
Qed.
Lemma scroll_up_moves v n : vim_calm v → moves v (scroll_up n v).
Proof.
  intros Hc. pose proof Hc as (Ha & Hp & Ht & [Hv1 Hv2] & Hb). pose proof (in_text_row _ Ht) as Hrow.
  unfold scroll_up, vim_bound in *. rewrite bind_getS. cbv zeta.
  erewrite bind_lift by (apply usub_ok; unfold usize_max, u64_max; lia).
  rewrite bind_modifyS. destruct (N.ltb_spec 0 (cursor v).1); [apply scroll_to_row_moves; [done|lia..]|].
  eexists _, _. split; [reflexivity|]. split_and!; [done..|]. unfold visible. simpl. lia.
Qed.
Lemma scroll_down_moves v n : vim_calm v → (n <= u16_max)%N → moves v (scroll_down n v).
Proof.
  intros Hc Hn. pose proof Hc as ([Ha _] & Hp & Ht & [Hv1 Hv2] & Hb). pose proof (in_text_row _ Ht) as Hrow.
  unfold scroll_down, vim_bound, u16_max in *. rewrite bind_getS.
  erewrite bind_lift by (apply uadd_ok; unfold usize_max, u64_max; lia). cbv zeta.
  erewrite bind_lift by (apply usub_ok; unfold usize_max, u64_max; lia).
  rewrite bind_modifyS. erewrite bind_lift by (apply usub_ok; unfold usize_max, u64_max; lia).
  destruct (N.ltb_spec (cursor v).1 (len (v_lines v) - 1)).
  - erewrite bind_lift by (apply uadd_ok; unfold usize_max, u64_max; lia).
    apply scroll_to_row_moves; [done|lia..].
  - eexists _, _. split; [reflexivity|]. split_and!; [done..|]. unfold visible. simpl. lia.
Qed.

(** *** A key of the normal mode *)

Lemma moves_then {A} v (m : action VimInput endless unit) (t : A) :
  moves v (m v) → moves v ((m ≫= fun _ => mret t) v).
Proof. intros (? & v' & Hr & Hm). rewrite bind_action, Hr. by eexists _, _. Qed.
Lemma moves_ret {A} v (t : A) : vim_calm v → moves v ((mret t : action VimInput endless A) v).
Proof. intros (? & ? & ? & ? & ?). eexists _, _. split; [reflexivity|]. by split_and!. Qed.

Lemma last_line_moves v {A} (t : A) :
  vim_calm v →
  moves v ((lift (index (v_lines v) (len (v_lines v) - 1)) ≫= fun line =>
    set_cursor ((len (v_lines v) - 1)%N, str_len line) ≫= fun _ =>
    adjust_scroll_offset ≫= fun _ => mret t) v).
Proof.
  intros Hc. pose proof Hc as (Ha & Hp & Ht & Hv & Hb). pose proof (in_text_row _ Ht) as Hrow.
  destruct (line_at v (len (v_lines v) - 1)) as [l Hl]; [lia|]. erewrite bind_lift by by apply index_line.
  unfold set_cursor. rewrite bind_modifyS. rewrite bind_action.
  destruct (adjust_moves v ((len (v_lines v) - 1)%N, str_len l)) as (? & v' & -> & Hm); [done|done| |by eexists _, _].
  eapply in_text_at; [done|]. simpl. by rewrite plain_str_len by by eapply plain_line.
Qed.
(** [gg] leaves nothing pending *)
Lemma first_line_lands v {A} (t : A) :
  vim_calm v →
  ∃ v', (set_cursor (0, 0)%N ≫= fun _ => modifyS (with_scroll 0) ≫= fun _ =>
    modifyS (fun v => with_mode (mode v) Input_default v) ≫= fun _ => mret t) v = (Ok t, v') ∧
    chars_per_line v' = chars_per_line v ∧ area_height v' = area_height v ∧ v_lines v' = v_lines v ∧
    in_text v' ∧ visible v'.
Proof.
  intros Hc. pose proof Hc as ([Ha _] & Hp & Ht & Hv & Hb). pose proof (in_text_row _ Ht) as Hrow.
  eexists. split; [reflexivity|]. split_and!; [done..| |unfold visible; simpl; lia].
  destruct (line_at v 0) as [l Hl]; [lia|]. exists l. split; [done|simpl; lia].
Qed.

(** The part of the state the keys of the normal mode leave as it is *)
Definition keeps_text (v v' : VimInput) : Prop :=
  chars_per_line v' = chars_per_line v ∧ area_height v' = area_height v ∧ v_lines v' = v_lines v ∧
  in_text v' ∧ visible v'.
Lemma moves_keeps {A} v (r : outcome endless A * VimInput) :
  moves v r → ∃ a v', r = (Ok a, v') ∧ keeps_text v v'.
Proof. intros (a & v' & -> & (_ & _ & ? & ?) & ? & ? & ?). eexists _, _. by split_and!. Qed.

Lemma handle_normal_keeps v i :
  vim_calm v → ∃ t v', handle_normal_mode char_width str_width i v = (Ok t, v') ∧ keeps_text v v'.
Proof.
  intros Hc. pose proof Hc as ([Ha _] & _). unfold u16_max in Ha.
  assert (div_ceil (area_height v) 2 <= u16_max)%N by (unfold u16_max, div_ceil; dlia).
  unfold handle_normal_mode, normal, nop. rewrite bind_getS. cbv zeta.
  repeat case_match; try (apply moves_keeps, moves_ret; done);
    try (apply moves_keeps, moves_then; eauto using move_cursor_left_moves, move_cursor_right_moves,
      move_cursor_up_moves, move_cursor_down_moves, scroll_up_moves; fail);
    try (apply moves_keeps, moves_then, scroll_down_moves; unfold u16_max in *; [done|lia]).
  - destruct (first_line_lands v (ToMode Normal) Hc) as (v' & -> & ?). by eexists _, _.
  - by apply moves_keeps, last_line_moves.
Qed.

(** *** Keys one after the other *)

(** What holds after [n] keys *)
Definition alive (w h n : N) (v : VimInput) : Prop :=
  (chars_per_line v = w ∧ area_height v = h) ∧ (1 <= w <= u16_max ∧ 1 <= h <= u16_max)%N ∧ Forall plain (concat (v_lines v)) ∧ in_text v ∧ visible v ∧ grown n v.
Definition plain_key (i : Input) : Prop := ∀ c, key i = KChar c → plain c.

Lemma plain_in_area cpl s : (1 <= cpl)%N → Forall plain s → in_area cpl s.
Proof. intros Hc Hs. eapply Forall_impl; [exact Hs|]. intros c [Hw _]. simpl. lia. Qed.
Lemma plain_buffer s k b :
  Forall plain (buffer_text b) → (∀ c, k = KChar c → plain c) → Forall plain (buffer_text (buffer_key s k b)).
Proof.
  unfold buffer_text. rewrite Forall_app. intros [Hl Hr] Hk. destruct k; simpl; try (by apply Forall_app).
  - rewrite <- app_assoc. apply Forall_app. split; [done|]. simpl. constructor; [by apply Hk|done].
  - destruct s; apply Forall_app; [done|]. split; [|done]. simpl.
    destruct (left_text b) as [|x l _] using rev_ind; [done|]. rewrite removelast_last. by apply Forall_app in Hl as [? _].
Qed.

Lemma handle_transition v fuel i t v1 :
  transition char_width str_width fuel i v = (Ok t, v1) →
  ∃ q m p, vim_handle_event char_width str_width fuel i v = (Ok q, with_mode m p v1).
Proof.
  intros Ht. unfold vim_handle_event. rewrite bind_action, Ht.
  destruct t; eexists _, _, _; try reflexivity; by instantiate (2 := mode v1); instantiate (1 := pending v1); destruct v1.
Qed.
Lemma alive_keeps w h n v v' m p :
  alive w h n v → keeps_text v v' → alive w h (n + 1) (with_mode m p v').
Proof.
  intros (Ha & Hc & Hp & Ht & Hv & Hg) (Hcpl & Hh & Hl & Ht' & Hv'). unfold alive, grown in *. simpl.
  rewrite Hcpl, Hh, Hl. split_and!; try done; try apply Ha; try apply Hc; nia.
Qed.
Lemma alive_calm w h n v fuel :
  alive w h n v → ((n + 1) * (n + 1) < N.of_nat fuel <= vim_bound)%N → vim_calm v.
Proof.
  intros ([Hw Hh] & Hc & Hp & Ht & Hv & [_ Hg]) Hf. unfold vim_calm, area_ok. rewrite Hw, Hh.
  split_and!; try done; try apply Hc. lia.
Qed.

Lemma vim_key_alive w h n v fuel i :
  alive w h n v → plain_key i → ((n + 1) * (n + 1) < N.of_nat fuel <= vim_bound)%N →
  ∃ q v', vim_handle_event char_width str_width fuel i v = (Ok q, v') ∧ alive w h (n + 1) v'.
Proof.
  intros Hal Hi Hf. pose proof (alive_calm _ _ _ _ _ Hal Hf) as Hcalm. pose proof Hal as (Hwh & Hc & Hp & Ht & Hv & Hg).
  pose proof Hcalm as (Ha & _).
  assert (keeps_text v v) as Hsame by by split_and!.
  assert (∀ t v1, transition char_width str_width fuel i v = (Ok t, v1) → keeps_text v v1 →
    ∃ q v', vim_handle_event char_width str_width fuel i v = (Ok q, v') ∧ alive w h (n + 1) v') as Hkeep.
  { intros t v1 Htr Hk. destruct (handle_transition _ _ _ _ _ Htr) as (q & m & p & Hev).
    eexists _, _. split; [exact Hev|by eapply alive_keeps]. }
  unfold transition in Hkeep. destruct (decide (key i = KNull)) as [Hn|Hn].
  { eapply Hkeep; [by rewrite bind_getS|done]. }
  destruct (mode v) eqn:Hm.
  - destruct (decide (key i = KEsc)) as [He|He].
    + eapply Hkeep; [by rewrite bind_getS, Hm, He|done].
    + destruct (handle_normal_keeps v i Hcalm) as (t & v1 & Hr & Hk).
      eapply Hkeep; [|exact Hk]. by rewrite bind_getS, Hm, (bool_decide_false (key i = KEsc)).
  - destruct (decide (key i = KEsc)) as [He|He].
    + eapply Hkeep; [|exact Hsame]. rewrite bind_getS, Hm. simpl. unfold handle_insert_mode. by rewrite He.
    + destruct (in_text_shows v Ht Hp) as [b Hb]. pose proof (showing_text _ _ Hb) as Htext. rewrite Htext in Hp.
      destruct (vim_edit v b fuel i) as (v' & Hr & Hs & Hb' & Hv' & Hlen); [|done..| |].
      * eapply grown_editable; [done|done|apply plain_in_area; [lia|done]|done|done].
      * intros c Hk. destruct (Hi c Hk) as [-> _]. lia.
      * eexists _, _. split; [exact Hr|]. pose proof Hs as (_ & _ & Hcpl & Hh).
        refine (conj _ (conj Hc (conj _ (conj _ (conj Hv' _)))));
          [by rewrite Hcpl, Hh| |exact (showing_in_text _ _ Hb')|exact (grown_key _ _ _ _ _ _ Hb Hb' Hlen Hg)].
        rewrite (showing_text _ _ Hb'). by apply plain_buffer.
  - eapply Hkeep; [by rewrite bind_getS, Hm|done].
Qed.

Lemma vim_keys_alive w h n v fuel ks :
  alive w h n v → Forall plain_key ks → ((n + len ks + 1) * (n + len ks + 1) < N.of_nat fuel <= vim_bound)%N →
  ∃ v' k, vim_keys char_width str_width fuel ks v = (Ok tt, v') ∧ alive w h k v'.
Proof.
  intros Ha Hks. revert n v Ha. induction Hks as [|i ks Hi _ IH]; intros n v Ha Hf; [by exists v, n|].
  rewrite len_cons in Hf. destruct (vim_key_alive w h n v fuel i Ha Hi) as (q & v1 & Hr & Ha1); [nia|].
  simpl. rewrite bind_action, Hr. destruct q; [by exists v1, (n + 1)%N|]. eapply IH; [done|nia].
Qed.

(** C33. Whatever keys are pressed in whatever mode, with characters of one
    column, no call panics or loops, in either profile; the cursor stays between
    two characters of the text, and its row among those that are drawn.  This
    is for one size of the area, which must have a row and a column. *)
Theorem vim_runs fuel ks w h :
  Forall plain_key ks → (1 <= w <= u16_max)%N → (1 <= h <= u16_max)%N →
  ((len ks + 1) * (len ks + 1) < N.of_nat fuel <= vim_bound)%N →
  ∃ v', vim_keys char_width str_width fuel ks (set_area w h VimInput_default) = (Ok tt, v') ∧
    (∃ b, showing v' b) ∧ visible v' ∧ chars_per_line v' = w ∧ area_height v' = h.
Proof.
  intros Hks Hw Hh Hf. destruct (vim_keys_alive w h 0 (set_area w h VimInput_default) fuel ks)
    as (v' & k & Hr & [Hcpl Hah] & _ & Hp & Ht & Hv & _); [|done|done|].
  - refine (conj _ (conj (conj Hw Hh) (conj _ (conj _ (conj _ _))))); [done|constructor|by exists []| |done].
    unfold visible. simpl. lia.
  - exists v'. refine (conj Hr (conj _ (conj Hv (conj Hcpl Hah)))). by apply in_text_shows.
Qed.
End edits.

(** ** At concrete inputs *)

(** Characters of one column below 128, and of two above *)
Definition ex_width (c : N) : N := if (c <? 128)%N then 1%N else 2%N.
Definition ex_key (k : Key) (shift ctrl : bool) : Input := {| key := k; ctrl := ctrl; alt := false; shift := shift |}.
Definition ex_vim : VimInput :=
  with_lines [[97; 98; 99]; [100]]%N (0, 1)%N (set_area 3 2 VimInput_default).
Definition ex_buffer : Buffer := {| left_text := [97]; right_text := [98; 99; 100] |}%N.

Lemma ex_showing : showing ex_width ex_vim ex_buffer.
Proof. by exists [], [97]%N, [98; 99]%N, [[100]]%N. Qed.
Lemma ex_editable : editable ex_width ex_vim ex_buffer 20.
Proof.
  split; [apply ex_showing|by vm_compute| |by vm_compute|by vm_compute].
  repeat constructor; by vm_compute.
Qed.


Lemma vim_typed_witness :
  ∃ v', @vim_keys release ex_width (column_width ex_width) 400 (typed <$> ascii "magnet:?xt") (set_area 4 2 VimInput_default) = (Ok tt, v') ∧
    validate_magnet Some v' = Some (ascii "magnet:?xt") ∧ v_lines v' = [ascii "magn"; ascii "et:?"; ascii "xt"].
Proof.
  destruct (@vim_typed release ex_width (column_width ex_width) _ Some (ascii "magnet:?xt") 4 2 400)
    as (v' & Hr & Hm & _); [repeat constructor; by vm_compute|by vm_compute..|].
  exists v'. split; [exact Hr|]. split; [exact Hm|]. vm_compute in Hr. by injection Hr as <-.
Defined.

Definition ex_keys : list Input :=
  (typed <$> ascii "abcd") ++ [ex_key KEnter true false; ex_key (KChar 101) false false; ex_key KEsc false false;
    ex_key (KChar 107) false false; ex_key (KChar 104) false false; ex_key (KChar 101) false true;
    ex_key (KChar 71) true false; ex_key (KChar 103) false false; ex_key (KChar 103) false false;
    ex_key (KChar 105) false false; ex_key KBackspace false false].
Lemma vim_runs_witness :
  ∃ v', @vim_keys dev ex_width (column_width ex_width) 400 ex_keys (set_area 3 1 VimInput_default) = (Ok tt, v') ∧
    visible v' ∧ v_lines v' = [ascii "abc"; ascii "d"; ascii "e"] ∧ mode v' = Insert.
Proof.
  destruct (@vim_runs dev ex_width (column_width ex_width) (fun _ _ => eq_refl) 400 ex_keys 3 1)
    as (v' & Hr & _ & Hv & _); [|done..|by vm_compute|].
  - change ex_keys with ltac:(let k := eval vm_compute in ex_keys in exact k). repeat apply Forall_cons_2; [..|by apply Forall_nil_2];
      intros c Hk; (discriminate Hk || (injection Hk as <-; by vm_compute)).
  - exists v'. split; [exact Hr|]. split; [exact Hv|]. vm_compute in Hr. by injection Hr as <-.
Defined.

(** Before the area is known, and after it grew, the subtractions underflow. *)
Lemma vim_before_draw_panics :
  (@vim_keys dev ex_width (column_width ex_width) 10 [typed 97] VimInput_default).1 = Panic.
Proof. by vm_compute. Qed.
Lemma vim_resize_panics :
  let keys := [ex_key KEnter true false; ex_key KEnter true false; ex_key KEsc false false] in
  let r := @vim_keys dev ex_width (column_width ex_width) 10 keys (set_area 9 1 VimInput_default) in
  r.1 = Ok tt ∧ (@vim_keys dev ex_width (column_width ex_width) 10 [ex_key (KChar 101) false true] (set_area 9 5 r.2)).1 = Panic.
Proof. split; by vm_compute. Qed.
