(* ===== verification/Ui.v ===== *)
(** [vcz-ui]: the frontend: its actions, its pages and what they send, the
    network chart, the menu, and the loop of [App].  What drawing changes
    is kept here, with the parts of [ratatui] that change state as arguments; what
    it shows is [Render].  The text of a search and of the input are lists of code
    points, names are bytes. *)
From S2P Require Import Prelude Metainfo Floats Torrent DaemonWire Config VimInput.
From Stdlib Require Import SpecFloat.

(** The bytes of a character and of a text *)
Definition utf8_char (c : N) : list N :=
  if (c <? 128)%N then [c]
  else if (c <? 2048)%N then [192 + c / 64; 128 + c mod 64]%N
  else if (c <? 65536)%N then [224 + c / 4096; 128 + c / 64 mod 64; 128 + c mod 64]%N
  else [240 + c / 262144; 128 + c / 4096 mod 64; 128 + c / 64 mod 64; 128 + c mod 64]%N.
Definition utf8_of (s : list N) : list N := concat (utf8_char <$> s).

(** [error.rs]: the errors of the loop; [UiEndless] is a loop of the input that
    never ends, [UiStarved] a turn that takes more actions than were counted. *)
Inductive UiError := UeDaemon | UeDaemonNotRunning | UiEndless | UiStarved.

(** [action::Page] *)
Inductive PageId := PgEmpty | PgInfo | PgTorrentList.
#[global] Instance PageId_eq_dec : EqDecision PageId.
Proof. solve_decision. Defined.

(** ** [widgets/network_chart.rs] *)

Definition f_le (x y : float) : bool :=
  match SFcompare x y with Some (Lt | Eq) => true | _ => false end.
(** [Duration::as_secs_f64], of nanoseconds *)
Definition as_secs_f64 (d : N) : float :=
  f64_add (f64_of (d / NANOS)) (f64_div (f64_of (d mod NANOS)) (f64_of NANOS)).

Record NetworkChart := {
  nc_info_hash : InfoHash;
  download_data : list (float * float);
  upload_data : list (float * float);
  max_rate : float;
  start_time : N;
  current_time : float;
}.
(** [TARGET_WINDOW], [SMOOTHING_FACTOR] *)
Definition TARGET_WINDOW : float := f64_of 60.
Definition SMOOTHING_FACTOR : float := f64_lit 5 100.

(** [NetworkChart::new], at the time [now] *)
Definition NetworkChart_new (now : N) (h : InfoHash) : NetworkChart := {|
  nc_info_hash := h; download_data := []; upload_data := []; max_rate := f64_of 1;
  start_time := now; current_time := S754_zero false |}.

(** [Vec::retain] of the last sixty seconds *)
Definition retain_window (min_time : float) (l : list (float * float)) : list (float * float) :=
  filter (fun e => f_le min_time e.1) l.
(** The largest rate on a logarithmic scale *)
Definition max_log (log10 : float → float) (l : list (float * float)) : float :=
  foldl f_max (S754_zero false) ((fun e => log10 (f64_add e.2 (f64_of 1))) <$> l).

(** [NetworkChart::on_tick], with the logarithm of the system's library *)
Definition on_tick (log10 : float → float) (now : N) (download_rate upload_rate : float) (c : NetworkChart) : NetworkChart :=
  let current := as_secs_f64 (now - start_time c) in
  let min_time := f64_sub current TARGET_WINDOW in
  let down := retain_window min_time (download_data c ++ [(current, download_rate)]) in
  let up := retain_window min_time (upload_data c ++ [(current, upload_rate)]) in
  let current_max_log := max_log log10 (down ++ up) in
  let rate :=
    if f_lt (max_rate c) current_max_log then f64_mul current_max_log (f64_lit 11 10)
    else f64_add (f64_mul SMOOTHING_FACTOR current_max_log)
           (f64_mul (f64_sub (f64_of 1) SMOOTHING_FACTOR) (max_rate c)) in
  {| nc_info_hash := nc_info_hash c; download_data := down; upload_data := up;
     max_rate := f_max rate (f64_lit 1 10); start_time := start_time c; current_time := current |}.

Section ui.
Context `{Build, MA : MagnetApi} `{R1 : !RkyvApi TorrentState, R2 : !RkyvApi (list TorrentState)}.
Context (char_width : N → N) (str_width : list N → N) (log10 : float → float) (fuel : nat).

(** [action::Action] *)
Inductive Action :=
  | AcRender
  | AcQuit
  | AcError
  | AcChangePage (p : PageId)
  | AcInput (i : Input)
  | AcNewTorrent (m : Magnet)
  | AcTogglePause (h : InfoHash)
  | AcDeleteTorrent (h : InfoHash) (also_from_disk : bool)
  | AcTorrentState (s : TorrentState)
  | AcTorrentStates (l : list TorrentState).

(** [app::State] and the channel of actions to the loop, oldest first, which
    every page can send to *)
Record Ui := { should_dim : bool; show_network : bool; ui_tx : list Action }.
Definition Ui_new (tx : list Action) : Ui := {| should_dim := false; show_network := false; ui_tx := tx |}.
Definition with_dim (b : bool) (u : Ui) : Ui := {| should_dim := b; show_network := show_network u; ui_tx := ui_tx u |}.
Definition with_network (b : bool) (u : Ui) : Ui := {| should_dim := should_dim u; show_network := b; ui_tx := ui_tx u |}.
Definition with_tx (l : list Action) (u : Ui) : Ui := {| should_dim := should_dim u; show_network := show_network u; ui_tx := l |}.
Definition ui_send (a : Action) (u : Ui) : Ui := with_tx (ui_tx u ++ [a]) u.

(** What one drawing depends on, of [ratatui]: the inner size of the area of the
    input, and the selection after a list of some rows is rendered *)
Record Frame := { fr_width : N; fr_height : N; fr_list : nat → option N → option N }.

(** ** [widgets/confirm_popup.rs] *)
Record ConfirmPopup := { cp_title : list N; also_delete_from_disk : bool }.
Definition ConfirmPopup_new (title : list N) : ConfirmPopup := {| cp_title := title; also_delete_from_disk := false |}.
(** [ConfirmPopup::handle_event] *)
Definition popup_handle_event (i : Input) (p : ConfirmPopup) : ConfirmPopup :=
  if decide (key i = KChar 100) then {| cp_title := cp_title p; also_delete_from_disk := negb (also_delete_from_disk p) |}
  else p.

(** The input handles a key; an endless loop of it is one of the page. *)
Definition textarea_event (i : Input) (v : VimInput) : outcome UiError (bool * VimInput) :=
  match vim_handle_event char_width str_width fuel i v with
  | (Ok quit, v) => Ok (quit, v)
  | (Err _, _) => Err UiEndless
  | (Panic, _) => Panic
  end.
(** [validate_magnet] on the text of the input *)
Definition submitted (v : VimInput) : option Magnet := validate_magnet (fun s => Magnet_new (utf8_of s)) v.

(** ** [pages/torrent_list.rs] *)

Inductive SearchStatus := Typing | Moving.
#[global] Instance SearchStatus_eq_dec : EqDecision SearchStatus.
Proof. solve_decision. Defined.

(** [TorrentList]; [tl_selected] is the selection of its [ListState] *)
Record TorrentList := {
  active_torrent : option InfoHash;
  tl_textarea : option VimInput;
  delete_popup : option ConfirmPopup;
  search : list N;
  search_status : SearchStatus;
  scroll : N;
  tl_selected : option N;
  torrent_infos : list TorrentState;
  rendered_torrent_infos : list N;
  network_charts : list NetworkChart;
}.
Definition TorrentList_new : TorrentList := {|
  active_torrent := None; tl_textarea := None; delete_popup := None; search := []; search_status := Moving;
  scroll := 0; tl_selected := None; torrent_infos := []; rendered_torrent_infos := []; network_charts := [] |}.

Definition with_active (x : option InfoHash) (t : TorrentList) : TorrentList := {|
  active_torrent := x; tl_textarea := tl_textarea t; delete_popup := delete_popup t; search := search t;
  search_status := search_status t; scroll := scroll t; tl_selected := tl_selected t;
  torrent_infos := torrent_infos t; rendered_torrent_infos := rendered_torrent_infos t; network_charts := network_charts t |}.
Definition with_textarea (x : option VimInput) (t : TorrentList) : TorrentList := {|
  active_torrent := active_torrent t; tl_textarea := x; delete_popup := delete_popup t; search := search t;
  search_status := search_status t; scroll := scroll t; tl_selected := tl_selected t;
  torrent_infos := torrent_infos t; rendered_torrent_infos := rendered_torrent_infos t; network_charts := network_charts t |}.
Definition with_popup (x : option ConfirmPopup) (t : TorrentList) : TorrentList := {|
  active_torrent := active_torrent t; tl_textarea := tl_textarea t; delete_popup := x; search := search t;
  search_status := search_status t; scroll := scroll t; tl_selected := tl_selected t;
  torrent_infos := torrent_infos t; rendered_torrent_infos := rendered_torrent_infos t; network_charts := network_charts t |}.
Definition with_search (x : list N) (st : SearchStatus) (t : TorrentList) : TorrentList := {|
  active_torrent := active_torrent t; tl_textarea := tl_textarea t; delete_popup := delete_popup t; search := x;
  search_status := st; scroll := scroll t; tl_selected := tl_selected t;
  torrent_infos := torrent_infos t; rendered_torrent_infos := rendered_torrent_infos t; network_charts := network_charts t |}.
Definition with_selected (x : option N) (n : N) (t : TorrentList) : TorrentList := {|
  active_torrent := active_torrent t; tl_textarea := tl_textarea t; delete_popup := delete_popup t; search := search t;
  search_status := search_status t; scroll := n; tl_selected := x;
  torrent_infos := torrent_infos t; rendered_torrent_infos := rendered_torrent_infos t; network_charts := network_charts t |}.
Definition with_infos (x : list TorrentState) (c : list NetworkChart) (t : TorrentList) : TorrentList := {|
  active_torrent := active_torrent t; tl_textarea := tl_textarea t; delete_popup := delete_popup t; search := search t;
  search_status := search_status t; scroll := scroll t; tl_selected := tl_selected t;
  torrent_infos := x; rendered_torrent_infos := rendered_torrent_infos t; network_charts := c |}.
Definition with_rendered (x : list N) (t : TorrentList) : TorrentList := {|
  active_torrent := active_torrent t; tl_textarea := tl_textarea t; delete_popup := delete_popup t; search := search t;
  search_status := search_status t; scroll := scroll t; tl_selected := tl_selected t;
  torrent_infos := torrent_infos t; rendered_torrent_infos := x; network_charts := network_charts t |}.

(** A page and what it shares with the others *)
Abbreviation pact P := (action (P * Ui) UiError).
Definition modPage {P} (f : P → P) : pact P unit := modifyS (fun s => (f s.1, s.2)).
Definition modUi {P} (f : Ui → Ui) : pact P unit := modifyS (fun s => (s.1, f s.2)).
Definition send {P} (a : Action) : pact P unit := modUi (ui_send a).
Definition getPage {P} : pact P P := getS ≫= fun s => mret s.1.

(** [str::starts_with] *)
Definition starts_with (p s : list N) : bool := bool_decide (take (length p) s = p).
(** The torrents whose name starts with the search, by their index *)
Definition matching (s : list N) (l : list TorrentState) : list N :=
  filter (fun i => match l !! N.to_nat i with
                   | Some t => starts_with (utf8_of s) (ts_name t)
                   | None => false
                   end = true) (range (len l)).
(** [TorrentList::search] *)
Definition list_search : pact TorrentList unit :=
  modPage (fun t =>
    match search_status t with
    | Typing => with_rendered (matching (search t) (torrent_infos t)) t
    | Moving => t
    end).

(** [a + b] on [isize] *)
Definition iadd {E} (a b : Z) : outcome E Z :=
  if decide (-9223372036854775808 <= a + b <= 9223372036854775807)%Z then Ok (a + b)%Z
  else if overflow_checks then Panic
  else Ok ((a + b + 9223372036854775808) mod 18446744073709551616 - 9223372036854775808)%Z.
(** [n as isize] *)
Definition as_isize (n : N) : Z :=
  if (n <=? 9223372036854775807)%N then Z.of_N n else (Z.of_N n - 18446744073709551616)%Z.

(** [TorrentList::select_relative] *)
Definition select_relative (offset : Z) : pact TorrentList unit :=
  getPage ≫= fun t =>
  match torrent_infos t with
  | [] => mret tt
  | _ =>
      lift (match tl_selected t with
            | None => Ok 0%N
            | Some s => n ← iadd (as_isize s) offset; Ok (Z.to_N (n mod as_isize (len (torrent_infos t))))
            end) ≫= fun i =>
      modPage (with_selected (Some i) i)
  end.
Definition list_next : pact TorrentList unit := select_relative 1.
Definition list_previous : pact TorrentList unit := select_relative (-1).

(** [TorrentList::delete_torrent] *)
Definition list_delete_torrent : pact TorrentList unit :=
  getPage ≫= fun t =>
  match tl_selected t, active_torrent t, delete_popup t with
  | Some _, Some h, Some popup =>
      send (AcDeleteTorrent h (also_delete_from_disk popup)) ≫= fun _ =>
      modPage (fun t => with_active None (with_selected None (scroll t) t))
  | _, _, _ => mret tt
  end.

(** The charts after the states arrived: a new one for a torrent that has none,
    and a tick for the chart at the place of each state *)
Definition tick_charts (now : N) (states : list TorrentState) (charts : list NetworkChart) : list NetworkChart :=
  foldl (fun charts '(i, s) =>
    let charts :=
      if existsb (fun v => bool_decide (nc_info_hash v = ts_info_hash s)) charts then charts
      else charts ++ [NetworkChart_new now (ts_info_hash s)] in
    alter (on_tick log10 now (ts_download_rate s) (ts_upload_rate s)) i charts)
  charts (imap (fun i s => (i, s)) states).

(** [TorrentList::handle_action], of the states of the torrents *)
Definition list_states (now : N) (states : list TorrentState) : pact TorrentList unit :=
  getPage ≫= fun t =>
  let charts := tick_charts now states (network_charts t) in
  (if decide (search t = []) then modPage (with_rendered (range (len states))) else mret tt) ≫= fun _ =>
  modPage (with_infos states charts).

Definition all_rendered : pact TorrentList unit :=
  modPage (fun t => with_rendered (range (len (torrent_infos t))) t).

(** A key while the popup is shown *)
Definition list_popup_key (i : Input) : pact TorrentList unit :=
  match key i with
  | KEnter =>
      list_delete_torrent ≫= fun _ => modPage (with_popup None) ≫= fun _ => modUi (with_dim false)
  | KEsc => modPage (with_popup None) ≫= fun _ => modUi (with_dim false)
  | _ => mret tt
  end.

(** A key while the search is typed *)
Definition list_search_key (i : Input) : pact TorrentList unit :=
  match key i with
  | KChar c => modPage (fun t => with_search (search t ++ [c]) (search_status t) t) ≫= fun _ => list_search
  | KEsc => all_rendered ≫= fun _ => modPage (fun t => with_search (search t) Moving t)
  | KEnter => modPage (fun t => with_search (search t) Moving t) ≫= fun _ => list_next
  | KBackspace => modPage (fun t => with_search (removelast (search t)) (search_status t) t) ≫= fun _ => list_search
  | _ => mret tt
  end.

(** The torrent of the selected row *)
Definition selected_index (t : TorrentList) : option N :=
  match tl_selected t with Some i => rendered_torrent_infos t !! N.to_nat i | None => None end.
Definition selected_info (t : TorrentList) : option TorrentState :=
  match selected_index t with Some n => torrent_infos t !! N.to_nat n | None => None end.

(** A key of the list itself *)
Definition list_key (i : Input) : pact TorrentList unit :=
  getPage ≫= fun t =>
  match key i with
  | KChar 47 =>
      modPage (fun t => with_search (search t) Typing (with_active None (with_selected None (scroll t) t)))
  | KChar 113 => modUi (with_dim false) ≫= fun _ => send AcQuit
  | KChar 103 =>
      match torrent_infos t with [] => mret tt | _ => modPage (with_selected (Some 0%N) 0) end
  | KChar 71 =>
      match torrent_infos t with
      | [] => mret tt
      | _ =>
          lift (usub (len (torrent_infos t)) 1) ≫= fun n => modPage (with_selected (Some n) n)
      end
  | KChar 106 => list_next
  | KChar 107 => list_previous
  | KChar 110 => modUi (fun u => with_network (negb (show_network u)) u)
  | KChar 100 =>
      match selected_info t with
      | Some s =>
          modUi (with_dim true) ≫= fun _ => modPage (with_popup (Some (ConfirmPopup_new (ts_name s))))
      | None => mret tt
      end
  | KChar 116 =>
      modUi (with_dim true) ≫= fun _ => modPage (with_textarea (Some VimInput_default))
  | KChar 112 =>
      match active_torrent t with Some h => send (AcTogglePause h) | None => mret tt end
  | _ => mret tt
  end.

(** The input has the key before the page; [true] when it was its last *)
Definition list_textarea (i : Input) : pact TorrentList bool :=
  getPage ≫= fun t =>
  match tl_textarea t with
  | None => mret false
  | Some v =>
      lift (textarea_event i v) ≫= fun '(quit, v) =>
      if quit : bool then
        modPage (with_textarea None) ≫= fun _ => modUi (with_dim false) ≫= fun _ => mret true
      else modPage (with_textarea (Some v)) ≫= fun _ => mret false
  end.

(** [TorrentList::handle_action], of a key *)
Definition list_input (i : Input) : pact TorrentList unit :=
  modPage (fun t => with_popup (popup_handle_event i <$> delete_popup t) t) ≫= fun _ =>
  list_textarea i ≫= fun over =>
  if over : bool then mret tt
  else
    getPage ≫= fun t =>
    if decide (is_Some (delete_popup t)) then list_popup_key i
    else if decide (search_status t = Moving ∧ key i = KEsc) then
      all_rendered ≫= fun _ => modPage (with_search [] Moving)
    else if decide (search_status t = Typing) then list_search_key i
    else
      match tl_textarea t with
      | Some v =>
          match key i, submitted v with
          | KEnter, Some m => send (AcNewTorrent m)
          | _, _ => mret tt
          end
      | None => list_key i
      end.

(** [TorrentList::handle_action] *)
Definition list_handle_action (now : N) (a : Action) : pact TorrentList unit :=
  match a with
  | AcInput i => list_input i
  | AcTorrentStates l => list_states now l
  | _ => mret tt
  end.

(** The rows of [TorrentList::draw], from row [i] on; the torrent of the
    selected one is the active one. *)
Fixpoint draw_rows (i : N) (rendered : list N) : pact TorrentList unit :=
  match rendered with
  | [] => mret tt
  | n :: rendered =>
      getPage ≫= fun t =>
      lift (index (torrent_infos t) n) ≫= fun s =>
      (if decide (tl_selected t = Some i) then modPage (with_active (Some (ts_info_hash s))) else mret tt) ≫= fun _ =>
      draw_rows (i + 1) rendered
  end.
(** [TorrentList::draw]; it leaves early when it has no selection for the chart. *)
Definition list_draw (f : Frame) : pact TorrentList unit :=
  getPage ≫= fun t =>
  draw_rows 0 (rendered_torrent_infos t) ≫= fun _ =>
  modPage (fun t => with_selected (fr_list f (length (rendered_torrent_infos t)) (tl_selected t)) (scroll t) t) ≫= fun _ =>
  getS ≫= fun '(t, u) =>
  let chart := bool_decide (is_Some (active_torrent t)) && show_network u in
  if chart && bool_decide (selected_index t = None) then mret tt
  else
    match delete_popup t with
    | Some _ => mret tt
    | None => modPage (fun t => with_textarea (set_area (fr_width f) (fr_height f) <$> tl_textarea t) t)
    end.

(** ** [pages/empty.rs] *)

(** [Empty]: its input *)
Abbreviation Empty := (option VimInput).
(** [Empty::quit] *)
Definition empty_quit : pact Empty unit :=
  getPage ≫= fun t => match t with Some _ => modPage (fun _ => None) | None => send AcQuit end.

(** [Empty::handle_action], of a key *)
Definition empty_input (i : Input) : pact Empty unit :=
  getPage ≫= fun t =>
  match t with
  | None => mret false
  | Some v =>
      lift (textarea_event i v) ≫= fun '(quit, v) =>
      if quit : bool then modPage (fun _ => None) ≫= fun _ => modUi (with_dim false) ≫= fun _ => mret true
      else modPage (fun _ => Some v) ≫= fun _ => mret false
  end ≫= fun over =>
  if over : bool then mret tt
  else
    (if decide (key i = KChar 116) then modPage (fun _ => Some VimInput_default) else mret tt) ≫= fun _ =>
    getPage ≫= fun t =>
    match key i, t ≫= submitted with
    | KEnter, Some m => send (AcNewTorrent m) ≫= fun _ => empty_quit
    | _, _ => mret tt
    end ≫= fun _ =>
    if decide (key i = KChar 113) then empty_quit else mret tt.
(** [Empty::handle_action] *)
Definition empty_handle_action (a : Action) : pact Empty unit :=
  match a with
  | AcInput i => empty_input i
  | AcTorrentStates (_ :: _) => send (AcChangePage PgTorrentList)
  | _ => mret tt
  end.
(** [Empty::draw] *)
Definition empty_draw (f : Frame) : pact Empty unit :=
  modPage (fun t => set_area (fr_width f) (fr_height f) <$> t).

(** ** [app.rs] *)

(** [Box<dyn Page>], and [Page::id] *)
Inductive Page := PEmpty (t : Empty) | PInfo | PTorrentList (t : TorrentList).
Definition page_id (p : Page) : PageId :=
  match p with PEmpty _ => PgEmpty | PInfo => PgInfo | PTorrentList _ => PgTorrentList end.

(** [App]; [app_menu] is the index of the menu, [app_sent] what the daemon was
    sent, [app_connected] whether its socket still takes messages,
    [app_listening] whether the task of [listen_daemon] runs. *)
Record App := {
  is_detached : bool;
  should_quit : bool;
  app_page : Page;
  app_ui : Ui;
  app_menu : N;
  app_connected : bool;
  app_listening : bool;
  app_sent : list Message;
}.
Abbreviation aact := (action App UiError).
(** [App::new]; actions may wait in the channel before it runs *)
Definition App_new (detached : bool) (tx : list Action) : App := {|
  is_detached := detached; should_quit := false; app_page := PEmpty None; app_ui := Ui_new tx; app_menu := 0;
  app_connected := true; app_listening := true; app_sent := [] |}.

Definition with_page (p : Page) (u : Ui) (a : App) : App := {|
  is_detached := is_detached a; should_quit := should_quit a; app_page := p; app_ui := u; app_menu := app_menu a;
  app_connected := app_connected a; app_listening := app_listening a; app_sent := app_sent a |}.
Definition with_menu (n : N) (a : App) : App := {|
  is_detached := is_detached a; should_quit := should_quit a; app_page := app_page a; app_ui := app_ui a; app_menu := n;
  app_connected := app_connected a; app_listening := app_listening a; app_sent := app_sent a |}.
Definition with_quit (a : App) : App := {|
  is_detached := is_detached a; should_quit := true; app_page := app_page a; app_ui := app_ui a; app_menu := app_menu a;
  app_connected := app_connected a; app_listening := false; app_sent := app_sent a |}.
Definition with_sent (m : Message) (a : App) : App := {|
  is_detached := is_detached a; should_quit := should_quit a; app_page := app_page a; app_ui := app_ui a; app_menu := app_menu a;
  app_connected := app_connected a; app_listening := app_listening a; app_sent := app_sent a ++ [m] |}.
Definition disconnected (a : App) : App := {|
  is_detached := is_detached a; should_quit := should_quit a; app_page := app_page a; app_ui := app_ui a; app_menu := app_menu a;
  app_connected := false; app_listening := app_listening a; app_sent := app_sent a |}.
Definition with_listening (b : bool) (a : App) : App := {|
  is_detached := is_detached a; should_quit := should_quit a; app_page := app_page a; app_ui := app_ui a; app_menu := app_menu a;
  app_connected := app_connected a; app_listening := b; app_sent := app_sent a |}.
Definition app_push (x : Action) (a : App) : App := with_page (app_page a) (ui_send x (app_ui a)) a.

(** [sink.send(m).await?] *)
Definition sink_send (m : Message) : aact unit :=
  getS ≫= fun a => if app_connected a then modifyS (with_sent m) else lift (Err UeDaemon).

(** ** [widgets/menu.rs] *)

(** [TITLES_LEN] *)
Definition TITLES_LEN : Z := 2.
(** [Menu::select_relative] and [update_page] *)
Definition menu_relative (offset : Z) : aact unit :=
  getS ≫= fun a =>
  lift (n ← iadd (as_isize (app_menu a)) offset; Ok (Z.to_N (n mod TITLES_LEN))) ≫= fun n =>
  modifyS (with_menu n) ≫= fun _ =>
  match n with
  | 0%N => modifyS (app_push (AcChangePage PgTorrentList))
  | 1%N => modifyS (app_push (AcChangePage PgInfo))
  | _ => mret tt
  end.

(** [App::handle_action] *)
Definition app_handle_action (a : Action) : aact unit :=
  getS ≫= fun app =>
  match a with
  | AcInput i =>
      if decide (key i = KTab ∧ page_id (app_page app) ≠ PgEmpty)
      then menu_relative (if shift i then -1 else 1) else mret tt
  | _ => mret tt
  end.

(** A page runs on its own part of the state. *)
Definition on_page {P} (wrap : P → Page) (p : P) (m : pact P unit) : aact unit := fun a =>
  let '(r, (p, u)) := m (p, app_ui a) in (r, with_page (wrap p) u a).

(** [page.handle_action]; the page of information only quits. *)
Definition page_handle_action (now : N) (x : Action) : aact unit :=
  getS ≫= fun a =>
  match app_page a with
  | PEmpty t => on_page PEmpty t (empty_handle_action x)
  | PInfo =>
      match x with
      | AcInput i => if decide (key i = KChar 113) then modifyS (app_push AcQuit) else mret tt
      | _ => mret tt
      end
  | PTorrentList t => on_page PTorrentList t (list_handle_action now x)
  end.
Definition page_draw (f : Frame) : aact unit :=
  getS ≫= fun a =>
  match app_page a with
  | PEmpty t => on_page PEmpty t (empty_draw f)
  | PInfo => mret tt
  | PTorrentList t => on_page PTorrentList t (list_draw f)
  end.
Definition new_page (p : PageId) : Page :=
  match p with PgEmpty => PEmpty None | PgInfo => PInfo | PgTorrentList => PTorrentList TorrentList_new end.

(** One action taken from the channel by [App::run] *)
Definition app_dispatch (now : N) (f : Frame) (x : Action) : aact unit :=
  match x with
  | AcChangePage p => modifyS (fun a => with_page (new_page p) (app_ui a) a)
  | AcRender => page_draw f
  | AcQuit =>
      getS ≫= fun a =>
      (if is_detached a then mret tt else catch tt (sink_send DmQuit)) ≫= fun _ => modifyS with_quit
  | AcNewTorrent m => sink_send (DmNewTorrent m)
  | AcDeleteTorrent h also => sink_send (DmDeleteTorrent h also)
  | _ => page_handle_action now x
  end.

(** [while let Ok(action) = rx.try_recv()]; [n] bounds the actions taken.  What
    the task of [listen_daemon] sends meanwhile is left for the next turn here;
    [drains] has it arrive at any time. *)
Fixpoint app_drain (n : nat) (now : N) (f : Frame) : aact unit :=
  getS ≫= fun a =>
  match ui_tx (app_ui a) with
  | [] => mret tt
  | x :: tx =>
      match n with
      | O => lift (Err UiStarved)
      | S n =>
          modifyS (fun a => with_page (app_page a) (with_tx tx (app_ui a)) a) ≫= fun _ =>
          app_dispatch now f x ≫= fun _ => app_drain n now f
      end
  end.
(** Each action taken is answered by three at most, and those by none. *)
Definition drain_fuel (a : App) : nat := 4 * length (ui_tx (app_ui a)).

(** What [listen_daemon] sends to the loop *)
Definition from_daemon (x : Action) : bool :=
  match x with
  | AcChangePage PgInfo | AcTorrentState _ | AcTorrentStates _ | AcQuit | AcTogglePause _ => true
  | _ => false
  end.
(** The loop over the channel as steps: [n] actions were taken and handled, and
    the task of [listen_daemon] sent [m] meanwhile. *)
Inductive drains (now : N) (f : Frame) : nat → nat → App → App → Prop :=
  | drains_none a : drains now f 0 0 a a
  | drains_takes a x tx a1 n m a' :
      ui_tx (app_ui a) = x :: tx →
      app_dispatch now f x (with_page (app_page a) (with_tx tx (app_ui a)) a) = (Ok tt, a1) →
      drains now f n m a1 a' → drains now f (S n) m a a'
  | drains_sent a x n m a' :
      from_daemon x = true → drains now f n m (app_push x a) a' → drains now f n (S m) a a'.

(** A turn of [App::run], with what the terminal sent; [true] when the loop is
    over *)
Definition app_turn (now : N) (f : Frame) (x : Action) : aact bool :=
  app_handle_action x ≫= fun _ =>
  modifyS (app_push x) ≫= fun _ =>
  getS ≫= fun a =>
  app_drain (drain_fuel a) now f ≫= fun _ =>
  getS ≫= fun a =>
  if should_quit a then sink_send DmFrontendQuit ≫= fun _ => mret true else mret false.

(** [App::listen_daemon]: the actions for what the daemon sends, and whether it
    goes on; [None] is a message that could not be read, which ends it like the
    end of the stream. *)
Fixpoint listen_daemon (stream : list (option Message)) : list Action * bool :=
  match stream with
  | [] => ([], true)
  | None :: _ => ([], false)
  | Some msg :: stream =>
      let '(l, on) := listen_daemon stream in
      match msg with
      | DmInit false => (AcChangePage PgInfo :: l, on)
      | DmTorrentState v => (AcTorrentState v :: l, on)
      | DmTorrentStates v => (AcTorrentStates v :: l, on)
      | DmQuit => ([AcQuit], false)
      | DmTogglePause h => (AcTogglePause h :: l, on)
      | _ => (l, on)
      end
  end.

(** The connection to the daemon: eleven tries *)
Fixpoint connect_tries (n : nat) (tries : nat → bool) : outcome UiError unit :=
  if tries 0 then Ok tt
  else match n with O => Err UeDaemonNotRunning | S n => connect_tries n (fun k => tries (S k)) end.
Definition app_connect (tries : nat → bool) : outcome UiError unit := connect_tries 10 tries.

(** What happens to a running frontend: the terminal sends a key, a signal or a
    tick to draw, the daemon's messages come in, or its socket closes. *)
Inductive UiEvent :=
  | EvTerminal (now : N) (f : Frame) (x : Action)
  | EvDaemon (stream : list (option Message))
  | EvDisconnected.
Definition ui_event (e : UiEvent) : aact bool :=
  match e with
  | EvTerminal now f x => app_turn now f x
  | EvDaemon stream =>
      modifyS (fun a =>
        if app_listening a then
          let '(l, on) := listen_daemon stream in with_listening on (foldl (fun a x => app_push x a) a l)
        else a) ≫= fun _ => mret false
  | EvDisconnected => modifyS disconnected ≫= fun _ => mret false
  end.
Fixpoint ui_run (es : list UiEvent) : aact bool :=
  match es with
  | [] => mret false
  | e :: es => ui_event e ≫= fun over => if over : bool then mret true else ui_run es
  end.
(** ** [lib.rs] and [tui.rs]: what the terminal sends *)

(** [crossterm]'s keys that the source names, and the others *)
Inductive KeyCode :=
  | KcChar (c : N) | KcBackspace | KcEnter | KcLeft | KcRight | KcUp | KcDown | KcTab | KcDelete | KcHome | KcEnd
  | KcPageUp | KcPageDown | KcEsc | KcF (n : N) | KcOther.
Record Modifiers := { m_control : bool; m_alt : bool; m_shift : bool }.
Inductive MouseKind := MkScrollDown | MkScrollUp | MkOther.
Inductive TermEvent :=
  | EKey (released : bool) (m : Modifiers) (code : KeyCode)
  | EMouse (m : Modifiers) (kind : MouseKind)
  | EOther.

(** [From<KeyCode> for Key] *)
Definition Key_of_code (code : KeyCode) : Key :=
  match code with
  | KcChar c => KChar c
  | KcBackspace => KBackspace
  | KcEnter => KEnter
  | KcLeft => KLeft
  | KcRight => KRight
  | KcUp => KUp
  | KcDown => KDown
  | KcTab => KTab
  | KcDelete => KDelete
  | KcHome => KHome
  | KcEnd => KEnd
  | KcPageUp => KPageUp
  | KcPageDown => KPageDown
  | KcEsc => KEsc
  | KcF n => KF n
  | KcOther => KNull
  end.
Definition with_modifiers (m : Modifiers) (k : Key) : Input :=
  {| key := k; ctrl := m_control m; alt := m_alt m; shift := m_shift m |}.
(** [From<KeyEvent> for Input], [From<MouseEventKind> for Key],
    [From<MouseEvent> for Input], [From<Event> for Input] *)
Definition Input_of_key (released : bool) (m : Modifiers) (code : KeyCode) : Input :=
  if released then Input_default else with_modifiers m (Key_of_code code).
Definition Key_of_mouse (kind : MouseKind) : Key :=
  match kind with MkScrollDown => KMouseScrollDown | MkScrollUp => KMouseScrollUp | MkOther => KNull end.
Definition Input_of_mouse (m : Modifiers) (kind : MouseKind) : Input := with_modifiers m (Key_of_mouse kind).
Definition Input_of_event (e : TermEvent) : Input :=
  match e with
  | EKey released m code => Input_of_key released m code
  | EMouse m kind => Input_of_mouse m kind
  | EOther => Input_default
  end.

(** The signals [Tui] asked for *)
Inductive Signal := SigHup | SigTerm | SigInt | SigQuit.
(** What wakes the tasks of [Tui]: an event of the terminal, if it could be read,
    the tick to draw, or a signal *)
Inductive TuiEvent := TeEvent (e : option TermEvent) | TeTick | TeSignal (s : Signal).
(** [Tui::init] and [Tui::handle_signals]: the action [Tui::next] returns *)
Definition tui_action (e : TuiEvent) : option Action :=
  match e with
  | TeEvent (Some e) => Some (AcInput (Input_of_event e))
  | TeEvent None => None
  | TeTick => Some AcRender
  | TeSignal SigHup => None
  | TeSignal _ => Some AcQuit
  end.
End ui.
