(* ===== verification/UiFacts.v ===== *)
(** What the frontend does: what it can send, that its turns end, how it quits,
    and what its list of torrents draws and deletes. *)
From S2P Require Import Prelude Bencode Buffers Core CoreFacts Metainfo Floats Torrent DaemonWire DaemonWireFacts Magnet.
From S2P Require Import Config VimInput VimInputFacts Daemon Ui.
From Stdlib Require Import SpecFloat.

Section app.
Context `{Build, MA : MagnetApi}.
Context (char_width : N → N) (str_width : list N → N) (log10 : float → float) (fuel : nat).
Abbreviation aact := (action App UiError).
Abbreviation pact P := (action (P * Ui) UiError).
Abbreviation app_turn := (app_turn char_width str_width log10 fuel).
Abbreviation ui_run := (ui_run char_width str_width log10 fuel).
Abbreviation app_dispatch := (app_dispatch char_width str_width log10 fuel).
Abbreviation app_drain := (app_drain char_width str_width log10 fuel).
Abbreviation drains := (drains char_width str_width log10 fuel).

(** ** What the daemon can be sent *)

Definition sendable (m : Message) : Prop :=
  match m with DmQuit | DmFrontendQuit | DmNewTorrent _ | DmDeleteTorrent _ _ => True | _ => False end.
Definition sends : relation App := fun a a' => ∃ l, app_sent a' = app_sent a ++ l ∧ Forall sendable l.
#[local] Instance sends_preorder : PreOrder sends.
Proof.
  split.
  - intros a. exists []. by rewrite app_nil_r.
  - intros a b c (l & Hl & Fl) (k & Hk & Fk). exists (l ++ k). rewrite Hk, Hl, app_assoc. split; [done|by apply Forall_app].
Qed.
Lemma sends_same a a' : app_sent a' = app_sent a → sends a a'.
Proof. intros Ha. exists []. by rewrite app_nil_r. Qed.
Lemma sends_sink_send m : sendable m → keeps sends (sink_send m).
Proof.
  intros Hm. unfold sink_send. apply keeps_bind; [apply _|apply keeps_getS; apply _|]. intros a. case_match.
  - apply keeps_modifyS. intros b. exists [m]. split; [done|by constructor].
  - apply keeps_lift. apply _.
Qed.
Lemma keeps_on_page {P} (w : P → Page) p (m : pact P unit) : keeps sends (on_page w p m).
Proof.
  intros a r a' Hr _. unfold on_page in Hr. destruct (m (p, app_ui a)) as [r' [p' u]].
  injection Hr as <- <-. by apply sends_same.
Qed.
#[local] Hint Resolve keeps_on_page : keeps.
Ltac sends_step := intros; by apply sends_same.

Lemma keeps_dispatch now f x : keeps sends (app_dispatch now f x).
Proof.
  unfold app_dispatch, page_draw, page_handle_action. destruct x; keep sends_step;
    try (by apply sends_sink_send); keep sends_step.
Qed.
Lemma keeps_drain n now f : keeps sends (app_drain n now f).
Proof.
  induction n as [|n IH]; cbn [Ui.app_drain]; keep sends_step; try apply keeps_dispatch; apply IH.
Qed.
Lemma keeps_turn now f x : keeps sends (app_turn now f x).
Proof.
  unfold app_turn, app_handle_action, menu_relative. keep sends_step; try apply keeps_drain; by apply sends_sink_send.
Qed.
Lemma push_all_sent l (a : App) : app_sent (foldl (fun a x => app_push x a) a l) = app_sent a.
Proof. revert a. induction l as [|x l IH]; intros a; [done|]. simpl. by rewrite IH. Qed.
Lemma keeps_run es : keeps sends (ui_run es).
Proof.
  induction es as [|e es IH]; cbn [Ui.ui_run]; [keep sends_step|]. apply keeps_bind; [apply _| |].
  - destruct e; cbn [ui_event]; [apply keeps_turn| |keep sends_step].
    keep ltac:(intros). apply sends_same. case_match; [|done]. destruct (listen_daemon stream) as [l on]. apply push_all_sent.
  - intros []; [keep sends_step|apply IH].
Qed.

(** ** A turn ends *)

(** The actions a page answers with others *)
Definition external (x : Action) : bool := match x with AcInput _ | AcTorrentStates _ => true | _ => false end.
Definition work (l : list Action) : nat := sum_list_with (fun x => if external x then 4 else 1) l.
Lemma work_le l : length l <= work l <= 4 * length l.
Proof. unfold work. induction l as [|x l IH]; simpl; [lia|]. case_match; lia. Qed.

(** An action sends at most [n] actions, which are not answered, and does not
    run out of turns. *)
Definition emits {S A} (tx : S → list Action) (n : nat) (m : action S UiError A) : Prop :=
  ∀ s r s', m s = (r, s') → ∃ l, tx s' = tx s ++ l ∧ length l <= n ∧ Forall (fun x => external x = false) l ∧ r ≠ Err UiStarved.
Section emits.
Context {S : Type} (tx : S → list Action).
Lemma emits_bind {A B} n k (m : action S UiError A) (f : A → action S UiError B) :
  emits tx n m → (∀ a, emits tx k (f a)) → emits tx (n + k) (m ≫= f).
Proof.
  intros Hm Hf s r s' Hr. rewrite bind_action in Hr. destruct (m s) as [[a|e|] s1] eqn:Hs;
    destruct (Hm _ _ _ Hs) as (l & Hl & Hn & Fl & Hst).
  - destruct (Hf a _ _ _ Hr) as (l' & Hl' & Hn' & Fl' & Hst'). exists (l ++ l').
    rewrite Hl', Hl, app_assoc, length_app. split_and!; [done|lia|by apply Forall_app|done].
  - injection Hr as <- <-. exists l. split_and!; [done|lia|done|intros [= ->]; by apply Hst].
  - injection Hr as <- <-. exists l. split_and!; [done|lia|done|intros [= ->]; by apply Hst].
Qed.
Lemma emits_none {A} n (m : action S UiError A) :
  (∀ s, tx (m s).2 = tx s ∧ (m s).1 ≠ Err UiStarved) → emits tx n m.
Proof.
  intros Hm s r s' Hr. exists []. specialize (Hm s). rewrite Hr in Hm. destruct Hm.
  rewrite app_nil_r. split_and!; [done|simpl; lia|done|done].
Qed.
Lemma emits_lift {A} n (o : outcome UiError A) : o ≠ Err UiStarved → emits tx n (lift o).
Proof. intros Ho. by apply emits_none. Qed.
Lemma emits_weaken {A} n k (m : action S UiError A) : emits tx n m → n <= k → emits tx k m.
Proof. intros Hm Hk s r s' Hr. destruct (Hm _ _ _ Hr) as (l & ? & ? & ?). exists l. split_and!; [done|lia|by destruct_and!..]. Qed.
End emits.

Abbreviation page_emits n m := (emits (fun s => ui_tx s.2) n m).
Lemma emits_send {P} x : external x = false → page_emits 1 (send (P:=P) x).
Proof. intros Hx s r s' [= <- <-]. exists [x]. split_and!; [done|done|by constructor|done]. Qed.
Lemma emits_page {P} (f : P → P) : page_emits 0 (modPage f).
Proof. by apply emits_none. Qed.
Lemma emits_dim {P} b : page_emits 0 (modUi (P:=P) (with_dim b)).
Proof. by apply emits_none. Qed.
Lemma emits_bind0 {S A B} (tx : S → list Action) n (m : action S UiError A) (f : A → action S UiError B) :
  emits tx 0 m → (∀ a, emits tx n (f a)) → emits tx n (m ≫= f).
Proof. apply (emits_bind tx 0 n). Qed.
Lemma emits_bind1 {S A B} (tx : S → list Action) n (m : action S UiError A) (f : A → action S UiError B) :
  emits tx n m → (∀ a, emits tx 0 (f a)) → emits tx n (m ≫= f).
Proof. intros Hm Hf. eapply emits_weaken; [by apply (emits_bind tx n 0)|lia]. Qed.

Create HintDb emits.
Lemma textarea_no_starve i v : textarea_event char_width str_width fuel i v ≠ Err UiStarved.
Proof. unfold textarea_event. by destruct (vim_handle_event _ _ _ _ _) as [[[]| |] ?]. Qed.
Lemma iadd_no_err {E} a b (e : E) : iadd a b ≠ Err e.
Proof. unfold iadd. by repeat case_match. Qed.
Lemma relative_no_starve t n l :
  match tl_selected t with
  | None => Ok 0%N
  | Some s => n ← iadd (as_isize s) n; Ok (Z.to_N (n mod l))
  end ≠ @Err UiError N UiStarved.
Proof. case_match; [|done]. destruct (iadd _ _) eqn:Hi; [done| |done]. by apply iadd_no_err in Hi. Qed.
Lemma usub_no_starve a b : usub a b ≠ @Err UiError N UiStarved.
Proof. apply arith_no_err. Qed.
Lemma index_no_starve {A} (l : list A) n : index l n ≠ Err UiStarved.
Proof. unfold index. by destruct (l !! _). Qed.
#[local] Hint Resolve textarea_no_starve relative_no_starve usub_no_starve index_no_starve : emits.

(** [emit]: goes through the body of an action of a page, in which one part
    sends *)
Ltac emit := repeat (intros; cbv zeta; lazymatch goal with
  | |- emits _ _ (_ ≫= _) => first [apply emits_bind0; [solve [emit]|] | apply emits_bind1; [|solve [emit]]]
  | |- emits _ _ (match ?x with _ => _ end) => destruct x
  | |- emits _ _ (send _) => eapply emits_weaken; [by apply emits_send|lia]
  | |- emits _ _ getPage => by apply emits_none
  | |- emits _ _ (modPage _) => by apply emits_none
  | |- emits _ _ (modUi (with_dim _)) => by apply emits_none
  | |- emits _ _ (mret _) => by apply emits_none
  | |- emits _ _ (lift _) => apply emits_lift
  | |- _ ≠ Err UiStarved => solve [eauto 2 with emits]
  | |- emits _ _ getS => by apply emits_none
  | |- _ => solve [eapply (emits_weaken _ 0); [eauto 2 with emits|lia]]
  end).

Lemma emits_list_search : page_emits 0 list_search.
Proof. unfold list_search. emit. Qed.
Lemma emits_select n : page_emits 0 (select_relative n).
Proof. unfold select_relative. emit. Qed.
Lemma emits_textarea i : page_emits 0 (list_textarea char_width str_width fuel i).
Proof. unfold list_textarea. emit. Qed.
#[local] Hint Resolve emits_list_search emits_select emits_textarea : emits.
Lemma emits_list_key i : page_emits 1 (list_key i).
Proof. unfold list_key, list_next, list_previous, all_rendered. emit. all: by apply emits_none. Qed.
Lemma emits_list_input i : page_emits 1 (list_input char_width str_width fuel i).
Proof.
  unfold list_input, list_popup_key, list_delete_torrent, list_search_key, list_next, all_rendered. emit.
  apply emits_list_key.
Qed.
Lemma emits_list_action now x :
  page_emits (if external x then 3 else 0) (list_handle_action char_width str_width log10 fuel now x).
Proof.
  destruct x; cbn [list_handle_action external]; try (by apply emits_none).
  - eapply emits_weaken; [apply emits_list_input|lia].
  - unfold list_states. emit.
Qed.
Lemma emits_rows i l : page_emits 0 (draw_rows i l).
Proof. revert i. induction l as [|n l IH]; intros i; cbn [draw_rows]; emit. Qed.
#[local] Hint Resolve emits_rows : emits.
Lemma emits_list_draw f : page_emits 0 (list_draw f).
Proof. unfold list_draw. emit. Qed.

Lemma emits_empty_quit : page_emits 1 empty_quit.
Proof. unfold empty_quit. emit. Qed.
Lemma emits_empty_action x :
  page_emits (if external x then 3 else 0) (empty_handle_action char_width str_width fuel x).
Proof.
  destruct x as [| | | |i| | | | |[|]]; cbn [empty_handle_action external]; try (by apply emits_none).
  2: eapply emits_weaken; [by apply emits_send|lia].
  unfold empty_input. apply emits_bind0; [emit|]. intros t. apply emits_bind0; [emit|].
  intros []; [emit|]. apply emits_bind0; [emit|]. intros _. apply emits_bind0; [emit|]. intros v.
  apply (emits_bind _ 2 1).
  - assert (page_emits 2 (mret () : pact (option VimInput) ())) as Hz by by apply emits_none.
    destruct (key i); try done. destruct (v ≫= submitted); [|done].
    apply (emits_bind _ 1 1); [by apply emits_send|]. intros _. apply emits_empty_quit.
  - intros _. case_decide; [apply emits_empty_quit|by apply emits_none].
Qed.

Abbreviation app_tx := (fun a : App => ui_tx (app_ui a)).
Lemma emits_on_page {P} (w : P → Page) p n (m : pact P unit) : page_emits n m → emits app_tx n (on_page w p m).
Proof.
  intros Hm a r a' Hr. unfold on_page in Hr. destruct (m (p, app_ui a)) as [r' [p' u]] eqn:Hs.
  injection Hr as <- <-. exact (Hm _ _ _ Hs).
Qed.
Lemma emits_page_action now x :
  emits app_tx (if external x then 3 else 0) (page_handle_action char_width str_width log10 fuel now x).
Proof.
  unfold page_handle_action. apply emits_bind0; [by apply emits_none|]. intros a. destruct (app_page a).
  - apply emits_on_page, emits_empty_action.
  - destruct x; try (by apply emits_none). case_decide; [|by apply emits_none].
    intros b r b' [= <- <-]. exists [AcQuit]. split_and!; [done|simpl; lia|by constructor|done].
  - apply emits_on_page, emits_list_action.
Qed.
Lemma emits_page_draw f : emits app_tx 0 (page_draw f).
Proof.
  unfold page_draw. apply emits_bind0; [by apply emits_none|]. intros a. destruct (app_page a).
  - by apply emits_on_page, emits_none.
  - by apply emits_none.
  - apply emits_on_page, emits_list_draw.
Qed.
Lemma emits_sink_send m : emits app_tx 0 (sink_send m).
Proof. apply emits_none. intros a. unfold sink_send. rewrite bind_getS. by case_match. Qed.
Lemma emits_dispatch now f x :
  emits app_tx (if external x then 3 else 0) (app_dispatch now f x).
Proof.
  destruct x; try apply (emits_page_action now); cbn [Ui.app_dispatch external];
    try apply emits_sink_send; try apply emits_page_draw; [|by apply emits_none].
  apply emits_none. intros a. rewrite bind_getS. destruct (is_detached a); [done|].
  unfold catch, sink_send. rewrite bind_action, bind_getS. by destruct (app_connected a).
Qed.

(** A turn never takes more actions than it counted on. *)
Lemma work_app l k : work (l ++ k) = work l + work k.
Proof. unfold work. induction l as [|x l IH]; simpl; [done|]. rewrite IH. lia. Qed.
Lemma work_inert l : Forall (fun x => external x = false) l → work l = length l.
Proof. unfold work. induction 1 as [|x l Hx _ IH]; [done|]. simpl. rewrite Hx, IH. done. Qed.
Lemma drain_ends n now f a : work (app_tx a) <= n → (app_drain n now f a).1 ≠ Err UiStarved.
Proof.
  revert a. induction n as [|n IH]; intros a Hw; cbn [Ui.app_drain]; rewrite bind_getS;
    destruct (ui_tx (app_ui a)) as [|x tx] eqn:Hx; try done; cbn [work sum_list_with] in Hw.
  - destruct (external x); simpl in Hw; lia.
  - rewrite bind_modifyS, bind_action. set (a1 := with_page _ _ a).
    destruct (app_dispatch now f x a1) as [r a2] eqn:Hd.
    destruct (emits_dispatch now f x _ _ _ Hd) as (l & Hl & Hn & Fl & Hr). destruct r as [[]|e|].
    + apply IH. rewrite Hl, work_app, (work_inert l Fl). simpl. fold (work tx) in Hw. destruct (external x); lia.
    + intros [= ->]. by apply Hr.
    + done.
Qed.

Lemma drain_empties n now f a a' : app_drain n now f a = (Ok tt, a') → app_tx a' = [].
Proof.
  revert a. induction n as [|n IH]; intros a; cbn [Ui.app_drain]; rewrite bind_getS;
    destruct (ui_tx (app_ui a)) as [|x tx] eqn:Hx; try done; [by intros [= <-]|by intros [= <-]|].
  rewrite bind_modifyS, bind_action. destruct (app_dispatch now f x _) as [[[]|e|] a2]; [apply IH|done|done].
Qed.

Lemma app_handle_no_starve x a r a' : app_handle_action x a = (r, a') → r ≠ Err UiStarved.
Proof.
  unfold app_handle_action. rewrite bind_getS. destruct x; try (by intros [= <- <-]).
  case_decide; [|by intros [= <- <-]]. unfold menu_relative. rewrite bind_getS, bind_action.
  destruct (iadd (as_isize (app_menu a)) _) as [n|e|] eqn:Hi; cbn [lift mbind outcome_bind];
    [|by apply iadd_no_err in Hi|by intros [= <- <-]].
  rewrite bind_modifyS. by repeat case_match; intros [= <- <-].
Qed.

(** Whatever arrives meanwhile, an action is taken for one that waited, was sent
    or answers one of these. *)
Lemma drains_work now f n m a a' : drains now f n m a a' → n + length (app_tx a') <= 4 * (length (app_tx a) + m).
Proof.
  intros Hd. assert (n + work (app_tx a') <= work (app_tx a) + 4 * m) as Hw.
  { induction Hd as [a|a x tx a1 n m a' Hx Hd _ IH|a x n m a' Hx _ IH]; [lia| |].
    - destruct (emits_dispatch now f x _ _ _ Hd) as (l & Hl & Hn & Fl & _). simpl in Hl.
      rewrite Hl, work_app, (work_inert l Fl) in IH. rewrite Hx. unfold work in *. simpl. destruct (external x); lia.
    - simpl in IH. rewrite work_app in IH. pose proof (work_le [x]). simpl in *. lia. }
  pose proof (work_le (app_tx a)). pose proof (work_le (app_tx a')). lia.
Qed.

Lemma bind_getPage {P A} (k : P → pact P A) s : (getPage ≫= k) s = k s.1 s.
Proof. done. Qed.
(** *** Keys whose handler does not return *)

(** The input a page has open *)
Definition open_input (p : Page) : option VimInput :=
  match p with PEmpty t => t | PInfo => None | PTorrentList t => tl_textarea t end.
Definition returns {S A} (m : action S UiError A) : Prop := ∀ s, (m s).1 ≠ Err UiEndless.
Lemma page_returns_bind {S A B} (m : action S UiError A) (f : A → action S UiError B) :
  returns m → (∀ a, returns (f a)) → returns (m ≫= f).
Proof.
  intros Hm Hf s. rewrite bind_action. pose proof (Hm s) as Hs. destruct (m s) as [[a|e|] s1]; [apply Hf|intros [= ->]; by apply Hs|done].
Qed.
Lemma relative_returns t n l :
  match tl_selected t with
  | None => Ok 0%N
  | Some s => n ← iadd (as_isize s) n; Ok (Z.to_N (n mod l))
  end ≠ @Err UiError N UiEndless.
Proof. case_match; [|done]. destruct (iadd _ _) eqn:Hi; [done| |done]. by apply iadd_no_err in Hi. Qed.
Lemma index_returns {A} (l : list A) n : index l n ≠ Err UiEndless.
Proof. unfold index. by destruct (l !! _). Qed.
Ltac returning := repeat (intros; cbv zeta; lazymatch goal with
  | |- returns (_ ≫= _) => apply page_returns_bind
  | |- returns (match ?x with _ => _ end) => destruct x
  | |- returns (lift _) => intros ?; simpl; first [done|apply relative_returns|apply arith_no_err|apply index_returns]
  | |- _ => first [assumption|done]
  end).
Lemma returns_rows i l : returns (draw_rows i l).
Proof. revert i. induction l as [|n l IH]; intros i; cbn [draw_rows]; returning. Qed.
Lemma returns_on_page {P} (w : P → Page) p (m : pact P unit) : returns m → returns (on_page w p m).
Proof. intros Hm a. unfold on_page. pose proof (Hm (p, app_ui a)) as Hp. by destruct (m _) as [r [p' u]]. Qed.
Lemma returns_sink_send m : returns (sink_send m).
Proof. unfold sink_send. returning. Qed.
Lemma returns_page_draw f : returns (page_draw f).
Proof.
  unfold page_draw. apply page_returns_bind; [done|]. intros a. destruct (app_page a); [|done|]; apply returns_on_page; [done|].
  unfold list_draw. pose proof returns_rows. returning.
Qed.
Lemma returns_after {S A B} (m : action S UiError A) (f : A → action S UiError B) s :
  (∀ a, returns (f a)) → ((m ≫= f) s).1 = Err UiEndless → (m s).1 = Err UiEndless.
Proof.
  intros Hf. rewrite bind_action. destruct (m s) as [[a|e|] s1]; [|by intros [= ->]|done]. intros Hx. by apply Hf in Hx.
Qed.
Definition never_returns (i : Input) (v : VimInput) : Prop :=
  ∃ e, (vim_handle_event char_width str_width fuel i v).1 = Err e.
Lemma textarea_endless i v : textarea_event char_width str_width fuel i v = Err UiEndless → never_returns i v.
Proof. unfold textarea_event, never_returns. destruct (vim_handle_event _ _ _ _ _) as [[q|e|] v']; [done|by exists e|done]. Qed.
Lemma empty_endless i t u : (empty_input char_width str_width fuel i (t, u)).1 = Err UiEndless → ∃ v, t = Some v ∧ never_returns i v.
Proof.
  unfold empty_input. intros Hx. rewrite bind_getPage in Hx. cbn [fst] in Hx.
  apply returns_after in Hx; [|unfold empty_quit; returning].
  destruct t as [v|]; [|done]. exists v. split; [done|]. apply textarea_endless.
  apply returns_after in Hx; [exact Hx|intros [[] ?]; returning].
Qed.
Lemma list_endless i t u : (list_input char_width str_width fuel i (t, u)).1 = Err UiEndless → ∃ v, tl_textarea t = Some v ∧ never_returns i v.
Proof.
  unfold list_input. intros Hx. unfold modPage in Hx. rewrite bind_modifyS in Hx.
  apply returns_after in Hx; cycle 1.
  { unfold list_popup_key, list_delete_torrent, list_search_key, list_key, list_next, list_previous, select_relative, all_rendered, list_search.
    returning. }
  unfold list_textarea in Hx. rewrite bind_getPage in Hx. cbn [fst tl_textarea with_popup] in Hx.
  destruct (tl_textarea t) as [v|]; [|done]. exists v. split; [done|]. apply textarea_endless.
  apply returns_after in Hx; [exact Hx|intros [[] ?]; returning].
Qed.
Lemma dispatch_endless now f x a :
  (app_dispatch now f x a).1 = Err UiEndless → ∃ i v, x = AcInput i ∧ open_input (app_page a) = Some v ∧ never_returns i v.
Proof.
  assert (∀ m : aact unit, returns m → (m a).1 = Err UiEndless → ∃ i v, x = AcInput i ∧ open_input (app_page a) = Some v ∧ never_returns i v) as Hret
    by (intros m Hm Hx; by apply Hm in Hx).
  assert ((page_handle_action char_width str_width log10 fuel now x a).1 = Err UiEndless →
    ∃ i v, x = AcInput i ∧ open_input (app_page a) = Some v ∧ never_returns i v) as Hpage.
  { unfold page_handle_action. rewrite bind_getS. destruct (app_page a) as [t| |t] eqn:Hp; cbn [open_input].
    - destruct x as [| | | |i| | | | |[]]; try (apply Hret; by apply returns_on_page). unfold on_page. cbn [empty_handle_action].
      destruct (empty_input _ _ _ _ _) as [r [t' u]] eqn:He. intros Hx. destruct (empty_endless i t (app_ui a)) as (v & Ht & Hv).
      { rewrite He. exact Hx. } by exists i, v.
    - apply Hret. returning.
    - destruct x as [| | | |i| | | | |l]; try (apply Hret; by apply returns_on_page); cbn [list_handle_action].
      + unfold on_page. destruct (list_input _ _ _ _ _) as [r [t' u]] eqn:He. intros Hx. destruct (list_endless i t (app_ui a)) as (v & Ht & Hv).
        { rewrite He. exact Hx. } by exists i, v.
      + apply Hret, returns_on_page. unfold list_states. returning. }
  destruct x; try exact Hpage; apply Hret.
  - apply returns_page_draw.
  - cbn [Ui.app_dispatch]. apply page_returns_bind; [done|]. intros b. apply page_returns_bind; [|done]. destruct (is_detached b); [done|].
    intros c. unfold catch. by destruct (sink_send DmQuit c) as [[]].
  - done.
  - apply returns_sink_send.
  - apply returns_sink_send.
Qed.
Lemma drain_endless n now f a a' :
  app_drain n now f a = (Err UiEndless, a') →
  ∃ k b i tx v, drains now f k 0 a b ∧ app_tx b = AcInput i :: tx ∧ open_input (app_page b) = Some v ∧ never_returns i v.
Proof.
  revert a. induction n as [|n IH]; intros a; cbn [Ui.app_drain]; rewrite bind_getS;
    destruct (ui_tx (app_ui a)) as [|x tx] eqn:Hx; try done.
  rewrite bind_modifyS, bind_action. destruct (app_dispatch now f x _) as [[[]|e|] a2] eqn:Hd; [|intros [= -> <-]|done].
  - intros Ha. destruct (IH a2 Ha) as (k & b & i & tx' & v & Hk & Hb). exists (S k), b, i, tx', v. split; [|exact Hb].
    by eapply drains_takes.
  - destruct (dispatch_endless now f x (with_page (app_page a) (with_tx tx (app_ui a)) a)) as (i & v & -> & Hv); [by rewrite Hd|].
    exists 0, a, i, tx, v. split; [constructor|]. split; [done|exact Hv].
Qed.
Lemma turn_endless now f x a a' :
  app_turn now f x a = (Err UiEndless, a') →
  ∃ a1 n b i tx v, app_handle_action x a = (Ok tt, a1) ∧ drains now f n 0 (app_push x a1) b ∧
    app_tx b = AcInput i :: tx ∧ open_input (app_page b) = Some v ∧ never_returns i v.
Proof.
  unfold Ui.app_turn. rewrite bind_action. destruct (app_handle_action x a) as [[[]|e|] a1] eqn:Hh; [|intros [= -> <-]|done].
  - rewrite bind_modifyS, bind_getS, bind_action. destruct (app_drain _ now f (app_push x a1)) as [[[]|e|] a3] eqn:Hd; [|intros [= -> <-]|done].
    + rewrite bind_getS. unfold sink_send. destruct (should_quit a3); [|done]. rewrite bind_action, bind_getS. by destruct (app_connected a3).
    + destruct (drain_endless _ _ _ _ _ Hd) as (n & b & i & tx & v & Hn). by exists a1, n, b, i, tx, v.
  - exfalso. assert (returns (app_handle_action x)) as Hr by (unfold app_handle_action, menu_relative; 
      returning; intros ?; simpl; destruct (iadd _ _) eqn:Hi; [done|by apply iadd_no_err in Hi|done]).
    apply (Hr a). by rewrite Hh.
Qed.
(** A key that is an edit returns. *)
Lemma edits_return i v t :
  never_returns i v → editable char_width v t fuel → mode v = Insert → visible v →
  ∃ c, key i = KChar c ∧ ¬ (1 <= char_width c <= chars_per_line v)%N.
Proof.
  intros [e Hn] He Hm Hv. destruct (decide (key i = KEsc)) as [Hk|Hk].
  { unfold vim_handle_event, transition in Hn. rewrite bind_action, bind_getS, Hm, Hk in Hn. simpl in Hn.
    unfold handle_insert_mode in Hn. by rewrite Hk in Hn. }
  assert ((∀ c, key i = KChar c → 1 <= char_width c <= chars_per_line v)%N → False) as Hf.
  { intros Hw. destruct (vim_edit char_width str_width v t fuel i He Hm Hk Hv Hw) as (v' & Hr & _). by rewrite Hr in Hn. }
  destruct (key i) as [c| | | | | | | | | | | | | | | | | | | | |]; try (destruct Hf; by intros ? [=]).
  exists c. split; [done|]. intros Hw. apply Hf. by intros ? [= <-].
Qed.
(** C36. A turn of the frontend's loop ends.  Whatever the daemon sends meanwhile,
    it takes at most four actions for each that waits or is sent; so the loop
    over the channel ends unless the daemon sends without end, and the turn never
    takes more than it counts on.  When it goes on, no action is left of those
    that waited.  The one way it does not end is a key whose handler never
    returns, which takes an open input: while the input is being edited as it was
    drawn ([editable]), the key is a character without a width or wider than the
    area. *)
Theorem ui_turns_end now f x a :
  (∀ n m b b', drains now f n m b b' → n + length (ui_tx (app_ui b')) <= 4 * (length (ui_tx (app_ui b)) + m)) ∧
  (∀ r a', app_turn now f x a = (r, a') → r ≠ Err UiStarved ∧ (r = Ok false → ui_tx (app_ui a') = [])) ∧
  (∀ a', app_turn now f x a = (Err UiEndless, a') →
    ∃ a1 n b i tx v, app_handle_action x a = (Ok tt, a1) ∧ drains now f n 0 (app_push x a1) b ∧
      ui_tx (app_ui b) = AcInput i :: tx ∧ open_input (app_page b) = Some v ∧
      (∃ e, (vim_handle_event char_width str_width fuel i v).1 = Err e) ∧
      ∀ t, editable char_width v t fuel → mode v = Insert → visible v →
        ∃ c, key i = KChar c ∧ ¬ (1 <= char_width c <= chars_per_line v)%N).
Proof.
  split; [apply drains_work|]. split; cycle 1.
  { intros a' (a1 & n & b & i & tx & v & Ha & Hd & Hb & Hv & Hn)%turn_endless. exists a1, n, b, i, tx, v.
    split_and!; [done..|]. intros t. by apply edits_return. }
  intros r a' Ht. unfold app_turn in Ht. rewrite bind_action in Ht.
  destruct (app_handle_action x a) as [[[]|e|] a1] eqn:Hh;
    [|injection Ht as <- <-; split; [|done]; intros [= ->]; by eapply app_handle_no_starve|by injection Ht as <- <-].
  rewrite bind_modifyS, bind_getS, bind_action in Ht. set (a2 := app_push x a1) in Ht.
  destruct (app_drain (drain_fuel a2) now f a2) as [rd a3] eqn:Hd.
  assert (rd ≠ Err UiStarved) as Hne.
  { pose proof (drain_ends (drain_fuel a2) now f a2) as He. rewrite Hd in He. apply He. unfold drain_fuel. apply work_le. }
  destruct rd as [[]|e|]; [|injection Ht as <- <-; split; [|done]; by intros [= ->]|by injection Ht as <- <-].
  rewrite bind_getS in Ht. unfold sink_send in Ht. destruct (should_quit a3).
  - rewrite bind_action, bind_getS in Ht. destruct (app_connected a3); by injection Ht as <- <-.
  - injection Ht as <- <-. split; [done|]. intros _. by eapply drain_empties.
Qed.

(** ** Quitting *)

Definition goes_on : relation App := fun a a' =>
  is_detached a' = is_detached a ∧ app_connected a' = app_connected a ∧
  (should_quit a = true → should_quit a' = true) ∧ (∀ m, m ∈ app_sent a → m ∈ app_sent a').
#[local] Instance goes_on_preorder : PreOrder goes_on.
Proof.
  split; [by intros a|]. intros a b c (Hd & Hc & Hq & Hs) (Hd' & Hc' & Hq' & Hs').
  split_and!; [congruence|congruence|auto|auto].
Qed.
Ltac goes_step := intros; split_and!; simpl; auto; intros; apply elem_of_app; auto.
Lemma goes_sink_send m : keeps goes_on (sink_send m).
Proof. unfold sink_send. keep goes_step. Qed.
Lemma goes_on_page {P} (w : P → Page) p (m : pact P unit) : keeps goes_on (on_page w p m).
Proof.
  intros a r a' Hr _. unfold on_page in Hr. destruct (m (p, app_ui a)) as [r' [p' u]].
  by injection Hr as <- <-.
Qed.
#[local] Hint Resolve goes_sink_send goes_on_page : keeps.
Lemma goes_dispatch now f x : keeps goes_on (app_dispatch now f x).
Proof. unfold app_dispatch, page_draw, page_handle_action. destruct x; keep goes_step. Qed.
#[local] Hint Resolve goes_dispatch : keeps.
Lemma goes_drain n now f : keeps goes_on (app_drain n now f).
Proof. induction n as [|n IH]; cbn [Ui.app_drain]; keep goes_step; apply IH. Qed.

(** The loop is told to end, and so is the daemon unless it runs apart. *)
Definition quitting (a : App) : Prop :=
  should_quit a = true ∧ (is_detached a = false → app_connected a = true → DmQuit ∈ app_sent a).
Lemma quitting_stays a a' : goes_on a a' → quitting a → quitting a'.
Proof. intros (Hd & Hc & Hq & Hs) [Q1 Q2]. split; [auto|]. rewrite Hd, Hc. auto. Qed.
Lemma dispatch_quit now f a r a' : app_dispatch now f AcQuit a = (r, a') → quitting a'.
Proof.
  cbn [Ui.app_dispatch]. rewrite bind_getS, bind_action. destruct (is_detached a) eqn:Hd.
  - intros [= <- <-]. split; [done|]. simpl. congruence.
  - unfold catch, sink_send. rewrite bind_getS. destruct (app_connected a) eqn:Hc; intros [= <- <-].
    + split; [done|]. intros _ _. simpl. apply elem_of_app. right. by left.
    + split; [done|]. simpl. congruence.
Qed.
Lemma drain_quits n now f a a' :
  app_drain n now f a = (Ok tt, a') → quitting a ∨ AcQuit ∈ app_tx a → quitting a'.
Proof.
  revert a. induction n as [|n IH]; intros a; cbn [Ui.app_drain]; rewrite bind_getS;
    destruct (ui_tx (app_ui a)) as [|x tx] eqn:Hx; try done.
  1-2: intros [= <-] [|Hin]; [done|by apply elem_of_nil in Hin].
  rewrite bind_modifyS, bind_action. set (a1 := with_page _ _ a).
  destruct (app_dispatch now f x a1) as [[[]|e|] a2] eqn:Hd; [|done|done].
  intros Hr Hq. apply (IH a2 Hr). destruct Hq as [Hq|Hin].
  - left. eapply (quitting_stays a1); [by eapply goes_dispatch|exact Hq].
  - apply elem_of_cons in Hin as [<-|Hin]; [left; by eapply dispatch_quit|right].
    destruct (emits_dispatch now f x _ _ _ Hd) as (l & -> & _). simpl. apply elem_of_app. by left.
Qed.
Lemma handle_keeps x a a' :
  app_handle_action x a = (Ok tt, a') → goes_on a a' ∧ ∃ l, app_tx a' = app_tx a ++ l.
Proof.
  intros Hr. split.
  { assert (keeps goes_on (app_handle_action x)) as Hk by (unfold app_handle_action, menu_relative; keep goes_step).
    by eapply Hk. }
  unfold app_handle_action in Hr. rewrite bind_getS in Hr.
  destruct x; try (injection Hr as <-; exists []; by rewrite app_nil_r).
  case_decide; [|injection Hr as <-; exists []; by rewrite app_nil_r].
  unfold menu_relative in Hr. rewrite bind_getS, bind_action in Hr.
  destruct (iadd (as_isize (app_menu a)) _) as [n| |]; cbn [lift mbind outcome_bind] in Hr; try done.
  rewrite bind_modifyS in Hr.
  destruct (Z.to_N (n mod TITLES_LEN)) as [|[]]; injection Hr as <-; try (by eexists); exists []; by rewrite app_nil_r.
Qed.

(** C37. When the terminal or the daemon asks to quit, the loop is over with the
    turn: its last message tells the daemon that the frontend is gone, and the
    daemon is told to quit too unless the frontend is detached from it.  With
    nothing else waiting and the daemon connected, the turn does end so. *)
Theorem ui_quits now f x a :
  (∀ b a', app_turn now f x a = (Ok b, a') → x = AcQuit ∨ AcQuit ∈ app_tx a →
    b = true ∧ last (app_sent a') = Some DmFrontendQuit ∧ (is_detached a = false → DmQuit ∈ app_sent a')) ∧
  (app_tx a = [] → app_connected a = true → ∃ a', app_turn now f AcQuit a = (Ok true, a') ∧
    app_sent a' = app_sent a ++ (if is_detached a then [] else [DmQuit]) ++ [DmFrontendQuit]).
Proof.
  split.
  - intros b a' Ht Hq. unfold app_turn in Ht. rewrite bind_action in Ht.
    destruct (app_handle_action x a) as [[[]|e|] a1] eqn:Hh; [|done|done].
    destruct (handle_keeps _ _ _ Hh) as [(Hd1 & Hc1 & _ & _) (l & Hl)].
    rewrite bind_modifyS, bind_getS, bind_action in Ht. set (a2 := app_push x a1) in Ht.
    destruct (app_drain (drain_fuel a2) now f a2) as [[[]|e|] a3] eqn:Hd; [|done|done].
    assert (quitting a3) as [Q1 Q2].
    { eapply drain_quits; [exact Hd|]. right. simpl. rewrite Hl. destruct Hq as [-> |Hin]; set_solver. }
    destruct (goes_drain _ _ _ _ _ _ Hd ltac:(done)) as (Hd3 & Hc3 & _ & _). simpl in Hd3, Hc3.
    rewrite bind_getS, Q1 in Ht. unfold sink_send in Ht. rewrite bind_action, bind_getS in Ht.
    destruct (app_connected a3) eqn:Hc; [|done]. injection Ht as <- <-. split_and!; [done|apply last_snoc|].
    intros Hnd. simpl. apply elem_of_app. left. apply Q2; congruence.
  - intros Hx Hc. destruct a as [det quit page [dim net tx] menu conn listen sent]. simpl in Hx, Hc. subst tx conn.
    destruct det; eexists; (split; [reflexivity|]); simpl; by rewrite <- ?app_assoc.
Qed.

(** In no run does the frontend send the daemon anything but links to add,
    torrents to delete and that it quits: a torrent is never paused from it.
    The key that pauses the active torrent sends an action that no page handles,
    and leaves the frontend as it was. *)
Theorem ui_never_pauses :
  (∀ es detached tx r a, ui_run es (App_new detached tx) = (r, a) → r ≠ Panic → Forall sendable (app_sent a)) ∧
  (∀ now f a t h i, app_page a = PTorrentList t → tl_textarea t = None → delete_popup t = None →
    search_status t = Moving → active_torrent t = Some h → app_tx a = [] → should_quit a = false →
    key i = KChar 112 → app_turn now f (AcInput i) a = (Ok false, a)).
Proof.
  split.
  - intros es detached tx r a Hr Hp. destruct (keeps_run es _ _ _ Hr Hp) as (l & -> & Hl). exact Hl.
  - intros now f [det quit page [dim net tx] menu conn listen sent] t h i Hp Ht Hpop Hst Hact Htx Hq Hk.
    destruct t, i as [k c al sh]. simpl in *. subst. reflexivity.
Qed.

(** Outside of the first page, Tab and Shift+Tab go to the other title of the
    menu and open its page afresh, whatever the page was, and change nothing
    else; on the first page they change nothing. *)
Theorem ui_tab now f i a :
  key i = KTab → app_tx a = [] → should_quit a = false → (app_menu a < 2)%N →
  (page_id (app_page a) ≠ PgEmpty →
    app_turn now f (AcInput i) a = (Ok false,
      with_menu (1 - app_menu a) (with_page (new_page (if decide (app_menu a = 0%N) then PgInfo else PgTorrentList)) (app_ui a) a))) ∧
  (app_page a = PEmpty None → app_turn now f (AcInput i) a = (Ok false, a)).
Proof.
  intros Hk Hx Hq Hm. destruct i as [k c al sh], a as [det quit page [dim net tx] menu conn listen sent]. simpl in *. subst.
  split; [intros Hp|by intros ->]. assert (menu = 0 ∨ menu = 1)%N as [-> | ->] by lia; destruct page; try done; by destruct sh.
Qed.

(** ** The list of torrents *)

Lemma bind_modPage {P A} (g : P → P) (k : () → pact P A) s : (modPage g ≫= k) s = k tt (g s.1, s.2).
Proof. done. Qed.
Lemma bind_modUi {P A} (g : Ui → Ui) (k : () → pact P A) s : (modUi g ≫= k) s = k tt (s.1, g s.2).
Proof. done. Qed.
Lemma bind_send {P A} x (k : () → pact P A) s : (send x ≫= k) s = k tt (s.1, ui_send x s.2).
Proof. done. Qed.

Section list.
Abbreviation list_handle := (list_handle_action char_width str_width log10 fuel).

(** What happens to the list: actions, and drawings *)
Inductive list_step : relation (TorrentList * Ui) :=
  | list_acts now x s r s' : list_handle now x s = (r, s') → r ≠ Panic → list_step s s'
  | list_draws f s s' : list_draw f s = (Ok tt, s') → list_step s s'.

(** Without a search all torrents are shown. *)
Definition shown (t : TorrentList) : Prop :=
  search t = [] → rendered_torrent_infos t = range (len (torrent_infos t)).
Definition shown_keeps : relation (TorrentList * Ui) := fun s s' => shown s.1 → shown s'.1.
#[local] Instance shown_keeps_preorder : PreOrder shown_keeps.
Proof. split; [intros s Hs; exact Hs|]. intros s1 s2 s3 H1 H2 Hs. auto. Qed.

Lemma matching_nil l : matching [] l = range (len l).
Proof.
  apply filter_all. intros i Hi%elem_of_range. destruct (lookup_lt_is_Some_2 l (N.to_nat i)) as [t ->]; [unfold len in Hi; lia|].
  unfold starts_with. by rewrite bool_decide_eq_true_2.
Qed.
Ltac shown_step := intros; unfold shown_keeps, shown in *; simpl in *; auto.
Ltac keep_page := unfold getPage, send, modUi, modPage; keep shown_step.
Lemma shown_select n : keeps shown_keeps (select_relative n).
Proof. unfold select_relative. keep_page. Qed.
Lemma shown_all : keeps shown_keeps all_rendered.
Proof. unfold all_rendered. keep_page. Qed.
#[local] Hint Resolve shown_select shown_all : keeps.
Lemma shown_textarea i : keeps shown_keeps (list_textarea char_width str_width fuel i).
Proof. unfold list_textarea. keep_page. Qed.
Lemma shown_popup i : keeps shown_keeps (list_popup_key i).
Proof. unfold list_popup_key, list_delete_torrent. keep_page. Qed.
Lemma shown_key i : keeps shown_keeps (list_key i).
Proof. unfold list_key, list_next, list_previous. keep_page. Qed.
Lemma shown_search_key i s r s' :
  list_search_key i s = (r, s') → r ≠ Panic → search_status s.1 = Typing → shown s.1 → shown s'.1.
Proof.
  destruct s as [t u]. simpl. intros Hr Hp Ht Hs. unfold list_search_key in Hr. destruct (key i); try (by injection Hr as <- <-).
  - injection Hr as <- <-. unfold shown. simpl. rewrite Ht. simpl. intros Hc. by apply app_eq_nil in Hc as [_ ?].
  - injection Hr as <- <-. unfold shown. simpl. rewrite Ht. simpl. intros ->. apply matching_nil.
  - assert (keeps shown_keeps (modPage (fun t => with_search (search t) Moving t) ≫= fun _ => list_next)) as Hk
      by (unfold list_next; keep_page).
    eapply (Hk (t, u)); [exact Hr|done|done].
Qed.
Lemma shown_input i s r s' :
  list_input char_width str_width fuel i s = (r, s') → r ≠ Panic → shown s.1 → shown s'.1.
Proof.
  unfold list_input. rewrite bind_modPage, bind_action. set (s1 := (_, _)). intros Hr Hp Hs.
  assert (shown s1.1) as Hs1 by exact Hs. clearbody s1.
  destruct (list_textarea _ _ _ i s1) as [[over|e|] s2] eqn:Ht; [|injection Hr as <- <-; by eapply (shown_textarea _ _ _ _ Ht)|by injection Hr as <- _].
  assert (shown s2.1) as Hs2 by (by eapply (shown_textarea _ _ _ _ Ht)). destruct over; [by injection Hr as <- <-|].
  rewrite bind_getPage in Hr. repeat case_decide.
  - by eapply (shown_popup _ _ _ _ Hr).
  - assert (keeps shown_keeps (all_rendered ≫= fun _ => modPage (with_search [] Moving))) as Hk; [|by eapply Hk].
    intros x y z [= <- <-] _ _. by unfold shown.
  - by eapply shown_search_key.
  - destruct (tl_textarea s2.1) as [v|]; [|by eapply (shown_key _ _ _ _ Hr)].
    assert (s'.1 = s2.1) as ->; [|done]. destruct (key i), (submitted v); by injection Hr as <- <-.
Qed.
Lemma shown_draw_rows i l : keeps shown_keeps (draw_rows i l).
Proof. revert i. induction l as [|n l IH]; intros i; cbn [draw_rows]; keep_page; apply IH. Qed.
#[local] Hint Resolve shown_draw_rows : keeps.
Lemma shown_draw f : keeps shown_keeps (list_draw f).
Proof. unfold list_draw. keep_page. Qed.
Lemma shown_step s s' : list_step s s' → shown s.1 → shown s'.1.
Proof.
  intros [now x s1 r s1' Hr Hp|f s1 s1' Hd] Hs; [|by eapply (shown_draw _ _ _ _ Hd)].
  destruct x; cbn [list_handle_action] in Hr; try (by injection Hr as <- <-); [by eapply shown_input|].
  destruct s1 as [t u]. unfold list_states in Hr. rewrite bind_getPage in Hr.
  case_decide as Hd; injection Hr as <- <-; unfold shown; simpl; [done|]. intros He. by destruct Hd.
Qed.
Lemma shown_reached u s : rtc list_step (TorrentList_new, u) s → shown s.1.
Proof.
  intros Hr. assert (shown (TorrentList_new, u).1) as H0 by done. induction Hr as [|a b c Hs _ IH]; [done|].
  apply IH. by eapply shown_step.
Qed.

(** *** Drawing *)

(** Every row is that of a torrent. *)
Definition rows_ok (t : TorrentList) : Prop :=
  Forall (fun n => n < len (torrent_infos t))%N (rendered_torrent_infos t).
(** The steps in which no torrent disappears while names are searched *)
Inductive gentle_step : relation (TorrentList * Ui) :=
  | gentle_acts now x s r s' :
      list_handle now x s = (r, s') → r ≠ Panic →
      match x with AcTorrentStates l => search s.1 = [] ∨ (len (torrent_infos s.1) <= len l)%N | _ => True end →
      gentle_step s s'
  | gentle_draws f s s' : list_draw f s = (Ok tt, s') → gentle_step s s'.

Lemma rows_range l : Forall (fun n => n < len l)%N (range (len (A:=TorrentState) l)).
Proof. apply Forall_forall. intros n. by rewrite elem_of_range. Qed.
Lemma rows_matching q l : Forall (fun n => n < len l)%N (matching q l).
Proof. apply Forall_forall. intros n Hn%list_elem_of_filter. destruct Hn as [_ Hn]. by apply elem_of_range. Qed.
#[local] Hint Resolve rows_range rows_matching : core.

Definition rows_keep : relation (TorrentList * Ui) := fun s s' => rows_ok s.1 → rows_ok s'.1.
#[local] Instance rows_keep_preorder : PreOrder rows_keep.
Proof. split; [intros s Hs; exact Hs|]. intros s1 s2 s3 H1 H2 Hs. auto. Qed.
Ltac keep_rows := unfold getPage, send, modUi, modPage; keep ltac:(intros; unfold rows_keep, rows_ok in *; simpl in *; auto).
Lemma rows_select n : keeps rows_keep (select_relative n).
Proof. unfold select_relative. keep_rows. Qed.
Lemma rows_all : keeps rows_keep all_rendered.
Proof. unfold all_rendered. keep_rows. Qed.
Lemma rows_search : keeps rows_keep list_search.
Proof. unfold list_search. keep_rows. case_match; simpl; auto. Qed.
Lemma rows_textarea i : keeps rows_keep (list_textarea char_width str_width fuel i).
Proof. unfold list_textarea. keep_rows. Qed.
#[local] Hint Resolve rows_select rows_all rows_search rows_textarea : keeps.
Lemma rows_key i : keeps rows_keep (list_key i).
Proof. unfold list_key, list_next, list_previous. keep_rows. Qed.
#[local] Hint Resolve rows_key : keeps.
Lemma rows_input i : keeps rows_keep (list_input char_width str_width fuel i).
Proof.
  unfold list_input, list_popup_key, list_delete_torrent, list_search_key, list_next. keep_rows.
Qed.
Lemma rows_draw_rows i l : keeps rows_keep (draw_rows i l).
Proof. revert i. induction l as [|n l IH]; intros i; cbn [draw_rows]; keep_rows; apply IH. Qed.
#[local] Hint Resolve rows_draw_rows : keeps.
Lemma rows_draw f : keeps rows_keep (list_draw f).
Proof. unfold list_draw. keep_rows. Qed.
Lemma rows_step s s' : gentle_step s s' → rows_ok s.1 → rows_ok s'.1.
Proof.
  intros [now x s1 r s1' Hr Hp Hx|f s1 s1' Hd] Hs; [|by eapply (rows_draw _ _ _ _ Hd)].
  destruct x; cbn [list_handle_action] in Hr; try (by injection Hr as <- <-); [by eapply (rows_input _ _ _ _ Hr)|].
  destruct s1 as [t u]. unfold list_states in Hr. rewrite bind_getPage in Hr. simpl in Hx, Hs.
  case_decide as Hd; injection Hr as <- <-; unfold rows_ok in *; simpl in *; [auto|].
  destruct Hx as [|Hx]; [done|]. eapply Forall_impl; [exact Hs|]. simpl. lia.
Qed.

(** The torrent of the selected row, from row [j] on, becomes the active one. *)
Definition row_active (j : N) (l : list N) (t : TorrentList) : option InfoHash :=
  match tl_selected t with
  | Some i =>
      if decide (j <= i)%N then
        match l !! N.to_nat (i - j) with
        | Some n => match torrent_infos t !! N.to_nat n with Some s => Some (ts_info_hash s) | None => active_torrent t end
        | None => active_torrent t
        end
      else active_torrent t
  | None => active_torrent t
  end.
Lemma draw_rows_ok j l t u :
  Forall (fun n => n < len (torrent_infos t))%N l →
  draw_rows j l (t, u) = (Ok tt, (with_active (row_active j l t) t, u)).
Proof.
  intros Hl. revert j t Hl. induction l as [|n l IH]; intros j t Hl; unfold row_active.
  { destruct t as [? ? ? ? ? ? []]; simpl; [|done]. by destruct (decide _). }
  inversion_clear Hl as [|?? Hn Hl']. cbn [draw_rows]. rewrite bind_getPage. simpl fst.
  destruct (lookup_lt_is_Some_2 (torrent_infos t) (N.to_nat n)) as [s Hs]; [unfold len in Hn; lia|].
  erewrite bind_lift by (unfold index; by rewrite Hs). rewrite bind_action. case_decide as Hj.
  - unfold modPage, modifyS. simpl fst. simpl snd. rewrite (IH (j + 1)%N (with_active (Some (ts_info_hash s)) t)) by done.
    unfold row_active. cbn [tl_selected active_torrent with_active]. rewrite Hj, (decide_False (P := (j + 1 <= j)%N)) by lia.
    rewrite decide_True by lia. replace (N.to_nat (j - j)) with 0 by lia. cbn [lookup list_lookup]. by rewrite Hs.
  - cbn [mret action_ret]. rewrite IH by done. do 3 f_equal. unfold row_active.
    destruct (tl_selected t) as [i|]; [|done]. destruct (decide (j <= i)%N).
    + assert (i ≠ j) by congruence. rewrite decide_True by lia.
      by replace (N.to_nat (i - j)) with (S (N.to_nat (i - (j + 1)))) by lia.
    + by rewrite decide_False by lia.
Qed.
Lemma draw_rows_panics i l t u :
  Exists (fun n => len (torrent_infos t) <= n)%N l → (draw_rows i l (t, u)).1 = Panic.
Proof.
  intros Hl. revert i t Hl. induction l as [|n l IH]; intros i t Hl; [by inversion Hl|].
  cbn [draw_rows]. rewrite bind_getPage. simpl fst. rewrite bind_action. unfold index, lift.
  destruct (torrent_infos t !! N.to_nat n) as [s|] eqn:Hs; [|done]. cbn [or_panic].
  apply lookup_lt_Some in Hs. assert (Exists (fun n => len (torrent_infos t) <= n)%N l) as Hl'.
  { inversion Hl; [unfold len in *; lia|done]. }
  rewrite bind_action. case_decide; [|by apply IH]. unfold modPage, modifyS. simpl fst. simpl snd. by apply IH.
Qed.

Lemma list_draw_rows f t u : (list_draw f (t, u)).1 ≠ Panic → rows_ok t.
Proof.
  unfold list_draw. rewrite bind_getPage, bind_action. simpl fst. intros Hd.
  destruct (decide (rows_ok t)) as [|Hno]; [done|]. apply not_Forall_Exists in Hno; [|apply _].
  pose proof (draw_rows_panics 0 (rendered_torrent_infos t) t u) as Hpan.
  assert ((draw_rows 0 (rendered_torrent_infos t) (t, u)).1 = Panic) as Hp.
  { apply Hpan. eapply Exists_impl; [exact Hno|]. simpl. lia. }
  by destruct (draw_rows 0 _ (t, u)) as [[] s'].
Qed.

(** C38. Drawing the list never panics, in any run in which no torrent disappears
    while names are searched.  If one does, and a row shown has its place past
    the end of the new list, the next drawing panics. *)
Theorem ui_draw_safe u s :
  (rtc gentle_step (TorrentList_new, u) s → ∀ f, ∃ s', list_draw f s = (Ok tt, s')) ∧
  (∀ now l f, search s.1 ≠ [] → Exists (fun n => len l <= n)%N (rendered_torrent_infos s.1) →
    ((list_handle now (AcTorrentStates l) ≫= fun _ => list_draw f) s).1 = Panic).
Proof.
  split.
  - intros Hr f. assert (rows_ok s.1) as Hok.
    { assert (rows_ok (TorrentList_new, u).1) as H0 by constructor.
      induction Hr as [|a b c Hs _ IH]; [done|]. apply IH. by eapply rows_step. }
    destruct s as [t u']. unfold list_draw. rewrite bind_getPage, bind_action. simpl fst.
    rewrite (draw_rows_ok 0 (rendered_torrent_infos t) t u' Hok), bind_modPage, bind_getS.
    repeat (case_match; simplify_eq/=); by eexists.
  - intros now l f Hs Hl. destruct s as [t u']. simpl in *.
    set (t1 := with_infos l (tick_charts log10 now l (network_charts t)) t).
    assert (list_states log10 now l (t, u') = (Ok tt, (t1, u'))) as Hst.
    { unfold list_states. rewrite bind_getPage. simpl fst. by rewrite decide_False by done. }
    rewrite bind_action, Hst.
    assert ((list_draw f (t1, u')).1 ≠ Panic → False) as Hno; [|by destruct (list_draw f (t1, u')).1 in *; try (exfalso; by apply Hno)].
    intros Hno. apply list_draw_rows in Hno. exfalso. apply Exists_exists in Hl as (n & Hn & Hlt).
    eapply Forall_forall in Hno; [|exact Hn]. simpl in Hno. lia.
Qed.

(** *** Deleting *)

(** A list widget that has the selected row leaves it selected. *)
Definition steady (f : Frame) : Prop := ∀ n i, (i < N.of_nat n)%N → fr_list f n (Some i) = Some i.
(** What happens while the popup waits: other keys, drawings, and news of the
    same torrents *)
Definition names (l : list TorrentState) : list (InfoHash * list N) := (fun s => (ts_info_hash s, ts_name s)) <$> l.
Inductive waits : relation (TorrentList * Ui) :=
  | waits_key now i s s' :
      key i ≠ KEnter → key i ≠ KEsc → list_handle now (AcInput i) s = (Ok tt, s') → waits s s'
  | waits_draw f s s' : steady f → list_draw f s = (Ok tt, s') → waits s s'
  | waits_states now l s s' :
      names l = names (torrent_infos s.1) → list_handle now (AcTorrentStates l) s = (Ok tt, s') → waits s s'.

(** The popup names the torrent that is active. *)
Definition named (title : list N) (t : TorrentList) : Prop :=
  ∃ i n st p, tl_selected t = Some i ∧ rendered_torrent_infos t !! N.to_nat i = Some n ∧
    torrent_infos t !! N.to_nat n = Some st ∧ ts_name st = title ∧ active_torrent t = Some (ts_info_hash st) ∧
    delete_popup t = Some p ∧ cp_title p = title ∧ tl_textarea t = None ∧ shown t.

Lemma names_lookup l l' n st :
  names l' = names l → l !! n = Some st → ∃ st', l' !! n = Some st' ∧ ts_info_hash st' = ts_info_hash st ∧ ts_name st' = ts_name st.
Proof.
  intros Hn Hl. assert (names l' !! n = Some (ts_info_hash st, ts_name st)) as Hl'.
  { rewrite Hn. unfold names. by rewrite list_lookup_fmap, Hl. }
  unfold names in Hl'. rewrite list_lookup_fmap in Hl'. apply fmap_Some in Hl' as (st' & -> & [= -> ->]). by eexists.
Qed.

Lemma draw_names title f t u s' :
  steady f → list_draw f (t, u) = (Ok tt, s') → named title t → named title s'.1 ∧ delete_popup s'.1 = delete_popup t ∧ s'.2 = u.
Proof.
  intros Hf Hd (i & n & st & p & Hi & Hn & Hst & Hname & Hact & Hp & Htitle & Htx & Hsh).
  assert (rows_ok t) as Hok by (apply (list_draw_rows f t u); by rewrite Hd).
  unfold list_draw in Hd. rewrite bind_getPage, bind_action in Hd. simpl fst in Hd.
  rewrite (draw_rows_ok 0 (rendered_torrent_infos t) t u Hok), bind_modPage, bind_getS in Hd.
  unfold row_active in Hd. rewrite Hi, decide_True, N.sub_0_r, Hn, Hst in Hd by lia. simpl in Hd.
  rewrite Hi, Hf, Hp in Hd by (apply lookup_lt_Some in Hn; lia).
  assert (s' = (with_selected (Some i) (scroll t) (with_active (Some (ts_info_hash st)) t), u)) as ->.
  { by repeat case_match; injection Hd as <-. }
  split; [|done]. by exists i, n, st, p.
Qed.

Lemma popup_input i t u p :
  delete_popup t = Some p → tl_textarea t = None →
  list_input char_width str_width fuel i (t, u) = list_popup_key i (with_popup (Some (popup_handle_event i p)) t, u).
Proof.
  intros Hp Ht. unfold list_input. rewrite bind_modPage, bind_action. simpl fst. simpl snd. rewrite Hp.
  unfold list_textarea. rewrite bind_getPage. simpl. rewrite Ht.
  cbn [mret action_ret]. rewrite bind_getPage. simpl fst. by rewrite decide_True by by eexists.
Qed.
Lemma popup_title i p : cp_title (popup_handle_event i p) = cp_title p.
Proof. unfold popup_handle_event. by case_decide. Qed.

Lemma waits_named title s s' :
  waits s s' → named title s.1 → named title s'.1 ∧ s'.2 = s.2.
Proof.
  intros [now i [t u] s1 He Hx Hr|f [t u] s1 Hf Hd|now l [t u] s1 Hl Hr]; [intros Hn|intros Hn..].
  - destruct Hn as (k & n & st & p & ? & ? & ? & ? & ? & Hp & ? & Ht & ?).
    cbn [list_handle_action] in Hr. rewrite (popup_input i t u p Hp Ht) in Hr.
    assert (s1 = (with_popup (Some (popup_handle_event i p)) t, u)) as ->.
    { unfold list_popup_key in Hr. destruct (key i); try done; by injection Hr as <-. }
    split; [|done]. exists k, n, st, (popup_handle_event i p). split_and!; try done. by rewrite popup_title.
  - by destruct (draw_names title f t u s1 Hf Hd Hn) as (? & _ & ?).
  - destruct Hn as (k & n & st & p & ? & Hk & Hst & ? & ? & ? & ? & ? & Hsh).
    cbn [list_handle_action] in Hr. unfold list_states in Hr. rewrite bind_getPage in Hr. simpl in Hl, Hr.
    destruct (names_lookup _ _ _ _ Hl Hst) as (st' & Hst' & Hh & Hnm). simpl in *.
    assert (len l = len (torrent_infos t)) as Hlen.
    { unfold len. f_equal. apply (f_equal length) in Hl. unfold names in Hl. by rewrite !length_fmap in Hl. }
    case_decide as Hs; injection Hr as <-; (split; [|done]); exists k, n, st', p; simpl;
      (split_and!; try done; try congruence; try (unfold shown; simpl; congruence)).
    rewrite Hlen. by rewrite <- (Hsh Hs).
Qed.

Lemma confirm_deletes title now i t u :
  named title t → key i = KEnter →
  ∃ st p s', st ∈ torrent_infos t ∧ ts_name st = title ∧ delete_popup t = Some p ∧
    list_handle now (AcInput i) (t, u) = (Ok tt, s') ∧
    ui_tx s'.2 = ui_tx u ++ [AcDeleteTorrent (ts_info_hash st) (also_delete_from_disk p)] ∧ delete_popup s'.1 = None ∧
    should_dim s'.2 = false.
Proof.
  intros (k & n & st & p & Hk & ? & Hst & ? & Ha & Hp & ? & Ht & ?) Hi. exists st, p.
  eexists. split; [by eapply list_elem_of_lookup_2|]. split; [done|]. split; [done|]. split.
  { cbn [list_handle_action]. rewrite (popup_input i t u p Hp Ht). unfold list_popup_key. rewrite Hi.
    unfold list_delete_torrent. rewrite bind_action, bind_getPage. simpl. rewrite Hk, Ha. reflexivity. }
  simpl. split; [|done]. unfold popup_handle_event. by rewrite decide_False by (rewrite Hi; done).
Qed.

(** A list on which keys are pressed: no popup, input or search is open. *)
Definition idle (t : TorrentList) : Prop := tl_textarea t = None ∧ delete_popup t = None ∧ search_status t = Moving.
Lemma idle_input i t u :
  idle t → key i ≠ KEsc → list_input char_width str_width fuel i (t, u) = list_key i (t, u).
Proof.
  intros (Ht & Hp & Hm) Hk. unfold list_input. rewrite bind_modPage, bind_action. simpl. rewrite Hp. simpl.
  assert (with_popup None t = t) as -> by (destruct t; simpl in *; by subst).
  unfold list_textarea. rewrite bind_getPage. simpl. rewrite Ht. cbn [mret action_ret]. rewrite bind_getPage. simpl.
  rewrite Hp, Hm, Ht. rewrite !decide_False; [done|done|by intros [_ ?]|by intros [? ?]].
Qed.
Lemma popup_opens now d t u st :
  idle t → key d = KChar 100 → selected_info t = Some st →
  list_handle now (AcInput d) (t, u) = (Ok tt, (with_popup (Some (ConfirmPopup_new (ts_name st))) t, with_dim true u)).
Proof.
  intros Hi Hd Hs. cbn [list_handle_action]. rewrite idle_input by (rewrite ?Hd; done).
  unfold list_key. rewrite bind_getPage, Hd. simpl. by rewrite Hs.
Qed.
(** A drawing makes the torrent of the selected row active. *)
Lemma draw_selected f t u s i :
  steady f → list_draw f (t, u) = (Ok tt, s) → idle t → tl_selected t = Some i → (i < len (rendered_torrent_infos t))%N →
  ∃ n st, rendered_torrent_infos t !! N.to_nat i = Some n ∧ torrent_infos t !! N.to_nat n = Some st ∧
    s = (with_selected (Some i) (scroll t) (with_active (Some (ts_info_hash st)) t), u).
Proof.
  intros Hf Hd (Ht & Hp & Hm) Hi Hlt.
  assert (rows_ok t) as Hok by (apply (list_draw_rows f t u); by rewrite Hd).
  destruct (lookup_lt_is_Some_2 (rendered_torrent_infos t) (N.to_nat i)) as [n Hn]; [unfold len in Hlt; lia|].
  pose proof (Forall_lookup_1 _ _ _ _ Hok Hn) as Hlen. simpl in Hlen.
  destruct (lookup_lt_is_Some_2 (torrent_infos t) (N.to_nat n)) as [st Hst]; [unfold len in Hlen; lia|].
  exists n, st. split_and!; [done..|]. unfold list_draw in Hd. rewrite bind_getPage, bind_action in Hd. simpl fst in Hd.
  rewrite (draw_rows_ok 0 (rendered_torrent_infos t) t u Hok), bind_modPage, bind_getS in Hd.
  unfold row_active in Hd. rewrite Hi, decide_True, N.sub_0_r, Hn, Hst in Hd by lia. simpl in Hd.
  rewrite Hi, Hf, Hp in Hd by done.
  case_match; injection Hd as <-; [done|]. simpl. rewrite Ht. destruct t; simpl in *; by subst.
Qed.
Lemma waits_all title s s' : rtc waits s s' → named title s.1 → named title s'.1 ∧ s'.2 = s.2.
Proof.
  induction 1 as [|a b c Hs _ IH]; [done|]. intros Hn. destruct (waits_named _ _ _ Hs Hn) as [Hb Hu].
  destruct (IH Hb) as [? ->]. done.
Qed.

Lemma next_row i t u :
  tl_selected t = Some i → (i + 1 < len (torrent_infos t) < 2 ^ 63)%N →
  list_next (t, u) = (Ok tt, (with_selected (Some (i + 1)%N) (i + 1) t, u)).
Proof.
  intros Hi Hl. unfold list_next, select_relative. rewrite bind_getPage. cbn [fst snd]. rewrite Hi.
  destruct (torrent_infos t) as [|s l] eqn:Hinf; [unfold len in Hl; simpl in Hl; lia|]. rewrite <- Hinf in *.
  assert (as_isize i = Z.of_N i ∧ as_isize (len (torrent_infos t)) = Z.of_N (len (torrent_infos t))) as [-> ->].
  { unfold as_isize. rewrite !(proj2 (N.leb_le _ _)) by lia. done. }
  unfold iadd. rewrite decide_True by lia. cbn [mbind outcome_bind lift].
  erewrite bind_lift by reflexivity. unfold modPage, modifyS. simpl fst. simpl snd.
  rewrite Z.mod_small by lia. by replace (Z.to_N (Z.of_N i + 1)) with (i + 1)%N by lia.
Qed.

(** C35. After a drawing, [d] on a row shows a popup that names its torrent.
    However long it waits, through other keys, drawings and news of the same
    torrents, confirming it deletes the torrent it names, and nothing else is
    sent.  When the selection moves and the list is not drawn before [d], the
    popup names the torrent of the new row, and confirming it deletes the one of
    the old row. *)
Theorem ui_deletes_named :
  (∀ u s i f s1 now d s2 s3 e now',
    rtc list_step (TorrentList_new, u) s → tl_selected s.1 = Some i → (i < len (rendered_torrent_infos s.1))%N →
    idle s.1 → steady f → list_draw f s = (Ok tt, s1) →
    key d = KChar 100 → list_handle now (AcInput d) s1 = (Ok tt, s2) → rtc waits s2 s3 → key e = KEnter →
    ∃ st p s4, st ∈ torrent_infos s3.1 ∧ delete_popup s3.1 = Some p ∧ cp_title p = ts_name st ∧
      list_handle now' (AcInput e) s3 = (Ok tt, s4) ∧
      ui_tx s4.2 = ui_tx s1.2 ++ [AcDeleteTorrent (ts_info_hash st) (also_delete_from_disk p)] ∧ delete_popup s4.1 = None) ∧
  (∀ t u i h st now,
    tl_selected t = Some i → active_torrent t = Some h → (i + 1 < len (torrent_infos t) < 2 ^ 63)%N →
    rendered_torrent_infos t = range (len (torrent_infos t)) → torrent_infos t !! N.to_nat (i + 1) = Some st →
    idle t →
    ∃ s2 s4, forM (fun c => list_handle now (AcInput (typed c))) [106; 100]%N (t, u) = (Ok tt, s2) ∧
      (cp_title <$> delete_popup s2.1) = Some (ts_name st) ∧
      list_handle now (AcInput {| key := KEnter; ctrl := false; alt := false; shift := false |}) s2 = (Ok tt, s4) ∧
      ui_tx s4.2 = ui_tx u ++ [AcDeleteTorrent h false]).
Proof.
  split.
  - intros u [t u0] i f s1 now d s2 s3 e now' Hr Hi Hlt Hidle Hf Hd Hkd Hs2 Hw Hke. apply shown_reached in Hr.
    destruct (draw_selected f t u0 s1 i Hf Hd Hidle Hi Hlt) as (n & st & Hn & Hst & ->).
    pose proof Hidle as (Ht & Hp & Hm). rewrite (popup_opens now d _ u0 st) in Hs2; [|done|done|].
    2:{ unfold selected_info, selected_index. simpl. by rewrite Hn. }
    injection Hs2 as <-. destruct (waits_all (ts_name st) _ _ Hw) as [Hnam Hu].
    { exists i, n, st, (ConfirmPopup_new (ts_name st)). by split_and!. }
    destruct s3 as [t3 u3]. simpl in Hu, Hnam. subst u3.
    destruct (confirm_deletes _ now' e t3 (with_dim true u0) Hnam Hke) as (st' & p & s4 & ? & Hname & Hpop & ? & ? & ? & _).
    exists st', p, s4. split_and!; try done. destruct Hnam as (? & ? & ? & ? & _ & _ & _ & _ & _ & Hpop' & ? & _). simpl in Hpop. congruence.
  - intros t u i h st now Hi Ha Hlt Hr Hst Hidle. pose proof Hidle as (Ht & Hp & Hm).
    set (t1 := with_selected (Some (i + 1)%N) (i + 1) t).
    exists (with_popup (Some (ConfirmPopup_new (ts_name st))) t1, with_dim true u). eexists. split_and!.
    + cbn [forM]. rewrite bind_action. cbn [list_handle_action]. rewrite idle_input by done.
      assert (list_key (typed 106) (t, u) = list_next (t, u)) as -> by done.
      rewrite (next_row i t u Hi Hlt). fold t1. rewrite bind_action.
      pose proof (popup_opens now (typed 100) t1 u st) as Hpo. cbn [list_handle_action] in Hpo. rewrite Hpo; [done|done|done|].
      unfold selected_info, selected_index. simpl. rewrite Hr, lookup_range, Hst by lia. done.
    + done.
    + cbn [list_handle_action]. rewrite (popup_input _ _ _ (ConfirmPopup_new (ts_name st))) by done.
      unfold list_popup_key, list_delete_torrent. cbn [key]. rewrite bind_action, bind_getPage. simpl. rewrite Ha. reflexivity.
    + done.
Qed.
End list.
End app.

(** ** At concrete inputs *)

Section witnesses.
#[local] Existing Instances dev ex_magnet.

Definition ui_width (c : N) : N := 1.
Definition ui_key (k : Key) : Action := AcInput {| key := k; ctrl := false; alt := false; shift := false |}.
Definition ui_state (c : N) : TorrentState := default_state [c] [c] [].
Definition ui_frame : Frame := {| fr_width := 40; fr_height := 2; fr_list := fun _ i => i |}.
Abbreviation ex_turn := (app_turn ui_width (column_width ui_width) id 10 0 ui_frame).
Abbreviation ex_list := (list_handle_action ui_width (column_width ui_width) id 10 0).

(** News of two torrents and [q], in one turn: the page is changed to the list
    while the frontend ends.  News that the daemon sends after the first action is
    taken in the same turn; and a character of fifty columns, typed in an input
    of forty, whose handler does not return. *)
Lemma ui_turns_end_witness :
  let a := App_new false [AcTorrentStates [ui_state 1; ui_state 2]] in
  ∃ a', ex_turn (ui_key (KChar 113)) a = (Ok true, a') ∧ page_id (app_page a') = PgTorrentList ∧
    (∃ a2, ex_turn AcRender a = (Ok false, a2) ∧ ui_tx (app_ui a2) = []) ∧
    (∃ a3, drains ui_width (column_width ui_width) id 10 0 ui_frame 2 1 a a3 ∧
       2 + length (ui_tx (app_ui a3)) <= 4 * (1 + 1)) ∧
    let wide := with_page (PEmpty (Some (set_area 40 2 VimInput_default))) (Ui_new []) a in
    ∃ a4, app_turn (fun _ => 50%N) (column_width (fun _ => 50%N)) id 10 0 ui_frame (ui_key (KChar 97)) wide = (Err UiEndless, a4) ∧
      ∃ b i v, open_input (app_page b) = Some v ∧
        ∃ e, (vim_handle_event (fun _ => 50%N) (column_width (fun _ => 50%N)) 10 i v).1 = Err e.
Proof.
  set (a := App_new false [AcTorrentStates [ui_state 1; ui_state 2]]).
  eexists. split; [by vm_compute|]. split; [by vm_compute|]. split; [|split].
  - eexists. split; [by vm_compute|].
    by apply (proj1 (proj2 (ui_turns_end ui_width (column_width ui_width) id 10 0 ui_frame AcRender a)) (Ok false)); [vm_compute|].
  - assert (∃ a3, drains ui_width (column_width ui_width) id 10 0 ui_frame 2 1 a a3) as [a3 Hd].
    { eexists. eapply drains_takes; [by vm_compute..|]. eapply (drains_sent _ _ _ _ _ _ _ (AcTorrentStates [])); [done|].
      eapply drains_takes; [by vm_compute..|]. apply drains_none. }
    exists a3. split; [exact Hd|].
    exact (proj1 (ui_turns_end ui_width (column_width ui_width) id 10 0 ui_frame AcRender a) 2 1 a a3 Hd).
  - intros wide. eexists. split; [by vm_compute|].
    destruct (proj2 (proj2 (ui_turns_end (fun _ => 50%N) (column_width (fun _ => 50%N)) id 10 0 ui_frame
      (ui_key (KChar 97)) wide)) _ ltac:(by vm_compute)) as (a1 & n & b & i & tx & v & _ & _ & _ & Hv & He & _).
    by exists b, i, v.
Defined.

(** Shift+Tab on the page of torrents *)
Definition ex_shift_tab : Input := Input_of_key false {| m_control := false; m_alt := false; m_shift := true |} KcTab.
Lemma ui_tab_witness :
  let a := with_page (PTorrentList TorrentList_new) (Ui_new []) (App_new true []) in
  ∃ a', ex_turn (AcInput ex_shift_tab) a = (Ok false, a') ∧ app_page a' = PInfo ∧ app_menu a' = 1%N.
Proof.
  intros a. eexists. split; [|split].
  - refine (proj1 (ui_tab ui_width (column_width ui_width) id 10 0 ui_frame ex_shift_tab a eq_refl eq_refl eq_refl eq_refl) _).
    discriminate.
  - done.
  - done.
Defined.

Definition ex_states_new (l : list N) : Action := AcTorrentStates (ui_state <$> l).
Definition ex_listed : TorrentList * Ui := (ex_list (ex_states_new [1; 2]%N) (TorrentList_new, Ui_new [])).2.
Definition ex_selected : TorrentList * Ui := (ex_list (ui_key (KChar 106)) ex_listed).2.
Definition ex_drawn : TorrentList * Ui := (list_draw ui_frame ex_selected).2.
Definition ex_asked : TorrentList * Ui := (ex_list (ui_key (KChar 100)) ex_drawn).2.
Definition ex_marked : TorrentList * Ui := (ex_list (ui_key (KChar 100)) ex_asked).2.
Definition ex_waited : TorrentList * Ui := (ex_list (ex_states_new [1; 2]%N) ex_marked).2.
Lemma ex_listed_reached : list_step ui_width (column_width ui_width) id 10 (TorrentList_new, Ui_new []) ex_listed.
Proof. by eapply (list_acts _ _ _ _ 0 (ex_states_new [1; 2]%N) _ (Ok tt)); [vm_compute|]. Qed.
Lemma ex_selected_reached : rtc (list_step ui_width (column_width ui_width) id 10) (TorrentList_new, Ui_new []) ex_selected.
Proof.
  eapply rtc_l; [exact ex_listed_reached|]. apply rtc_once.
  by eapply (list_acts _ _ _ _ 0 (ui_key (KChar 106)) _ (Ok tt)); [vm_compute|].
Qed.

(** The first of two torrents is selected and drawn; its deletion, with its
    files, is confirmed after news.  Then the second is selected, and confirming
    its deletion without a drawing deletes the first. *)
Lemma ui_deletes_named_witness :
  (∃ st p s4, st ∈ torrent_infos ex_waited.1 ∧ delete_popup ex_waited.1 = Some p ∧ cp_title p = ts_name st ∧
    ex_list (ui_key KEnter) ex_waited = (Ok tt, s4) ∧
    ui_tx s4.2 = [AcDeleteTorrent (ts_info_hash st) (also_delete_from_disk p)] ∧ also_delete_from_disk p = true ∧ ts_name st = [1]%N) ∧
  ∃ s2 s4, forM (fun c => ex_list (AcInput (typed c))) [106; 100]%N (ex_drawn.1, Ui_new []) = (Ok tt, s2) ∧
    (cp_title <$> delete_popup s2.1) = Some [2]%N ∧ ex_list (ui_key KEnter) s2 = (Ok tt, s4) ∧
    ui_tx s4.2 = [AcDeleteTorrent [1]%N false].
Proof.
  destruct (ui_deletes_named ui_width (column_width ui_width) id 10) as [Hnamed Hstale]. split.
  - edestruct (Hnamed (Ui_new []) ex_selected 0%N ui_frame ex_drawn 0%N (typed 100) ex_asked ex_waited
      {| key := KEnter; ctrl := false; alt := false; shift := false |} 0%N) as (st & p & s4 & Hst & Hp & Hn & Hr & Htx & _).
    + exact ex_selected_reached.
    + by vm_compute.
    + by vm_compute.
    + by vm_compute.
    + by intros n i.
    + by vm_compute.
    + done.
    + by vm_compute.
    + eapply rtc_l; [|apply rtc_once].
      * by apply (waits_key _ _ _ _ 0 (typed 100) ex_asked ex_marked); vm_compute.
      * by apply (waits_states _ _ _ _ 0 (ui_state <$> [1; 2]%N) ex_marked ex_waited); vm_compute.
    + done.
    + exists st, p, s4. vm_compute in Hp. injection Hp as <-. by split_and!.
  - destruct (Hstale ex_drawn.1 (Ui_new []) 0%N [1]%N (ui_state 2) 0%N) as (s2 & s4 & ? & ? & ? & ?); [by vm_compute..|].
    by exists s2, s4.
Defined.

(** A torrent disappears while names are searched. *)
Definition ex_searched : TorrentList * Ui :=
  (forM (fun c => ex_list (AcInput (typed c))) [47; 2]%N ex_listed).2.
Lemma ui_draw_safe_witness :
  (∃ s', list_draw ui_frame ex_listed = (Ok tt, s')) ∧ search ex_searched.1 = [2]%N ∧
  ((ex_list (AcTorrentStates [ui_state 1]) ≫= fun _ => list_draw ui_frame) ex_searched).1 = Panic.
Proof.
  split; [|split; [done|]].
  - apply (ui_draw_safe ui_width (column_width ui_width) id 10 (Ui_new [])). apply rtc_once.
    by eapply (gentle_acts _ _ _ _ 0 (ex_states_new [1; 2]%N) _ (Ok tt)); [vm_compute|..|left].
  - apply (ui_draw_safe ui_width (column_width ui_width) id 10 (Ui_new []) ex_searched); [done|].
    apply Exists_exists. exists 1%N. by split; [left|].
Defined.
End witnesses.
