(* ===== verification/UiInputFacts.v ===== *)
(** The input of the frontend: a link typed on the page of torrents becomes a
    torrent of the daemon; on the first page none can be typed. *)
From S2P Require Import Prelude Errors Bits Bencode BencodeText Buffers Core CoreFacts Metainfo Disk Floats Torrent DaemonWire.
From S2P Require Import DaemonWireFacts Magnet Config VimInput VimInputFacts Daemon Ui UiFacts.

Section input.
Context `{Build, MA : MagnetApi}.
Context (char_width : N → N) (str_width : list N → N) (log10 : float → float) (fuel : nat).
Abbreviation app_turn := (app_turn char_width str_width log10 fuel).
Abbreviation ui_run := (ui_run char_width str_width log10 fuel).
Abbreviation list_handle := (list_handle_action char_width str_width log10 fuel).

(** ** A link typed on the page of torrents *)

Lemma drain_one n now f x tx a a' :
  ui_tx (app_ui a) = x :: tx →
  app_dispatch char_width str_width log10 fuel now f x (with_page (app_page a) (with_tx tx (app_ui a)) a) = (Ok tt, a') →
  app_drain char_width str_width log10 fuel (S n) now f a = app_drain char_width str_width log10 fuel n now f a'.
Proof. intros Hx Hd. cbn [Ui.app_drain]. rewrite bind_getS, Hx, bind_modifyS, bind_action. by rewrite Hd. Qed.
Lemma drain_none n now f a : ui_tx (app_ui a) = [] → app_drain char_width str_width log10 fuel n now f a = (Ok tt, a).
Proof. intros Hx. destruct n; cbn [Ui.app_drain]; by rewrite bind_getS, Hx. Qed.

(** A turn on this page: the page answers the key with nothing, or with a link. *)
Lemma turn_list now f x a t u t' u' :
  app_page a = PTorrentList t → app_ui a = u → ui_tx u = [] → should_quit a = false →
  match x with
  | AcInput i => key i ≠ KTab ∧ list_handle now x (t, u) = (Ok tt, (t', u'))
  | AcRender => list_draw f (t, u) = (Ok tt, (t', u'))
  | _ => False
  end →
  (ui_tx u' = [] → app_turn now f x a = (Ok false, with_page (PTorrentList t') u' a)) ∧
  (∀ m, ui_tx u' = [AcNewTorrent m] → app_connected a = true →
    app_turn now f x a = (Ok false, with_sent (DmNewTorrent m) (with_page (PTorrentList t') (with_tx [] u') a))).
Proof.
  intros Hp Hu Htx Hq Hx.
  assert (app_handle_action x a = (Ok tt, a)) as Hh.
  { unfold app_handle_action. rewrite bind_getS. destruct x; try done. rewrite decide_False; [done|]. intros [? _]. by destruct Hx. }
  assert (∀ rest : () → action App UiError bool, (app_drain char_width str_width log10 fuel 4 now f ≫= rest) (app_push x a) =
    (app_drain char_width str_width log10 fuel 3 now f ≫= rest) (with_page (PTorrentList t') u' a)) as Hstep.
  { intros rest. rewrite !bind_action. erewrite (drain_one 3 now f x []); [reflexivity|by simpl; rewrite Hu, Htx|].
    destruct a as [det quit page [dim net tx] menu conn listen sent]. simpl in *. subst. simpl in Htx. subst.
    destruct x; try done; cbn [Ui.app_dispatch]; unfold page_draw, page_handle_action; rewrite bind_getS; cbn [app_page with_page];
      unfold on_page; change (app_ui (with_page _ ?v _)) with v; change (with_tx [] _) with {| should_dim := dim; show_network := net; ui_tx := [] |};
      [by rewrite Hx|by rewrite (proj2 Hx)]. }
  assert (drain_fuel (app_push x a) = 4) as Hfuel by (unfold drain_fuel; simpl; by rewrite Hu, Htx).
  split; [intros Ht|intros m Ht Hc]; unfold app_turn, Ui.app_turn; rewrite bind_action, Hh, bind_modifyS, bind_getS, Hfuel, Hstep, bind_action.
  - rewrite drain_none by done. rewrite bind_getS. simpl. by rewrite Hq.
  - rewrite (drain_one 2 now f (AcNewTorrent m) [] _ (with_sent (DmNewTorrent m) (with_page (PTorrentList t') (with_tx [] u') a)));
      [|done|cbn [Ui.app_dispatch]; unfold sink_send; rewrite bind_getS; simpl; by rewrite Hc].
    rewrite drain_none by done. rewrite bind_getS. simpl. by rewrite Hq.
Qed.

(** Keys the input takes, with the page around it *)
Definition typing (t : TorrentList) (v : VimInput) : TorrentList := with_textarea (Some v) t.
Lemma typing_key now i t u v v1 :
  idle t → key i ≠ KEsc → vim_handle_event char_width str_width fuel i v = (Ok false, v1) →
  list_handle now (AcInput i) (typing t v, u) =
    match key i, submitted v1 with
    | KEnter, Some m => (Ok tt, (typing t v1, ui_send (AcNewTorrent m) u))
    | _, _ => (Ok tt, (typing t v1, u))
    end.
Proof.
  intros (Ht & Hp & Hm) Hk Hv. cbn [list_handle_action]. unfold list_input, typing. rewrite bind_modPage, bind_action. simpl. rewrite Hp. simpl.
  unfold list_textarea. rewrite bind_getPage. simpl. unfold textarea_event. rewrite Hv. simpl.
  rewrite bind_getPage. simpl. rewrite Hm. repeat (case_decide as Hd; [exfalso; by (done || destruct Hd)|clear Hd]).
  destruct t; simpl in *. subst. by destruct (key i), (submitted v1).
Qed.
(** The text of the input, one character after the other *)
Definition terminal (now : N) (f : Frame) : list Action → list UiEvent := fmap (EvTerminal now f).
Lemma run_turn now f x xs a a' :
  app_turn now f x a = (Ok false, a') → ui_run (terminal now f (x :: xs)) a = ui_run (terminal now f xs) a'.
Proof. intros Ht. unfold terminal. cbn [fmap list_fmap Ui.ui_run]. rewrite bind_action. cbn [ui_event]. by rewrite Ht. Qed.
Lemma with_page_twice p p' u u' a : with_page p u (with_page p' u' a) = with_page p u a.
Proof. done. Qed.
Lemma typing_runs now f a t u s v v' xs :
  idle t → ui_tx u = [] → should_quit a = false →
  vim_chain char_width str_width fuel (typed <$> s) v v' →
  ui_run (terminal now f ((AcInput ∘ typed <$> s) ++ xs)) (with_page (PTorrentList (typing t v)) u a) =
  ui_run (terminal now f xs) (with_page (PTorrentList (typing t v')) u a).
Proof.
  intros Hi Hu Hq. revert v. induction s as [|c s IH]; intros v Hc; inversion Hc as [|? ? ? v1 ? Hv Hc']; subst; [done|].
  cbn [fmap list_fmap app]. rewrite <- (IH v1 Hc'). apply run_turn.
  refine (proj1 (turn_list now f (AcInput (typed c)) (with_page (PTorrentList (typing t v)) u a)
    (typing t v) u (typing t v1) u _ _ _ _ _) _); try done. split; [done|]. by rewrite (typing_key now (typed c) t u v v1).
Qed.

Definition enter : Input := {| key := KEnter; ctrl := false; alt := false; shift := false |}.
Lemma enter_inserts v : mode v = Insert → vim_handle_event char_width str_width fuel enter v = (Ok false, v).
Proof. intros Hm. unfold vim_handle_event, transition. rewrite bind_action, bind_getS. simpl. by rewrite Hm. Qed.
Lemma textarea_drawn f t u :
  idle t → show_network u = false → rows_ok t →
  ∃ t1, idle t1 ∧ list_draw f (typing t VimInput_default, u) =
    (Ok tt, (typing t1 (set_area (fr_width f) (fr_height f) VimInput_default), u)).
Proof.
  intros (Ht & Hp & Hm) Hn Hr. unfold list_draw. rewrite bind_getPage, bind_action. cbn [fst snd].
  rewrite (draw_rows_ok char_width str_width 0 _ (typing t VimInput_default) u) by exact Hr. rewrite bind_modPage, bind_getS. simpl.
  rewrite Hn, andb_false_r, Hp. simpl.
  exists (with_selected (fr_list f (length (rendered_torrent_infos t)) (tl_selected t)) (scroll t)
    (with_active (row_active 0 (rendered_torrent_infos t) t) t)). split; [|reflexivity]. by split_and!.
Qed.

(** C34. On the page of torrents, with nothing open and the charts hidden, after [t]
    and a drawing, a link whose characters fit in the area that was drawn, typed
    and entered, is sent to the daemon, and nothing else.  The bytes of this
    message, when the daemon reads them alone, make it add the torrent of the link
    and start its task, if the hash of the link is hexadecimal text and the daemon
    has no torrent of this hash. *)
Theorem ui_adds_torrent {MF : @MagnetFields MA} `{B : BytesApi, BV : BitVecApi, R1 : !RkyvApi TorrentState, R2 : !RkyvApi (list TorrentState)}
    now f a t u s m h :
  app_page a = PTorrentList t → app_ui a = u → ui_tx u = [] → should_quit a = false → app_connected a = true →
  idle t → show_network u = false → rows_ok t →
  in_area char_width (fr_width f) s → (fr_width f <= u16_max)%N → (1 <= fr_height f <= u16_max)%N →
  ((len s + 1) * (len s + 1) < N.of_nat fuel <= vim_bound)%N →
  Magnet_new (utf8_of (trim s)) = Some m → Magnet_new (Magnet_to_string m) = Some m →
  (1 + len (Magnet_to_string m) <= u32_max)%N → parse_xt_infohash m = Ok h →
  (∃ a', ui_run (terminal now f ([AcInput (typed 116); AcRender] ++ (AcInput ∘ typed <$> s) ++
      [AcInput enter])) a = (Ok false, a') ∧
    app_sent a' = app_sent a ++ [DmNewTorrent m]) ∧
  ∀ buf, ∃ buf' wire, DaemonCodec_encode (DmNewTorrent m) buf = (Ok tt, buf') ∧ view buf' = view buf ++ wire ∧
    ∀ b d, view b = wire → present h d = false →
      ∃ b' d', DaemonCodec_decode b = (Ok (Some (DmNewTorrent m)), b') ∧
        handle_remote_msgs (DmNewTorrent m) None = ([DaNewTorrentMagnet m], Ok []) ∧
        handle_daemon (DaNewTorrentMagnet m) d = (Ok DGo, d') ∧
        torrent_states d' = torrent_states d ++ [default_state (parse_dn m) h []] ∧ torrent_ctxs d' = <[h := 0%N]> (torrent_ctxs d) ∧
        d_out d' = d_out d ++ [SpawnTorrent h].
Proof.
  intros Hp Hu Htx Hq Hc Hi Hn Hrows Hin Hw Hh Hf Hm Hback Hlen Hx. split.
  - set (u1 := with_dim true u). set (v0 := set_area (fr_width f) (fr_height f) VimInput_default).
    destruct (type_text char_width str_width s v0 {| left_text := []; right_text := [] |} 0 fuel)
      as (v' & Hch & Hs & _ & Hmode); [by exists [], [], [], []|done|done|exact Hin|unfold visible, v0; simpl; lia|done|done|exact Hf|].
    destruct (textarea_drawn f t u1 Hi Hn Hrows) as (t1 & Hi1 & Hdraw).
    eexists. split.
    + cbn [app]. rewrite (run_turn now f _ _ a (with_page (PTorrentList (typing t VimInput_default)) u1 a)).
      2:{ refine (proj1 (turn_list now f (AcInput (typed 116)) a t u (typing t VimInput_default) u1 _ _ _ _ _) _); try done.
          split; [done|]. cbn [list_handle_action]. by rewrite idle_input. }
      rewrite (run_turn now f _ _ _ (with_page (PTorrentList (typing t1 v0)) u1 a)).
      2:{ by refine (proj1 (turn_list now f AcRender (with_page (PTorrentList (typing t VimInput_default)) u1 a)
            (typing t VimInput_default) u1 (typing t1 v0) u1 _ _ _ _ _) _). }
      rewrite (typing_runs now f a t1 u1 s v0 v' _ Hi1 Htx Hq Hch).
      rewrite (run_turn now f _ _ _ (with_sent (DmNewTorrent m) (with_page (PTorrentList (typing t1 v')) u1 a))); [reflexivity|].
      assert (with_tx [] (ui_send (AcNewTorrent m) u1) = u1) as Hu1 by (destruct u; simpl in Htx; by subst).
      rewrite <- Hu1 at 2. refine (proj2 (turn_list now f (AcInput enter) (with_page (PTorrentList (typing t1 v')) u1 a)
        (typing t1 v') u1 (typing t1 v') (ui_send (AcNewTorrent m) u1) _ _ _ _ _) m _ _); try done.
      * split; [done|]. rewrite (typing_key _ _ _ _ _ v'); [|done|done|by apply enter_inserts].
        simpl. unfold submitted, validate_magnet. rewrite (showing_text _ _ _ Hs). unfold buffer_text. simpl. by rewrite app_nil_r, Hm.
      * simpl. by rewrite Htx.
    + done.
  - intros buf. destruct (encode_frame (DmNewTorrent m) IdNewTorrent (Magnet_to_string m) buf) as (buf' & He & Hv); [done..|].
    exists buf', (dm_frame IdNewTorrent (Magnet_to_string m)). split; [done|]. split; [done|]. intros b d Hb Hpr.
    destruct (dm_decode_head IdNewTorrent (Magnet_to_string m) [] b) as (b1 & Hv1 & Hd); [done|by rewrite app_nil_r|].
    rewrite app_nil_r in Hv1.
    destruct (decode_message_greedy (DmNewTorrent m) IdNewTorrent _ b1 eq_refl Hback eq_refl Hv1) as (b' & Hd' & _).
    exists b'. eexists. split; [by rewrite Hd, bind_action, Hd'|]. split; [done|]. split.
    { cbn [handle_daemon]. rewrite bind_action. unfold catch, new_torrent_magnet. rewrite bind_action, Hx. cbn [lift].
      rewrite bind_action. cbn [getS]. rewrite Hpr. reflexivity. }
    done.
Qed.

(** ** The first page *)

(** A key adds no other character to the text than its own. *)
Definition gains (i : Input) : relation VimInput := fun v v' =>
  ∀ x, x ∈ concat (v_lines v') → x ∈ concat (v_lines v) ∨ key i = KChar x.
#[local] Instance gains_preorder i : PreOrder (gains i).
Proof. split; [intros v x; by left|]. intros a b c Hab Hbc x Hx. destruct (Hbc x Hx); [by apply Hab|by right]. Qed.

Lemma concat_take n (ls : list (list N)) x : x ∈ concat (take n ls) → x ∈ concat ls.
Proof. rewrite <- (take_drop n ls) at 2. rewrite concat_app. set_solver. Qed.
Lemma concat_drop n (ls : list (list N)) x : x ∈ concat (drop n ls) → x ∈ concat ls.
Proof. rewrite <- (take_drop n ls) at 2. rewrite concat_app. set_solver. Qed.
Lemma concat_index {E} (ls : list (list N)) n l x : index (E:=E) ls n = Ok l → x ∈ l → x ∈ concat ls.
Proof.
  unfold index. destruct (ls !! _) as [l'|] eqn:Hl; [|done]. intros [= ->] Hx.
  apply list_elem_of_split_length in Hl as (l1 & l2 & -> & _). rewrite concat_app. simpl. set_solver.
Qed.
Lemma concat_insert n (l : list N) ls x : x ∈ concat (<[n := l]> ls) → x ∈ l ∨ x ∈ concat ls.
Proof.
  revert n. induction ls as [|k ls IH]; intros n; [by right|]. destruct n as [|n]; simpl; rewrite !elem_of_app; [tauto|].
  intros [Hx|[Hx|Hx]%IH]; tauto.
Qed.
Lemma split_col_in col cur s a b x : split_col char_width col cur s = (a, b) → x ∈ a ∨ x ∈ b → x ∈ s.
Proof. intros Hs%split_col_app Hx. subst s. by apply elem_of_app. Qed.
Lemma break_lines_in cpl n row ls cur ls' cur' x :
  break_lines char_width cpl n row ls cur = Some (ls', cur') → x ∈ concat ls' → x ∈ concat ls.
Proof.
  revert row ls cur ls' cur'. induction n as [|n IH]; intros row ls cur ls' cur' Hb.
  { destruct ls; by simplify_eq/=. }
  destruct ls as [|line rest]; [by simplify_eq/=|]. rewrite break_lines_eq in Hb. case_match.
  - apply bind_Some in Hb as ([ls1 cur1] & Hb & [= <- <-]). pose proof (IH _ _ _ _ _ Hb). simpl. set_solver.
  - destruct (split_col _ _ _ _) as [pre remainder] eqn:Hs. apply split_col_app in Hs as ->. cbv zeta in Hb.
    apply bind_Some in Hb as ([ls1 cur1] & Hb & [= <- <-]). pose proof (IH _ _ _ _ _ Hb) as Hi. rewrite concat_carry in Hi. simpl. set_solver.
Qed.
Lemma refill_in cpl line rest x : x ∈ concat (refill char_width cpl line rest) → x ∈ line ∨ x ∈ concat rest.
Proof.
  revert line. induction rest as [|next rest IH]; intros line; simpl; [set_solver|].
  case_match; [simpl; set_solver|]. destruct next as [|c next]; [intros Hx%IH; set_solver|].
  case_match; [simpl; set_solver|]. simpl. rewrite elem_of_app. intros [Hx|Hx%IH]; set_solver.
Qed.

(** Actions from one state, whose parts are read from it *)
Section at_state.
Context {S E : Type} (R : relation S) `{!PreOrder R}.
Definition at_state (s : S) {A} (m : action S E A) : Prop := ∀ r s', m s = (r, s') → r ≠ Panic → R s s'.
Lemma keeps_at {A} (m : action S E A) : (∀ s, at_state s m) → keeps R m.
Proof. intros Hm s. apply Hm. Qed.
Lemma at_keeps {A} (m : action S E A) s : keeps R m → at_state s m.
Proof. intros Hm r s'. apply Hm. Qed.
Lemma at_getS {A} (f : S → action S E A) s : at_state s (f s) → at_state s (getS ≫= f).
Proof. intros Hf r s'. rewrite bind_getS. apply Hf. Qed.
Lemma at_lift {A B} (o : outcome E A) (f : A → action S E B) s :
  (∀ a, o = Ok a → at_state s (f a)) → at_state s (lift o ≫= f).
Proof.
  intros Hf r s'. rewrite bind_action. unfold lift. destruct o as [a|e|]; [by apply Hf|by intros [= <- <-]|by intros [= <- <-]].
Qed.
Lemma at_modify {A} g (f : () → action S E A) s : R s (g s) → keeps R (f tt) → at_state s (modifyS g ≫= f).
Proof. intros Hg Hf r s'. rewrite bind_modifyS. intros Hr Hp. etrans; [exact Hg|by eapply Hf]. Qed.
Lemma at_bind {A B} (m : action S E A) (f : A → action S E B) s :
  at_state s m → (∀ a, keeps R (f a)) → at_state s (m ≫= f).
Proof.
  intros Hm Hf r s'. rewrite bind_action. specialize (Hm). destruct (m s) as [[a|e|] s1] eqn:Hs.
  - intros Hr Hp. etrans; [by eapply Hm|by eapply Hf].
  - intros [= <- <-] _. by eapply Hm.
  - by intros [= <- <-].
Qed.
End at_state.

Ltac same_lines := intros; intros ? ?; left; repeat case_match; assumption.
Lemma gains_adjust i : keeps (gains i) adjust_scroll_offset.
Proof. unfold adjust_scroll_offset. keep same_lines. Qed.
Lemma gains_set_cursor i c : keeps (gains i) (set_cursor c).
Proof. unfold set_cursor. keep same_lines. Qed.
#[local] Hint Resolve gains_adjust gains_set_cursor : keeps.
Lemma gains_break i n row : keeps (gains i) (break_lines_from char_width n row).
Proof.
  apply keeps_at. intros v. unfold break_lines_from. apply at_getS, at_lift; [apply _|]. intros [ls cur] Hb.
  intros r v' [= <- <-] _ x Hx. left. simpl in Hx. rewrite concat_app in Hx. apply elem_of_app in Hx as [Hx|Hx].
  - by eapply concat_take.
  - destruct (break_lines _ _ _ _ _ _) as [[ls1 cur1]|] eqn:Hbr; [|done]. injection Hb as -> ->.
    eapply concat_drop, break_lines_in; done.
Qed.
#[local] Hint Resolve gains_break : keeps.
Lemma gains_newline i : keeps (gains i) (insert_newline char_width).
Proof.
  apply keeps_at. intros v. unfold insert_newline. apply at_getS. destruct (cursor v) as [row col].
  apply at_lift; [apply _|]. intros line Hl. destruct (split_col _ _ _ _) as [before remainder] eqn:Hs.
  apply at_modify; [apply _| |keep same_lines]. intros x Hx. left. simpl in Hx. rewrite concat_app in Hx. simpl in Hx.
  rewrite !elem_of_app in Hx. destruct Hx as [Hx|[Hx|[Hx|Hx]]].
  - by eapply concat_take.
  - eapply concat_index, split_col_in; eauto.
  - eapply concat_index, split_col_in; eauto.
  - by eapply concat_drop.
Qed.
Lemma gains_insert i n c : key i = KChar c → keeps (gains i) (insert_char char_width n c).
Proof.
  intros Hk. apply keeps_at. intros v. unfold insert_char. apply at_getS. destruct (cursor v) as [row col].
  set (ls := v_lines v ++ _). assert (concat ls = concat (v_lines v)) as Hls.
  { unfold ls. rewrite concat_app. by replace (concat (replicate _ [])) with (@nil N) by (by induction (N.to_nat _)); rewrite app_nil_r. }
  apply at_lift; [apply _|]. intros line Hl. destruct (split_col _ _ _ _) as [before after] eqn:Hs.
  apply at_lift; [apply _|]. intros col' _. apply at_modify; [apply _| |keep same_lines].
  intros x Hx. simpl in Hx. apply concat_insert in Hx as [Hx|Hx].
  - rewrite elem_of_app, elem_of_cons in Hx. destruct Hx as [Hx|[->|Hx]]; [left|by right|left];
      rewrite <- Hls; eapply concat_index, split_col_in; eauto.
  - left. by rewrite <- Hls.
Qed.
Lemma gains_backspace i n : keeps (gains i) (backspace char_width n).
Proof.
  apply keeps_at. intros v. unfold backspace. apply at_getS. destruct (cursor v) as [row col].
  apply at_bind; [apply _| |keep same_lines]. case_match; [|case_match; [|by intros r v' [= <- <-]]].
  - apply at_lift; [apply _|]. intros line Hl. destruct (split_col _ _ _ _) as [before after] eqn:Hs.
    apply at_lift; [apply _|]. intros [line' last_width] Hlast. apply at_lift; [apply _|]. intros col' _ r v' [= <- <-] _ x Hx.
    left. simpl in Hx. rewrite concat_app, elem_of_app in Hx. destruct Hx as [Hx|Hx]; [by eapply concat_take|].
    apply refill_in in Hx as [Hx|Hx]; [|by eapply concat_drop]. eapply concat_index; [exact Hl|].
    apply split_col_app in Hs. destruct (last before) as [ch|] eqn:Hb.
    + injection Hlast as <- _. rewrite Hs. apply last_Some in Hb as [b ->]. rewrite removelast_last in Hx. set_solver.
    + destruct line; [done|]. injection Hlast as -> _. by right.
  - apply at_lift; [apply _|]. intros cur_line Hc. apply at_lift; [apply _|]. intros prev_line Hp.
    apply at_modify; [apply _| |auto with keeps]. intros x Hx. left. simpl in Hx.
    rewrite concat_app in Hx. simpl in Hx. rewrite !elem_of_app in Hx. destruct Hx as [Hx|[[Hx|Hx]|Hx]].
    + by eapply concat_take.
    + by apply (concat_index _ _ _ _ Hp).
    + by apply (concat_index _ _ _ _ Hc).
    + by eapply concat_drop.
Qed.
Lemma gains_row i row : keeps (gains i) (to_row str_width row).
Proof. unfold to_row. keep same_lines. Qed.
Lemma gains_scroll_row i row : keeps (gains i) (scroll_to_row row).
Proof. unfold scroll_to_row. keep same_lines. Qed.
#[local] Hint Resolve gains_newline gains_backspace gains_row gains_scroll_row : keeps.
Lemma gains_insert_mode i n : keeps (gains i) (handle_insert_mode char_width n i).
Proof.
  unfold handle_insert_mode, nop. destruct (key i) eqn:Hk; keep same_lines. by apply gains_insert.
Qed.
#[local] Hint Resolve gains_insert_mode : keeps.
Lemma gains_key i n : keeps (gains i) (vim_handle_event char_width str_width n i).
Proof.
  unfold vim_handle_event, transition, handle_normal_mode, normal, nop, move_cursor_left, move_cursor_right,
    move_cursor_up, move_cursor_down, scroll_up, scroll_down.
  keep same_lines.
Qed.

Lemma trim_start_in s x : x ∈ trim_start s → x ∈ s.
Proof. induction s as [|c s IH]; simpl; [done|]. case_match; [|done]. intros Hx%IH. by right. Qed.
Lemma trim_in s x : x ∈ trim s → x ∈ s.
Proof. unfold trim. rewrite elem_of_reverse. intros Hx%trim_start_in. rewrite elem_of_reverse in Hx. by apply trim_start_in. Qed.
(** A byte of ASCII stands for the character itself. *)
Lemma utf8_of_ascii s x : (x < 128)%N → x ∈ utf8_of s → x ∈ s.
Proof.
  intros Hx. unfold utf8_of. induction s as [|c s IH]; simpl; [done|]. rewrite elem_of_app, elem_of_cons.
  intros [Hc|Hs]; [left|right; auto]. unfold utf8_char in Hc.
  repeat case_match; repeat (apply elem_of_cons in Hc as [Hc|Hc]); try (by apply elem_of_nil in Hc); lia.
Qed.

Abbreviation empty_handle := (empty_handle_action char_width str_width fuel).
(** What happens to the first page *)
Inductive empty_step : relation (option VimInput * Ui) :=
  | empty_acts x s r s' : empty_handle x s = (r, s') → r ≠ Panic → empty_step s s'
  | empty_draws f s s' : empty_draw f s = (Ok tt, s') → empty_step s s'.

(** The input has no [t] in it, and no link was sent. *)
Definition no_link (l : list Action) : Prop := Forall (fun x => match x with AcNewTorrent _ => False | _ => True end) l.
Definition without_t (t : option VimInput) : Prop := ∀ v, t = Some v → 116%N ∉ concat (v_lines v).
Definition inert (s : option VimInput * Ui) : Prop := without_t s.1 ∧ no_link (ui_tx s.2).
Lemma no_link_send x u : match x with AcNewTorrent _ => False | _ => True end → no_link (ui_tx u) → no_link (ui_tx (ui_send x u)).
Proof. intros Hx Hu. apply Forall_app. split; [done|by constructor]. Qed.
Lemma submitted_t v m :
  (∀ b m, Magnet_new b = Some m → 116%N ∈ b) → submitted v = Some m → 116%N ∈ concat (v_lines v).
Proof. intros Ht Hs. by eapply trim_in, utf8_of_ascii, Ht. Qed.
Lemma quit_inert s r s' : empty_quit s = (r, s') → inert s → inert s'.
Proof.
  destruct s as [t u]. unfold empty_quit. rewrite bind_getPage. simpl. intros Hr [Ht Hu].
  destruct t; injection Hr as <- <-; (split; [done|]); [done|by apply no_link_send].
Qed.
Lemma empty_key i s r s' :
  (∀ b m, Magnet_new b = Some m → 116%N ∈ b) →
  empty_handle (AcInput i) s = (r, s') → r ≠ Panic → inert s → inert s'.
Proof.
  intros Hlink. destruct s as [t u]. cbn [empty_handle_action]. unfold empty_input. rewrite bind_getPage, bind_action.
  intros Hr Hp [Ht Hu]. simpl in Ht, Hu.
  assert (∀ t', (∀ v, t' = Some v → 116%N ∉ concat (v_lines v) ∨ key i = KChar 116) → ∀ r s',
    ((if decide (key i = KChar 116) then modPage (fun _ => Some VimInput_default) else mret tt) ≫= fun _ =>
      getPage ≫= fun t =>
      match key i, t ≫= submitted with
      | KEnter, Some m => send (AcNewTorrent m) ≫= fun _ => empty_quit
      | _, _ => mret tt
      end ≫= fun _ =>
      if decide (key i = KChar 113) then empty_quit else mret tt) (t', u) = (r, s') → inert s') as Hrest.
  { clear Hr Hp r s'. intros t' Ht' r s' Hr. rewrite bind_action in Hr. case_decide as Hk.
    - cbn in Hr. rewrite bind_getPage, Hk, bind_action in Hr. cbn [mret action_ret] in Hr.
      rewrite decide_False in Hr by done. injection Hr as <- <-. split; [|done]. by intros v [= <-] ?%elem_of_nil.
    - cbn [mret action_ret] in Hr. rewrite bind_getPage in Hr. simpl in Hr.
      assert (inert (t', u)) as Hin. { split; [|done]. intros v Hv. by destruct (Ht' v Hv). }
      assert (key i = KEnter → t' ≫= submitted = None) as Hn.
      { intros _. destruct t' as [v|]; [|done]. simpl. destruct (submitted v) as [m|] eqn:Hs; [|done].
        apply submitted_t in Hs; [|done]. by destruct Hin as [Hv _]; destruct (Hv v eq_refl). }
      assert (match key i, t' ≫= submitted with
        | KEnter, Some m => send (AcNewTorrent m) ≫= fun _ => empty_quit
        | _, _ => mret tt
        end = mret ()) as Hnone by (destruct (key i); rewrite ?Hn by done; done).
      rewrite Hnone in Hr. cbn [mret action_ret] in Hr. rewrite bind_action in Hr. cbn [mret action_ret] in Hr.
      case_decide; [by eapply quit_inert|by injection Hr as <- <-]. }
  destruct t as [v|]; [|by eapply (Hrest None); [|exact Hr]].
  cbn [fst] in Hr. rewrite bind_action in Hr. unfold textarea_event in Hr.
  destruct (vim_handle_event char_width str_width fuel i v) as [[quit|e|] v1] eqn:Hv; cbn [lift] in Hr;
    [|by injection Hr as <- <-|by injection Hr as <- <-].
  destruct quit; [by injection Hr as <- <-|]. eapply (Hrest (Some v1)); [|exact Hr].
  intros v' [= <-]. destruct (decide (key i = KChar 116)) as [|Hk]; [by right|left].
  intros Hin. destruct (gains_key i fuel v _ _ Hv ltac:(done) _ Hin) as [Hin'|]; [|done]. by apply (Ht v).
Qed.

(** On the first page, no link that has a [t] in it is ever sent: the key [t]
    starts the input again.  Every magnet link has one, so that page sends
    none, whatever is typed. *)
Theorem ui_empty_never_submits u s :
  (∀ b m, Magnet_new b = Some m → 116%N ∈ b) →
  rtc empty_step (None, u) s → no_link (ui_tx u) →
  no_link (ui_tx s.2) ∧ (∀ v, s.1 = Some v → (116%N ∉ concat (v_lines v)) ∧ submitted v = None).
Proof.
  intros Hlink Hr Hu. assert (inert (None, u)) as Hin by done.
  assert (inert s) as [Ht Hs].
  { clear Hu. induction Hr as [|a b c [x s1 r s2 Hx Hp|f s1 s2 Hd] _ IH]; [done|apply IH..].
    - destruct x; cbn [empty_handle_action] in Hx; try (by injection Hx as <- <-); [by eapply empty_key|].
      destruct l; injection Hx as <- <-; [done|]. destruct Hin. by split; [|apply no_link_send].
    - destruct s1 as [[v|] u1]; injection Hd as <-; [|done]. destruct Hin as [Ht Hs]. split; [|done].
      intros v' [= <-]. by apply (Ht v). }
  split; [done|]. intros v Hv. split; [by apply Ht|]. destruct (submitted v) as [m|] eqn:Hm; [|done].
  apply submitted_t in Hm; [|done]. by destruct (Ht v Hv).
Qed.
End input.

(** ** At concrete inputs *)

Section witnesses.
#[local] Existing Instances dev list_bytes list_bits ex_magnet ex_states ex_state.
#[local] Instance ui_fields : MagnetFields.
Proof.
  refine {| hash := fun _ => None; display_name := fun _ => None; trackers := fun _ => []; url_decode := fun _ => None;
    hex_decode := fun s => if decide (s = replicate 40 48%N) then Some (replicate 20 0%N) else None |}.
  intros s b. case_decide as Hs; [|done]. subst s. by intros [= <-].
Defined.

(** The page of two torrents, the first of them selected *)
Definition ex_app : App :=
  with_page (PTorrentList ex_drawn.1) ex_drawn.2 (App_new false []).
Definition ex_typed : list Action :=
  [AcInput (typed 116); AcRender] ++ (AcInput ∘ typed <$> ex_link) ++ [AcInput enter].

Lemma ui_adds_torrent_witness :
  ∃ a', ui_run ui_width (column_width ui_width) id 100 (terminal 0 ui_frame ex_typed) ex_app = (Ok false, a') ∧
    app_sent a' = [DmNewTorrent tt] ∧
    ∀ buf, ∃ buf' wire, DaemonCodec_encode (DmNewTorrent tt) buf = (Ok tt, buf') ∧ view buf' = view buf ++ wire ∧
      ∀ b, view b = wire → ∃ b', DaemonCodec_decode b = (Ok (Some (DmNewTorrent tt)), b').
Proof.
  destruct (ui_adds_torrent ui_width (column_width ui_width) id 100 0 ui_frame ex_app ex_drawn.1 ex_drawn.2 ex_link tt
    (replicate 20 0%N)) as ((a' & Hr & Hs) & Hwire);
    [done|done|by vm_compute|done|done|by vm_compute|by vm_compute|by repeat constructor|by repeat constructor|by vm_compute..|].
  exists a'. split; [exact Hr|]. split; [exact Hs|]. intros buf. destruct (Hwire buf) as (buf' & wire & He & Hv & Hd).
  exists buf', wire. split; [exact He|]. split; [exact Hv|]. intros b Hb.
  destruct (Hd b (Daemon_new false) Hb) as (b' & _ & Hdec & _); [done|]. by exists b'.
Defined.

(** The page with an input open *)
Definition ex_empty : option VimInput * Ui :=
  (forM (empty_handle_action ui_width (column_width ui_width) 100) ([AcInput (typed 116)])
    (None, Ui_new [])).2.
Lemma ui_empty_never_submits_witness :
  no_link (ui_tx ex_empty.2) ∧ ∀ v, ex_empty.1 = Some v → submitted v = None.
Proof.
  destruct (ui_empty_never_submits ui_width (column_width ui_width) 100 (Ui_new []) ex_empty) as [Hn Hv].
  - intros b m. cbn. case_decide as Hb; [|done]. intros _. subst b. by vm_compute; set_solver.
  - apply rtc_once. by apply (empty_acts _ _ _ (AcInput (typed 116)) _ (Ok tt)).
  - constructor.
  - split; [exact Hn|]. intros v Hs. by apply Hv.
Defined.
End witnesses.
