(* ===== verification/UiChartFacts.v ===== *)
(** The charts of the frontend: what they show of a torrent, and which torrent. *)
From S2P Require Import Prelude Metainfo Floats Torrent Daemon DaemonWire DaemonWireFacts Config Ui.
From Stdlib Require Import SpecFloat.

Section charts.
Context (log10 : float → float).
Abbreviation on_tick := (on_tick log10).
Abbreviation tick_charts := (tick_charts log10).

(** Ticks one after the other: the time, and the rates *)
Definition ticks (l : list (N * (float * float))) (c : NetworkChart) : NetworkChart :=
  foldl (fun c '(now, (down, up)) => on_tick now down up c) c l.

Lemma retain_times min l k :
  l.*1 = k.*1 → (retain_window min l).*1 = (retain_window min k).*1.
Proof.
  unfold retain_window. revert k. induction l as [|[t x] l IH]; intros [|[t' y] k]; simpl; try done.
  intros [= -> Hl]. rewrite !filter_cons. simpl. case_decide; simpl; [f_equal|]; by apply IH.
Qed.
(** A chart shows both rates at the same times, none older than the window. *)
Definition windowed (c : NetworkChart) : Prop :=
  (download_data c).*1 = (upload_data c).*1 ∧
  Forall (fun e => f_le (f64_sub (current_time c) TARGET_WINDOW) e.1 = true) (download_data c).
Lemma tick_windowed now down up c : (download_data c).*1 = (upload_data c).*1 → windowed (on_tick now down up c).
Proof.
  intros Hc. split; simpl.
  - apply retain_times. rewrite !fmap_app. by f_equal.
  - apply Forall_forall. intros e He. unfold retain_window in He. apply list_elem_of_filter in He as [He _]. by apply Is_true_eq_true.
Qed.
Lemma ticks_windowed l c : windowed c → windowed (ticks l c).
Proof.
  revert c. induction l as [|[now [down up]] l IH]; intros c Hc; [done|]. simpl. apply IH, tick_windowed, Hc.
Qed.
Lemma ticks_hash l c : nc_info_hash (ticks l c) = nc_info_hash c.
Proof. revert c. induction l as [|[now [down up]] l IH]; intros c; [done|]. simpl. by rewrite IH. Qed.

(** One state, at place [i] *)
Definition tick_one (now : N) (charts : list NetworkChart) (i : nat) (s : TorrentState) : list NetworkChart :=
  alter (on_tick now (ts_download_rate s) (ts_upload_rate s)) i
    (if existsb (fun v => bool_decide (nc_info_hash v = ts_info_hash s)) charts then charts
     else charts ++ [NetworkChart_new now (ts_info_hash s)]).
Fixpoint tick_from (now : N) (i : nat) (l : list TorrentState) (charts : list NetworkChart) : list NetworkChart :=
  match l with [] => charts | s :: l => tick_from now (S i) l (tick_one now charts i s) end.
Lemma tick_charts_from now l charts : tick_charts now l charts = tick_from now 0 l charts.
Proof.
  unfold Ui.tick_charts. set (F := fun (charts : list NetworkChart) (e : nat * TorrentState) => _).
  enough (∀ i charts, foldl F charts (imap (fun j s => ((i + j)%nat, s)) l) = tick_from now i l charts) as He by apply (He 0).
  clear charts. induction l as [|s l IH]; intros i charts; [done|]. rewrite imap_cons. cbn [foldl tick_from].
  rewrite <- IH, Nat.add_0_r. f_equal. apply imap_ext. intros j x _. simpl. f_equal. lia.
Qed.

(** The charts in pairs with the torrents, and new ones for those that have none *)
Fixpoint tick_each (now : N) (l : list TorrentState) (charts : list NetworkChart) : list NetworkChart :=
  match l, charts with
  | [], charts => charts
  | s :: l, [] => on_tick now (ts_download_rate s) (ts_upload_rate s) (NetworkChart_new now (ts_info_hash s)) :: tick_each now l []
  | s :: l, c :: charts => on_tick now (ts_download_rate s) (ts_upload_rate s) c :: tick_each now l charts
  end.
Abbreviation hashes := (fmap ts_info_hash).
Lemma existsb_hash h (l : list NetworkChart) :
  existsb (fun v => bool_decide (nc_info_hash v = h)) l = bool_decide (h ∈ nc_info_hash <$> l).
Proof.
  induction l as [|c l IH]; [done|]. cbn [existsb]. rewrite IH, <- bool_decide_or. apply bool_decide_ext.
  rewrite fmap_cons, elem_of_cons. naive_solver.
Qed.
Lemma tick_from_each now l A B k :
  nc_info_hash <$> B = take k (hashes l) → NoDup ((nc_info_hash <$> A) ++ hashes l) →
  tick_from now (length A) l (A ++ B) = A ++ tick_each now l B.
Proof.
  revert A B k. induction l as [|s l IH]; intros A B k Hb Hn; [done|].
  assert (ts_info_hash s ∉ nc_info_hash <$> A) as Hs by (apply NoDup_app in Hn as (_ & Hn & _); intros Hin; by eapply Hn; [|left]).
  assert (∀ c, nc_info_hash c = ts_info_hash s → NoDup ((nc_info_hash <$> (A ++ [c])) ++ hashes l)) as Hnext.
  { intros c Hc. rewrite fmap_app, <- app_assoc. simpl. by rewrite Hc. }
  cbn [tick_from]. unfold tick_one. rewrite existsb_hash, fmap_app. destruct B as [|c B].
  - rewrite bool_decide_false by (simpl; by rewrite app_nil_r). rewrite app_nil_r, alter_app_r_alt by lia.
    rewrite Nat.sub_diag. simpl. set (x := on_tick _ _ _ _).
    specialize (IH (A ++ [x]) [] 0). rewrite length_app, Nat.add_1_r, <- !app_assoc in IH. simpl in IH. by apply IH, Hnext.
  - destruct k as [|k]; [done|]. injection Hb as Hc Hb. rewrite bool_decide_true by (apply elem_of_app; right; simpl; rewrite Hc; by left).
    rewrite alter_app_r_alt by lia. rewrite Nat.sub_diag. simpl. set (x := on_tick _ _ _ _).
    specialize (IH (A ++ [x]) B k Hb). rewrite length_app, Nat.add_1_r, <- !app_assoc in IH. simpl in IH. by apply IH, Hnext.
Qed.

(** C40. As long as torrents are only added, each has the chart at its own place,
    which is told its rates and no others'.  When a torrent is gone, its chart
    stays, and is told the rates of the one that took its place, whose own chart
    is told nothing.  A chart shows the downloads and uploads of the same
    moments, of the last minute. *)
Theorem ui_charts_follow now l charts k :
  NoDup (hashes l) → nc_info_hash <$> charts = take k (hashes l) →
  tick_charts now l charts = tick_each now l charts ∧
  nc_info_hash <$> tick_charts now l charts = hashes l ∧
  (∀ s0 s1 c0 c1, l = [s0; s1] → charts = [c0; c1] →
    tick_charts now [s1] charts = [on_tick now (ts_download_rate s1) (ts_upload_rate s1) c0; c1]) ∧
  (∀ l now h, windowed (ticks l (NetworkChart_new now h))).
Proof.
  intros Hn Hc. assert (tick_charts now l charts = tick_each now l charts) as Heq.
  { rewrite tick_charts_from. by apply (tick_from_each now l [] charts k). }
  split; [done|]. split; [|split].
  - rewrite Heq. clear Heq Hn. revert k charts Hc. induction l as [|s l IH]; intros k charts Hc.
    + simpl in *. rewrite take_nil in Hc. by rewrite Hc.
    + destruct charts as [|c charts]; simpl; [f_equal; by apply (IH 0)|]. destruct k as [|k]; [done|].
      injection Hc as -> Hc. f_equal. by apply (IH k).
  - intros s0 s1 c0 c1 -> ->. rewrite tick_charts_from. cbn [tick_from]. unfold tick_one. rewrite existsb_hash.
    destruct k as [|[|k]]; [done|done|]. simpl in Hc. injection Hc as _ Hc1 _.
    rewrite bool_decide_true; [done|]. simpl. rewrite Hc1. right. by left.
  - intros l' now' h. apply ticks_windowed. by split.
Qed.
End charts.

(** Two torrents, the second of them new, and then the first is gone *)
Definition chart_state (c : N) : TorrentState := default_state [c] [c] [].
Lemma ui_charts_follow_witness :
  let charts := tick_charts id 5 [chart_state 1; chart_state 2] [NetworkChart_new 0 [1%N]] in
  (nc_info_hash <$> charts) = [[1]; [2]]%N ∧
  ∃ c, tick_charts id 9 [chart_state 2] charts = [c; default (NetworkChart_new 0 []) (last charts)] ∧ nc_info_hash c = [1]%N.
Proof.
  assert (NoDup (ts_info_hash <$> [chart_state 1; chart_state 2])) as Hn by by apply (bool_decide_unpack _); vm_compute.
  cbv zeta. destruct (ui_charts_follow id 5 [chart_state 1; chart_state 2] [NetworkChart_new 0 [1%N]] 1 Hn eq_refl) as (_ & Hh & _).
  set (charts := tick_charts _ _ _ _) in *. split; [exact Hh|].
  destruct charts as [|c0 [|c1 [|]]] eqn:Hc; try done.
  destruct (ui_charts_follow id 9 [chart_state 1; chart_state 2] [c0; c1] 2 Hn Hh) as (_ & _ & Hgone & _).
  rewrite (Hgone _ _ _ _ eq_refl eq_refl). eexists. split; [done|]. injection Hh as Hh0 _. exact Hh0.
Defined.
