(* ===== verification/TorrentStart.v ===== *)
(** [torrent/mod.rs], [start]: the tasks that announce to the trackers, the first
    of their responses, and the torrent it starts with.  Every order in which
    the responses come, the torrent waits and it stops waiting is a list of
    events. *)
From S2P Require Import Prelude Errors Bits Bencode Core Metainfo Disk Floats Counter Torrent.

(** What [announce] returned *)
Abbreviation Announced := (outcome Error (Stats * list SocketAddr)).
(** [Stats::default] *)
Definition Stats_default : Stats := {| interval := 0; leechers := 0; seeders := 0 |}.

Section start.
Context `{Build, BV : BitVecApi}.

(** A starting torrent: the channel of one response, whether [start] can still
    read it, the peers and the counts it has settled on, and what was sent to
    the mailbox of the torrent *)
Record Start := {
  first_response : list (list SocketAddr * Stats);
  listening : bool;
  settled : option (gset SocketAddr * Stats);
  mailbox : list TorrentMsg;
}.
(** [Torrent::start], for the trackers of the torrent *)
Definition start_new (trackers : list (list N)) : outcome Error Start :=
  match trackers with
  | [] => Err NoUDPTracker
  | _ => Ok {| first_response := []; listening := true; settled := None; mailbox := [] |}
  end.

Inductive StartEvent :=
  | Responds (r : Announced)
  | Receives
  | Elapses
  | Returns.

(** The task of a tracker: [try_send] takes a response when none waits and
    [start] has not returned; other responses go to the torrent. *)
Definition tracker_task (r : Announced) (s : Start) : Start :=
  match r with
  | Ok (st, peers) =>
      match listening s, first_response s with
      | true, [] => {| first_response := [(peers, st)]; listening := true; settled := settled s; mailbox := mailbox s |}
      | _, _ =>
          {| first_response := first_response s; listening := listening s; settled := settled s;
             mailbox := mailbox s ++ [MAddIdlePeers (list_to_set peers)] |}
      end
  | _ => s
  end.
(** [timeout(5 s, first_response_rx.recv())], and the return of [start], which
    drops the receiver and what is in its channel *)
Definition start_event (e : StartEvent) (s : Start) : Start :=
  match e with
  | Responds r => tracker_task r s
  | Receives =>
      match settled s, first_response s with
      | None, (peers, st) :: rest =>
          {| first_response := rest; listening := listening s; settled := Some (list_to_set peers, st); mailbox := mailbox s |}
      | _, _ => s
      end
  | Elapses =>
      match settled s, first_response s with
      | None, [] =>
          {| first_response := []; listening := listening s; settled := Some (∅, Stats_default); mailbox := mailbox s |}
      | _, _ => s
      end
  | Returns =>
      match settled s with
      | Some _ => {| first_response := []; listening := false; settled := settled s; mailbox := mailbox s |}
      | None => s
      end
  end.
Definition start_run (es : list StartEvent) (s : Start) : Start := foldl (fun s e => start_event e s) s es.

(** ** Facts *)

(** The peers of what was announced, of the mailbox, and all that is known *)
Definition announced (r : Announced) : gset SocketAddr :=
  match r with Ok (_, peers) => list_to_set peers | _ => ∅ end.
Definition responses (es : list StartEvent) : list Announced :=
  omap (fun e => match e with Responds r => Some r | _ => None end) es.
Definition all_announced (l : list Announced) : gset SocketAddr := ⋃ (announced <$> l).
Definition mailed (l : list TorrentMsg) : gset SocketAddr :=
  ⋃ ((fun m => match m with MAddIdlePeers l => l | _ => ∅ end) <$> l).
Definition known (s : Start) : gset SocketAddr :=
  ⋃ ((fun r => list_to_set r.1) <$> first_response s) ∪ from_option fst ∅ (settled s) ∪ mailed (mailbox s).
Definition only_peers (l : list TorrentMsg) : Prop := Forall (fun m => match m with MAddIdlePeers _ => True | _ => False end) l.

Lemma mailed_snoc l p : mailed (l ++ [MAddIdlePeers p]) = mailed l ∪ p.
Proof. unfold mailed. rewrite fmap_app, union_list_app_L. simpl. by rewrite (right_id_L ∅ (∪)). Qed.

Lemma all_snoc l r : all_announced (l ++ [r]) = all_announced l ∪ announced r.
Proof. unfold all_announced. rewrite fmap_app, union_list_app_L. simpl. by rewrite (right_id_L ∅ (∪)). Qed.

(** What holds in every run, after the responses [l]: a response is lost only
    when the torrent starts while it waits in the channel. *)
Record start_inv (l : list Announced) (s : Start) : Prop := {
  inv_one : length (first_response s) <= 1;
  inv_waits : Forall (fun r => Ok (r.2, r.1) ∈ l) (first_response s);
  inv_mail : only_peers (mailbox s);
  inv_returned : listening s = false → is_Some (settled s) ∧ first_response s = [];
  inv_settled : ∀ p st, settled s = Some (p, st) →
    (p = ∅ ∧ st = Stats_default) ∨ ∃ peers, Ok (st, peers) ∈ l ∧ p = list_to_set peers;
  inv_lost : ∃ lost, (listening s = true → lost = []) ∧ length lost <= 1 ∧ lost ⊆ l ∧
    all_announced l = known s ∪ all_announced lost;
}.

Lemma inv_responds l r s : start_inv l s → start_inv (l ++ [r]) (tracker_task r s).
Proof.
  intros [H1 Hw Hm Hr Hs (lost & Hl & Hn & Hsub & Hall)].
  assert (∀ (o : list SocketAddr * Stats), Ok (o.2, o.1) ∈ l → Ok (o.2, o.1) ∈ l ++ [r]) as Hmore by (intros o; set_solver).
  assert (Forall (fun o : list SocketAddr * Stats => Ok (o.2, o.1) ∈ l ++ [r]) (first_response s)) as Hw'.
  { eapply Forall_impl; [exact Hw|]. exact Hmore. }
  assert (∀ p st, settled s = Some (p, st) →
    (p = ∅ ∧ st = Stats_default) ∨ ∃ peers, Ok (st, peers) ∈ l ++ [r] ∧ p = list_to_set peers) as Hs'.
  { intros p st Hp. destruct (Hs p st Hp) as [?|(peers & ? & ?)]; [by left|right]. exists peers. set_solver. }
  destruct r as [[st peers]|e|]; [|split; try done; exists lost; rewrite all_snoc; simpl; rewrite (right_id_L ∅ (∪)); split_and!; [done|done|set_solver|done]..].
  destruct s as [ch on se mail]. simpl in *. destruct on.
  - destruct ch as [|c ch]; split; simpl; try done.
    + repeat constructor. set_solver.
    + exists lost. rewrite all_snoc, Hall. unfold known. simpl. split_and!; [done|done|set_solver|set_solver].
    + apply Forall_app. split; [done|by constructor].
    + exists lost. rewrite all_snoc, Hall. unfold known. simpl. rewrite mailed_snoc. split_and!; [done|done|set_solver|set_solver].
  - split; simpl; try done.
    + apply Forall_app. split; [done|by constructor].
    + exists lost. rewrite all_snoc, Hall. unfold known. simpl. rewrite mailed_snoc. split_and!; [done|done|set_solver|set_solver].
Qed.
Lemma inv_event l e s : start_inv l s → start_inv (l ++ responses [e]) (start_event e s).
Proof.
  intros Hi. destruct e as [r| | |]; [by apply inv_responds|..]; simpl; rewrite app_nil_r; destruct Hi as [H1 Hw Hm Hr Hs Hlost].
  - destruct s as [ch on [se|] mail], ch as [|[peers st] ch]; try by split. simpl in *.
    destruct ch; [|simpl in H1; lia]. apply Forall_cons in Hw as [Hw _]. split; cbn [first_response listening settled mailbox]; [simpl; lia|done|done|..].
    + intros Hon. by destruct (Hr Hon) as [[? ?] _].
    + intros p st' [= <- <-]. right. by exists peers.
    + destruct Hlost as (lost & ? & ? & ? & Hall). exists lost. split_and!; try done. rewrite Hall. unfold known. simpl. set_solver.
  - destruct s as [ch on [se|] mail], ch as [|r ch]; try by split. simpl in *. split; simpl; try done.
    intros p st [= <- <-]. by left.
  - destruct s as [ch on [se|] mail]; [|by split]. simpl in *. destruct Hlost as (lost & Hl & Hn & Hsub & Hall).
    destruct on.
    + split; simpl; try done; [lia|]. rewrite (Hl eq_refl) in *. exists ((fun r => Ok (r.2, r.1)) <$> ch).
      split_and!; [done|by rewrite length_fmap| |].
      * intros o (r & -> & Hr')%list_elem_of_fmap. by eapply Forall_forall in Hw.
      * rewrite Hall. unfold known, all_announced. simpl. rewrite <- list_fmap_compose. unfold compose. simpl. set_solver.
    + destruct (Hr eq_refl) as [_ ->]. split; simpl; try done. by exists lost.
Qed.
Lemma start_reached es s : start_inv [] s → start_inv (responses es) (start_run es s).
Proof.
  change (responses es) with ([] ++ responses es). generalize (@nil Announced) as l. revert s.
  induction es as [|e es IH]; intros s l Hi; [simpl; by rewrite app_nil_r|]. simpl start_run.
  assert (responses (e :: es) = responses [e] ++ responses es) as -> by (simpl; by destruct e).
  rewrite app_assoc. apply IH, inv_event, Hi.
Qed.

(** What a start settles on: the first response of all, or nothing when the time
    elapsed before any came *)
Definition successes (es : list StartEvent) : list (Stats * list SocketAddr) :=
  omap (fun r => match r with Ok x => Some x | _ => None end) (responses es).
Definition chosen (es : list StartEvent) (p : gset SocketAddr) (st : Stats) : Prop :=
  (p = ∅ ∧ st = Stats_default ∧ ∃ pre post, es = pre ++ Elapses :: post ∧ successes pre = []) ∨
  ∃ peers, head (successes es) = Some (st, peers) ∧ p = list_to_set peers.

Lemma successes_app es es' : successes (es ++ es') = successes es ++ successes es'.
Proof. unfold successes, responses. by rewrite !omap_app. Qed.
Lemma chosen_app es es' p st : chosen es p st → chosen (es ++ es') p st.
Proof.
  intros [(-> & -> & pre & post & -> & Hp)|(peers & Hh & ->)]; [left|right].
  - split_and!; [done..|]. exists pre, (post ++ es'). by rewrite <- app_assoc.
  - exists peers. split; [|done]. rewrite successes_app. by destruct (successes es).
Qed.
Lemma start_first es :
  let s := start_run es {| first_response := []; listening := true; settled := None; mailbox := [] |} in
  match settled s with
  | None => listening s = true ∧ first_response s = take 1 ((fun r => (r.2, r.1)) <$> successes es)
  | Some (p, st) => chosen es p st
  end.
Proof.
  induction es as [|e es IH] using rev_ind; [done|]. simpl in *. unfold start_run in *. rewrite foldl_app. simpl.
  destruct (foldl _ _ es) as [ch on se mail]. simpl in IH. destruct se as [[p st]|].
  { apply (chosen_app _ [e]) in IH. destruct e as [[[]| |]| | |], on, ch; exact IH. }
  destruct IH as [-> Hch].
  destruct e as [[[st peers]| |]| | |]; simpl; rewrite ?successes_app, ?app_nil_r, ?Hch.
  - destruct (successes es) as [|[st1 p1] l]; done.
  - rewrite ?app_nil_r. done.
  - rewrite ?app_nil_r. done.
  - destruct (successes es) as [|[st1 p1] l] eqn:Hl; simpl; [done|]. right. exists p1. by rewrite successes_app, Hl.
  - destruct (successes es) as [|[st1 p1] l] eqn:Hl; simpl; [|done]. left. split_and!; [done..|]. by exists es, [].
  - done.
Qed.

(** The mailbox is read by the torrent, of either kind. *)
Lemma mail_read {A} (h : TorrentMsg → action World Error A) l w :
  only_peers l →
  (∀ p w, ∃ a, h (MAddIdlePeers p) w = (Ok a, with_torrent (fun t => with_idle (idle_peers t ∪ p) t) w)) →
  ∃ w', forM (fun m => h m ≫= fun _ => mret tt) l w = (Ok tt, w') ∧ idle_peers (torrent w') = idle_peers (torrent w) ∪ mailed l.
Proof.
  intros Hl Hh. revert w. induction Hl as [|m l Hm _ IH]; intros w.
  { exists w. split; [done|]. unfold mailed. simpl. set_solver. }
  destruct m; try done. cbn [forM]. destruct (Hh l0 w) as [a Ha].
  destruct (IH (with_torrent (fun t => with_idle (idle_peers t ∪ l0) t) w)) as (w' & Hr & Hi).
  exists w'. split; [by rewrite bind_action, bind_action, Ha|]. rewrite Hi. unfold mailed. simpl. set_solver.
Qed.

(** C16. However the responses of the trackers come in, a torrent that starts has
    the counts and the peers of the first response, and of no other, or none if
    the time elapsed before any response, and reading its mailbox makes it know the peers of all the responses
    but one at most: a response that comes after the first and before the start
    returns is lost.  Without a UDP tracker it does not start, and while all
    trackers fail it waits for the time to elapse. *)
Theorem torrent_start_peers trackers es s0 idle st :
  start_new trackers = Ok s0 → settled (start_run es s0) = Some (idle, st) →
  start_new [] = Err NoUDPTracker ∧
  chosen es idle st ∧
  (listening (start_run es s0) = false →
    ∃ lost, length lost <= 1 ∧ lost ⊆ responses es ∧
      ∀ pick info from_bencode xt w, idle_peers (torrent w) = idle →
        (∃ w', forM (fun m => handle_metainfo pick info m ≫= fun _ => mret tt) (mailbox (start_run es s0)) w = (Ok tt, w') ∧
          idle_peers (torrent w') ∪ all_announced lost = all_announced (responses es)) ∧
        (∃ w', forM (fun m => handle_magnet from_bencode xt trackers m ≫= fun _ => mret tt) (mailbox (start_run es s0)) w = (Ok tt, w') ∧
          idle_peers (torrent w') ∪ all_announced lost = all_announced (responses es))) ∧
  (∀ r1 r2, start_run [Responds (Ok r1); Receives; Responds (Ok r2); Returns] s0 =
    {| first_response := []; listening := false; settled := Some (list_to_set r1.2, r1.1); mailbox := [] |}) ∧
  (∀ es, Forall (fun r => ∀ x, r ≠ Ok x) (responses es) → Elapses ∉ es → settled (start_run es s0) = None).
Proof.
  intros H0 Hs. assert (s0 = {| first_response := []; listening := true; settled := None; mailbox := [] |}) as -> by
    (destruct trackers; by simplify_eq/=).
  clear H0. destruct (start_reached es {| first_response := []; listening := true; settled := None; mailbox := [] |}) as
    [_ _ Hm Hr Hset (lost & _ & Hn & Hsub & Hall)].
  { split; simpl; [lia|constructor|by apply Forall_nil_2|done|done|]. exists []. split_and!; try done. simpl. lia. }
  pose proof (start_first es) as Hfirst. cbv zeta in Hfirst. rewrite Hs in Hfirst.
  set (s := start_run es _) in *. split; [done|]. split; [done|]. split; [|split].
  - intros Hl. destruct (Hr Hl) as [_ Hch]. exists lost. split_and!; [done|done|]. intros pick info from_bencode xt w Hw.
    assert (idle ∪ mailed (mailbox s) ∪ all_announced lost = all_announced (responses es)) as Heq.
    { rewrite Hall. unfold known. rewrite Hch, Hs. simpl. set_solver. }
    split; (edestruct (mail_read (A:=flow)) as (w' & Hrun & Hi); [exact Hm| |exists w'; split; [exact Hrun|by rewrite Hi, Hw]]);
      intros p w1; by exists Continue.
  - by intros [st1 p1] [st2 p2].
  - clear. set (s0 := {| first_response := []; listening := true; settled := None; mailbox := [] |}).
    intros es. assert (first_response s0 = [] ∧ settled s0 = None) as H0 by done. revert H0. generalize s0. clear s0.
    induction es as [|e es IH]; intros s [Hc Hset] Hf Hne; [done|]. simpl. apply IH.
    + destruct e as [r| | |]; simpl; rewrite ?Hset, ?Hc; [|done|exfalso; apply Hne; left|done].
      destruct r as [[st p]|e|]; [|done|done]. simpl in Hf. inversion_clear Hf as [|?? Hx]. by destruct (Hx (st, p)).
    + destruct e; [simpl in Hf; by inversion Hf|done..].
    + intros Hin. apply Hne. by right.
Qed.
End start.

Section witnesses.
#[local] Existing Instances dev list_bits.
Definition ex_stats : Stats := {| interval := 900; leechers := 3; seeders := 7 |}.
Definition ex_events : list StartEvent :=
  [Responds (Err TrackerResponse); Responds (Ok (ex_stats, [1; 2]%N)); Responds (Ok (Stats_default, [3]%N)); Receives;
   Responds (Ok (Stats_default, [4]%N)); Responds (Ok (Stats_default, [5]%N)); Returns; Responds (Ok (Stats_default, [6]%N))].

(** Of five responses the one of peer 4 is lost. *)
Lemma torrent_start_peers_witness :
  let s := start_run ex_events {| first_response := []; listening := true; settled := None; mailbox := [] |} in
  settled s = Some ({[1; 2]}%N, ex_stats) ∧ mailed (mailbox s) = {[3; 5; 6]}%N ∧
  ∃ lost, length lost <= 1 ∧ {[1; 2; 3; 5; 6]}%N ∪ all_announced lost = all_announced (responses ex_events).
Proof.
  intros s. assert (settled s = Some ({[1; 2]}%N, ex_stats)) as Hs by by vm_compute.
  split; [exact Hs|]. split; [by vm_compute|].
  destruct (torrent_start_peers [[]] ex_events _ {[1; 2]}%N ex_stats eq_refl Hs) as (_ & _ & Hl & _).
  destruct (Hl ltac:(by vm_compute)) as (lost & Hn & _ & _). exists [Ok (Stats_default, [4]%N)]. split; [simpl; lia|].
  by vm_compute.
Defined.
End witnesses.
