(* ===== verification/Cli.v ===== *)
(** [vcz-daemon/src/main.rs]: the process that is the daemon, or that sends the
    flags of the command line to the one that runs; and what the daemon reads
    of them. *)
From S2P Require Import Prelude Errors Bits Buffers Bencode BencodeText Core Metainfo Disk Floats Torrent DaemonWire.
From S2P Require Import DaemonWireFacts Magnet Config Daemon.

Section cli.
Context `{Build, B : BytesApi, MF : MagnetFields}.
Abbreviation cact := (action (list Message) Error).

(** [socket.send(m).await?]; [fails] tells which of the messages the socket does
    not take. *)
Definition socket_send (fails : nat → option Error) (m : Message) : cact unit :=
  getS ≫= fun sent =>
  match fails (length sent) with
  | Some e => lift (Err e)
  | None => modifyS (fun sent => sent ++ [m])
  end.

(** The messages of the flags *)
Definition send_flags (fails : nat → option Error) (c : ResolvedConfig) : cact unit :=
  match rc_magnet c with
  | Some magnet => lift (ok_or MagnetError (Magnet_new magnet)) ≫= fun m => socket_send fails (DmNewTorrent m)
  | None => mret tt
  end ≫= fun _ =>
  (if rc_stats c then socket_send fails DmPrintTorrentStatus else mret tt) ≫= fun _ =>
  (if rc_quit c then socket_send fails DmQuit else mret tt) ≫= fun _ =>
  match rc_pause c with
  | Some id =>
      match hex_decode id with
      | Some id => lift (or_panic (InfoHash_try_from id)) ≫= fun h => socket_send fails (DmTogglePause h)
      | None => mret tt
      end
  | None => mret tt
  end.

(** [main]: whether the address is free, how the daemon and its disk end if it
    is, and whether a connection is made after that *)
Definition cli_main (address_free : bool) (daemon_end : outcome Error unit) (connects : bool)
    (fails : nat → option Error) (c : ResolvedConfig) : cact unit :=
  (if address_free then lift daemon_end else mret tt) ≫= fun _ =>
  if connects then send_flags fails c else mret tt.

(** ** Facts *)
Context `{R1 : !RkyvApi TorrentState, R2 : !RkyvApi (list TorrentState)}.

(** The bytes of messages, one after the other *)
Definition wire_of (m : Message) : list N := match dm_body m with Some (id, p) => dm_frame id p | None => [] end.
Definition wire (l : list Message) : list N := concat (wire_of <$> l).
(** A message that is read alone, and one that leaves what follows it *)
Definition sized (m : Message) : Prop :=
  ∃ id p, dm_body m = Some (id, p) ∧ dm_wf m ∧ (1 + len p <= u32_max)%N.
Definition whole (m : Message) : Prop :=
  ∃ id p, dm_body m = Some (id, p) ∧ dm_wf m ∧ (1 + len p <= u32_max)%N ∧ dm_greedy id = false.

Lemma decode_empty b : view b = [] → ∃ b', DaemonCodec_decode b = (Ok None, b') ∧ view b' = [].
Proof.
  intros Hv. exists b. split; [|done]. unfold DaemonCodec_decode. rewrite bind_getS. unfold remaining. by rewrite Hv.
Qed.
Lemma read_whole l b :
  Forall whole l → view b = wire l → ∃ b', read_messages (S (length l)) b = (Ok (l, true), b') ∧ view b' = [].
Proof.
  intros Hl. revert b. induction Hl as [|m l (id & p & Hb & Hw & Hs & Hg) _ IH]; intros b Hv.
  - destruct (decode_empty b Hv) as (b' & Hd & Hv'). exists b'. cbn [read_messages]. by rewrite bind_action, Hd.
  - unfold wire in Hv. cbn [fmap list_fmap concat] in Hv. unfold wire_of in Hv at 1. rewrite Hb in Hv.
    destruct (dm_decode_head id p _ b Hs Hv) as (b1 & Hv1 & Hd).
    destruct (decode_message_sized m id p _ b1 Hb Hw Hg Hv1) as (b2 & Hd2 & Hv2).
    destruct (IH b2 Hv2) as (b' & Hr & Hv'). exists b'. split; [|done].
    change (read_messages (S (length (m :: l)))) with (DaemonCodec_decode ≫= fun o => match o with
      | None => mret ([], true) | Some m => read_messages (S (length l)) ≫= fun r => mret (m :: r.1, r.2) end).
    rewrite bind_action, Hd, bind_action, Hd2. cbn [mret action_ret]. by rewrite bind_action, Hr.
Qed.
(** A link that is followed by anything takes it all. *)
Lemma read_link m rest b fuel :
  (1 + len (Magnet_to_string m) <= u32_max)%N → view b = wire_of (DmNewTorrent m) ++ rest →
  match read_messages (S (S fuel)) b with
  | (Ok (l, _), b') => view b' = [] ∧ ∃ m', l = [DmNewTorrent m'] ∧ Magnet_new (Magnet_to_string m ++ rest) = Some m'
  | (Err _, b') => view b' = []
  | (Panic, _) => False
  end.
Proof.
  intros Hs Hv. destruct (dm_decode_head IdNewTorrent _ rest b Hs Hv) as (b1 & Hv1 & Hd).
  change (read_messages (S (S fuel))) with (DaemonCodec_decode ≫= fun o => match o with
    | None => mret ([], true) | Some m => read_messages (S fuel) ≫= fun r => mret (m :: r.1, r.2) end).
  rewrite bind_action, Hd, bind_action. cbn [decode_message]. rewrite bind_action.
  destruct (take_all_view b1) as (b2 & Ht & Hv2). rewrite Ht, bind_action, Hv1.
  destruct (utf8_valid (Magnet_to_string m ++ rest)); cbn [mret action_ret lift]; [|done]. rewrite bind_action.
  destruct (Magnet_new (Magnet_to_string m ++ rest)) as [m'|] eqn:Hm; cbn [ok_or lift]; [|done]. cbn [mret action_ret].
  destruct (decode_empty b2 Hv2) as (b3 & Hd3 & Hv3). cbn [read_messages]. rewrite !bind_action, Hd3. cbn [mret action_ret].
  split; [done|]. by exists m'.
Qed.

(** What the flags mean *)
Definition flags (c : ResolvedConfig) : list Message :=
  option_list (DmNewTorrent <$> (rc_magnet c ≫= Magnet_new)) ++
  (if rc_stats c then [DmPrintTorrentStatus] else []) ++ (if rc_quit c then [DmQuit] else []) ++
  option_list (DmTogglePause <$> (rc_pause c ≫= hex_decode)).
Definition takes_all : nat → option Error := fun _ => None.
Lemma send_taken m l : socket_send takes_all m l = (Ok tt, l ++ [m]).
Proof. done. Qed.
Lemma send_flags_run c l :
  send_flags takes_all c l =
    match rc_magnet c ≫= Magnet_new, rc_magnet c with
    | None, Some _ => (Err MagnetError, l)
    | _, _ =>
        match rc_pause c ≫= hex_decode with
        | Some id => if (len id =? 20)%N then (Ok tt, l ++ flags c)
                     else (Panic, l ++ option_list (DmNewTorrent <$> (rc_magnet c ≫= Magnet_new)) ++
                       (if rc_stats c then [DmPrintTorrentStatus] else []) ++ (if rc_quit c then [DmQuit] else []))
        | None => (Ok tt, l ++ flags c)
        end
    end.
Proof.
  unfold send_flags, flags. rewrite bind_action.
  destruct (rc_magnet c) as [text|]; simpl; [destruct (Magnet_new text) as [m|]; simpl; [|done]|];
    (rewrite bind_action; destruct (rc_stats c); cbn [mret action_ret]; rewrite ?send_taken, bind_action;
     destruct (rc_quit c); cbn [mret action_ret]; rewrite ?send_taken;
     (destruct (rc_pause c) as [id|]; simpl; [destruct (hex_decode id) as [b|]; simpl|]);
     unfold InfoHash_try_from; try destruct (len b =? 20)%N; simpl; rewrite ?bind_action; cbn [lift]; rewrite ?send_taken;
     simpl; rewrite ?app_nil_r, <- ?app_assoc; done).
Qed.
Lemma flags_whole c :
  rc_magnet c = None → (∀ id b, rc_pause c = Some id → hex_decode id = Some b → len b = 20%N) → Forall whole (flags c).
Proof.
  intros Hm Hp. unfold flags. rewrite Hm. simpl. repeat apply Forall_app_2.
  - destruct (rc_stats c); repeat constructor. by exists IdPrintTorrentStatus, [].
  - destruct (rc_quit c); repeat constructor. by exists IdQuit, [].
  - destruct (rc_pause c) as [id|]; simpl; [|constructor]. destruct (hex_decode id) as [b|] eqn:Hb; simpl; repeat constructor.
    exists IdTogglePause, b. split_and!; [done|by eapply Hp| |done]. rewrite (Hp id b eq_refl Hb). done.
Qed.

(** The flags given to a process that finds a daemon are sent to it in a fixed
    order; a bad link ends the process before anything is sent, a bad hash of a
    torrent to pause makes it panic after the rest.  Without a link the daemon
    reads exactly these messages, also when they come in one piece.  With one,
    what comes in the same piece is read as part of the link and is lost.  The
    process that becomes the daemon sends nothing, unless another daemon takes
    its place. *)
Theorem cli_flags_arrive c :
  ((∀ text, rc_magnet c = Some text → is_Some (Magnet_new text)) →
   (∀ id b, rc_pause c = Some id → hex_decode id = Some b → len b = 20%N) →
   cli_main false (Ok tt) true takes_all c [] = (Ok tt, flags c) ∧
   (rc_magnet c = None → ∀ b, view b = wire (flags c) →
     ∃ b', read_messages (S (length (flags c))) b = (Ok (flags c, true), b') ∧ view b' = []) ∧
   (∀ m rest b fuel, flags c = DmNewTorrent m :: rest → (1 + len (Magnet_to_string m) <= u32_max)%N → view b = wire (flags c) →
     ∀ l stop b', read_messages (S (S fuel)) b = (Ok (l, stop), b') → view b' = [] ∧ (DmQuit ∉ l) ∧ length l = 1)) ∧
  (∀ text, rc_magnet c = Some text → Magnet_new text = None → cli_main false (Ok tt) true takes_all c [] = (Err MagnetError, [])) ∧
  (∀ id b, rc_magnet c = None → rc_pause c = Some id → hex_decode id = Some b → len b ≠ 20%N →
    (cli_main false (Ok tt) true takes_all c []).1 = Panic) ∧
  (∀ e fails, (cli_main true e false fails c []).2 = []).
Proof.
  assert (∀ l, cli_main false (Ok tt) true takes_all c l = send_flags takes_all c l) as Hmain by done.
  split; [|split; [|split]].
  - intros Hm Hp. split; [|split].
    + rewrite Hmain, send_flags_run. destruct (rc_magnet c) as [text|] eqn:Ht; simpl.
      * destruct (Hm text eq_refl) as [m ->]. destruct (rc_pause c ≫= hex_decode) as [b|] eqn:Hb; [|done].
        apply bind_Some in Hb as (id & Hid & Hb). by rewrite (proj2 (N.eqb_eq _ _) (Hp id b Hid Hb)).
      * destruct (rc_pause c ≫= hex_decode) as [b|] eqn:Hb; [|done].
        apply bind_Some in Hb as (id & Hid & Hb). by rewrite (proj2 (N.eqb_eq _ _) (Hp id b Hid Hb)).
    + intros Hn b Hv. apply read_whole; [|done]. by apply flags_whole.
    + intros m rest b fuel Hf Hs Hv l stop b' Hr. rewrite Hf in Hv.
      pose proof (read_link m (wire rest) b fuel Hs Hv) as Hl. rewrite Hr in Hl. destruct Hl as (? & m' & -> & _).
      split_and!; [done|by intros [?|?%elem_of_nil]%elem_of_cons|done].
  - intros text Ht Hn. rewrite Hmain, send_flags_run, Ht. simpl. by rewrite Hn.
  - intros id b Hn Hid Hb Hl. rewrite Hmain, send_flags_run, Hn, Hid. simpl. rewrite Hb.
    by rewrite (proj2 (N.eqb_neq _ _) Hl).
  - intros e fails. unfold cli_main. rewrite bind_action. unfold lift. by destruct e.
Qed.
End cli.

(** ** At a concrete configuration *)
Section witnesses.
#[local] Existing Instances dev list_bytes ex_magnet ex_states ex_state.
#[local] Instance cli_fields : MagnetFields.
Proof.
  refine {| hash := fun _ => None; display_name := fun _ => None; trackers := fun _ => []; url_decode := fun _ => None;
    hex_decode := fun s => if decide (s = replicate 40 48%N) then Some (replicate 20 0%N) else None |}.
  intros s b. case_decide as Hs; [|done]. subst s. by intros [= <-].
Defined.
Definition ex_flags (magnet : option (list N)) : ResolvedConfig := {|
  rc_download_dir := []; rc_metadata_dir := []; rc_config_file := []; rc_daemon_addr := 0%N; rc_local_peer_port := 0;
  rc_max_global_peers := 500; rc_max_torrent_peers := 50; rc_is_ipv6 := false; rc_log := false;
  rc_quit_after_complete := false; rc_key := 0; rc_magnet := magnet; rc_stats := true;
  rc_pause := Some (replicate 40 48%N); rc_quit := true |}.

(** All flags without a link, and with one *)
Lemma cli_flags_arrive_witness :
  (∃ b', read_messages 4 (wire (flags (ex_flags None))) =
    (Ok ([DmPrintTorrentStatus; DmQuit; DmTogglePause (replicate 20 0%N)], true), b')) ∧
  cli_main false (Ok tt) true takes_all (ex_flags (Some ex_link)) [] =
    (Ok tt, [DmNewTorrent tt; DmPrintTorrentStatus; DmQuit; DmTogglePause (replicate 20 0%N)]).
Proof.
  split.
  - destruct (cli_flags_arrive (ex_flags None)) as [Hall _].
    destruct Hall as (_ & Hread & _); [done| |].
    { intros id b [= <-]. cbn. case_decide; [|done]. by intros [= <-]. }
    destruct (Hread eq_refl (wire (flags (ex_flags None))) ltac:(by vm_compute)) as (b' & Hr & _). exists b'. exact Hr.
  - destruct (cli_flags_arrive (ex_flags (Some ex_link))) as [Hall _].
    destruct Hall as (Hrun & _); [intros text [= <-]; by eexists| |exact Hrun].
    intros id b [= <-]. cbn. case_decide; [|done]. by intros [= <-].
Defined.
End witnesses.
