(* ===== verification/Log.v ===== *)
(** [deduped_layer.rs]: the layer that prints events with the fields of their
    span, each once.  Names and values are bytes; the values come formatted. *)
From S2P Require Import Prelude Bencode.

(** [tracing::Level], the more verbose the greater *)
Inductive Level := LvError | LvWarn | LvInfo | LvDebug | LvTrace.
Definition verbosity (l : Level) : N :=
  match l with LvError => 1 | LvWarn => 2 | LvInfo => 3 | LvDebug => 4 | LvTrace => 5 end.
Abbreviation text := (list N).

(** [SpanData] *)
Record SpanData := { sd_fields : gmap text text; sd_order : list text }.
(** [MutableLayer]; [max_level] is a [LevelFilter], 0 is [OFF]. *)
Record MutableLayer := { spans : gmap N SpanData; max_level : N }.
(** [MutableLayer::new], [with_max_level] *)
Definition MutableLayer_new : MutableLayer := {| spans := ∅; max_level := verbosity LvInfo |}.
Definition with_max_level (level : N) (l : MutableLayer) : MutableLayer := {| spans := spans l; max_level := level |}.
Definition with_spans (f : gmap N SpanData → gmap N SpanData) (l : MutableLayer) : MutableLayer :=
  {| spans := f (spans l); max_level := max_level l |}.

(** [SpanCreationVisitor] and [FieldVisitor], on the fields in the order in which
    they are recorded *)
Definition creation_visit (attrs : list (text * text)) : SpanData := {|
  sd_order := attrs.*1;
  sd_fields := foldl (fun m e => <[e.1 := e.2]> m) ∅ attrs |}.
Definition field_visit (values : list (text * text)) (d : SpanData) : SpanData := {|
  sd_order := sd_order d;
  sd_fields := foldl (fun m e => <[e.1 := e.2]> m) (sd_fields d) values |}.
(** [EventVisitor]: the fields, and the last message *)
Definition event_visit (values : list (text * text)) : list (text * text) * option text :=
  foldl (fun v e => if decide (e.1 = ascii "message") then (v.1, Some e.2) else (v.1 ++ [e], v.2)) ([], None) values.

(** [on_new_span], [on_record], [on_close] *)
Definition on_new_span (id : N) (attrs : list (text * text)) (l : MutableLayer) : MutableLayer :=
  with_spans <[id := creation_visit attrs]> l.
Definition on_record (id : N) (values : list (text * text)) (l : MutableLayer) : MutableLayer :=
  with_spans (alter (field_visit values) id) l.
Definition on_close (id : N) (l : MutableLayer) : MutableLayer := with_spans (delete id) l.

(** The fields of an event in a span: those of the span in its order, with the
    values of the event where it has them, and then those of the event that the
    span does not have *)
Definition event_map (fields : list (text * text)) : gmap text text := foldl (fun m e => <[e.1 := e.2]> m) ∅ fields.
Definition span_part (d : SpanData) (fields : list (text * text)) : list (text * text) :=
  omap (fun name =>
    match event_map fields !! name with
    | Some value => Some (name, value)
    | None => pair name <$> sd_fields d !! name
    end) (sd_order d).
Definition final_fields (d : option SpanData) (fields : list (text * text)) : list (text * text) :=
  match d with
  | Some d => span_part d fields ++ filter (fun e => e.1 ∉ sd_order d) fields
  | None => fields
  end.

(** [Vec::join] *)
Definition join (sep : text) (l : list text) : text :=
  match l with [] => [] | x :: l => x ++ concat ((app sep) <$> l) end.
Definition fields_str (l : list (text * text)) : text :=
  match l with
  | [] => []
  | _ => ascii " " ++ join (ascii " ") ((fun e => e.1 ++ [61; 34]%N ++ e.2 ++ [34]%N) <$> l)
  end.
(** An escape sequence of the terminal *)
Definition esc (s : text) : text := 27%N :: s.
Definition RESET : text := esc (ascii "[0m").
Definition level_color (l : Level) : text :=
  esc (match l with
       | LvError => ascii "[31m" | LvWarn => ascii "[33m" | LvInfo => ascii "[32m" | LvDebug => ascii "[34m"
       | LvTrace => ascii "[35m"
       end).
Definition level_str (l : Level) : text :=
  match l with
  | LvError => ascii "ERROR" | LvWarn => ascii "WARN" | LvInfo => ascii "INFO" | LvDebug => ascii "DEBUG"
  | LvTrace => ascii "TRACE"
  end.

(** [on_event]: the line that is printed, if one is; the current span has an id
    and a name. *)
Definition on_event (lvl : Level) (current : option (N * text)) (values : list (text * text)) (l : MutableLayer) : option text :=
  if (max_level l <? verbosity lvl)%N then None
  else
    let data := current ≫= fun c => spans l !! c.1 in
    let '(fields, message) := event_visit values in
    let span_name := default [] (snd <$> current) in
    let name_part := match span_name with [] => [] | _ => ascii " " ++ esc (ascii "[1m") ++ span_name ++ ascii ":" ++ esc (ascii "[22m") end in
    Some (level_color lvl ++ level_str lvl ++ RESET ++ name_part ++ fields_str (final_fields data fields) ++ ascii " " ++ default [] message).

(** ** Facts *)

(** What happens to a layer *)
Inductive LogOp :=
  | LgNewSpan (id : N) (attrs : list (text * text))
  | LgRecord (id : N) (values : list (text * text))
  | LgClose (id : N).
Definition log_op (l : MutableLayer) (o : LogOp) : MutableLayer :=
  match o with
  | LgNewSpan id attrs => on_new_span id attrs l
  | LgRecord id values => on_record id values l
  | LgClose id => on_close id l
  end.
Definition log_run (ops : list LogOp) (l : MutableLayer) : MutableLayer := foldl log_op l ops.

(** The last value of a name *)
Definition last_of (name : text) (l : list (text * text)) : option text :=
  last (omap (fun e => if decide (e.1 = name) then Some e.2 else None) l).
Lemma lookup_recorded (name : text) (l : list (text * text)) (m : gmap text text) :
  foldl (fun m e => <[e.1 := e.2]> m) m l !! name = match last_of name l with Some v => Some v | None => m !! name end.
Proof.
  revert m. induction l as [|[k v] l IH] using rev_ind; intros m; [done|].
  rewrite foldl_app. simpl. unfold last_of. rewrite omap_app. simpl. case_decide as Hk.
  - subst k. by rewrite lookup_insert_eq, last_snoc.
  - rewrite lookup_insert_ne by done. rewrite app_nil_r. apply IH.
Qed.
Lemma last_of_app name l k : last_of name (l ++ k) = match last_of name k with Some v => Some v | None => last_of name l end.
Proof. unfold last_of. by rewrite omap_app, last_app. Qed.
Lemma last_of_Some name l v : last_of name l = Some v → name ∈ l.*1.
Proof.
  unfold last_of. intros Hl%last_Some_elem_of. apply list_elem_of_omap in Hl as ([k w] & Hin & Hv).
  simpl in Hv. case_decide; [|done]. subst k. apply list_elem_of_fmap. by exists (name, w).
Qed.
Lemma last_of_None name l : name ∈ l.*1 → is_Some (last_of name l).
Proof.
  intros ([k v] & -> & Hin)%list_elem_of_fmap. apply last_is_Some. simpl. intros Hn.
  enough (v ∈ (@nil text)) as He by by apply elem_of_nil in He. rewrite <- Hn. apply list_elem_of_omap.
  exists (k, v). split; [done|]. by rewrite decide_True.
Qed.

Lemma last_of_NoDup name v l : NoDup l.*1 → (name, v) ∈ l ↔ last_of name l = Some v.
Proof.
  intros Hn. split.
  - intros Hin. destruct (last_of_None name l) as [w Hw]; [apply list_elem_of_fmap; by exists (name, v)|]. rewrite Hw. f_equal.
    unfold last_of in Hw. apply last_Some_elem_of, list_elem_of_omap in Hw as ([k x] & Hin' & Hx). simpl in Hx. case_decide; [|done].
    simplify_eq. apply list_elem_of_lookup in Hin as [i Hi]. apply list_elem_of_lookup in Hin' as [j Hj].
    assert (i = j) as -> by (eapply (NoDup_lookup _ _ _ name Hn); rewrite list_lookup_fmap; [by rewrite Hi|by rewrite Hj]). congruence.
  - unfold last_of. intros Hl%last_Some_elem_of. apply list_elem_of_omap in Hl as ([k x] & Hin & Hx). simpl in Hx.
    case_decide; [|done]. by simplify_eq.
Qed.
Lemma omap_same {A B} (f g : A → option B) (l : list A) : (∀ x, f x = g x) → omap f l = omap g l.
Proof. intros Hf. induction l as [|x l IH]; [done|]. simpl. rewrite Hf. destruct (g x); [f_equal|]; exact IH. Qed.
(** The pairs of names and their values *)
Lemma pairs_names (f : text → option text) (l : list text) : (∀ x, x ∈ l → is_Some (f x)) → (omap (fun x => pair x <$> f x) l).*1 = l.
Proof.
  induction l as [|x l IH]; intros Hf; [done|]. simpl. destruct (Hf x) as [v ->]; [left|]. simpl. f_equal.
  apply IH. intros y Hy. apply Hf. by right.
Qed.
Lemma elem_of_pairs (f : text → option text) (l : list text) name v : (name, v) ∈ omap (fun x => pair x <$> f x) l ↔ name ∈ l ∧ f name = Some v.
Proof.
  rewrite list_elem_of_omap. split.
  - intros (x & Hx & Hf). destruct (f x) eqn:He; [|done]. by injection Hf as <- <-.
  - intros [Hl Hf]. exists name. by rewrite Hf.
Qed.
Lemma filter_names (l : list (text * text)) (names : list text) :
  (filter (fun e => e.1 ∉ names) l).*1 = filter (fun name => name ∉ names) l.*1.
Proof. induction l as [|[k v] l IH]; [done|]. rewrite fmap_cons, !filter_cons. simpl. case_decide; simpl; [f_equal|]; exact IH. Qed.

(** The values recorded in a span *)
Definition recorded (id : N) (ops : list LogOp) : list (text * text) :=
  concat (omap (fun o => match o with LgRecord i values => if decide (i = id) then Some values else None | _ => None end) ops).
(** The span is neither closed nor its id given to another. *)
Definition open_during (id : N) (ops : list LogOp) : Prop :=
  Forall (fun o => match o with LgNewSpan i _ | LgClose i => i ≠ id | LgRecord _ _ => True end) ops.
Lemma field_visit_app a b d : field_visit (a ++ b) d = field_visit b (field_visit a d).
Proof. unfold field_visit. simpl. by rewrite foldl_app. Qed.
Lemma log_run_span id ops l : open_during id ops → spans (log_run ops l) !! id = field_visit (recorded id ops) <$> spans l !! id.
Proof.
  intros Ho. revert l. induction Ho as [|o ops Ho _ IH]; intros l.
  { destruct (spans l !! id) as [[f o]|] eqn:Hl; simpl; by rewrite Hl. }
  simpl log_run. rewrite IH. destruct o as [i attrs|i values|i]; simpl.
  - by rewrite lookup_insert_ne.
  - unfold recorded. simpl. case_decide as Hi; simpl.
    + subst i. rewrite lookup_alter_eq. destruct (spans l !! id) as [d|]; [|done]. simpl. by rewrite field_visit_app.
    + by rewrite lookup_alter_ne.
  - by rewrite lookup_delete_ne.
Qed.

(** In an open span an event shows each name once: the names the span was
    created with, in that order, and then those only the event has.  A name has
    the value the event gives it, or the last one recorded in the span.  A name
    that was recorded later, and was not given when the span was created, is
    not shown.  Out of any span the event shows its own fields. *)
Theorem log_fields_merged l0 id attrs ops fields :
  open_during id ops → NoDup attrs.*1 → NoDup fields.*1 →
  let d := spans (log_run (LgNewSpan id attrs :: ops) l0) !! id in
  let shown := final_fields d fields in
  NoDup shown.*1 ∧
  shown.*1 = attrs.*1 ++ filter (fun name => name ∉ attrs.*1) fields.*1 ∧
  (∀ name v, (name, v) ∈ shown ↔
    (name ∈ attrs.*1 ∨ name ∈ fields.*1) ∧
    Some v = match last_of name fields with Some v => Some v | None => last_of name (attrs ++ recorded id ops) end) ∧
  final_fields (spans (log_run (LgNewSpan id attrs :: ops ++ [LgClose id]) l0) !! id) fields = fields.
Proof.
  intros Ho Ha Hf d shown. assert (d = Some (field_visit (recorded id ops) (creation_visit attrs))) as Hd.
  { unfold d. change (log_run (LgNewSpan id attrs :: ops) l0) with (log_run ops (on_new_span id attrs l0)).
    rewrite log_run_span by done. simpl. by rewrite lookup_insert_eq. }
  set (val := fun name => match last_of name fields with Some v => Some v | None => last_of name (attrs ++ recorded id ops) end).
  assert (shown = omap (fun name => pair name <$> val name) attrs.*1 ++ filter (fun e => e.1 ∉ attrs.*1) fields) as Hshown.
  { unfold shown. rewrite Hd. simpl. f_equal. unfold span_part. simpl. apply omap_same. intros name. unfold event_map.
    rewrite !lookup_recorded, lookup_empty. unfold val. destruct (last_of name fields); [done|].
    rewrite last_of_app. by destruct (last_of name (recorded id ops)), (last_of name attrs). }
  assert (∀ name, name ∈ attrs.*1 → is_Some (val name)) as Hval.
  { intros name Hn. unfold val. case_match; [by eexists|]. rewrite last_of_app. case_match; [by eexists|by apply last_of_None]. }
  assert (shown.*1 = attrs.*1 ++ filter (fun name => name ∉ attrs.*1) fields.*1) as Hnames.
  { rewrite Hshown, fmap_app, pairs_names by done. f_equal. apply filter_names. }
  assert (∀ name v, (name, v) ∈ shown ↔ (name ∈ attrs.*1 ∨ name ∈ fields.*1) ∧ Some v = val name) as Hspec.
  { intros name v. rewrite Hshown, elem_of_app, elem_of_pairs, list_elem_of_filter, (last_of_NoDup _ _ fields) by done.
    simpl. unfold val. split.
    - intros [[Hn Hv]|[Hn Hv]]; [by auto|]. split; [right; by eapply last_of_Some|]. by rewrite Hv.
    - intros [Hn Hv]. destruct (decide (name ∈ attrs.*1)) as [Hin|Hin]; [by left|right]. split; [done|].
      destruct Hn as [|Hn]; [done|]. destruct (last_of_None name fields Hn) as [w Hw]. by rewrite Hw in *. }
  split_and!; [|exact Hnames|exact Hspec|].
  - rewrite Hnames. apply NoDup_app. split_and!; [done|by intros x Hx [? _]%list_elem_of_filter|by apply NoDup_filter].
  - rewrite app_comm_cons. unfold log_run. rewrite foldl_app. simpl. by rewrite lookup_delete_eq.
Qed.

(** A span whose [ih] is recorded again and whose [peers] are recorded later *)
Definition ex_attrs : list (text * text) := [(ascii "name", ascii "a"); (ascii "ih", ascii "x")].
Definition ex_ops : list LogOp := [LgRecord 1 [(ascii "ih", ascii "y"); (ascii "peers", ascii "3")]; LgClose 2].
Definition ex_event : list (text * text) := [(ascii "n", ascii "1"); (ascii "name", ascii "b")].
Lemma log_fields_merged_witness :
  let d := spans (log_run (LgNewSpan 1 ex_attrs :: ex_ops) MutableLayer_new) !! 1%N in
  final_fields d ex_event = [(ascii "name", ascii "b"); (ascii "ih", ascii "y"); (ascii "n", ascii "1")] ∧
  NoDup (final_fields d ex_event).*1 ∧
  on_event LvInfo (Some (1%N, ascii "torrent")) ((ascii "message", ascii "hi") :: ex_event)
    (log_run (LgNewSpan 1 ex_attrs :: ex_ops) MutableLayer_new) =
  Some (esc (ascii "[32m") ++ ascii "INFO" ++ esc (ascii "[0m") ++ ascii " " ++ esc (ascii "[1m") ++ ascii "torrent:" ++ esc (ascii "[22m") ++
    ascii " name=" ++ [34; 98; 34]%N ++ ascii " ih=" ++ [34; 121; 34]%N ++ ascii " n=" ++ [34; 49; 34]%N ++ ascii " hi").
Proof.
  intros d. split; [by vm_compute|]. split; [|by vm_compute].
  apply (log_fields_merged MutableLayer_new 1 ex_attrs ex_ops ex_event).
  - by repeat constructor.
  - by apply (bool_decide_unpack _); vm_compute.
  - by apply (bool_decide_unpack _); vm_compute.
Defined.
