(* ===== verification/Holepunch.v ===== *)
(** [extensions/holepunch]: the messages of the hole punching extension, of which
    none can be read yet.  [rkyv]'s bytes of a message are an argument. *)
From S2P Require Import Prelude Errors Core.

Inductive HolepunchMsgType := Rendezvous | HpConnect | HpError.
Inductive HolepunchErrorCodes := HpNoError | NoSuchPeer | NotConnected | NoSupport | NoSelf.
Inductive HolepunchAddrType := TyIpv4 | TyIpv6.
(** [HolepunchAddr], a number of 32 or of 128 bits *)
Inductive HolepunchAddr := HpIpv4 (n : N) | HpIpv6 (n : N).
(** [IpAddr] by its octets, [SocketAddr] *)
Inductive IpAddr := IpV4 (octets : list N) | IpV6 (octets : list N).
Record Endpoint := { ep_ip : IpAddr; ep_port : N }.
Definition ip_ok (ip : IpAddr) : Prop :=
  match ip with IpV4 o => length o = 4 ∧ bytes_ok o | IpV6 o => length o = 16 ∧ bytes_ok o end.

(** [From<HolepunchAddr> for IpAddr], [From<SocketAddr> for HolepunchAddr] *)
Definition ip_of_addr (a : HolepunchAddr) : IpAddr :=
  match a with HpIpv6 ip => IpV6 (be_bytes 16 ip) | HpIpv4 ip => IpV4 (be_bytes 4 ip) end.
Definition addr_of_endpoint (e : Endpoint) : HolepunchAddr :=
  match ep_ip e with IpV4 o => HpIpv4 (be_val o) | IpV6 o => HpIpv6 (be_val o) end.

Record Holepunch := {
  hp_msg_type : HolepunchMsgType;
  hp_addr_type : HolepunchAddrType;
  hp_addr : HolepunchAddr;
  hp_port : N;
  hp_err_code : HolepunchErrorCodes;
}.
Definition HOLEPUNCH_ID : N := 4.
Definition HOLEPUNCH_LEN : N := 21.

(** [Holepunch::error], [connect], [rendezvous] *)
Definition hp_error (h : Holepunch) (err_code : HolepunchErrorCodes) : Holepunch := {|
  hp_msg_type := hp_msg_type h; hp_addr_type := hp_addr_type h; hp_addr := hp_addr h; hp_port := hp_port h;
  hp_err_code := err_code |}.
Definition hp_connect (addr : HolepunchAddr) (port : N) : Holepunch := {|
  hp_msg_type := HpConnect; hp_addr_type := match addr with HpIpv4 _ => TyIpv4 | HpIpv6 _ => TyIpv6 end;
  hp_addr := addr; hp_port := port; hp_err_code := HpNoError |}.
Definition hp_rendezvous (addr : Endpoint) : Holepunch :=
  match ep_ip addr with
  | IpV6 o => {| hp_msg_type := Rendezvous; hp_addr_type := TyIpv6; hp_addr := HpIpv6 (be_val o);
                 hp_port := ep_port addr; hp_err_code := HpNoError |}
  | IpV4 o => {| hp_msg_type := Rendezvous; hp_addr_type := TyIpv4; hp_addr := HpIpv4 (be_val o);
                 hp_port := ep_port addr; hp_err_code := HpNoError |}
  end.
(** [Holepunch::deserialize], by [rkyv]'s unchecked access *)
Definition hp_deserialize (access : list N → Holepunch) (bytes : list N) : outcome Error Holepunch :=
  if (len bytes =? HOLEPUNCH_LEN)%N then Ok (access bytes) else Err TrackerResponse.
(** [TryFrom<ExtendedMessage> for Holepunch], which ends in [todo!] *)
Definition hp_try_from (access : list N → Holepunch) (value : ExtendedMessage) : outcome Error Holepunch :=
  if negb (ext_id value =? HOLEPUNCH_ID)%N then Err (WrongExtensionId HOLEPUNCH_ID (ext_id value))
  else _ ← hp_deserialize access (ext_payload value); Panic.

(** The types of a message agree with its address. *)
Definition hp_ok (h : Holepunch) : Prop :=
  hp_addr_type h = match hp_addr h with HpIpv4 _ => TyIpv4 | HpIpv6 _ => TyIpv6 end.

(** The endpoint of a message is the one it was made for, and its types agree; no
    message is ever read: it is an error, or a panic when its id and its length
    are right. *)
Theorem holepunch_messages e addr port h access value :
  ip_ok (ep_ip e) →
  (hp_ok (hp_rendezvous e) ∧ ip_of_addr (hp_addr (hp_rendezvous e)) = ep_ip e ∧ hp_port (hp_rendezvous e) = ep_port e) ∧
  (hp_ok (hp_connect addr port) ∧ ip_of_addr (addr_of_endpoint e) = ep_ip e) ∧
  (hp_ok h → ∀ code, hp_ok (hp_error h code)) ∧
  hp_try_from access value =
    (if negb (ext_id value =? HOLEPUNCH_ID)%N then Err (WrongExtensionId HOLEPUNCH_ID (ext_id value))
     else if (len (ext_payload value) =? HOLEPUNCH_LEN)%N then Panic else Err TrackerResponse).
Proof.
  intros Hip. assert (∀ o n, length o = n → bytes_ok o → be_bytes n (be_val o) = o) as Hback by (intros o n <-; apply be_bytes_be_val).
  split_and!; try done.
  - unfold hp_rendezvous, hp_ok. by destruct (ep_ip e).
  - unfold hp_rendezvous. destruct (ep_ip e) as [o|o]; destruct Hip; cbn -[be_bytes be_val]; by rewrite Hback.
  - unfold hp_rendezvous. by destruct (ep_ip e).
  - unfold addr_of_endpoint. destruct (ep_ip e) as [o|o]; destruct Hip; cbn -[be_bytes be_val]; by rewrite Hback.
  - unfold hp_try_from, hp_deserialize. destruct (negb _); [done|]. by destruct (_ =? _)%N.
Qed.
