(* ===== verification/Text.v ===== *)
(** The texts a user sees: sizes ([utils.rs]), the status of a torrent
    ([torrent/types.rs]), and the forms of an info hash and of a peer id
    ([metainfo.rs], [peer/types.rs]).  Floats are printed exactly; hexadecimal
    text is [hex]'s. *)
From S2P Require Import Prelude Bencode BencodeText Metainfo Disk Floats Torrent.
From Stdlib Require Import SpecFloat.

(** ** Sizes *)

(** [f64::round], half away from zero, and [f64::fract() == 0.0] *)
Definition f_round (x : float) : float :=
  match x with
  | S754_finite s m e =>
      if (0 <=? e)%Z then x
      else
        let d := (2 ^ Z.to_N (- e))%N in
        match ((2 * N.pos m + d) / (2 * d))%N with
        | 0%N => S754_zero s
        | n => binary_normalize 53 1024 (if s then - Z.of_N n else Z.of_N n) 0 s
        end
  | _ => x
  end.
Definition f_is_whole (x : float) : bool :=
  match x with
  | S754_zero _ => true
  | S754_finite _ m e => if (0 <=? e)%Z then true else (N.pos m mod 2 ^ Z.to_N (- e) =? 0)%N
  | _ => false
  end.

(** The magnitude times [10 ^ places], to the nearest integer, ties to even *)
Definition scaled (places : N) (m : positive) (e : Z) : N :=
  if (0 <=? e)%Z then (N.pos m * 2 ^ Z.to_N e * 10 ^ places)%N
  else div_nearest (N.pos m * 10 ^ places) (2 ^ Z.to_N (- e)).
(** [format!("{:.0}", n)], [format!("{:.2}", n)] *)
Definition point (places n : N) : list N :=
  if (places =? 0)%N then decimal n
  else decimal (n / 10 ^ places) ++ [46%N] ++
    let r := decimal (n mod 10 ^ places) in replicate (N.to_nat places - length r) 48%N ++ r.
Definition fixed (places : N) (x : float) : list N :=
  let sign (s : bool) := if s then [45%N] else [] in
  match x with
  | S754_nan => ascii "NaN"
  | S754_infinity s => sign s ++ ascii "inf"
  | S754_zero s => sign s ++ point places 0
  | S754_finite s m e => sign s ++ point places (scaled places m e)
  end.
(** [str::trim_end_matches], of a character *)
Definition trim_end_char (c : N) (s : list N) : list N :=
  reverse ((fix go (s : list N) := match s with x :: s' => if (x =? c)%N then go s' else s | [] => [] end) (reverse s)).
Definition trimmed (s : list N) : list N := trim_end_char 46 (trim_end_char 48 s).

Definition units : list (list N) := 
  [ascii "B"; ascii "KB"; ascii "MB"; ascii "GB"; ascii "TB"; ascii "PB"; ascii "EB"; ascii "ZB"; ascii "YB"].
Definition delimiter : float := f64_of 1000.
Definition r10 : float := f64_of 10.
(** [(n * r).round() / r >= delimiter] *)
Definition too_large (n : float) : bool :=
  match SFcompare (f64_div (f_round (f64_mul n r10)) r10) delimiter with Some (Gt | Eq) => true | _ => false end.
(** The loop of [to_human_readable], from unit [u] on; [k] is how many units
    come after it. *)
Fixpoint to_unit (k : nat) (u : N) (n : float) : N * float :=
  match k with
  | O => (u, n)
  | S k => if too_large n then to_unit k (u + 1) (f64_div n delimiter) else (u, n)
  end.
(** [to_human_readable] *)
Definition to_human_readable (n : float) : outcome unit (list N) :=
  if f_lt n delimiter then
    if f_is_whole n then Ok (fixed 0 n ++ ascii " B") else Ok (trimmed (fixed 2 n) ++ ascii " B")
  else
    let '(u, n) := to_unit (pred (length units)) 0 n in
    name ← index units u;
    Ok (trimmed (fixed 2 n) ++ ascii " " ++ name).

(** ** The status of a torrent *)

(** [From<TorrentStatus> for &str] and [for String]; [Display for
    TorrentStatusErrorCode]; [From<&str> for TorrentStatus] *)
Definition status_text (s : TorrentStatus) : list N :=
  match s with
  | ConnectingTrackers => ascii "Connecting to trackers"
  | DownloadingMetainfo => ascii "Downloading metainfo"
  | Downloading => ascii "Downloading"
  | Seeding => ascii "Seeding"
  | Paused => ascii "Paused"
  | StatusError _ => ascii "Error"
  end.
Definition status_of_text (value : list N) : TorrentStatus :=
  if decide (value = ascii "Connecting to trackers") then ConnectingTrackers
  else if decide (value = ascii "Downloading metainfo") then DownloadingMetainfo
  else if decide (value = ascii "Downloading") then Downloading
  else if decide (value = ascii "Seeding") then Seeding
  else if decide (value = ascii "Paused") then Paused
  else StatusError Unknown.
Definition code_text (c : TorrentStatusErrorCode) : list N :=
  match c with Unknown => ascii "Unknown error" | FilesMissing => ascii "Missing files on disk" end.

(** ** Hashes *)

(** [hex::encode], [hex::decode] *)
Class HexApi := {
  hex_encode : list N → list N;
  hex_text : list N → option (list N);
  hex_back b : hex_text (hex_encode b) = Some b;
}.
Section hashes.
Context `{HexApi}.
(** [Display for InfoHash], its [Debug], and [TryInto<InfoHash> for String] *)
Definition InfoHash_display (h : InfoHash) : list N := hex_encode h.
Definition InfoHash_debug (h : InfoHash) : list N := hex_encode (take 2 h) ++ ascii ".." ++ hex_encode (drop 18 h).
Definition InfoHash_of_text (s : list N) : option InfoHash := hex_text s ≫= InfoHash_try_from.
(** [TryFrom<Vec<u8>> for PeerId], [TryInto<PeerId> for String] *)
Definition PeerId_try_from (value : list N) : option PeerId := if (len value =? 20)%N then Some value else None.
Definition PeerId_of_text (s : list N) : option PeerId := PeerId_try_from s.
End hashes.

(** ** Facts *)

(** The size after [u] divisions *)
Definition divided (n : float) (u : N) : float := N.iter u (fun x => f64_div x delimiter) n.
Lemma to_unit_spec k u n :
  let '(u', n') := to_unit k u n in
  (u <= u' <= u + N.of_nat k)%N ∧ n' = divided n (u' - u) ∧
  (too_large n' = false ∨ u' = u + N.of_nat k)%N ∧ (∀ i, i < u' - u → too_large (divided n i) = true)%N.
Proof.
  revert u n. induction k as [|k IH]; intros u n; cbn [to_unit].
  { rewrite N.sub_diag. split_and!; [lia|lia|done|right; lia|lia]. }
  destruct (too_large n) eqn:Hn.
  - specialize (IH (u + 1)%N (f64_div n delimiter)). destruct (to_unit k (u + 1) (f64_div n delimiter)) as [u' n'].
    destruct IH as (Hu & -> & Hend & Hall). split_and!; [lia|lia| | |].
    + unfold divided. replace (u' - u)%N with (N.succ (u' - (u + 1))) by lia. by rewrite N.iter_succ_r.
    + destruct Hend as [?|?]; [by left|right; lia].
    + intros i Hi. destruct (N.eq_dec i 0%N) as [->|]; [exact Hn|].
      specialize (Hall (N.pred i) ltac:(lia)). unfold divided in *.
      by rewrite <- (N.succ_pred i), N.iter_succ_r by done.
  - rewrite N.sub_diag. split_and!; [lia|lia|done|by left|lia].
Qed.

(** A size is printed in the first unit in which it is below a thousand to one
    decimal, or in the last one, and no unit is out of range.  Below a thousand
    bytes it is in bytes whatever it is rounded to. *)
Theorem readable_units n :
  ∃ u name, units !! N.to_nat u = Some name ∧
    to_human_readable n = Ok ((if f_lt n delimiter && f_is_whole n then fixed 0 n else trimmed (fixed 2 (divided n u))) ++ ascii " " ++ name) ∧
    (if f_lt n delimiter then u = 0%N
     else (∀ i, i < u → too_large (divided n i) = true)%N ∧ (too_large (divided n u) = false ∨ name = ascii "YB")).
Proof.
  unfold to_human_readable. destruct (f_lt n delimiter) eqn:Hlt.
  { exists 0%N, (ascii "B"). split; [done|]. by destruct (f_is_whole n). }
  pose proof (to_unit_spec (pred (length units)) 0 n) as Hs. destruct (to_unit _ 0 n) as [u n'].
  destruct Hs as (Hu & -> & Hend & Hall). rewrite N.sub_0_r in *. change (N.of_nat (pred (length units))) with 8%N in *.
  destruct (lookup_lt_is_Some_2 units (N.to_nat u)) as [name Hname]; [change (length units) with 9; lia|].
  exists u, name. split; [done|]. split; [unfold index; by rewrite Hname|]. split; [done|].
  destruct Hend as [?|Hu']; [by left|right]. rewrite Hu' in Hname. by injection Hname as <-.
Qed.
Lemma readable_units_witness :
  to_human_readable (f64_of 483740) = Ok (ascii "483.74 KB") ∧ to_human_readable (f64_of 999950) = Ok (ascii "1 MB") ∧
  to_human_readable (f64_of u64_max) = Ok (ascii "18.45 EB") ∧
  to_human_readable (f64_lit 999999 1000) = Ok (ascii "1000 B").
Proof. split_and!; by vm_compute. Qed.

(** The text of a status is read back, but for the kind of an error. *)
Lemma status_back s : status_of_text (status_text s) = match s with StatusError _ => StatusError Unknown | _ => s end.
Proof. by destruct s. Qed.
Lemma InfoHash_back `{HexApi} h : len h = 20%N → InfoHash_of_text (InfoHash_display h) = Some h.
Proof.
  intros Hl. unfold InfoHash_of_text, InfoHash_display. rewrite hex_back. simpl. unfold InfoHash_try_from. by rewrite Hl.
Qed.
