(* ===== verification/Render.v ===== *)
(** What the frontend draws: the palette ([palette.rs]), the footer
    ([components/footer.rs]), and the texts of its pages and widgets
    ([pages/], [widgets/]) as lines of styled spans.  How [ratatui] lays them out
    in cells is its own; a text is its bytes in UTF-8. *)
From S2P Require Import Prelude Bencode BencodeText Metainfo Disk Floats Torrent Text Config VimInput Ui.
From Stdlib Require Import SpecFloat.

(** ** Styles and texts, of [ratatui] *)

Inductive Color := Reset | Gray | Rgb (n : N).
(** A style is what was set, in order. *)
Inductive Attr := Fg (c : Color) | Bg (c : Color) | Bold | Dim | Italic | Reversed.
Abbreviation Style := (list Attr).
Record Span := { sp_text : list N; sp_style : Style }.
Record Line := { l_spans : list Span; l_style : Style }.
Definition raw (t : list N) : Span := {| sp_text := t; sp_style := [] |}.
Definition styled (t : list N) (s : Style) : Span := {| sp_text := t; sp_style := s |}.
(** [Line::from] *)
Definition spans (l : list Span) : Line := {| l_spans := l; l_style := [] |}.
Definition plain (t : list N) : Line := spans [raw t].
Definition patch_style (s : Style) (l : Line) : Line := {| l_spans := l_spans l; l_style := l_style l ++ s |}.
(** The text of a line *)
Definition text_of (l : Line) : list N := concat (sp_text <$> l_spans l).

(** ** [palette.rs] *)

Record AppStyle := {
  base_style : Style; highlight_bg : Style; highlight_fg : Style;
  base : Color; gray : Color; primary : Color; blue : Color; green : Color; purple : Color; yellow : Color;
  success : Color; error : Color; warning : Color;
}.
Definition AppStyle_default : AppStyle :=
  let base_color := Gray in
  let gray := Rgb 10590101 in let blue := Rgb 6531071 in let green := Rgb 7269251 in let red := Rgb 16279076 in
  let yellow := Rgb 16369678 in let purple := Rgb 13457407 in
  {| base_style := [Fg base_color]; highlight_bg := [Bg purple; Fg base_color]; highlight_fg := [Fg purple];
     base := base_color; gray := gray; primary := purple; blue := blue; green := green; purple := purple; yellow := yellow;
     success := green; error := red; warning := yellow |}.
Definition PALETTE : AppStyle := AppStyle_default.
Definition in_purple (t : list N) : Span := styled t [Fg (purple PALETTE)].

(** ** [components/footer.rs] *)

Definition SPACING : list N := [9; 9]%N.
Definition footer : Line := spans [
  in_purple (ascii "[t]"); raw (ascii "orrent"); raw SPACING;
  in_purple (ascii "[n]"); raw (ascii "etwork"); raw SPACING;
  in_purple (ascii "[f]"); raw (ascii "ilters"); raw SPACING;
  in_purple (ascii "[d]"); raw (ascii "elete"); raw SPACING;
  in_purple (ascii "[h/j/k/l]"); raw (ascii " move"); raw SPACING;
  in_purple (ascii "[Tab]"); raw (ascii " cycle"); raw SPACING].

(** ** [widgets/menu.rs] *)

Definition TITLES : list (list N) := [ascii " Torrents "; ascii " Info "].
(** What [Menu::draw] renders: the tabs with the selected one and its style, what
    divides them, and the tag *)
Record MenuDrawn := {
  md_tabs : list (list N); md_selected : N; md_highlight : Style; md_divider : list N; md_dim : bool; md_tag : Span }.
Definition menu_draw (VERSION : list N) (index : N) (should_dim : bool) : MenuDrawn := {|
  md_tabs := TITLES; md_selected := index; md_highlight := highlight_bg PALETTE ++ [Bold]; md_divider := ascii " ";
  md_dim := should_dim;
  md_tag := styled (ascii "[ VCZ - v" ++ VERSION ++ ascii " ]")
    (highlight_fg PALETTE ++ if should_dim then [Dim] else []) |}.

(** ** [widgets/confirm_popup.rs] *)

(** The titles of [ConfirmPopup::new], at the top and at the bottom *)
Definition popup_titles (title : list N) : Line * list Line :=
  (spans [raw (ascii " Delete " ++ title ++ ascii "? "); styled (ascii "(╯°o°）╯︵ ┻━┻ ") [Fg (gray PALETTE)]],
   [spans [raw (ascii " "); in_purple (ascii "[d]"); styled (ascii "elete files ") [Fg (gray PALETTE)]];
    spans [in_purple (ascii " [Esc] ")]; spans [in_purple (ascii " [Enter] ")]]).
(** [ConfirmPopup::draw] *)
Definition popup_draw (p : ConfirmPopup) : list Line :=
  [plain (ascii "Are you sure that you want to delete it?"); plain (ascii "This action cannot be undone."); plain [];
   if also_delete_from_disk p
   then spans [raw (ascii "[ "); in_purple (ascii "X"); raw (ascii " ] "); raw (ascii "Also delete files")]
   else plain (ascii "[   ] Also delete files")].

(** ** [widgets/vim_input.rs] *)

(** [Display for Mode] *)
Definition mode_text (m : Mode) : list N :=
  match m with
  | Normal => ascii "NORMAL" | Insert => ascii "INSERT"
  | Operator c => ascii "OPERATOR(" ++ utf8_char c ++ ascii ")"
  end.
(** [Mode::color], [cursor_style]; the titles of [Mode::block], at the top and at
    the bottom *)
Definition mode_color (m : Mode) : Color :=
  match m with Normal => Reset | Insert => green PALETTE | Operator _ => blue PALETTE end.
Definition cursor_style (m : Mode) : Style := [Fg (mode_color m); Reversed].
Definition mode_titles (m : Mode) : Line * list Line :=
  let help := match m with
              | Normal => spans [in_purple (ascii " [Esc]"); in_purple (ascii " [i] ")]
              | Insert => spans [in_purple (ascii " [Esc]"); in_purple (ascii " [Enter] ")]
              | Operator _ => plain (ascii " move cursor to apply operator ")
              end in
  (plain (ascii " Add new torrent with magnet url "),
   [spans [styled (ascii " " ++ mode_text m ++ ascii " ") [Fg (mode_color m)]]; help]).

Section input.
Context (char_width : N → N).

(** [Span::raw], unless it is empty *)
Definition some_raw (s : list N) : list Span := match s with [] => [] | _ => [raw (utf8_of s)] end.
(** The row of the cursor: the character at its column is marked, or a space
    after the text. *)
Definition cursor_spans (m : Mode) (col : N) (s : list N) : list Span :=
  match split_col char_width col 0 s with
  | (before, ch :: after) => some_raw before ++ [styled (utf8_char ch) (cursor_style m)] ++ some_raw after
  | (_, []) => some_raw s ++ [styled (ascii " ") (cursor_style m)]
  end.
(** One line of [VimInput::draw] *)
Definition drawn_line (v : VimInput) (start_line end_line i : N) (s : list N) : Line :=
  let l := if (i =? (cursor v).1)%N then cursor_spans (mode v) (cursor v).2 s else [raw (utf8_of s)] in
  if (i =? start_line)%N && (0 <? scroll_offset v)%N then spans (in_purple (ascii " ↑ ") :: l)
  else if (i =? end_line - 1)%N && (end_line <? len (v_lines v))%N then spans (in_purple (ascii " ↓ ") :: l)
  else spans l.
(** [VimInput::draw], in an area of [lines_count] lines; [List::resize_with]
    fills it. *)
Definition vim_draw (lines_count : N) (v : VimInput) : list Line :=
  let start_line := scroll_offset v in
  let end_line := N.min (start_line + lines_count) (len (v_lines v)) in
  let shown := take (N.to_nat (end_line - start_line)) (drop (N.to_nat start_line) (v_lines v)) in
  let lines := imap (fun k s => drawn_line v start_line end_line (start_line + N.of_nat k) s) shown in
  lines ++ replicate (N.to_nat lines_count - length lines) (plain []).
End input.

(** ** [pages/torrent_list.rs] *)

Definition dash (width : N) : Line := plain (replicate (N.to_nat width) 45%N).
Definition status_color (s : TorrentStatus) : Color :=
  match s with
  | Seeding => success PALETTE | StatusError _ => error PALETTE | Paused => warning PALETTE
  | Downloading => blue PALETTE | _ => primary PALETTE
  end.
(** The lines of a torrent between its dashes; the name of the selected one has
    the primary color. *)
Definition torrent_lines (s : TorrentState) (selected : bool) : outcome unit (list Line) :=
  rate ← to_human_readable (ts_download_rate s);
  downloaded ← to_human_readable (f64_of (ts_downloaded s));
  size ← to_human_readable (f64_of (ts_size s));
  let name := styled (ts_name s) (Bold :: if selected then [Fg (primary PALETTE)] else []) in
  let status := styled (status_text (ts_status s)) [Fg (status_color (ts_status s))] in
  let status := status :: if decide (ts_status s = Downloading) then [raw (ascii "  " ++ rate ++ ascii "/s")] else [] in
  Ok [spans [name];
      plain (downloaded ++ ascii " of " ++ size);
      plain (ascii "Seeders " ++ decimal (seeders (ts_stats s)) ++ ascii " Leechers " ++ decimal (leechers (ts_stats s)));
      spans status;
      match ts_status s with
      | StatusError e => spans [styled (code_text e) [Fg (error PALETTE)]]
      | _ => plain (ascii "Connected to " ++ decimal (ts_downloading_from s) ++ ascii " of " ++
                    decimal (ts_connected_peers s) ++ ascii " peers")
      end].
(** [items.remove(0)], [items.remove(items.len() - 1)], of a list of seven *)
Definition without_first (l : list Line) : list Line := drop 1 l.
Definition without_last (l : list Line) : list Line := take (length l - 1) l.
(** The item of row [i] *)
Definition torrent_item (width : N) (selected : option N) (i : N) (s : TorrentState) : outcome unit (list Line) :=
  let is_selected := bool_decide (selected = Some i) in
  lines ← torrent_lines s is_selected;
  let d := if is_selected then patch_style (highlight_fg PALETTE) (dash width) else dash width in
  let items := d :: lines ++ [d] in
  let items := if (bool_decide (selected = None) || bool_decide (selected = Some 0%N)) && (0 <? i)%N
               then without_first items else items in
  let after := match selected with Some s => (0 <? s)%N && negb (i =? s)%N && (s <? i)%N | None => false end in
  let items := if after then without_first items else items in
  let before := match selected with Some s => (0 <? s)%N && negb (i =? s)%N && (i <? s)%N | None => false end in
  Ok (if before then without_last items else items).
(** The rows of [TorrentList::draw], from row [i] on; [rendered] are the torrents
    it shows. *)
Fixpoint torrent_rows (width : N) (selected : option N) (infos : list TorrentState) (i : N) (rendered : list N)
    : outcome unit (list (list Line)) :=
  match rendered with
  | [] => Ok []
  | n :: rendered =>
      s ← index infos n;
      item ← torrent_item width selected i s;
      items ← torrent_rows width selected infos (i + 1) rendered;
      Ok (item :: items)
  end.
(** The titles of the block: the search while it is typed, and once it is over *)
Definition list_titles (st : SearchStatus) (search : list N) : list N * option (list N) :=
  (ascii " Torrents ",
   match st, search with
   | Typing, _ => Some (ascii " Search: " ++ utf8_of search ++ ascii " (press enter) ")
   | Moving, [] => None
   | Moving, _ => Some (ascii " Search: " ++ utf8_of search ++ ascii " ")
   end).

(** ** [pages/info.rs], [pages/empty.rs] *)

Definition logo : list Line := plain <$> [
  ascii "██╗   ██╗ ██████╗███████╗";
  ascii "██║   ██║██╔════╝╚══███╔╝";
  ascii "██║   ██║██║       ███╔╝ ";
  ascii "╚██╗ ██╔╝██║      ███╔╝  ";
  ascii " ╚████╔╝ ╚██████╗███████╗";
  ascii "  ╚═══╝   ╚═════╝╚══════╝";
  []].
Definition in_primary (t : list N) : Span := styled t [Fg (primary PALETTE)].
(** [Info::new]; [addr_text] is the debug form of an address, [lossy] the text
    of a path *)
Definition info_lines (VERSION : list N) (addr_text : SocketAddr → list N) (lossy : list N → list N)
    (config : ResolvedConfig) : list Line :=
  logo ++
  [spans [in_primary (ascii "version:"); raw (ascii " " ++ VERSION)];
   spans [in_primary (ascii "peer port:"); raw (ascii " " ++ decimal (rc_local_peer_port config))];
   spans [in_primary (ascii "daemon addr:"); raw (ascii " " ++ addr_text (rc_daemon_addr config))];
   spans [in_primary (ascii "download dir:"); raw (ascii " " ++ lossy (rc_download_dir config))];
   spans [in_primary (ascii "config file:"); raw (ascii " " ++ lossy (rc_config_file config))];
   spans [in_primary (ascii "metadata dir:"); raw (ascii " " ++ lossy (rc_metadata_dir config))];
   plain []; plain (ascii "-------"); plain [];
   spans [styled (ascii "https://github.com/gabrieldemian/vincenzo") [Italic]];
   spans [raw (ascii "by "); in_primary (ascii "@gabrieldemian")]].
(** [Empty::new] *)
Definition empty_lines (VERSION : list N) (lossy : list N → list N) (config : ResolvedConfig) : list Line :=
  logo ++
  [plain (ascii "v" ++ VERSION); plain [];
   spans [raw (ascii "Press "); in_purple (ascii "[t] "); raw (ascii "to add a new magnet torrent.")];
   spans [raw (ascii "Or add .torrent files -> "); in_purple (lossy (path_push (rc_metadata_dir config) (ascii "queue")))];
   plain [];
   spans [styled (ascii "https://github.com/gabrieldemian/vincenzo") [Italic]];
   spans [raw (ascii "by "); in_purple (ascii "@gabrieldemian")]].

(** ** [widgets/network_chart.rs] *)

(** What [NetworkChart::draw] gives the chart: the two lines of points with their
    colors, the bounds and labels of its axes, the title and the legend *)
Record ChartDrawn := {
  cd_datasets : list (Color * list (float * float));
  cd_x : float * float; cd_y : float * float;
  cd_x_labels : list Span; cd_y_labels : list Span;
  cd_title : list N;
  cd_legend : Line;
  cd_axis : Style;
  cd_dim : bool;
}.
Definition on_log (log10 : float → float) (l : list (float * float)) : list (float * float) :=
  (fun e => (e.1, log10 (f64_add e.2 (f64_of 1)))) <$> l.
Definition in_bold (t : list N) : Span := styled t [Bold].
(** The ticks of the y axis, on the logarithmic scale *)
Definition y_ticks (max_rate : float) : list float :=
  [S754_zero false; f64_mul max_rate (f64_lit 25 100); f64_mul max_rate (f64_lit 5 10); f64_mul max_rate (f64_lit 75 100); max_rate].
(** [NetworkChart::draw], with the functions of the system's library *)
Definition chart_draw (log10 pow10 : float → float) (dim : bool) (c : NetworkChart) : outcome unit (option ChartDrawn) :=
  match list.last (download_data c), list.last (upload_data c) with
  | Some (_, down), Some (_, up) =>
      let min_time := f_max (f64_sub (current_time c) TARGET_WINDOW) (S754_zero false) in
      let max_time := f64_add min_time TARGET_WINDOW in
      y_labels ← mapM_outcome (fun log_value => to_human_readable (pow10 log_value)) (y_ticks (max_rate c));
      down ← to_human_readable down;
      up ← to_human_readable up;
      Ok (Some {|
        cd_datasets := [(blue PALETTE, on_log log10 (download_data c)); (green PALETTE, on_log log10 (upload_data c))];
        cd_x := (min_time, max_time); cd_y := (S754_zero false, max_rate c);
        cd_x_labels := in_bold <$> [ascii "0s"; ascii "30s"; ascii "60s"]; cd_y_labels := in_bold <$> y_labels;
        cd_title := ascii " Network "; cd_axis := base_style PALETTE;
        cd_legend := spans [
          styled (ascii " ↓ ") [Fg (blue PALETTE)]; styled down [Fg (blue PALETTE); Bold]; raw (ascii " ");
          styled (ascii " ↑ ") [Fg (green PALETTE)]; styled up [Fg (green PALETTE); Bold]; raw (ascii " ")];
        cd_dim := dim |})
  | _, _ => Ok None
  end.
