(* ===== verification/RenderFacts.v ===== *)
(** What the drawn texts show ([Render]): the rows of the torrents keep one line of
    dashes around each whatever is selected, and the input shows the lines around
    its cursor and marks the cursor once. *)
From S2P Require Import Prelude Bencode BencodeText Metainfo Disk Floats Torrent Text Config VimInput VimInputFacts Daemon Ui Render.

(** ** The rows of the torrents *)

(** The list as it should look: a line of dashes before each torrent and one
    after the last (unless what is selected is past it), those around the
    selected torrent highlighted *)
Definition separator (width : N) (selected : option N) (i : N) : Line :=
  let d := dash width in
  match selected with
  | Some s => if (s =? i)%N || (s + 1 =? i)%N then patch_style (highlight_fg PALETTE) d else d
  | None => d
  end.
Fixpoint framed (width : N) (selected : option N) (i : N) (bodies : list (list Line)) : list Line :=
  match bodies with
  | [] => if match selected with Some s => (s =? 0)%N || (s <? i)%N | None => true end then [separator width selected i] else []
  | b :: bodies => separator width selected i :: b ++ framed width selected (i + 1) bodies
  end.

Section rows.
Context (width : N) (selected : option N).

(** The dashes of row [i], and whether they are kept before and after it *)
Definition own_dash (i : N) : Line :=
  if bool_decide (selected = Some i) then patch_style (highlight_fg PALETTE) (dash width) else dash width.
Definition has_top (i : N) : bool :=
  match selected with None | Some 0%N => (i =? 0)%N | Some s => (i <=? s)%N end.
Definition has_bottom (i : N) : bool :=
  match selected with None | Some 0%N => true | Some s => (s <=? i)%N end.
Definition if_kept (b : bool) (l : Line) : list Line := if b then [l] else [].

#[local] Ltac by_order :=
  repeat first [case_bool_decide | case_match | progress simplify_eq | progress simpl in * ];
  repeat match goal with
  | H : (_ =? _)%N = _ |- _ => first [apply N.eqb_eq in H | apply N.eqb_neq in H]
  | H : (_ <=? _)%N = _ |- _ => first [apply N.leb_le in H | apply N.leb_gt in H]
  | H : (_ <? _)%N = _ |- _ => first [apply N.ltb_lt in H | apply N.ltb_ge in H]
  | H : (_ =? _)%positive = _ |- _ => first [apply Pos.eqb_eq in H | apply Pos.eqb_neq in H]
  end; try first
    [ done | lia
    | match goal with H : Some _ ≠ Some _ |- _ => exfalso; apply H; f_equal; lia end ].

Lemma item_frame i s :
  torrent_item width selected i s =
    (lines ← torrent_lines s (bool_decide (selected = Some i));
     Ok (if_kept (has_top i) (own_dash i) ++ lines ++ if_kept (has_bottom i) (own_dash i))).
Proof.
  assert (∀ d lines, without_last (d :: lines ++ [d]) = d :: lines) as Hlast.
  { intros d lines. unfold without_last.
    replace (length _ - 1) with (length (d :: lines)) by (simpl; rewrite length_app; simpl; lia).
    apply (take_app_length (d :: lines)). }
  unfold torrent_item. destruct (torrent_lines _ _) as [lines| |]; [|done|done].
  unfold has_top, has_bottom, if_kept, own_dash, without_first.
  destruct selected as [[|p]|]; by_order; rewrite ?Hlast, ?app_nil_r; done.
Qed.

(** What the row before [i] leaves at its end *)
Definition closed_before (i : N) : list Line :=
  if (i =? 0)%N then [] else if_kept (has_bottom (i - 1)) (own_dash (i - 1)).
Lemma closed_separator i :
  closed_before i ++ if_kept (has_top i) (own_dash i) = [separator width selected i].
Proof. unfold closed_before, if_kept, has_top, has_bottom, own_dash, separator. by_order. Qed.
Lemma closed_last i :
  (0 < i)%N → closed_before i = framed width selected i [].
Proof. intros ?. unfold closed_before, if_kept, has_bottom, own_dash, framed, separator. by_order. Qed.

Lemma readable n : ∃ t, to_human_readable n = Ok t.
Proof. destruct (readable_units n) as (u & name & _ & -> & _). by eexists. Qed.
Lemma lines_ok s k :
  ∃ b, torrent_lines s k = Ok b ∧ length b = 5 ∧ (text_of <$> head b) = Some (ts_name s).
Proof.
  unfold torrent_lines.
  destruct (readable (ts_download_rate s)) as [? ->], (readable (f64_of (ts_downloaded s))) as [? ->],
    (readable (f64_of (ts_size s))) as [? ->].
  eexists. split_and!; [done..|]. cbn. by rewrite app_nil_r.
Qed.

(** The lines of a row, between the dashes *)
Definition row_body (infos : list TorrentState) (i n : N) (b : list Line) : Prop :=
  ∃ s, infos !! N.to_nat n = Some s ∧ torrent_lines s (bool_decide (selected = Some i)) = Ok b ∧
    length b = 5 ∧ (text_of <$> head b) = Some (ts_name s).
Lemma rows_framed infos rendered i :
  Forall (fun n => n < len infos)%N rendered →
  ∃ rows bodies, torrent_rows width selected infos i rendered = Ok rows ∧ length rows = length rendered ∧
    length bodies = length rendered ∧
    (∀ k n b, rendered !! k = Some n → bodies !! k = Some b → row_body infos (i + N.of_nat k) n b) ∧
    (0 < i ∨ rendered ≠ [] → closed_before i ++ concat rows = framed width selected i bodies)%N.
Proof.
  intros Hin. revert i. induction Hin as [|n rendered Hn _ IH]; intros i.
  { exists [], []. split_and!; [done..|]. intros [?|?]; [|done]. by rewrite app_nil_r, closed_last. }
  destruct (lookup_lt_is_Some_2 infos (N.to_nat n)) as [s Hs]; [unfold len in Hn; lia|].
  destruct (IH (i + 1)%N) as (rows & bodies & Hrows & Hlen & Hlb & Hb & Hframed).
  destruct (lines_ok s (bool_decide (selected = Some i))) as (b & Hbody & H5 & Hname).
  exists ((if_kept (has_top i) (own_dash i) ++ b ++ if_kept (has_bottom i) (own_dash i)) :: rows), (b :: bodies).
  split_and!; [|simpl; lia..| |].
  - simpl. unfold index. rewrite Hs. simpl. rewrite item_frame, Hbody. simpl. by rewrite Hrows.
  - intros [|k] n' b' Hk Hb'; simplify_eq/=.
    + rewrite N.add_0_r. by exists s.
    + replace (i + N.of_nat (S k))%N with (i + 1 + N.of_nat k)%N by lia. by apply Hb.
  - intros _. simpl. rewrite <- Hframed by lia. rewrite !(assoc_L (++)), closed_separator.
    unfold closed_before at 1. rewrite (proj2 (N.eqb_neq _ _)), N.add_sub by lia.
    by rewrite <- !(assoc_L (++)).
Qed.
End rows.

(** C39. The list of torrents is drawn whatever is selected and however it is
    filtered: every shown torrent has a row, in the order of the filter, whose body
    is five lines that start with its name, and the rows together are the bodies
    with one line of dashes before each and one after the last, of which those
    around the selected torrent are highlighted.  With a selection past the last
    torrent, the line after it is missing. *)
Theorem ui_rows_drawn width selected infos rendered :
  rendered ≠ [] → Forall (fun n => n < len infos)%N rendered →
  ∃ rows bodies, torrent_rows width selected infos 0 rendered = Ok rows ∧ length rows = length rendered ∧
    length bodies = length rendered ∧
    (∀ k n b, rendered !! k = Some n → bodies !! k = Some b → row_body selected infos (N.of_nat k) n b) ∧
    concat rows = framed width selected 0 bodies.
Proof.
  intros Hne Hin. destruct (rows_framed width selected infos rendered 0 Hin) as (rows & bodies & ? & ? & ? & ? & Hf).
  exists rows, bodies. rewrite <- Hf by by right. done.
Qed.

(** ** The input *)

Section input.
Context (char_width : N → N).

(** The mark of a line that has others above or below the area *)
Definition marker (v : VimInput) (h i : N) : list Span :=
  if (i =? scroll_offset v)%N && (0 <? scroll_offset v)%N then [in_purple (ascii " ↑ ")]
  else if (i + 1 =? scroll_offset v + h)%N && (i + 1 <? len (v_lines v))%N then [in_purple (ascii " ↓ ")]
  else [].
(** The place of the cursor in a line: the character after it, or a space *)
Definition cursor_span (m : Mode) (z : list N) : Span :=
  styled (match z with [] => ascii " " | ch :: _ => utf8_char ch end) (cursor_style m).
Definition is_cursor (s : Span) : bool := match sp_style s with [Fg _; Reversed] => true | _ => false end.

Lemma some_raw_cursor s : base.filter is_cursor (some_raw s) = [].
Proof. by destruct s. Qed.
Lemma marker_cursor v h i : base.filter is_cursor (marker v h i) = [].
Proof. unfold marker. by repeat case_match. Qed.
Lemma cursor_only m a z z' :
  base.filter is_cursor (some_raw a ++ cursor_span m z :: some_raw z') = [cursor_span m z].
Proof. by rewrite list.filter_app, filter_cons_True, !some_raw_cursor by done. Qed.
Lemma cursor_spans_at m a z :
  Forall (fun c => 1 <= char_width c)%N z →
  cursor_spans char_width m (column_width char_width a) (a ++ z) =
    some_raw a ++ [cursor_span m z] ++ some_raw (drop 1 z).
Proof.
  intros Hz. unfold cursor_spans. pose proof (split_col_at char_width 0 a z) as Hs. rewrite N.add_0_l in Hs. rewrite Hs.
  - destruct z as [|ch z]; simpl; [by rewrite app_nil_r|]. by rewrite drop_0.
  - intros c Hc. destruct z; simplify_eq/=. by inversion_clear Hz.
Qed.
Lemma drawn_marked v h i s :
  (i < N.min (scroll_offset v + h) (len (v_lines v)))%N →
  drawn_line char_width v (scroll_offset v) (N.min (scroll_offset v + h) (len (v_lines v))) i s =
    spans (marker v h i ++ if (i =? (cursor v).1)%N then cursor_spans char_width (mode v) (cursor v).2 s else [raw (utf8_of s)]).
Proof.
  intros Hi. unfold drawn_line, marker. destruct (_ && _); [done|].
  replace ((i =? N.min (scroll_offset v + h) (len (v_lines v)) - 1) && (N.min (scroll_offset v + h) (len (v_lines v)) <? len (v_lines v)))%N
    with ((i + 1 =? scroll_offset v + h) && (i + 1 <? len (v_lines v)))%N; [by case_match|].
  apply eq_bool_prop_intro. rewrite !andb_True, !Is_true_true, !N.eqb_eq, !N.ltb_lt. lia.
Qed.
Lemma vim_draw_lookup v h k :
  (k < h)%N →
  vim_draw char_width h v !! N.to_nat k =
    Some match v_lines v !! N.to_nat (scroll_offset v + k) with
         | Some s => drawn_line char_width v (scroll_offset v) (N.min (scroll_offset v + h) (len (v_lines v))) (scroll_offset v + k) s
         | None => plain []
         end.
Proof.
  intros Hk. unfold vim_draw. set (shown := take _ _).
  assert (len shown = N.min (scroll_offset v + h) (len (v_lines v)) - scroll_offset v)%N as Hlen.
  { unfold shown, len. rewrite length_take, length_drop. unfold len. lia. }
  destruct (v_lines v !! N.to_nat (scroll_offset v + k)) as [s|] eqn:Hs.
  - assert (shown !! N.to_nat k = Some s) as Hk'.
    { unfold shown. pose proof (lookup_lt_Some _ _ _ Hs). rewrite lookup_take_lt by (unfold len; lia).
      by rewrite lookup_drop, <- N2Nat.inj_add. }
    rewrite lookup_app_l by (rewrite length_imap; by eapply lookup_lt_Some).
    rewrite list_lookup_imap, Hk'. simpl. by rewrite N2Nat.id.
  - apply lookup_ge_None in Hs. rewrite lookup_app_r by (rewrite length_imap; unfold len in *; lia).
    apply lookup_replicate_2. rewrite length_imap. unfold len in *. lia.
Qed.
End input.

(** The input is drawn as it is: in its area, whatever the lines that are
    scrolled away, each drawn line is a line of the text behind its mark, or empty
    past the text; the cursor is marked once, in its line, where the text is
    divided: at the character that an edit would come before, or at a space after
    the line.  A mark is there when lines above or below the area are not shown. *)
Theorem vim_drawn char_width v b :
  showing char_width v b → visible v → Forall (fun c => 1 <= char_width c)%N (right_text b) →
  len (vim_draw char_width (area_height v) v) = area_height v ∧
  ∃ above a z below, v_lines v = above ++ (a ++ z) :: below ∧
    left_text b = concat above ++ a ∧ right_text b = z ++ concat below ∧
    ∀ k, (k < area_height v)%N →
      let i := (scroll_offset v + k)%N in
      let mine := match v_lines v !! N.to_nat i with
                  | Some s => marker v (area_height v) i ++
                      if (i =? len above)%N then some_raw a ++ [cursor_span (mode v) z] ++ some_raw (drop 1 z) else [raw (utf8_of s)]
                  | None => [raw []]
                  end in
      vim_draw char_width (area_height v) v !! N.to_nat k = Some (spans mine) ∧
      base.filter is_cursor mine = if (i =? len above)%N then [cursor_span (mode v) z] else [].
Proof.
  intros (above & a & z & below & Hlines & Hcur & Hl & Hr) [Hrow Hscroll] Hz. split.
  { unfold vim_draw, len. rewrite length_app, length_imap, length_replicate, length_take, length_drop.
    unfold len in *. lia. }
  exists above, a, z, below. split_and!; [done..|]. intros k Hk i mine.
  rewrite Hcur in Hrow. simpl in Hrow. rewrite Hr in Hz. apply Forall_app in Hz as [Hz _].
  rewrite vim_draw_lookup by done. fold i. subst mine.
  destruct (v_lines v !! N.to_nat i) as [s|] eqn:Hs.
  - pose proof (lookup_lt_Some _ _ _ Hs) as Hi. rewrite drawn_marked by (unfold len in *; lia).
    rewrite Hcur. simpl. destruct (N.eqb_spec i (len above)) as [->|]; split.
    + rewrite Hlines, len_nat, list_lookup_middle in Hs by done. injection Hs as <-. by rewrite cursor_spans_at.
    + by rewrite list.filter_app, marker_cursor, cursor_only.
    + done.
    + by rewrite list.filter_app, marker_cursor.
  - split; [done|]. apply lookup_ge_None in Hs. rewrite (proj2 (N.eqb_neq _ _)); [done|].
    rewrite Hlines, length_app in Hs. simpl in Hs. unfold len. lia.
Qed.

(** ** Examples *)

(** Four torrents, of which a search shows three; the second one is selected. *)
Definition ex_infos : list TorrentState :=
  (fun c => default_state [c] [] []) <$> [97; 98; 99; 100]%N.
Lemma ui_rows_drawn_witness :
  ∃ rows, torrent_rows 4 (Some 1%N) ex_infos 0 [0; 2; 3]%N = Ok rows ∧
    (length <$> rows) = [6; 7; 6] ∧ (text_of <$> concat rows) !! 7 = Some (ascii "c") ∧
    (l_style <$> [default (plain []) (concat rows !! 0); default (plain []) (concat rows !! 6); default (plain []) (concat rows !! 12)]) =
      [[]; highlight_fg PALETTE; highlight_fg PALETTE] ∧ length (concat rows) = 19.
Proof.
  destruct (ui_rows_drawn 4 (Some 1%N) ex_infos [0; 2; 3]%N) as (rows & bodies & Hr & _ & _ & _ & _);
    [done|repeat constructor; by vm_compute|].
  exists rows. split; [exact Hr|]. vm_compute in Hr. injection Hr as <-. by split_and!.
Defined.

(** The second of three lines is drawn below its mark, with the cursor before its
    last character. *)
Definition ex_scrolled : VimInput :=
  with_scroll 1 (with_lines [[97; 98; 99]; [100; 101]; [102]]%N (1, 1)%N (set_area 3 2 VimInput_default)).
Lemma vim_drawn_witness :
  len (vim_draw ex_width 2 ex_scrolled) = 2%N ∧
  vim_draw ex_width 2 ex_scrolled =
    [spans [in_purple (ascii " ↑ "); raw [100%N]; cursor_span Insert [101%N]]; plain [102%N]].
Proof.
  split; [|vm_compute; reflexivity].
  apply (vim_drawn ex_width ex_scrolled {| left_text := [97; 98; 99; 100]; right_text := [101; 102] |}%N).
  - by exists [[97; 98; 99]]%N, [100]%N, [101]%N, [[102]]%N.
  - by vm_compute.
  - repeat constructor; by vm_compute.
Defined.
