(* ===== verification/ErrorText.v ===== *)
(** The texts of the errors ([error.rs] of the library and of the frontend), and
    the errors that errors of other crates become.  The text of an error of
    another crate is an argument. *)
From S2P Require Import Prelude Errors Bencode BencodeText.

(** The errors of other crates, and of the standard library, that [?] turns into
    an [Error] *)
Inductive Foreign :=
  | BendyDecoding | BendyEncoding
  | SendToDaemon | SendToDisk | SendToPeer | SendToTorrent | OneshotRecv
  | TaskJoin | IntParse | BoolParse | RkyvRancor | MagnetUrl | FromUtf8 | StdIo (kind : ErrorKind).
Definition Error_from (f : Foreign) : Error :=
  match f with
  | BendyDecoding | BendyEncoding => BencodeError
  | SendToDaemon => SendDaemonError
  | SendToDisk => SendErrorDisk
  | SendToPeer => SendErrorPeer
  | SendToTorrent => SendErrorTorrent
  | OneshotRecv => ReceiveErrorOneshot
  | TaskJoin => JoinError
  | IntParse => ParseIntError
  | BoolParse => ParseBoolError
  | RkyvRancor => Rkyv
  | MagnetUrl => MagnetError
  | FromUtf8 => Utf8Error
  | StdIo kind => IO kind
  end.

(** [Display for Error]; [inner] is the text of what it wraps. *)
Definition Error_text (inner : list N) (e : Error) : list N :=
  match e with
  | WrongExtensionId local received =>
      ascii "Received wrong extension ID: `" ++ decimal received ++ ascii "` different from the local: `" ++
      decimal received ++ ascii "`"
  | TorrentFilesMissing _ _ => ascii "Missing files on disk"
  | JoinError => ascii "Join error: " ++ inner
  | ParseStrError => ascii "Error parsing str"
  | ParseIntError | ParseBoolError => ascii "Error while parsing: " ++ inner
  | Rkyv => ascii "Rkyv error: " ++ inner
  | MagnetError => ascii "Failed to send a connect request to the tracker"
  | Utf8Error => ascii "String is not UTF-8"
  | BencodeError => ascii "Failed to decode or encode the bencode buffer"
  | IO _ => ascii "IO error: " ++ inner
  | TrackerNoHosts => ascii "Tracker resolved to no unusable addresses"
  | TrackerSocketAddr => ascii "Peer resolved to no unusable addresses"
  | TrackerResponse => ascii "The response received from the connect handshake was wrong"
  | ResponseLen => ascii "Received a buffer with an unexpected length."
  | CompactPeerListRemainder => ascii "Can't parse compact ip list because it's not divisible by the ip version."
  | TrackerSocketConnect => ascii "Could not connect to the UDP socket of the tracker"
  | MagnetLinkInvalid => ascii "Error when reading magnet link"
  | MessageResponse => ascii "The response received from the peer is wrong"
  | HandshakeInvalid => ascii "The handshake received is not valid"
  | HandshakeTimeout => ascii "The peer took to long to send the handshake"
  | TorrentDoesNotExist => ascii "Could not find torrent for the given info_hash"
  | PeerDoesNotExist => ascii "Peer does not exist"
  | PieceInvalid => ascii "The piece downloaded does not have a valid hash"
  | PeerClosedSocket => ascii "The peer closed the socket"
  | NoUDPTracker => ascii "Your magnet doesn't have any UDP tracker, for now only those are supported."
  | SendErrorDisk => ascii "Could not send message to Disk"
  | SendDaemonError => ascii "Could not send message to Daemon: " ++ inner
  | ReceiveErrorOneshot => ascii "Could not receive message from oneshot"
  | SendErrorPeer => ascii "Could not send message to Peer"
  | SendErrorTorrent => ascii "Could not send message to UI"
  | SendErrorTcp => ascii "Could not send message to TCP socket"
  | NoDuplicateTorrent => ascii "You cannot add a duplicate torrent, only 1 is allowed"
  | NoDuplicatePeer => ascii "Can't have duplicate peers"
  | NoPeers => ascii "No peers in the torrent"
  end.

(** The errors of the frontend *)
Inductive FrontendError :=
  | FrSendErrorFr | FrIO | FrDaemonError (e : Error) | FrSendErrorTcp (text : list N) | FrSendErrorAction | FrRecvError
  | FrDaemonNotRunning.
(** [From<SendError<Action>>], and the derived ones *)
Inductive FrontendForeign := FfSendAction | FfIo | FfDaemon (e : Error).
Definition FrontendError_from (f : FrontendForeign) : FrontendError :=
  match f with FfSendAction => FrSendErrorAction | FfIo => FrIO | FfDaemon e => FrDaemonError e end.
(** Its [Display]; [addr] is the text of the address. *)
Definition FrontendError_text (addr : list N) (e : FrontendError) : list N :=
  match e with
  | FrSendErrorFr => ascii "Could not send message to UI"
  | FrIO => ascii "IO error"
  | FrDaemonError _ => ascii "Daemon Error"
  | FrSendErrorTcp t => ascii "Could not send message to TCP socket: `" ++ t ++ ascii "`"
  | FrSendErrorAction => ascii "Could not send action"
  | FrRecvError => ascii "Could not receive message"
  | FrDaemonNotRunning => ascii "The daemon is not running on the given addr: " ++ addr
  end.

(** ** Facts *)

(** The texts tell the kinds of errors apart that carry nothing, except that the
    two kinds of a parse that fails have one text; and the text of a wrong
    extension id does not say the local one. *)
Definition bare : list Error :=
  [ParseStrError; MagnetError; Utf8Error; BencodeError; TrackerNoHosts; TrackerSocketAddr; TrackerResponse; ResponseLen;
   CompactPeerListRemainder; TrackerSocketConnect; MagnetLinkInvalid; MessageResponse; HandshakeInvalid; HandshakeTimeout;
   TorrentDoesNotExist; PeerDoesNotExist; PieceInvalid; PeerClosedSocket; NoUDPTracker; SendErrorDisk; ReceiveErrorOneshot;
   SendErrorPeer; SendErrorTorrent; SendErrorTcp; NoDuplicateTorrent; NoDuplicatePeer; NoPeers].
Theorem error_texts_differ inner :
  NoDup (Error_text inner <$> bare) ∧ (∀ l l' r, Error_text inner (WrongExtensionId l r) = Error_text inner (WrongExtensionId l' r)).
Proof.
  split; [|done]. change (Error_text inner <$> bare) with (Error_text [] <$> bare).
  apply (bool_decide_unpack (NoDup _)). vm_compute. exact I.
Qed.
