(* ===== verification/Startup.v ===== *)
(** How the disk and the daemon start: [Disk::run] ([disk.rs]) reads the torrents
    it knows before it takes its first message, and [Daemon::run] ([daemon.rs])
    binds its sockets and listens to signals. *)
From S2P Require Import Prelude Errors Bits Core Bencode BencodeText Metainfo MetainfoFacts Floats Torrent DaemonWire.
From S2P Require Import Disk DiskFacts DiskTheorems DiskLife Daemon.

(** ** The disk *)

Section disk.
Context `{Build, Sha1Api, BV : BitVecApi} (to_string : InfoHash → list N) (from_bencode : list N → option MetaInfo)
  (page : N).

Definition complete_torrents_path (d : Disk) : path := path_push (d_metadata_dir d) (ascii "complete").
Definition incomplete_torrents_path (d : Disk) : path := path_push (d_metadata_dir d) (ascii "incomplete").
Definition queue_torrents_path (d : Disk) : path := path_push (d_metadata_dir d) (ascii "queue").
(** [std::fs::read_dir(path)?]; [listing] is what the directory holds, if it can
    be read. *)
Definition read_directory (dir : MetadataDir) (listing : option (list path)) : act unit :=
  lift (ok_or (IO OtherKind) listing) ≫= fun entries => read_metainfos_and_add to_string from_bencode dir entries.
(** What [Disk::run] does before its loop *)
Definition make_dirs : act unit :=
  getS ≫= fun s =>
  create_dir_all (incomplete_torrents_path (disk s)) ≫= fun _ =>
  create_dir_all (complete_torrents_path (disk s)) ≫= fun _ =>
  create_dir_all (queue_torrents_path (disk s)).
Definition disk_start (incomplete complete : option (list path)) : act unit :=
  make_dirs ≫= fun _ =>
  read_directory Incomplete incomplete ≫= fun _ => read_directory Complete complete.

(** What wakes the loop: a message, with the time, the two intervals, or what is
    given back *)
Inductive DiskWake :=
  | DwMsg (now : N) (m : DiskMsg) | DwQuit | DwHeartbeat (queue : option (list path)) | DwEvict (now : N)
  | DwReturn (m : ReturnToDisk).
Definition disk_wake (w : DiskWake) : act bool :=
  match w with
  | DwMsg now m => handle_disk_msg to_string now m ≫= fun _ => mret false
  | DwQuit => mret true
  | DwHeartbeat queue => catch tt (read_directory Queue queue) ≫= fun _ => mret false
  | DwEvict now => getS ≫= fun s => catch [] (lift (evict_cold_pieces page now (disk s))) ≫= fun _ => mret false
  | DwReturn m => handle_return m ≫= fun _ => mret false
  end.
Fixpoint disk_loop (ws : list DiskWake) : act bool :=
  match ws with
  | [] => mret false
  | w :: ws => disk_wake w ≫= fun over => if over : bool then mret true else disk_loop ws
  end.
(** [Disk::run], as long as [ws] lasts *)
Definition disk_run (incomplete complete : option (list path)) (ws : list DiskWake) : act bool :=
  disk_start incomplete complete ≫= fun _ => disk_loop ws.
End disk.

(** ** The daemon *)

(** [signal_hook]'s signals *)
Inductive DaemonSignal := SIGHUP | SIGTERM | SIGINT | SIGQUIT | SIGKILL | OtherSignal.
#[global] Instance DaemonSignal_eq_dec : EqDecision DaemonSignal.
Proof. solve_decision. Defined.
(** [Daemon::handle_signals]: the messages it sends; [open] tells which of them
    the daemon still takes. *)
Fixpoint handle_signals `{MagnetApi, BV : BitVecApi} (open : nat → bool) (signals : list DaemonSignal)
    : list DaemonMsg * outcome Error unit :=
  match signals with
  | [] => ([], Ok tt)
  | SIGHUP :: signals => handle_signals open signals
  | (SIGTERM | SIGINT | SIGQUIT | SIGKILL) :: signals =>
      if open 0 then let '(l, r) := handle_signals (fun k => open (S k)) signals in (DaQuit :: l, r)
      else ([], Err SendDaemonError)
  | OtherSignal :: _ => ([], Panic)
  end.
(** The signals asked for *)
Definition asked_signals : list DaemonSignal := [SIGHUP; SIGTERM; SIGINT; SIGQUIT].

(** The octets of the address that [run_local_peer] binds, with its port *)
Definition local_peer_addr (is_ipv6 : bool) (local_peer_port : N) : list N * N :=
  (if is_ipv6 then replicate 16 0%N else replicate 4 0%N, local_peer_port).
(** What [Daemon::run] does before its loop: whether its socket, the one for
    peers and the signals can be had *)
Definition daemon_start (daemon_bound peers_bound signals_ok : bool) : outcome Error unit :=
  if daemon_bound then
    if peers_bound then if signals_ok then Ok tt else Err (IO OtherKind) else Err (IO OtherKind)
  else Panic.

(** ** A torrent file that cannot be verified *)

(** Calls that do not fail with an error where a condition holds, and keep it;
    they may panic. *)
Section calm.
Context {S E : Type} (P : S → Prop).
Definition calm {A} (m : action S E A) : Prop :=
  ∀ s, P s → match m s with (Ok _, s') => P s' | (Err _, _) => False | (Panic, _) => True end.
Definition panics {A} (m : action S E A) : Prop := ∀ s, P s → (m s).1 = Panic.
Lemma calm_ret {A} (a : A) : calm (mret a).
Proof. by intros s. Qed.
Lemma calm_getS : calm getS.
Proof. by intros s. Qed.
Lemma calm_modifyS f : (∀ s, P s → P (f s)) → calm (modifyS f).
Proof. intros Hf s. apply Hf. Qed.
Lemma calm_lift {A} (o : outcome E A) : (∀ e, o ≠ Err e) → calm (lift o).
Proof. intros Ho s Hs. simpl. destruct o; [done|by eapply Ho|done]. Qed.
Lemma calm_bind {A B} (m : action S E A) (f : A → action S E B) : calm m → (∀ a, calm (f a)) → calm (m ≫= f).
Proof.
  intros Hm Hf s Hs. rewrite bind_action. specialize (Hm s Hs). destruct (m s) as [[a| |] s']; [by apply Hf|done|done].
Qed.
Lemma calm_if_ok {A B} (m : action S E A) (f : A → action S E B) g :
  (∀ s, P s → match m s with (Panic, _) => True | (_, s') => P s' end) → (∀ a, calm (f a)) → calm g → calm (if_ok m f g).
Proof. intros Hm Hf Hg s Hs. unfold if_ok. specialize (Hm s Hs). destruct (m s) as [[a| |] s']; [by apply Hf|by apply Hg|done]. Qed.
Lemma calm_forM {A} (f : A → action S E unit) l : (∀ a, calm (f a)) → calm (forM f l).
Proof. intros Hf. induction l; simpl; [apply calm_ret|by apply calm_bind]. Qed.
Lemma calm_panics {A B} (m : action S E A) (f : A → action S E B) : calm m → (∀ a, panics (f a)) → panics (m ≫= f).
Proof.
  intros Hm Hf s Hs. rewrite bind_action. specialize (Hm s Hs). destruct (m s) as [[a| |] s']; [by apply Hf|done|done].
Qed.
Lemma panics_bind {A B} (m : action S E A) (f : A → action S E B) : panics m → panics (m ≫= f).
Proof. intros Hm s Hs. rewrite bind_action. specialize (Hm s Hs). by destruct (m s) as [[a| |] s']; simpl in *. Qed.
End calm.

(** Values that are no error *)
Definition no_err {E A} (o : outcome E A) : Prop := ∀ e, o ≠ Err e.
Lemma no_err_bind {E A B} (o : outcome E A) (f : A → outcome E B) : no_err o → (∀ a, no_err (f a)) → no_err (o ≫= f).
Proof. intros Ho Hf e. destruct o as [a|e1|]; simpl; [apply Hf|by destruct (Ho e1)|done]. Qed.
Lemma no_err_mapM {E A B} (f : A → outcome E B) l : (∀ a, no_err (f a)) → no_err (mapM_outcome f l).
Proof.
  intros Hf. induction l as [|x l IH]; simpl; [done|]. apply no_err_bind; [done|]. intros y. by apply no_err_bind.
Qed.

Section broken.
Context `{Build, Sha1Api, BV : BitVecApi} (to_string : InfoHash → list N) (from_bencode : list N → option MetaInfo)
  (page : N).
Lemma no_err_arith (a b : N) : no_err (E:=Error) (uadd a b) ∧ no_err (E:=Error) (usub a b) ∧ no_err (E:=Error) (umul a b).
Proof. unfold uadd, usub, umul, arith, no_err. by split_and!; intros e; repeat case_match. Qed.
#[local] Ltac no_errs := repeat first [ apply no_err_bind; intros | apply no_err_arith | done | case_match ].
Lemma no_err_layout base off l : no_err (layout_files base off l).
Proof. revert off. induction l as [|f l IH]; intros off; [done|]. simpl. no_errs. Qed.
Lemma no_err_usum l : no_err (E:=Error) (usum l).
Proof.
  unfold usum. assert (∀ acc, no_err acc → no_err (E:=Error) (foldl (fun acc x => a ← acc; uadd a x) acc l)) as Hall; [|by apply Hall].
  induction l as [|x l IH]; intros acc Hacc; [done|]. simpl. apply IH. apply no_err_bind; [done|]. intros; apply no_err_arith.
Qed.
Lemma no_err_verify b e l rem acc : no_err (verify_loop b e l rem acc).
Proof.
  revert rem acc. induction l as [|[m bytes] l IH]; intros rem acc; [done|]. simpl.
  apply no_err_bind; [apply no_err_arith|intros x]. case_match; [|case_match; [done|apply IH]].
  no_errs; apply IH.
Qed.
Lemma chunks20_short fuel l : (length (chunks20 fuel l) * 20 <= length l)%nat.
Proof.
  revert l. induction fuel as [|fuel IH]; intros l; [simpl; lia|]. cbn [chunks20].
  destruct (N.ltb_spec (len l) 20); [simpl; lia|]. specialize (IH (drop 20 l)). rewrite length_drop in IH.
  cbn [length]. unfold len in *. lia.
Qed.
Lemma mapM_panics {A B} (f : A → outcome Error B) l x :
  (∀ a, no_err (f a)) → x ∈ l → f x = Panic → mapM_outcome f l = Panic.
Proof.
  intros Hf Hx Hp. induction Hx as [l|x y l _ IH]; simpl; [by rewrite Hp|].
  destruct (f y) as [b|e|] eqn:Hy; simpl; [|by destruct (Hf y e)|done]. by rewrite IH.
Qed.

(** The torrent of a hash is known. *)
Definition known (h : InfoHash) (s : DiskState) : Prop := is_Some (d_torrents (disk s) !! h).
Lemma known_data h : calm (known h) (torrent_data h).
Proof. intros s [t Ht]. unfold torrent_data. rewrite Ht. simpl. by exists t. Qed.
Lemma known_mut h f : calm (known h) (torrent_data_mut h f).
Proof.
  apply calm_bind; [apply known_data|]. intros t. apply calm_modifyS. intros s _. exists (f t). simpl. by rewrite lookup_insert_eq.
Qed.
Lemma known_modify h (f : Disk → Disk) : (∀ d, d_torrents (f d) = d_torrents d) → calm (E:=Error) (known h) (modifyS (with_disk f)).
Proof. intros Hf. apply calm_modifyS. intros s. unfold known. simpl. by rewrite Hf. Qed.
Lemma known_open h p s :
  known h s → match open_file p s with (Panic, _) => True | (_, s') => known h s' end.
Proof. unfold open_file. intros Hk. repeat case_match; simplify_eq; done. Qed.
Lemma known_preopen h l : calm (known h) (preopen_files l).
Proof.
  induction l as [|m l IH]; simpl; [apply calm_ret|]. apply calm_if_ok; [apply known_open| |apply calm_ret].
  intros i. apply calm_bind; [apply calm_getS|]. intros s. by apply calm_bind; [|intros; apply calm_ret].
Qed.
Lemma known_pre_alloc h h' : calm (known h) (pre_alloc_files h').
Proof.
  apply calm_bind; [apply calm_getS|]. intros s. case_match; [|apply calm_ret]. apply calm_forM. intros m.
  apply calm_bind; [by apply known_modify|]. intros _.
  apply calm_if_ok; [apply known_open|intros i; by apply known_modify|apply calm_ret].
Qed.

(** A string of hashes that ends within a hash *)
Definition cut_short (info : Info) : Prop := (len (info_pieces info) mod 20 ≠ 0)%N.
Lemma cut_pieces info : cut_short info → pieces info = (len (info_pieces info) / 20 + 1)%N.
Proof.
  unfold cut_short, pieces, div_ceil. generalize (len (info_pieces info)). intros n Hn.
  pose proof (N.div_mod n 20 ltac:(done)) as Hd. pose proof (N.mod_lt n 20 ltac:(done)) as Hm.
  symmetry. apply (N.div_unique _ _ _ (n mod 20 - 1)); lia.
Qed.
Lemma cut_panics info : cut_short info → panics (known (info_hash info)) (compute_downloaded_pieces info).
Proof.
  intros Hc. unfold compute_downloaded_pieces. apply calm_panics; [apply known_data|]. intros t.
  apply calm_panics; [apply known_preopen|]. intros [handles is_err]. apply calm_panics; [apply calm_getS|]. intros s1.
  apply panics_bind. intros s _. simpl. apply (mapM_panics _ _ (pieces info - 1)%N).
  - intros p. apply no_err_bind; [unfold index, or_panic; intros e; by case_match|]. intros x.
    unfold verify_piece. no_errs. apply no_err_verify.
  - apply elem_of_range. rewrite cut_pieces by done. lia.
  - unfold index. rewrite (proj2 (lookup_ge_None _ _)); [done|].
    pose proof (chunks20_short (length (info_pieces info)) (info_pieces info)) as Hs. rewrite cut_pieces by done.
    pose proof (N.div_mod (len (info_pieces info)) 20 ltac:(done)). pose proof (N.mod_lt (len (info_pieces info)) 20 ltac:(done)).
    unfold len in *. lia.
Qed.

Lemma known_cache info : calm (known (info_hash info)) (compute_torrent_cache info).
Proof.
  apply calm_bind; [apply known_data|]. intros t. apply calm_bind; [apply calm_getS|]. intros s.
  apply calm_bind; [apply known_mut|]. intros _. apply calm_bind.
  { apply calm_lift. case_match; [apply no_err_layout|done]. }
  intros ms. apply calm_bind; [|intros n; apply known_mut]. apply calm_lift. unfold get_torrent_size.
  case_match; [apply no_err_usum|done].
Qed.
(** Adding such a torrent panics, wherever its file was. *)
Lemma cut_torrent info dir s : cut_short info → (new_torrent to_string info dir s).1 = Panic.
Proof.
  intros Hc. unfold new_torrent. rewrite bind_action. unfold new_torrent_data, modifyS.
  set (s1 := with_disk _ s). assert (known (info_hash info) s1) as Hk by (eexists; simpl; apply lookup_insert_eq).
  revert s1 Hk. apply (calm_panics (known (info_hash info))); [apply known_cache|]. intros _.
  apply calm_panics; [case_decide; [apply known_pre_alloc|apply calm_ret]|]. intros _.
  apply panics_bind. intros s1 Hk. pose proof (cut_panics info Hc s1 Hk) as Hp.
  destruct (compute_downloaded_pieces info s1) as [[]]; done.
Qed.
Lemma cut_entry dir file s i meta :
  d_entries (disk s) !! file = Some i → from_bencode (inode (disk s) i) = Some meta →
  d_torrents (disk s) !! info_hash (mi_info meta) = None → cut_short (mi_info meta) →
  (add_entry to_string from_bencode dir file s).1 = Panic.
Proof.
  intros Hi Hm Ht Hc. unfold add_entry. rewrite bind_getS, Hi. simpl. rewrite Hm.
  assert (¬ is_Some (d_torrents (disk s) !! info_hash (mi_info meta))) as Hn by (rewrite Ht; by intros [? [=]]).
  assert (∀ p, calm (E:=Error) (λ s', d_torrents (disk s') !! info_hash (mi_info meta) = None) (rename file p)) as Hren.
  { intros p. apply calm_modifyS. intros s'. simpl. by case_match. }
  assert (panics (λ s', d_torrents (disk s') !! info_hash (mi_info meta) = None)
    ((if decide (dir = Queue) then move_metainfo_to_dir to_string (info_hash (mi_info meta)) Queue Incomplete else mret tt) ≫=
     fun _ => new_torrent to_string (mi_info meta) dir)) as Hnew.
  { apply calm_panics; [|intros _ s' _; by apply cut_torrent]. case_decide; [|apply calm_ret].
    apply calm_bind; [apply calm_getS|]. intros s'. apply calm_modifyS. intros s2. simpl. by case_match. }
  rewrite (decide_False (P := is_Some _)) by done. revert Ht. clear Hi.
  assert (panics (λ s', d_torrents (disk s') !! info_hash (mi_info meta) = None)
    ((if decide (dir = Queue) then rename file (path_push (path_parent file) (to_string (info_hash (mi_info meta))) ++ ascii ".torrent") else mret tt) ≫=
     fun _ => (if decide (dir = Queue) then move_metainfo_to_dir to_string (info_hash (mi_info meta)) Queue Incomplete else mret tt) ≫=
     fun _ => new_torrent to_string (mi_info meta) dir)) as Hall.
  { apply calm_panics; [case_decide; [apply Hren|apply calm_ret]|]. intros _. exact Hnew. }
  intros Ht. by apply Hall.
Qed.
Lemma forM_panics {A} (f : A → act unit) pre x post s s1 :
  forM f pre s = (Ok tt, s1) → (f x s1).1 = Panic → (forM f (pre ++ x :: post) s).1 = Panic.
Proof.
  revert s. induction pre as [|y pre IH]; intros s Hpre Hx; simpl in *.
  - injection Hpre as <-. rewrite bind_action. by destruct (f x s) as [[]].
  - rewrite bind_action in *. destruct (f y s) as [[[]| |] s']; [by apply IH|done|done].
Qed.
(** One file with such a torrent among those known at the start ends the disk
    before it takes a message, and one that is put among those to add ends it
    with the next tick, whatever else comes. *)
Theorem disk_broken_file dir pre file post i meta s s1 complete ws :
  (if decide (dir = Queue) then s else (make_dirs s).2) = s1 →
  ∀ s2, forM (add_entry to_string from_bencode dir) pre s1 = (Ok tt, s2) →
  d_entries (disk s2) !! file = Some i → from_bencode (inode (disk s2) i) = Some meta →
  d_torrents (disk s2) !! info_hash (mi_info meta) = None → cut_short (mi_info meta) →
  match dir with
  | Incomplete => (disk_run to_string from_bencode page (Some (pre ++ file :: post)) complete ws s).1 = Panic
  | Complete => True
  | Queue => (disk_loop to_string from_bencode page (DwHeartbeat (Some (pre ++ file :: post)) :: ws) s).1 = Panic
  end.
Proof.
  intros Hs1 s2 Hpre Hi Hm Ht Hc.
  pose proof (forM_panics _ pre file post _ _ Hpre (cut_entry dir file s2 i meta Hi Hm Ht Hc)) as Hp.
  clear Hpre Hi Hm Ht Hc. destruct dir; [done| |].
  - rewrite decide_False in Hs1 by done. unfold disk_run, disk_start. rewrite bind_action, bind_action.
    destruct (make_dirs s) as [[[]| |] s'] eqn:Hd; [|done..]. cbn [snd] in Hs1. subst s'.
    rewrite bind_action. unfold read_directory, read_metainfos_and_add. cbn [ok_or]. rewrite (bind_lift _ _ _ (pre ++ file :: post)) by done.
    by destruct (forM _ _ s1) as [[]].
  - rewrite decide_True in Hs1 by done. subst s1. cbn [disk_loop disk_wake]. rewrite bind_action, bind_action.
    unfold catch, read_directory, read_metainfos_and_add. cbn [ok_or]. rewrite (bind_lift _ _ _ (pre ++ file :: post)) by done.
    by destruct (forM _ _ s) as [[]].
Qed.
End broken.

(** ** A signal ends the daemon *)

Lemma signals_quit `{MagnetApi, BV : BitVecApi} signals :
  Forall (.∈ asked_signals) signals →
  handle_signals (fun _ => true) signals = (replicate (length (filter (.≠ SIGHUP) signals)) DaQuit, Ok tt).
Proof.
  induction 1 as [|x l Hx _ IH]; [done|]. unfold asked_signals in Hx. rewrite !elem_of_cons, elem_of_nil in Hx.
  destruct Hx as [->|[->|[->|[->|[]]]]]; cbn [handle_signals]; rewrite IH, ?filter_cons_True, ?filter_cons_False by (done || by intros []); done.
Qed.
