(* ===== verification/Main.v ===== *)
(** [vcz/src/main.rs] and [vcz-ui/src/main.rs]: the process that is daemon and
    frontend at once, and the one that is only a frontend.  Threads, channels and
    the installation of the log are the runtime's. *)
From S2P Require Import Prelude Errors Metainfo Floats Torrent DaemonWire Config Log Ui.

(** ** The log of [vcz] *)

(** [LogEnabledFilter::enabled]; the flag is set once from the configuration. *)
Definition log_enabled (LOG_ENABLED : bool) (level : Level) : bool :=
  if negb LOG_ENABLED then false else (verbosity level <=? verbosity LvInfo)%N.

Section processes.
Context `{Build, MA : MagnetApi} (char_width : N → N) (str_width : list N → N) (log10 : float → float).

(** ** [vcz] *)

(** What it starts with: the application, with the link of the command line in
    its channel *)
Definition vcz_app (c : ResolvedConfig) : outcome Error App :=
  match rc_magnet c with
  | Some magnet => m ← ok_or MagnetError (Magnet_new magnet); Ok (App_new false [AcNewTorrent m])
  | None => Ok (App_new false [])
  end.
(** How a task or the application has ended, if it has *)
Abbreviation ended E := (option (outcome E unit)).
(** [tokio::join!], of which only the end of the daemon is looked at; a panic of
    its task is an error, one of the application, which is of the main task, ends
    the process. *)
Definition vcz_join (daemon disk : ended Error) (app : ended UiError) : ended Error :=
  match daemon, disk, app with
  | _, _, Some Panic => Some Panic
  | Some d, Some _, Some _ => Some match d with Panic => Err JoinError | d => d end
  | _, _, _ => None
  end.
Definition vcz_main (loaded : outcome Error ResolvedConfig) (daemon disk : ended Error) (app : ended UiError) : ended Error :=
  match c ← loaded; vcz_app c with
  | Ok _ => vcz_join daemon disk app
  | Err e => Some (Err e)
  | Panic => Some Panic
  end.

(** ** [vcz-ui] *)

(** The run of an application: its connection, and then its loop *)
Definition app_run (fuel : nat) (tries : nat → bool) (es : list UiEvent) (a : App) : outcome UiError bool * App :=
  match app_connect tries with
  | Ok _ => ui_run char_width str_width log10 fuel es a
  | Err e => (Err e, a)
  | Panic => (Panic, a)
  end.
Definition ui_main (fuel : nat) (loaded : outcome Error ResolvedConfig) (tries : nat → bool) (es : list UiEvent)
    : outcome UiError bool * App :=
  match loaded with
  | Ok _ => app_run fuel tries es (App_new true [])
  | Err _ => (Err UeDaemon, App_new true [])
  | Panic => (Panic, App_new true [])
  end.

(** ** Facts *)

(** A link of the command line is the first thing the daemon is told, with the
    first thing the terminal sends, if that is a tick. *)
Theorem vcz_sends_link c text m now f fuel :
  rc_magnet c = Some text → Magnet_new text = Some m →
  ∃ a a', vcz_app c = Ok a ∧ app_turn char_width str_width log10 fuel now f AcRender a = (Ok false, a') ∧
    app_sent a' = [DmNewTorrent m].
Proof.
  intros Hc Hm. unfold vcz_app. rewrite Hc, Hm. simpl. eexists _, _. split_and!; [done| |].
  { unfold app_turn. simpl. reflexivity. }
  done.
Qed.
(** What the process comes to is the daemon's end, once all three ended, whatever
    the disk and the frontend ended with: a frontend that fails leaves it running,
    and its error is not shown. *)
Theorem vcz_ends c a daemon disk app :
  vcz_app c = Ok a → app ≠ Some Panic →
  vcz_main (Ok c) daemon disk app =
    (if decide (is_Some daemon ∧ is_Some disk ∧ is_Some app)
     then match daemon with Some Panic => Some (Err JoinError) | _ => daemon end
     else None).
Proof.
  intros Ha Hp. unfold vcz_main. simpl. rewrite Ha. unfold vcz_join.
  destruct app as [[[]| |]|]; [| |done|]; destruct daemon as [[]|], disk as [|]; case_decide as Hd; try done;
    try (exfalso; apply Hd; split_and!; by eexists); by destruct Hd as ([? [=]] & [? [=]] & [? [=]]).
Qed.
End processes.
